(** * sftpsync: one-way mirroring of a directory tree over SFTP

    A shallow embedding of [sftpsync/__init__.py] (class [SFTP]) and the
    properties of its synchronisation engine.

    - Paths are Python [str] values, modelled as [string]; the functions of
      [os.path] and the [str] methods the engine calls are written out.
    - Time stamps ([st_atime], [st_mtime]) are Python numbers: an [int] or a
      [float], a float being an IEEE 754 double with its rounding; [int(t)]
      is truncation towards zero.
    - The remote session ([paramiko.SFTPClient]) and the local operating
      system ([os]) are an interface, [Host]; the engine is written against
      that interface in a state-and-exception monad.
    - A generator consumed by a [for] loop is modelled as a fold: every
      [yield] runs the loop body on the current world, so that the laziness of
      the walkers (listing a directory only when the loop reaches it) is kept. *)

From Stdlib Require Import ZArith Lia Ascii String.
From stdpp Require Import base gmap strings list.

Local Open Scope string_scope.
Local Open Scope Z_scope.

(** ** Python [str] methods and [os.path] (posixpath) *)

Definition is_sep (c : ascii) : bool := Ascii.eqb c "/"%char.

(** [s.endswith('/')] *)
Fixpoint endswith_sep (s : string) : bool :=
  match s with
  | "" => false
  | String c s' => match s' with "" => is_sep c | _ => endswith_sep s' end
  end.

(** [s.startswith('/')] *)
Definition startswith_sep (s : string) : bool :=
  match s with
  | "" => false
  | String c _ => is_sep c
  end.

(** [s.rstrip('/')] *)
Fixpoint rstrip_sep (s : string) : string :=
  match s with
  | "" => ""
  | String c s' =>
      match rstrip_sep s' with
      | "" => if is_sep c then "" else String c ""
      | r => String c r
      end
  end.

(** ['/' in s] *)
Fixpoint has_sep (s : string) : bool :=
  match s with
  | "" => false
  | String c s' => is_sep c || has_sep s'
  end.

(** [s == '/' * len(s)] *)
Fixpoint all_sep (s : string) : bool :=
  match s with
  | "" => true
  | String c s' => is_sep c && all_sep s'
  end.

Module os_path.

(** [posixpath.join(a, b)] for two components. *)
Definition join (a b : string) : string :=
  if startswith_sep b then b
  else if String.eqb a "" || endswith_sep a then a +:+ b
  else a +:+ "/" +:+ b.

(** [p[:p.rfind('/') + 1]] *)
Fixpoint head (p : string) : string :=
  match p with
  | "" => ""
  | String c p' => if is_sep c || has_sep p' then String c (head p') else ""
  end.

(** [posixpath.basename(p)], that is [p[p.rfind('/') + 1:]] *)
Fixpoint basename (p : string) : string :=
  match p with
  | "" => ""
  | String c p' =>
      if has_sep p' then basename p' else if is_sep c then p' else p
  end.

(** [posixpath.dirname(p)] *)
Definition dirname (p : string) : string :=
  let h := head p in
  if negb (String.eqb h "") && negb (all_sep h) then rstrip_sep h else h.

End os_path.

(** [re.compile(r'^%s/' % re.escape(src)).sub('', file)]: the pattern is the
    escaped literal [src] followed by a separator and anchored at the start,
    so the substitution removes that prefix when [file] starts with it and
    leaves [file] unchanged otherwise. *)
Fixpoint strip_prefix (pre s : string) : option string :=
  match pre with
  | "" => Some s
  | String a pre' =>
      match s with
      | "" => None
      | String b s' => if Ascii.eqb a b then strip_prefix pre' s' else None
      end
  end.

Definition re_base_sub (src file : string) : string :=
  match strip_prefix (src +:+ "/") file with
  | Some rest => rest
  | None => file
  end.

(** ** Exceptions and results *)

Inductive exn : Type :=
| OSError (msg : string)          (* IOError is the same class in Python 3 *)
| KeyError (key : string)
| ValueError (arg : string)
| AttributeError (attr : string)
| OverflowError (msg : string)
| RecursionError
| MemoryError
| re_error (pat : string)
| SSHException (msg : string).

Definition is_IOError (e : exn) : bool :=
  match e with
  | OSError _ => true
  | _ => false
  end.

Inductive res (A : Type) : Type :=
| Ok (a : A)
| Raise (e : exn).
Arguments Ok {A} a.
Arguments Raise {A} e.

Definition is_ok {A} (r : res A) : bool :=
  match r with
  | Ok _ => true
  | Raise _ => false
  end.

(** The state-and-exception monad of the engine: a computation takes the
    world and returns a value or a raised exception, with the world it left. *)
Definition M (W A : Type) : Type := W -> res A * W.

Definition ret {W A} (a : A) : M W A := fun w => (Ok a, w).
Definition raise {W A} (e : exn) : M W A := fun w => (Raise e, w).
Definition bind {W A B} (m : M W A) (k : A -> M W B) : M W B :=
  fun w =>
    match m w with
    | (Ok a, w') => k a w'
    | (Raise e, w') => (Raise e, w')
    end.
(** A read of the world that changes nothing. *)
Definition read {W A} (f : W -> res A) : M W A := fun w => (f w, w).
Definition lift {W A} (r : res A) : M W A := fun w => (r, w).

Declare Scope M_scope.
Delimit Scope M_scope with M.
Notation "x <- m ;; k" := (bind m (fun x => k))
  (at level 100, m at next level, k at level 200, right associativity) : M_scope.
Notation "m ;;; k" := (bind m (fun _ => k))
  (at level 100, k at level 200, right associativity) : M_scope.

(** [for x in l: acc = body(x, acc)] *)
Fixpoint for_each {W A Acc} (l : list A) (body : A -> Acc -> M W Acc)
    (acc : Acc) : M W Acc :=
  match l with
  | [] => ret acc
  | x :: l' => (acc' <- body x acc ;; for_each l' body acc')%M
  end.

(** ** Numbers

    A time stamp is a Python [int] ([paramiko] decodes the 32-bit times of
    the SFTP protocol to [int]) or a [float] ([os.stat]).  A [float] is a
    finite IEEE 754 double: [m * 2^e] with [|m| < 2^53].  Arithmetic on
    floats is the exact operation followed by rounding to the nearest
    double, ties to the even mantissa.  Infinities and NaN, which no stat
    returns, are left out; the exponent is not bounded below (the engine
    only subtracts, and no difference of two doubles is rounded in the
    subnormal range). *)

Inductive num : Type :=
| PyInt (z : Z)
| PyFloat (m e : Z).

Coercion PyInt : Z >-> num.
Bind Scope Z_scope with num.

(** The dyadic number [m * 2^e], as the pair [(m, e)]. *)
Definition dyadic : Type := Z * Z.

(** Exact subtraction. *)
Definition dy_sub (a b : dyadic) : dyadic :=
  let e := Z.min (snd a) (snd b) in
  (fst a * 2 ^ (snd a - e) - fst b * 2 ^ (snd b - e), e).

Definition dy_abs (a : dyadic) : dyadic := (Z.abs (fst a), snd a).

(** [a > b], exact. *)
Definition dy_gtb (a b : dyadic) : bool := 0 <? fst (dy_sub a b).

(** [n / d] rounded to the nearest integer, ties to the even one
    ([0 <= n], [0 < d]). *)
Definition round_half_even (n d : Z) : Z :=
  let q := n / d in
  let r := n mod d in
  if 2 * r <? d then q
  else if d <? 2 * r then q + 1
  else if Z.even q then q else q + 1.

(** Rounding to 53 significant bits, ties to even: the mantissa of the
    result is below [2^53] in magnitude. *)
Definition round53 (a : dyadic) : dyadic :=
  let s := Z.log2 (Z.abs (fst a)) + 1 - 53 in
  if s <=? 0 then a
  else
    let q := round_half_even (Z.abs (fst a)) (2 ^ s) in
    if q =? 2 ^ 53 then (Z.sgn (fst a) * 2 ^ 52, snd a + s + 1)
    else (Z.sgn (fst a) * q, snd a + s).

(** The largest double, [(2^53 - 1) * 2^971]. *)
Definition max_double : dyadic := (2 ^ 53 - 1, 971).

(** The double that a pair names: [m * 2^e] itself when [|m| < 2^53] and
    the value is in the range of doubles, as for every double.  So that
    every value of the type names a double, a longer mantissa is rounded and
    a value beyond the largest double is taken for the largest double (the
    difference of two doubles that overflows is, in Python, an infinity: as
    the largest double, it is above every bound it is compared with). *)
Definition double_of (a : dyadic) : dyadic :=
  let r := round53 a in
  if dy_gtb (dy_abs r) max_double
  then (Z.sgn (fst r) * fst max_double, snd max_double)
  else r.

(** The exact value of a number. *)
Definition val (x : num) : dyadic :=
  match x with
  | PyInt z => (z, 0)
  | PyFloat m e => double_of (m, e)
  end.

(** [float(x)] as arithmetic between an [int] and a [float] applies it to
    the [int]: the nearest double, [OverflowError] when there is none. *)
Definition float_of (x : num) : res dyadic :=
  match x with
  | PyInt z =>
      let r := round53 (z, 0) in
      if dy_gtb (dy_abs r) max_double
      then Raise (OverflowError "int too large to convert to float")
      else Ok r
  | PyFloat m e => Ok (double_of (m, e))
  end.

(** [a - b]: exact on two [int]s, a float subtraction otherwise. *)
Definition py_sub (a b : num) : res num :=
  match a, b with
  | PyInt x, PyInt y => Ok (PyInt (x - y))
  | _, _ =>
      match float_of a with
      | Raise e => Raise e
      | Ok fa =>
          match float_of b with
          | Raise e => Raise e
          | Ok fb =>
              let r := round53 (dy_sub fa fb) in
              Ok (PyFloat (fst r) (snd r))
          end
      end
  end.

(** [abs(x)] *)
Definition py_abs (x : num) : num :=
  match x with
  | PyInt z => PyInt (Z.abs z)
  | PyFloat m e => PyFloat (Z.abs m) e
  end.

(** [a > b]: Python compares an [int] and a [float] by their exact
    values. *)
Definition py_gt (a b : num) : bool := dy_gtb (val a) (val b).

(** [int(t)]: truncation towards zero. *)
Definition int_of (t : num) : Z :=
  match t with
  | PyInt z => z
  | PyFloat m e =>
      let v := double_of (m, e) in
      if 0 <=? snd v then fst v * 2 ^ snd v
      else Z.quot (fst v) (2 ^ (- snd v))
  end.

(** [lo <= t < hi] *)
Definition in_range (lo hi : Z) (t : num) : bool :=
  negb (dy_gtb (lo, 0) (val t)) && dy_gtb (hi, 0) (val t).

(** The seconds that fit a 64-bit [time_t], those that [gmtime] of the C
    library converts (the year fits an [int]), and those of the years 1 to
    9999 of [datetime]. *)
Definition TIME_T_MIN : Z := - 2 ^ 63.
Definition TIME_T_END : Z := 2 ^ 63.
Definition GMTIME_MIN : Z := -67768040609740800.
Definition GMTIME_END : Z := 67767976233532800.
Definition DATETIME_MIN : Z := -62135596800.
Definition DATETIME_END : Z := 253402300800.

(** [datetime.utcfromtimestamp(t)] (CPython 3 on 64-bit Linux); only
    whether it returns matters, the [datetime] goes to the log. *)
Definition utcfromtimestamp (t : num) : res unit :=
  if negb (in_range TIME_T_MIN TIME_T_END t)
  then Raise (OverflowError "timestamp out of range for platform time_t")
  else if negb (in_range GMTIME_MIN GMTIME_END t)
  then Raise (OSError "Value too large for defined data type")
  else if negb (in_range DATETIME_MIN DATETIME_END t)
  then Raise (ValueError "year is out of range")
  else Ok tt.

Definition MTIME_TOLERANCE : num := PyInt 3.

(** [3 + 2^-52], half way between the double [3] and the next double. *)
Definition above3 : dyadic := (3 * 2 ^ 52 + 1, -52).

(** The integer [a / 2^e0], for [e0] at most the exponent of [a]. *)
Definition dy_scaled (a : dyadic) (e0 : Z) : Z := fst a * 2 ^ (snd a - e0).

(** ** Metadata *)

(** What [os.stat], [SFTPClient.lstat] and [SFTPClient.listdir_attr] return
    ([os.stat_result], [paramiko.SFTPAttributes]); [filename] is set by
    [listdir_attr] only. *)
Record stat_result : Type := mk_stat {
  filename : string;
  st_mode : Z;
  st_size : Z;
  st_atime : num;
  st_mtime : num
}.

(** [stat.S_ISDIR(mode)]: [S_IFMT(mode) == S_IFDIR] *)
Definition S_IFMT : Z := 61440.   (* 0o170000 *)
Definition S_IFDIR : Z := 16384.  (* 0o040000 *)
Definition S_IFREG : Z := 32768.  (* 0o100000 *)
Definition S_ISDIR (mode : Z) : bool := Z.land mode S_IFMT =? S_IFDIR.

(** ** Regular expressions ([re]) as an interface *)

Class Regex (pattern : Type) : Type := {
  re_compile : string -> res pattern;
  (** [p.search(s)] returns a match object or [None]; only its truth value
      is used. *)
  re_search : pattern -> string -> bool
}.

(** ** The two file systems as an interface

    [W] is the state of the world (both file systems).  Reads are functions
    of the world; operations that can change it are computations in [M W]. *)
Class Host (W : Type) : Type := {
  (* paramiko.SFTPClient *)
  sftp_lstat : string -> W -> res stat_result;
  sftp_listdir_attr : string -> W -> res (list stat_result);
  sftp_mkdir : string -> M W unit;
  sftp_put : string -> string -> M W unit;
  sftp_get : string -> string -> M W unit;
  sftp_utime : string -> Z * Z -> M W unit;
  sftp_remove : string -> M W unit;
  sftp_rmdir : string -> M W unit;
  (* os *)
  os_stat : string -> W -> res stat_result;
  (** [os.scandir(p)]: the names in [p], each with [entry.is_dir()] *)
  os_scandir : string -> W -> res (list (string * bool));
  os_makedirs : string -> M W unit;
  os_utime : string -> Z * Z -> M W unit;
  os_remove : string -> M W unit;
  os_rmdir : string -> M W unit
}.

(** [os.path.exists(p)] (genericpath): [os.stat(p)] does not fail. *)
Definition os_path_exists {W} `{Host W} (p : string) (w : W) : bool :=
  is_ok (os_stat p w).

(** ** The engine: filters, change detection, path translation *)

Section Filters.
Context {pattern : Type} `{Regex pattern}.

(** [_get_filters]: [filters] may be [None]. *)
Fixpoint compile_all (filters : list string) : res (list pattern) :=
  match filters with
  | [] => Ok []
  | f :: fs =>
      match re_compile f with
      | Raise e => Raise e
      | Ok p =>
          match compile_all fs with
          | Raise e => Raise e
          | Ok ps => Ok (p :: ps)
          end
      end
  end.

Definition _get_filters (filters : option (list string)) : res (list pattern) :=
  match filters with
  | None | Some [] => Ok []
  | Some fs => compile_all fs
  end.

(** Truth value of a list: [bool(l)] *)
Definition truthy {A} (l : list A) : bool :=
  match l with
  | [] => false
  | _ => true
  end.

Definition _validate_src (file : string) (includes excludes : list pattern) : bool :=
  negb (existsb (fun e => re_search e file) excludes)
  && (negb (truthy includes) || existsb (fun i => re_search i file) includes).

End Filters.

Section ChangeDetector.
Context {W : Type} `{Host W}.

(** Lines 160-166: the comparison once the destination's metadata is known.
    [src_stat] is [None] for the directories of a bottom-up remote walk;
    reading an attribute of [None] raises.  On a mismatch of the times the
    arguments of [logger.debug] are evaluated, the source's time first, and
    [datetime.utcfromtimestamp] raises on a time out of its range. *)
Definition compare_stat (dst_stat : stat_result) (src_stat : option stat_result)
    : res bool :=
  match src_stat with
  | None => Raise (AttributeError "st_mtime")
  | Some src_stat =>
      match py_sub (st_mtime dst_stat) (st_mtime src_stat) with
      | Raise e => Raise e
      | Ok d =>
          if py_gt (py_abs d) MTIME_TOLERANCE then
            match utcfromtimestamp (st_mtime src_stat) with
            | Raise e => Raise e
            | Ok _ =>
                match utcfromtimestamp (st_mtime dst_stat) with
                | Raise e => Raise e
                | Ok _ => Ok false
                end
            end
          else if negb (st_size dst_stat =? st_size src_stat) then Ok false
          else Ok true
      end
  end.

Definition _validate_dst (file : string) (src_stat : option stat_result)
    (remote : bool) (w : W) : res bool :=
  if remote then
    match sftp_lstat file w with
    | Raise _ => Ok false                       (* except Exception *)
    | Ok dst_stat => compare_stat dst_stat src_stat
    end
  else
    if negb (os_path_exists file w) then Ok false
    else
      match os_stat file w with
      | Raise e => Raise e
      | Ok dst_stat => compare_stat dst_stat src_stat
      end.


End ChangeDetector.

(** Lines 64-69 of [sync]: the root to walk, the prefix that [re_base]
    removes, and the effective destination root. *)
Definition sync_roots (src dst : string) : string * string * string :=
  let dst :=
    if negb (eqb (endswith_sep src) (endswith_sep dst))
    then os_path.join dst (os_path.basename (rstrip_sep src))
    else dst in
  let src := rstrip_sep src in
  let re_base := src in
  let src := if String.eqb src "" then "/" else src in
  (src, re_base, dst).

(** Lines 78 and 83: the destination path of a walked source path. *)
Definition dst_file_of (re_base dst src_file : string) : string :=
  os_path.join dst (re_base_sub re_base src_file).

(** ** The engine: walkers, directory creation, copy, deletion, [sync] *)

(** What a walker yields: [(kind, path, stat)], the kind a Python [str]. *)
Definition entry : Type := string * string * option stat_result.

Definition kind_of (e : entry) : string := fst (fst e).
Definition path_of (e : entry) : string := snd (fst e).

(** [x in l] on a list of strings *)
Definition in_list (x : string) (l : list string) : bool :=
  existsb (String.eqb x) l.

(** Attribute access on a stat that may be [None]. *)
Definition getattr {A} (f : stat_result -> A) (name : string)
    (st : option stat_result) : res A :=
  match st with
  | Some s => Ok (f s)
  | None => Raise (AttributeError name)
  end.

(** Lines 123-126: the loop [while path not in ('/', ''): paths.insert(0, path);
    path = os.path.dirname(path)].  [dirname] shortens every path except a
    run of two or more separators, on which the loop never ends and [paths]
    grows without bound; with [fuel] the length of the path, running out of
    fuel is that case. *)
Fixpoint parents (fuel : nat) (path : string) (paths : list string)
    : res (list string) :=
  if String.eqb path "/" || String.eqb path "" then Ok paths
  else
    match fuel with
    | O => Raise MemoryError
    | S fuel' => parents fuel' (os_path.dirname path) (path :: paths)
    end.

Section Engine.
Context {pattern : Type} `{Regex pattern} {W : Type} `{Host W}.

(** Lines 185-188: the listing of [path], empty when it raises [IOError]. *)
Definition listdir_or_empty (path : string) (w : W) : res (list stat_result) :=
  match sftp_listdir_attr path w with
  | Ok l => Ok l
  | Raise e => if is_IOError e then Ok [] else Raise e
  end.

(** Lines 190-199: the body of the loop over the listing; [recurse] is the
    recursive call [self._walk_remote(file, topdown=topdown)]. *)
Definition walk_remote_step {Acc} (recurse : string -> Acc -> M W Acc)
    (path : string) (topdown : bool) (body : entry -> Acc -> M W Acc)
    (stat : stat_result) (acc : Acc) : M W Acc :=
  let file := os_path.join path (filename stat) in
  if negb (S_ISDIR (st_mode stat)) then
    body ("file", file, Some stat) acc
  else if topdown then
    (acc <- body ("dir", file, Some stat) acc ;; recurse file acc)%M
  else
    (acc <- recurse file acc ;; body ("dir", file, None) acc)%M.

(** [_walk_remote]: [fuel] bounds the depth of the recursion (the
    interpreter's recursion limit); each [yield] is a call of [body]. *)
Fixpoint _walk_remote {Acc} (fuel : nat) (path : string) (topdown : bool)
    (body : entry -> Acc -> M W Acc) (acc : Acc) : M W Acc :=
  match fuel with
  | O => raise RecursionError
  | S fuel' =>
      (attributes <- read (listdir_or_empty path) ;;
       for_each attributes
         (walk_remote_step
            (fun file acc => _walk_remote fuel' file topdown body acc)
            path topdown body) acc)%M
  end.

(** [os.walk(top, topdown)] of the standard library, with its defaults
    ([onerror=None], [followlinks=False]): a directory that cannot be
    listed yields nothing; each [yield] of a triple [(root, dirs, files)]
    is a call of [body]. *)
Fixpoint os_walk {Acc} (fuel : nat) (top : string) (topdown : bool)
    (body : string * list string * list string -> Acc -> M W Acc)
    (acc : Acc) : M W Acc :=
  match fuel with
  | O => raise RecursionError
  | S fuel' =>
      fun w =>
        match os_scandir top w with
        | Raise e => if is_IOError e then (Ok acc, w) else (Raise e, w)
        | Ok entries =>
            let dirs := map fst (List.filter snd entries) in
            let nondirs := map fst (List.filter (fun e => negb (snd e)) entries) in
            let below acc :=
              for_each dirs (fun d acc =>
                os_walk fuel' (os_path.join top d) topdown body acc) acc in
            if topdown then
              (acc <- body (top, dirs, nondirs) acc ;; below acc)%M w
            else
              (acc <- below acc ;; body (top, dirs, nondirs) acc)%M w
        end
  end.

Definition _walk_local {Acc} (fuel : nat) (path : string) (topdown : bool)
    (body : entry -> Acc -> M W Acc) (acc : Acc) : M W Acc :=
  os_walk fuel path topdown (fun '(root, dirs, files) acc =>
    (acc <- for_each files (fun file acc =>
               let file := os_path.join root file in
               (st <- read (os_stat file) ;;
                body ("file", file, Some st) acc)) acc ;;
     for_each dirs (fun dir acc =>
       let dir := os_path.join root dir in
       (st <- read (os_stat dir) ;;
        body ("dir", dir, Some st) acc)) acc)%M) acc.

Definition _walk {Acc} (fuel : nat) (path : string) (topdown remote : bool)
    (body : entry -> Acc -> M W Acc) (acc : Acc) : M W Acc :=
  if remote then _walk_remote fuel path topdown body acc
  else _walk_local fuel path topdown body acc.

Definition _makedirs_dst (path : string) (remote dry : bool) : M W unit :=
  if remote then
    (paths <- lift (parents (String.length path) path []) ;;
     for_each paths (fun path _ w =>
       match sftp_lstat path w with
       | Ok _ => (Ok tt, w)
       | Raise _ => if negb dry then sftp_mkdir path w else (Ok tt, w)
       end) tt)%M
  else
    fun w =>
      if negb (os_path_exists path w) then
        if negb dry then os_makedirs path w else (Ok tt, w)
      else (Ok tt, w).

Definition _save (src dst : string) (src_stat : option stat_result)
    (remote : bool) : M W unit :=
  if remote then
    (sftp_put src dst ;;;
     a <- lift (getattr st_atime "st_atime" src_stat) ;;
     m <- lift (getattr st_mtime "st_mtime" src_stat) ;;
     sftp_utime dst (int_of a, int_of m))%M
  else
    (sftp_get src dst ;;;
     a <- lift (getattr st_atime "st_atime" src_stat) ;;
     m <- lift (getattr st_mtime "st_mtime" src_stat) ;;
     os_utime dst (int_of a, int_of m))%M.

(** Line 104-106: the removal callables by kind. *)
Definition callables (remote : bool) : gmap string (string -> M W unit) :=
  if remote then <["file" := sftp_remove]> (<["dir" := sftp_rmdir]> ∅)
  else <["file" := os_remove]> (<["dir" := os_rmdir]> ∅).

(** Lines 109-116: the body of the loop of [_delete_dst]. *)
Definition _delete_dst_body (remote dry : bool) (files : gmap string (list string))
    (e : entry) : M W unit :=
  let '(type, file, stat) := e in
  match files !! type with
  | None => raise (KeyError type)
  | Some l =>
      if negb (in_list file l) then
        if negb dry then
          fun w =>
            match callables remote !! type with
            | None => (Ok tt, w)            (* KeyError, caught *)
            | Some rm => (Ok tt, snd (rm file w))  (* failure caught *)
            end
        else ret tt
      else ret tt
  end.

Definition _delete_dst (fuel : nat) (path : string)
    (files : gmap string (list string)) (remote dry : bool) : M W unit :=
  _walk fuel path false remote
    (fun e _ => _delete_dst_body remote dry files e) tt.

(** Line 75: [{'file': [], 'dir': []}] *)
Definition dst_list0 : gmap string (list string) :=
  <["file" := []]> (<["dir" := []]> ∅).

(** Lines 78-95: the body of the loop of [sync]; the accumulator is
    [(total_size, dst_list)]. *)
Definition sync_body (re_base dst : string) (includes excludes : list pattern)
    (download dry : bool) (e : entry) (acc : Z * gmap string (list string))
    : M W (Z * gmap string (list string)) :=
  let '(src_type, src_file, src_stat) := e in
  let '(total_size, dst_list) := acc in
  let file_ := re_base_sub re_base src_file in
  if negb (_validate_src file_ includes excludes) then ret acc
  else
    let dst_file := os_path.join dst file_ in
    match dst_list !! src_type with
    | None => raise (KeyError src_type)
    | Some l =>
        let dst_list := <[src_type := (l ++ [dst_file])%list]> dst_list in
        if String.eqb src_type "dir" then
          (_makedirs_dst dst_file (negb download) dry ;;;
           ret (total_size, dst_list))%M
        else if String.eqb src_type "file" then
          (up <- read (_validate_dst dst_file src_stat (negb download)) ;;
           if negb up then
             ((if negb dry
               then _save src_file dst_file src_stat (negb download)
               else ret tt) ;;;
              size <- lift (getattr st_size "st_size" src_stat) ;;
              ret (total_size + size, dst_list))
           else ret (total_size, dst_list))%M
        else raise (ValueError src_type)
    end.

(** [sync].  The Python method returns nothing and logs [total_size]; here
    it returns [(total_size, dst_list)], the transfer statistics and the
    manifest it holds when it ends. *)
Definition sync (fuel : nat) (src dst : string) (download : bool)
    (includes excludes : option (list string)) (delete dry : bool)
    : M W (Z * gmap string (list string)) :=
  (includes <- lift (_get_filters includes) ;;
   excludes <- lift (_get_filters excludes) ;;
   let '(src, re_base, dst) := sync_roots src dst in
   _makedirs_dst dst (negb download) dry ;;;
   r <- _walk fuel src true download
          (sync_body re_base dst includes excludes download dry)
          (0, dst_list0) ;;
   (if delete then _delete_dst fuel dst (snd r) (negb download) dry
    else ret tt) ;;;
   ret r)%M.

End Engine.


(** ** A model of the two file systems

    An instance of [Host] on which the engine runs: each file system is a
    finite map from path to node.  A path is resolved after removing its
    trailing separators; ["/"] and [""] (the working directory) are
    directories that always exist.  The world also records every call of an
    operation that can change a file system, in order. *)

Record node : Type := mk_node {
  n_mode : Z;
  n_size : Z;
  n_atime : num;
  n_mtime : num
}.

Definition dir_node (t : num) : node := mk_node S_IFDIR 0 t t.
Definition file_node (size : Z) (t : num) : node := mk_node S_IFREG size t t.

Definition norm (p : string) : string :=
  let r := rstrip_sep p in
  if String.eqb r "" && negb (String.eqb p "") then "/" else r.

Definition implicit_dir (k : string) : bool :=
  String.eqb k "/" || String.eqb k "".

Definition fs_stat (fs : gmap string node) (p : string) : option node :=
  let k := norm p in
  if implicit_dir k then Some (dir_node 0) else fs !! k.

Definition fs_isdir (fs : gmap string node) (p : string) : bool :=
  match fs_stat fs p with
  | Some n => S_ISDIR (n_mode n)
  | None => false
  end.

(** What [os.path.join(path, name)] puts before a name that does not start
    with a separator. *)
Definition join_prefix (path : string) : string :=
  if String.eqb path "" || endswith_sep path then path else path +:+ "/".

Definition valid_name (name : string) : bool :=
  negb (String.eqb name "") && negb (has_sep name).

(** The children of [p] are the nodes whose key is [os.path.join(p, name)]
    for a valid file name. *)
Definition child_of (p : string) (kn : string * node) : option (string * node) :=
  match strip_prefix (join_prefix p) (fst kn) with
  | Some name => if valid_name name then Some (name, snd kn) else None
  | None => None
  end.

Definition fs_children (fs : gmap string node) (p : string)
    : list (string * node) :=
  omap (child_of p) (map_to_list fs).

Definition ENOENT : exn := OSError "No such file or directory".

Definition fs_listdir (fs : gmap string node) (p : string)
    : res (list (string * node)) :=
  if fs_isdir fs p then Ok (fs_children fs p) else Raise ENOENT.

Definition fs_mkdir (t : num) (p : string) (fs : gmap string node)
    : res unit * gmap string node :=
  match fs_stat fs p with
  | Some _ => (Raise (OSError "File exists"), fs)
  | None =>
      if fs_isdir fs (os_path.dirname (norm p))
      then (Ok tt, <[norm p := dir_node t]> fs)
      else (Raise ENOENT, fs)
  end.

(** Create or replace the regular file [p] with [size] bytes. *)
Definition fs_write (t : num) (p : string) (size : Z) (fs : gmap string node)
    : res unit * gmap string node :=
  match fs_stat fs p with
  | Some n =>
      if S_ISDIR (n_mode n) then (Raise (OSError "Is a directory"), fs)
      else (Ok tt, <[norm p := file_node size t]> fs)
  | None =>
      if fs_isdir fs (os_path.dirname (norm p))
      then (Ok tt, <[norm p := file_node size t]> fs)
      else (Raise ENOENT, fs)
  end.

Definition fs_utime (p : string) (times : Z * Z) (fs : gmap string node)
    : res unit * gmap string node :=
  match fs !! norm p with
  | Some n =>
      (Ok tt, <[norm p := mk_node (n_mode n) (n_size n)
                            (PyInt (fst times)) (PyInt (snd times))]> fs)
  | None => if implicit_dir (norm p) then (Ok tt, fs) else (Raise ENOENT, fs)
  end.

Definition fs_remove (p : string) (fs : gmap string node)
    : res unit * gmap string node :=
  match fs !! norm p with
  | Some n =>
      if S_ISDIR (n_mode n) then (Raise (OSError "Is a directory"), fs)
      else (Ok tt, delete (norm p) fs)
  | None => (Raise ENOENT, fs)
  end.

Definition fs_rmdir (p : string) (fs : gmap string node)
    : res unit * gmap string node :=
  match fs !! norm p with
  | Some n =>
      if negb (S_ISDIR (n_mode n)) then (Raise (OSError "Not a directory"), fs)
      else
        match fs_children fs p with
        | [] => (Ok tt, delete (norm p) fs)
        | _ => (Raise (OSError "Directory not empty"), fs)
        end
  | None => (Raise ENOENT, fs)
  end.

(** [os.makedirs(p)]: the missing ancestors are created from the top, then
    [p] itself, which must not exist. *)
Fixpoint fs_mkdirs (t : num) (paths : list string) (fs : gmap string node)
    : res unit * gmap string node :=
  match paths with
  | [] => (Ok tt, fs)
  | p :: ps =>
      match ps with
      | [] => fs_mkdir t p fs
      | _ =>
          match fs_stat fs p with
          | Some _ => fs_mkdirs t ps fs
          | None =>
              match fs_mkdir t p fs with
              | (Ok _, fs') => fs_mkdirs t ps fs'
              | (Raise e, fs') => (Raise e, fs')
              end
          end
      end
  end.

Definition fs_makedirs (t : num) (p : string) (fs : gmap string node)
    : res unit * gmap string node :=
  match parents (String.length (norm p)) (norm p) [] with
  | Ok ps => fs_mkdirs t ps fs
  | Raise e => (Raise e, fs)
  end.

Inductive call : Type :=
| call_sftp_mkdir (p : string)
| call_sftp_put (src dst : string)
| call_sftp_get (src dst : string)
| call_sftp_utime (p : string) (times : Z * Z)
| call_sftp_remove (p : string)
| call_sftp_rmdir (p : string)
| call_os_makedirs (p : string)
| call_os_utime (p : string) (times : Z * Z)
| call_os_remove (p : string)
| call_os_rmdir (p : string).

Record world : Type := mk_world {
  local_fs : gmap string node;
  remote_fs : gmap string node;
  now : num;
  calls : list call
}.

Definition stat_of (name : string) (n : node) : stat_result :=
  mk_stat name (n_mode n) (n_size n) (n_atime n) (n_mtime n).

Definition stat_in (fs : gmap string node) (p : string) : res stat_result :=
  match fs_stat fs p with
  | Some n => Ok (stat_of "" n)
  | None => Raise ENOENT
  end.

(** Run an operation on the remote (resp. local) file system, after
    recording the call. *)
Definition on_remote (c : call)
    (op : gmap string node -> res unit * gmap string node) : M world unit :=
  fun w =>
    let '(r, fs) := op (remote_fs w) in
    (r, mk_world (local_fs w) fs (now w) (calls w ++ [c])).

Definition on_local (c : call)
    (op : gmap string node -> res unit * gmap string node) : M world unit :=
  fun w =>
    let '(r, fs) := op (local_fs w) in
    (r, mk_world fs (remote_fs w) (now w) (calls w ++ [c])).

(** The size of the regular file [p], which a transfer reads. *)
Definition read_file (fs : gmap string node) (p : string) : res Z :=
  match fs_stat fs p with
  | Some n => if S_ISDIR (n_mode n) then Raise (OSError "Is a directory")
              else Ok (n_size n)
  | None => Raise ENOENT
  end.

Definition transfer (from : gmap string node) (t : num) (src dst : string)
    (fs : gmap string node) : res unit * gmap string node :=
  match read_file from src with
  | Ok size => fs_write t dst size fs
  | Raise e => (Raise e, fs)
  end.

#[export] Instance world_host : Host world := {|
  sftp_lstat p w := stat_in (remote_fs w) p;
  sftp_listdir_attr p w :=
    match fs_listdir (remote_fs w) p with
    | Ok l => Ok (map (fun kn => stat_of (fst kn) (snd kn)) l)
    | Raise e => Raise e
    end;
  sftp_mkdir p w := on_remote (call_sftp_mkdir p) (fs_mkdir (now w) p) w;
  sftp_put src dst w :=
    on_remote (call_sftp_put src dst) (transfer (local_fs w) (now w) src dst) w;
  sftp_get src dst w :=
    on_local (call_sftp_get src dst) (transfer (remote_fs w) (now w) src dst) w;
  sftp_utime p times := on_remote (call_sftp_utime p times) (fs_utime p times);
  sftp_remove p := on_remote (call_sftp_remove p) (fs_remove p);
  sftp_rmdir p := on_remote (call_sftp_rmdir p) (fs_rmdir p);
  os_stat p w := stat_in (local_fs w) p;
  os_scandir p w :=
    match fs_listdir (local_fs w) p with
    | Ok l => Ok (map (fun kn => (fst kn, S_ISDIR (n_mode (snd kn)))) l)
    | Raise e => Raise e
    end;
  os_makedirs p w := on_local (call_os_makedirs p) (fs_makedirs (now w) p) w;
  os_utime p times := on_local (call_os_utime p times) (fs_utime p times);
  os_remove p := on_local (call_os_remove p) (fs_remove p);
  os_rmdir p := on_local (call_os_rmdir p) (fs_rmdir p)
|}.

(** ** A model of a fragment of [re]

    Patterns made of literal characters, [\c] for a character that is not
    alphanumeric, [.], a postfix [*] on a single character, [^] and [$];
    every other metacharacter is refused by [re_compile] of this model. *)

Inductive atom : Type :=
| Lit (c : ascii)
| AnyChar.

Inductive item : Type :=
| One (a : atom)
| Star (a : atom)
| Bol
| Eol.

Inductive token : Type :=
| TAtom (a : atom)
| TStar
| TBol
| TEol.

Definition is_meta (c : ascii) : bool :=
  existsb (Ascii.eqb c) (list_ascii_of_string "+?[](){}|").

Definition is_alnum (c : ascii) : bool :=
  let n := nat_of_ascii c in
  ((48 <=? n) && (n <=? 57) || (65 <=? n) && (n <=? 90)
   || (97 <=? n) && (n <=? 122))%nat.

Fixpoint tokens (s : string) : res (list token) :=
  match s with
  | "" => Ok []
  | String c s' =>
      if Ascii.eqb c "\"%char then
        match s' with
        | "" => Raise (re_error "bad escape (end of pattern)")
        | String d s'' =>
            if is_alnum d then Raise (re_error "escape outside the fragment")
            else
              match tokens s'' with
              | Ok ts => Ok (TAtom (Lit d) :: ts)
              | Raise e => Raise e
              end
        end
      else if is_meta c then Raise (re_error "outside the fragment")
      else
        match tokens s' with
        | Ok ts =>
            Ok ((if Ascii.eqb c "."%char then TAtom AnyChar
                 else if Ascii.eqb c "*"%char then TStar
                 else if Ascii.eqb c "^"%char then TBol
                 else if Ascii.eqb c "$"%char then TEol
                 else TAtom (Lit c)) :: ts)
        | Raise e => Raise e
        end
  end.

Fixpoint items (ts : list token) : res (list item) :=
  match ts with
  | [] => Ok []
  | TAtom a :: ts' =>
      match ts' with
      | TStar :: ts'' =>
          match items ts'' with
          | Ok r => Ok (Star a :: r)
          | Raise e => Raise e
          end
      | _ =>
          match items ts' with
          | Ok r => Ok (One a :: r)
          | Raise e => Raise e
          end
      end
  | TStar :: _ => Raise (re_error "nothing to repeat")
  | TBol :: ts' =>
      match items ts' with
      | Ok r => Ok (Bol :: r)
      | Raise e => Raise e
      end
  | TEol :: ts' =>
      match items ts' with
      | Ok r => Ok (Eol :: r)
      | Raise e => Raise e
      end
  end.

Definition atom_ok (a : atom) (c : ascii) : bool :=
  match a with
  | Lit x => Ascii.eqb x c
  | AnyChar => negb (Ascii.eqb c "010"%char)
  end.

(** Does [re] match a prefix of [text]?  [bol] tells whether [text] starts
    at the beginning of the searched string. *)
Fixpoint match_here (re : list item) (bol : bool) (text : string) : bool :=
  match re with
  | [] => true
  | One a :: re' =>
      match text with
      | "" => false
      | String c t => atom_ok a c && match_here re' false t
      end
  | Star a :: re' =>
      (fix star (bol : bool) (t : string) : bool :=
         match_here re' bol t
         || match t with
            | "" => false
            | String c t' => atom_ok a c && star false t'
            end) bol text
  | Bol :: re' => bol && match_here re' bol text
  | Eol :: re' =>
      (String.eqb text "" || String.eqb text (String "010"%char ""))
      && match_here re' bol text
  end.

Fixpoint search_from (re : list item) (bol : bool) (text : string) : bool :=
  match_here re bol text
  || match text with
     | "" => false
     | String _ t => search_from re false t
     end.

#[export] Instance mini_re : Regex (list item) := {|
  re_compile s :=
    match tokens s with
    | Ok ts => items ts
    | Raise e => Raise e
    end;
  re_search p s := search_from p true s
|}.


(** ** Example worlds *)

(** A local tree [/a/b] holding one file, and an empty remote directory
    [/c/d]. *)
Definition ex_world : world :=
  mk_world
    (list_to_map [("/a", dir_node 5); ("/a/b", dir_node 5);
                  ("/a/b/x", file_node 10 (PyFloat 7 (-1)))])
    (list_to_map [("/c", dir_node 1); ("/c/d", dir_node 1)])
    1000 [].

(** The manifest of a run, as a list. *)
Definition manifest_of (r : res (Z * gmap string (list string)))
    : list (string * list string) :=
  match r with
  | Ok (_, m) => map_to_list m
  | Raise _ => []
  end.

(** The manifest has the two keys it is created with, and no other. *)
Definition two_keys (m : gmap string (list string)) : Prop :=
  forall k, is_Some (m !! k) <-> k = "file" \/ k = "dir".

(** ** Descendants and recorded yields *)

(** [p] is obtained from [root] by joining one name or more, each name
    satisfying [V]. *)
Inductive below_by (V : string -> Prop) (root : string) : string -> Prop :=
| below_child (name : string) :
    V name -> below_by V root (os_path.join root name)
| below_step (p name : string) :
    below_by V root p -> V name -> below_by V root (os_path.join p name).

(** [p] is a strict descendant of [root]: the names are valid file names. *)
Abbreviation below := (below_by (fun name => valid_name name = true)).

(** A loop body that also records, in order, the entries it is given. *)
Definition collect {W Acc : Type} (body : entry -> Acc -> M W Acc)
    (e : entry) (st : list entry * Acc) : M W (list entry * Acc) :=
  (acc' <- body e (snd st) ;; ret ((fst st ++ [e])%list, acc'))%M.

(** The part of the tree under the child [n] of [path]: the child itself
    and what lies inside it. *)
Definition sub (path n p : string) : Prop :=
  exists s, p = join_prefix path +:+ n +:+ s
            /\ (s = "" \/ startswith_sep s = true).

(** ** Reasoning about computations *)

(** What a walker knows of the stat that comes with a yielded path: the
    local walker of a download yields none. *)
Definition prov (Prov : string -> stat_result -> Prop) (p : string)
    (st : option stat_result) : Prop :=
  match st with
  | Some s => Prov p s
  | None => True
  end.

(** From a world satisfying [P], the computation [m] returns a value and a
    world satisfying [Q], or raises leaving a world satisfying [E]. *)
Definition triple {W A : Type} (P : W -> Prop) (m : M W A)
    (Q : A -> W -> Prop) (E : W -> Prop) : Prop :=
  forall w, P w ->
    match m w with
    | (Ok a, w') => Q a w'
    | (Raise _, w') => E w'
    end.

(** The computation never changes the world. *)
Definition unchanged {W A : Type} (m : M W A) : Prop :=
  forall w, snd (m w) = w.

(** The file system of the destination side. *)
Definition side (remote : bool) (w : world) : gmap string node :=
  if remote then remote_fs w else local_fs w.

(** The path a recorded call removes, if it is a removal. *)
Definition removal_target (c : call) : option string :=
  match c with
  | call_sftp_remove p | call_sftp_rmdir p
  | call_os_remove p | call_os_rmdir p => Some p
  | _ => None
  end.

(** Bottom-up order of a sequence of yields: an entry of kind ['dir']
    carries no stat and no later entry lies below it. *)
Fixpoint bottom_up (L : list entry) : Prop :=
  match L with
  | [] => True
  | e :: L' =>
      (kind_of e = "dir" ->
       snd e = None
       /\ Forall (fun e' => ~ below (path_of e) (path_of e')) L')
      /\ bottom_up L'
  end.

(** A listing has distinct names, each a valid file name. *)
Definition names_ok (names : list string) : Prop :=
  NoDup names /\ Forall (fun n => valid_name n = true) names.

(** Every listing of the host, in every world, is well formed. *)
Definition listings_ok (W : Type) `{Host W} : Prop :=
  (forall w p l, sftp_listdir_attr p w = Ok l -> names_ok (map filename l))
  /\ (forall w p l, os_scandir p w = Ok l -> names_ok (map fst l)).

(** The yields of a walk of [path]: strict descendants of [path], each path
    once, in bottom-up order when the walk is bottom-up. *)
Definition good_yields (topdown : bool) (path : string) (L : list entry)
    : Prop :=
  Forall (fun e => below path (path_of e)) L
  /\ NoDup (map path_of L)
  /\ (topdown = false -> bottom_up L).

(** Every entry of [L] is one of the children [names] of [path] or lies
    inside one. *)
Definition within (path : string) (names : list string) (L : list entry)
    : Prop :=
  Forall (fun e => exists n, n ∈ names /\ sub path n (path_of e)) L.

(** A remote directory [/c/d] whose only content is the directory [old]
    holding one file, none of them in the manifest. *)
Definition stale_world : world :=
  mk_world ∅
    (list_to_map [("/c", dir_node 1); ("/c/d", dir_node 1);
                  ("/c/d/old", dir_node 1); ("/c/d/old/f", file_node 4 1)])
    1000 [].

(** The loop body that does nothing: with [collect], a walk that only
    records its yields. *)
Definition idle {W : Type} (e : entry) (acc : unit) : M W unit := ret acc.

(** [f], a computation that only records yields in a world [w0] that it
    leaves alone, follows the computation [r] run in the worlds related to
    [w0] by [agree]: the yields [f] records are those on which [r] runs
    [body], and when [f] raises [r] raises. *)
Definition follows {W Acc : Type} (agree : W -> W -> Prop)
    (body : entry -> Acc -> M W Acc) (w0 : W)
    (f : list entry * unit -> M W (list entry * unit))
    (r : Acc -> M W Acc) : Prop :=
  forall log acc w, agree w w0 ->
    match f (log, tt) w0 with
    | (Ok (log', _), w0') =>
        w0' = w0
        /\ exists L, log' = (log ++ L)%list
                     /\ r acc w = for_each L body acc w
    | (Raise _, _) => is_ok (fst (r acc w)) = false
    end.

(** [f] is [r] with the yields recorded: the same world, the same value or
    exception, and a record that only grows. *)
Definition records {W Acc : Type}
    (f : list entry * Acc -> M W (list entry * Acc)) (r : Acc -> M W Acc)
    : Prop :=
  forall log acc w,
    match f (log, acc) w, r acc w with
    | (Ok (log', a1), w1), (Ok a2, w2) =>
        a1 = a2 /\ w1 = w2 /\ exists L, log' = (log ++ L)%list
    | (Raise x1, w1), (Raise x2, w2) => x1 = x2 /\ w1 = w2
    | _, _ => False
    end.

(** ** The deletion pass *)

(** Line 109: [file not in files[type]]. *)
Definition extraneous (files : gmap string (list string)) (e : entry) : bool :=
  match files !! kind_of e with
  | Some l => negb (in_list (path_of e) l)
  | None => false
  end.

(** Lines 112-116: the removal of one entry; the world it leaves, whether
    the removal succeeds or fails. *)
Definition remove_entry {W : Type} `{Host W} (remote : bool) (e : entry)
    (w : W) : W :=
  match callables remote !! kind_of e with
  | Some rm => snd (rm (path_of e) w)
  | None => w
  end.

(** A source [/a/b] with a file to keep, a file and a directory that the
    filters exclude, and a file inside the excluded directory; a destination
    [/c/d] that holds them all, and three files that the source does not
    have. *)
Definition delete_world : world :=
  mk_world
    (list_to_map [("/a", dir_node 5); ("/a/b", dir_node 5);
                  ("/a/b/keep.txt", file_node 10 50);
                  ("/a/b/skip.tmp", file_node 3 9);
                  ("/a/b/sub", dir_node 5);
                  ("/a/b/sub/k.txt", file_node 5 7)])
    (list_to_map [("/c", dir_node 1); ("/c/d", dir_node 1);
                  ("/c/d/keep.txt", file_node 10 50);
                  ("/c/d/skip.tmp", file_node 3 9);
                  ("/c/d/gone.txt", file_node 1 1);
                  ("/c/d/sub", dir_node 1);
                  ("/c/d/sub/k.txt", file_node 5 7);
                  ("/c/d/a0", file_node 1 1);
                  ("/c/d/zz", file_node 1 1)])
    1000 [].

(** ** Relative paths *)

(** A relative path [n1/n2/.../nk] of valid file names: what [re_base.sub]
    leaves of a walked path. *)
Inductive rel_path : string -> Prop :=
| rel_name (n : string) : valid_name n = true -> rel_path n
| rel_step (t n : string) :
    rel_path t -> valid_name n = true -> rel_path (t +:+ "/" +:+ n).

(** ** What the engine does to the model *)

(** The world [w] with the file system of one side replaced and calls
    recorded. *)
Definition put_side (remote : bool) (fs : gmap string node) (cs : list call)
    (w : world) : world :=
  if remote then mk_world (local_fs w) fs (now w) (calls w ++ cs)%list
  else mk_world fs (remote_fs w) (now w) (calls w ++ cs)%list.

(** From [fs] to [fs'], outside the keys [K], a node is what it was or is a
    directory that was not there. *)
Definition frame_except (K : string -> Prop) (fs fs' : gmap string node)
    : Prop :=
  forall k, ~ K k ->
    fs' !! k = fs !! k
    \/ (fs !! k = None /\ exists t, fs' !! k = Some (dir_node t)).

(** The state of the destination in which [_makedirs_dst path] has nothing
    to create. *)
Definition made (path : string) (remote : bool) (fs : gmap string node)
    : Prop :=
  if remote then
    exists ps, parents (String.length path) path [] = Ok ps
               /\ Forall (fun p => is_Some (fs_stat fs p)) ps
  else is_Some (fs_stat fs path).

(** The node that a copy of the source node [n] with stat [s] leaves. *)
Definition copied (n : node) (s : stat_result) : node :=
  mk_node S_IFREG (n_size n) (PyInt (int_of (st_atime s)))
    (PyInt (int_of (st_mtime s))).

(** ** The constructor: connecting with retries *)

(** How one pass through the [try] block of lines 37-40 ([client.connect],
    then [client.open_sftp]) ends: with a session, or with an exception,
    told apart by the [except] clause that catches it. *)
Inductive attempt (Sess : Type) : Type :=
| connected (session : Sess)
| auth_failure (msg : string)   (* BadHostKeyException, AuthenticationException *)
| timed_out (msg : string)      (* socket.timeout *)
| failed (msg : string).        (* any other Exception *)
Arguments connected {Sess} session.
Arguments auth_failure {Sess} msg.
Arguments timed_out {Sess} msg.
Arguments failed {Sess} msg.

(** The exceptions of lines 14-23, each with [str(e)]. *)
Inductive init_exn : Type :=
| AuthenticationError (msg : string)
| TimeoutError (msg : string)
| SSHError (msg : string).

(** How [__init__] ends: the object is built, with [self.sftp] a session or
    still [None], or an exception was raised. *)
Inductive init_result (Sess : Type) : Type :=
| built (sftp : option Sess)
| init_raise (e : init_exn).
Arguments built {Sess} sftp.
Arguments init_raise {Sess} e.

(** Lines 36-47, [for i in range(max_attempts)], from the iteration [i] on
    with [n] iterations left; [try i] is how the attempt of iteration [i]
    ends.  The result comes with the number of attempts made. *)
Fixpoint connect_loop {Sess : Type} (try : nat -> attempt Sess)
    (max_attempts : Z) (i n : nat) : init_result Sess * nat :=
  match n with
  | O => (built None, i)
  | S n' =>
      match try i with
      | connected session => (built (Some session), S i)
      | auth_failure msg => (init_raise (AuthenticationError msg), S i)
      | timed_out msg => (init_raise (TimeoutError msg), S i)
      | failed msg =>
          if Z.of_nat i =? max_attempts - 1
          then (init_raise (SSHError msg), S i)
          else connect_loop try max_attempts (S i) n'
      end
  end.

(** [SFTP.__init__]: [range(max_attempts)] is empty when [max_attempts] is
    not positive. *)
Definition __init__ {Sess : Type} (try : nat -> attempt Sess)
    (max_attempts : Z) : init_result Sess * nat :=
  connect_loop try max_attempts 0 (Z.to_nat max_attempts).

(** What an attempt that is not retried makes of [__init__]. *)
Definition outcome {Sess : Type} (a : attempt Sess) : init_result Sess :=
  match a with
  | connected session => built (Some session)
  | auth_failure msg => init_raise (AuthenticationError msg)
  | timed_out msg => init_raise (TimeoutError msg)
  | failed msg => init_raise (SSHError msg)
  end.

Definition is_failed {Sess : Type} (a : attempt Sess) : bool :=
  match a with
  | failed _ => true
  | _ => false
  end.

(** An example of attempts: two failures, then a session. *)
Definition third_time (i : nat) : attempt nat :=
  match i with
  | O => failed "reset"
  | S O => failed "refused"
  | _ => connected 7%nat
  end.

(** ** The loop over the ancestors of a destination path *)

(** [path.startswith('//')] *)
Definition double_sep (p : string) : bool :=
  match p with
  | String a (String b _) => is_sep a && is_sep b
  | _ => false
  end.

(** ** One-way transfers *)

(** The computation never changes the file system of side [r] of the
    model. *)
Definition keeps (r : bool) {A : Type} (m : M world A) : Prop :=
  forall w, side r (snd (m w)) = side r w.

(** The stat of the file of [ex_world], as its walker yields it. *)
Definition ex_stat : stat_result := stat_of "x" (file_node 10 (PyFloat 7 (-1))).

(** ** The manifest of a run *)

(** Lines 78-79: the filter decision on a walked entry. *)
Definition accepted {pattern : Type} `{Regex pattern} (re_base : string)
    (includes excludes : list pattern) (e : entry) : bool :=
  _validate_src (re_base_sub re_base (path_of e)) includes excludes.

(** The destination paths of the entries of kind [kind] of [L] that pass the
    filters, in the order of [L]. *)
Definition recorded {pattern : Type} `{Regex pattern} (re_base dst : string)
    (includes excludes : list pattern) (kind : string) (L : list entry)
    : list string :=
  map (fun e => dst_file_of re_base dst (path_of e))
    (List.filter (fun e => accepted re_base includes excludes e
                           && String.eqb (kind_of e) kind) L).

(** ** Running [sync] again *)

(** The stat [s] is that of the node of [p] in the file system [fs], the
    file name apart. *)
Definition stat_at (fs : gmap string node) (p : string) (s : stat_result)
    : Prop :=
  exists n name, fs_stat fs p = Some n /\ s = stat_of name n.

(** What a walker of the model yields from the source [fs] under [src]: a
    file or a directory, a strict descendant of [src], with the stat of its
    node when it comes with one. *)
Definition sound_entry (fs : gmap string node) (src : string) (e : entry)
    : Prop :=
  (kind_of e = "file" \/ kind_of e = "dir")
  /\ below src (path_of e)
  /\ prov (stat_at fs) (path_of e) (snd e).

(** The node [nd] is what a copy leaves at the key [k] of the destination:
    [k] is the destination path of a source path [p], and [nd] the copy of
    the node of [p]. *)
Definition copy_of (fs : gmap string node) (src re_base dst k : string)
    (nd : node) : Prop :=
  exists p n name,
    below src p /\ k = dst_file_of re_base dst p
    /\ fs !! p = Some n /\ nd = copied n (stat_of name n).

(** From the destination [d] to [d'], a node is kept as it is or replaced by
    a copy of the source file that goes there. *)
Definition settles (fs : gmap string node) (src re_base dst : string)
    (d d' : gmap string node) : Prop :=
  forall k n, d !! k = Some n ->
    d' !! k = Some n
    \/ exists nd, d' !! k = Some nd /\ copy_of fs src re_base dst k nd.

(** The entry [e] asks nothing of the destination [d]: the filters reject
    it, or it is a directory that [_makedirs_dst] finds made, or a file that
    [_validate_dst] finds up to date. *)
Definition settled {pattern : Type} `{Regex pattern} (re_base dst : string)
    (includes excludes : list pattern) (download : bool)
    (d : gmap string node) (e : entry) : Prop :=
  accepted re_base includes excludes e = false
  \/ (kind_of e = "dir"
      /\ made (dst_file_of re_base dst (path_of e)) (negb download) d)
  \/ (kind_of e = "file"
      /\ exists nd,
           fs_stat d (dst_file_of re_base dst (path_of e)) = Some nd
           /\ compare_stat (stat_of "" nd) (snd e) = Ok true).

(** Lines 79-84: what the body of the loop makes of the manifest. *)
Definition manifest_step {pattern : Type} `{Regex pattern}
    (re_base dst : string) (includes excludes : list pattern) (e : entry)
    (m : gmap string (list string)) : option (gmap string (list string)) :=
  if accepted re_base includes excludes e then
    match m !! kind_of e with
    | Some l =>
        Some (<[kind_of e :=
                  (l ++ [dst_file_of re_base dst (path_of e)])%list]> m)
    | None => None
    end
  else Some m.

(** ** The total of a dry run *)

(** Lines 79, 88 and 89 in the world [w]: the entry passes the filters, is a
    file, and [_validate_dst] does not find its destination up to date. *)
Definition pending {pattern : Type} `{Regex pattern} {W : Type} `{Host W}
    (re_base dst : string) (includes excludes : list pattern)
    (download : bool) (w : W) (e : entry) : bool :=
  accepted re_base includes excludes e
  && String.eqb (kind_of e) "file"
  && negb (match _validate_dst (dst_file_of re_base dst (path_of e)) (snd e)
                   (negb download) w with
           | Ok up => up
           | Raise _ => false
           end).

(** [src_stat.st_size] of an entry, 0 when it has no stat. *)
Definition size_of (e : entry) : Z :=
  match snd e with
  | Some s => st_size s
  | None => 0
  end.

(** The sizes of the entries of [L] that are pending in [w], added up in
    the order of [L]. *)
Definition pending_total {pattern : Type} `{Regex pattern} {W : Type}
    `{Host W} (re_base dst : string) (includes excludes : list pattern)
    (download : bool) (w : W) (L : list entry) : Z :=
  fold_left (fun t e =>
               if pending re_base dst includes excludes download w e
               then t + size_of e else t) L 0.

(** ** Order of the top-down walk *)

(** The entry [e] has its place after the entries [seen] of a top-down walk
    of [root]: it carries a stat, and its path is [os.path.join(d, name)]
    for a file name [name] and for [d] the root or the path of a directory
    entry among [seen]. *)
Definition placed (root : string) (seen : list entry) (e : entry) : Prop :=
  is_Some (snd e)
  /\ exists d name,
       valid_name name = true
       /\ path_of e = os_path.join d name
       /\ (d = root \/ exists st, ("dir", d, st) ∈ seen).

(** Every entry of [L] has its place after [seen] and those before it. *)
Fixpoint top_down (root : string) (seen L : list entry) : Prop :=
  match L with
  | [] => True
  | e :: L' => placed root seen e /\ top_down root (seen ++ [e]) L'
  end.

(** ** What a walk of the model reaches, and what the deletion pass leaves *)

(** The kind under which a walker yields the node [n]. *)
Definition kind_of_node (n : node) : string :=
  if S_ISDIR (n_mode n) then "dir" else "file".

(** A walk of [root] in [fs] reaches the path [k]: [root] is a directory,
    [k] is [root] joined with file names, and every path between the two is
    a directory of [fs]. *)
Inductive reach (fs : gmap string node) (root : string) : string -> Prop :=
| reach_child (name : string) :
    fs_isdir fs root = true -> valid_name name = true ->
    reach fs root (os_path.join root name)
| reach_step (d name : string) (n : node) :
    reach fs root d -> fs !! d = Some n -> S_ISDIR (n_mode n) = true ->
    valid_name name = true -> reach fs root (os_path.join d name).

(** Nothing is left in the directory [k]. *)
Definition emptied (fs : gmap string node) (k : string) : Prop :=
  forall name, valid_name name = true -> fs !! os_path.join k name = None.

(** The manifest [files] lists the path [k] under the kind of the node
    [n]. *)
Definition listed (files : gmap string (list string)) (n : node)
    (k : string) : Prop :=
  exists l, files !! kind_of_node n = Some l /\ k ∈ l.

(** Every ['dir'] entry of [L] comes after an entry for each node of [fs]
    that a walk of that directory reaches; [seen] are the entries that
    came before [L]. *)
Fixpoint subtree_first (fs : gmap string node) (seen L : list entry)
    : Prop :=
  match L with
  | [] => True
  | e :: L' =>
      (kind_of e = "dir" ->
       forall k n, reach fs (path_of e) k -> fs !! k = Some n ->
                   exists st, (kind_of_node n, k, st) ∈ seen)
      /\ subtree_first fs (seen ++ [e]) L'
  end.

(** The recursion limit [fuel] exceeds the length of every path of [fs]. *)
Definition shallow (fuel : nat) (fs : gmap string node) : bool :=
  (0 <? fuel)%nat
  && forallb (fun kn => (String.length (fst kn) <? fuel)%nat) (map_to_list fs).

(** [k] lies under [path]: in the part of the tree under one of its
    children. *)
Definition under (path k : string) : Prop :=
  exists name, valid_name name = true /\ sub path name k.

(** From [fs] to [fs'] nothing changes but for keys of [F] that are
    removed. *)
Definition touched_in (F : string -> Prop) (fs fs' : gmap string node)
    : Prop :=
  forall k, fs' !! k = fs !! k \/ (F k /\ fs' !! k = None).

(** What a bottom-up walk of [path] by the deletion pass makes of the file
    system [fs]: the entries [L] it gives to the loop and the file system
    [fs'] it leaves. *)
Record visited (dry : bool) (files : gmap string (list string))
    (path : string) (fs : gmap string node) (L : list entry)
    (fs' : gmap string node) : Prop := mk_visited {
  v_below : Forall (fun e => below path (path_of e)) L;
  v_complete :
    forall k n, reach fs path k -> fs !! k = Some n ->
                exists st, (kind_of_node n, k, st) ∈ L;
  v_first : subtree_first fs [] L;
  v_touched : touched_in (under path) fs fs';
  v_dry : dry = true -> fs' = fs;
  v_fate :
    dry = false ->
    forall k n, fs !! k = Some n ->
      (fs' !! k = None
       <-> reach fs path k /\ ~ listed files n k
           /\ (S_ISDIR (n_mode n) = true -> emptied fs' k))
}.

(** The recursion limit suffices for a walk of [path] in [fs]. *)
Definition deep (fuel : nat) (path : string) (fs : gmap string node)
    : Prop :=
  (0 < fuel)%nat
  /\ forall k, is_Some (fs !! k) -> below path k ->
               (String.length k < String.length path + fuel)%nat.

(** What one call of the loop body of the deletion pass on the node [nd] of
    the path [c] makes of the file system. *)
Definition removal (dry : bool) (files : gmap string (list string))
    (nd : node) (c : string) (fs fs' : gmap string node) : Prop :=
  touched_in (eq c) fs fs'
  /\ (dry = true -> fs' = fs)
  /\ (dry = false ->
      (fs' !! c = None
       <-> ~ listed files nd c
           /\ (S_ISDIR (n_mode nd) = true -> emptied fs' c))).

(** What the pass has made, in [fs'], of the part of [fs0] under the child
    [name] of [path]. *)
Definition child_fate (dry : bool) (files : gmap string (list string))
    (fs0 : gmap string node) (path name : string) (fs' : gmap string node)
    : Prop :=
  (dry = true -> forall k, sub path name k -> fs' !! k = fs0 !! k)
  /\ (dry = false ->
      forall k n, sub path name k -> fs0 !! k = Some n ->
        (fs' !! k = None
         <-> reach fs0 path k /\ ~ listed files n k
             /\ (S_ISDIR (n_mode n) = true -> emptied fs' k))).

(** The entries [L] that a bottom-up walk gives to the loop for the child
    [name] of [path], whose node in [fs0] is [nd]: the child and what a
    walk of it reaches, the child after its subtree. *)
Definition child_yields (fs0 : gmap string node) (path name : string)
    (nd : node) (L : list entry) : Prop :=
  Forall (fun e => below path (path_of e)) L
  /\ (exists st, (kind_of_node nd, os_path.join path name, st) ∈ L)
  /\ (forall k n, reach fs0 (os_path.join path name) k -> fs0 !! k = Some n ->
                  exists st, (kind_of_node n, k, st) ∈ L)
  /\ subtree_first fs0 [] L.

(** A local directory [/c/d] whose only content is the directory [old]
    holding one file, none of them in the manifest: the destination of a
    download from an empty remote directory. *)
Definition stale_local : world :=
  mk_world
    (list_to_map [("/c", dir_node 1); ("/c/d", dir_node 1);
                  ("/c/d/old", dir_node 1); ("/c/d/old/f", file_node 4 1)])
    (list_to_map [("/r", dir_node 1)])
    1000 [].

(** The manifest of [delete_world] after the copies of an upload that
    excludes [\.tmp$] and [^sub$]. *)
Definition delete_manifest : gmap string (list string) :=
  <["file" := ["/c/d/keep.txt"; "/c/d/sub/k.txt"]]> (<["dir" := []]> ∅).

(** ** Time stamps that arithmetic represents exactly *)







(** ** Running [sync] twice *)



(** * Properties *)

Local Open Scope list_scope.

(** ** Numbers: exact comparison and rounding *)

Lemma pow2_pos (k : Z) : 0 <= k -> 0 < 2 ^ k.
Proof. intros. apply Z.pow_pos_nonneg; lia. Qed.

Lemma pow2_split (a b : Z) : 0 <= a -> 0 <= b -> 2 ^ (a + b) = 2 ^ a * 2 ^ b.
Proof. intros. apply Z.pow_add_r; assumption. Qed.

Lemma dy_scaled_shift (a : dyadic) (e0 e1 : Z) :
  e1 <= e0 -> e0 <= snd a ->
  dy_scaled a e1 = dy_scaled a e0 * 2 ^ (e0 - e1).
Proof.
  intros H1 H2. unfold dy_scaled.
  replace (snd a - e1) with ((snd a - e0) + (e0 - e1)) by lia.
  rewrite pow2_split by lia. ring.
Qed.

Lemma dy_sub_scaled (a b : dyadic) (e0 : Z) :
  e0 <= snd a -> e0 <= snd b ->
  fst (dy_sub a b) * 2 ^ (Z.min (snd a) (snd b) - e0)
  = dy_scaled a e0 - dy_scaled b e0.
Proof.
  intros Ha Hb. unfold dy_sub. cbn [fst snd].
  set (e := Z.min (snd a) (snd b)).
  assert (He : e0 <= e) by (unfold e; lia).
  rewrite (dy_scaled_shift a e e0), (dy_scaled_shift b e e0)
    by (unfold e; lia).
  unfold dy_scaled. ring.
Qed.

Lemma dy_gtb_scaled (a b : dyadic) (e0 : Z) :
  e0 <= snd a -> e0 <= snd b ->
  dy_gtb a b = (dy_scaled b e0 <? dy_scaled a e0).
Proof.
  intros Ha Hb. unfold dy_gtb.
  pose proof (dy_sub_scaled a b e0 Ha Hb) as H.
  pose proof (pow2_pos (Z.min (snd a) (snd b) - e0) ltac:(lia)) as Hp.
  destruct (0 <? fst (dy_sub a b)) eqn:E1;
    destruct (dy_scaled b e0 <? dy_scaled a e0) eqn:E2; try reflexivity.
  - apply Z.ltb_lt in E1. apply Z.ltb_ge in E2. nia.
  - apply Z.ltb_ge in E1. apply Z.ltb_lt in E2. nia.
Qed.

Lemma dy_gtb_trans (a b c : dyadic) :
  dy_gtb a b = true -> dy_gtb b c = true -> dy_gtb a c = true.
Proof.
  set (e0 := Z.min (snd a) (Z.min (snd b) (snd c))).
  rewrite (dy_gtb_scaled a b e0), (dy_gtb_scaled b c e0),
    (dy_gtb_scaled a c e0) by (unfold e0; lia).
  rewrite !Z.ltb_lt. lia.
Qed.

(** rounding to the nearest integer, ties to even *)
Lemma rhe_cases (n d : Z) :
  0 < d ->
  let q := n / d in let r := n mod d in
  n = d * q + r /\ 0 <= r < d
  /\ ((2 * r < d /\ round_half_even n d = q)
      \/ (d < 2 * r /\ round_half_even n d = q + 1)
      \/ (2 * r = d /\ Z.even q = true /\ round_half_even n d = q)
      \/ (2 * r = d /\ Z.even q = false /\ round_half_even n d = q + 1)).
Proof.
  intros Hd q r. split; [apply Z.div_mod; lia|].
  split; [apply Z.mod_pos_bound; lia|].
  unfold round_half_even. fold q r.
  destruct (2 * r <? d) eqn:E1.
  { apply Z.ltb_lt in E1. auto. }
  apply Z.ltb_ge in E1.
  destruct (d <? 2 * r) eqn:E2.
  { apply Z.ltb_lt in E2. auto. }
  apply Z.ltb_ge in E2.
  destruct (Z.even q) eqn:E3; [right; right; left | right; right; right];
    repeat split; try lia; reflexivity.
Qed.

Lemma even_double (k : Z) : Z.even k = true -> exists j, k = 2 * j.
Proof. intros H. apply Z.even_spec in H. destruct H as [j ->]. eauto. Qed.

Lemma odd_double (k : Z) : Z.even k = false -> exists j, k = 2 * j + 1.
Proof.
  intros H. rewrite <- Z.negb_odd in H. apply negb_false_iff in H.
  apply Z.odd_spec in H. destruct H as [j ->]. eauto.
Qed.

Lemma rhe_threshold (n d K : Z) :
  0 < d -> Z.even K = true ->
  (K < round_half_even n d <-> (2 * K + 1) * d < 2 * n).
Proof.
  intros Hd HK. destruct (even_double K HK) as [j ->].
  destruct (rhe_cases n d Hd) as (Hn & Hr & Hc).
  set (q := n / d) in *. set (r := n mod d) in *.
  destruct Hc as [[H1 ->] | [[H1 ->] | [(H1 & H2 & ->) | (H1 & H2 & ->)]]].
  - split; intros; nia.
  - split; intros; nia.
  - destruct (even_double q H2) as [i Hi]. split; intros; nia.
  - destruct (odd_double q H2) as [i Hi]. split; intros; nia.
Qed.

Lemma rhe_bounds (n d : Z) :
  0 < d -> n / d <= round_half_even n d <= n / d + 1.
Proof.
  intros Hd. destruct (rhe_cases n d Hd) as (_ & _ & Hc).
  destruct Hc as [[_ ->] | [[_ ->] | [(_ & _ & ->) | (_ & _ & ->)]]]; lia.
Qed.

Lemma rhe_exact (n d : Z) :
  0 < d -> n mod d = 0 -> round_half_even n d = n / d.
Proof.
  intros Hd Hm. unfold round_half_even. rewrite Hm.
  destruct (2 * 0 <? d) eqn:E; [reflexivity|]. apply Z.ltb_ge in E. lia.
Qed.


Lemma pow2_le (a b : Z) : 0 <= a <= b -> 2 ^ a <= 2 ^ b.
Proof. intros. apply Z.pow_le_mono_r; lia. Qed.

Lemma pow2_succ (k : Z) : 0 <= k -> 2 ^ (k + 1) = 2 * 2 ^ k.
Proof. intros. rewrite pow2_split by lia. change (2 ^ 1) with 2. ring. Qed.

Lemma rhe_range (m s : Z) :
  1 <= s -> 2 ^ (s + 52) <= m < 2 ^ (s + 53) ->
  2 ^ 52 <= round_half_even m (2 ^ s) <= 2 ^ 53.
Proof.
  intros Hs [H1 H2].
  pose proof (pow2_pos s ltac:(lia)) as Hd.
  pose proof (rhe_bounds m (2 ^ s) Hd) as Hb.
  rewrite (Z.add_comm s 52), pow2_split in H1 by lia.
  rewrite (Z.add_comm s 53), pow2_split in H2 by lia.
  assert (2 ^ 52 <= m / 2 ^ s) by (apply Z.div_le_lower_bound; lia).
  assert (m / 2 ^ s < 2 ^ 53) by (apply Z.div_lt_upper_bound; lia).
  lia.
Qed.

(** The cases of [round53] on a non-negative mantissa. *)
Lemma round53_cases (m e : Z) :
  0 <= m ->
  (m < 2 ^ 53 /\ round53 (m, e) = (m, e))
  \/ (exists s, 1 <= s /\ 2 ^ (s + 52) <= m < 2 ^ (s + 53)
                /\ ((round_half_even m (2 ^ s) < 2 ^ 53
                     /\ round53 (m, e) = (round_half_even m (2 ^ s), e + s))
                    \/ (round_half_even m (2 ^ s) = 2 ^ 53
                        /\ round53 (m, e) = (2 ^ 52, e + s + 1)))).
Proof.
  intros Hm. unfold round53. cbn [fst snd]. rewrite (Z.abs_eq m Hm).
  destruct (Z.log2 m + 1 - 53 <=? 0) eqn:Es.
  - apply Z.leb_le in Es. left. split; [|reflexivity].
    destruct (Z.eq_dec m 0) as [->|Hn]; [reflexivity|].
    apply Z.log2_lt_pow2; lia.
  - apply Z.leb_gt in Es. right. exists (Z.log2 m + 1 - 53).
    assert (Hpos : 0 < m).
    { destruct (Z.eq_dec m 0) as [->|Hn]; [|lia]. simpl in Es. lia. }
    split; [lia|].
    assert (Hr : 2 ^ (Z.log2 m + 1 - 53 + 52) <= m
                 < 2 ^ (Z.log2 m + 1 - 53 + 53)).
    { pose proof (Z.log2_spec m Hpos) as [H1 H2].
      replace (Z.log2 m + 1 - 53 + 52) with (Z.log2 m) by lia.
      replace (Z.log2 m + 1 - 53 + 53) with (Z.succ (Z.log2 m)) by lia.
      lia. }
    split; [exact Hr|].
    rewrite (Z.sgn_pos m Hpos), !Z.mul_1_l.
    destruct (round_half_even m (2 ^ (Z.log2 m + 1 - 53)) =? 2 ^ 53) eqn:Eq.
    + apply Z.eqb_eq in Eq. right. auto.
    + apply Z.eqb_neq in Eq. left. split; [|reflexivity].
      pose proof (rhe_range m (Z.log2 m + 1 - 53) ltac:(lia) Hr). lia.
Qed.

(** A mantissa of [2^53] is [2^52] with the next exponent. *)
Lemma dy_gtb_carry (E : Z) (c : dyadic) :
  dy_gtb (2 ^ 52, E + 1) c = dy_gtb (2 ^ 53, E) c.
Proof.
  set (e0 := Z.min E (snd c)).
  rewrite (dy_gtb_scaled (2 ^ 52, E + 1) c e0),
    (dy_gtb_scaled (2 ^ 53, E) c e0) by (cbn [snd]; unfold e0; lia).
  unfold dy_scaled. cbn [fst snd].
  replace (E + 1 - e0) with ((E - e0) + 1) by lia.
  rewrite pow2_succ by (unfold e0; lia).
  change (2 ^ 53) with (2 ^ 52 * 2). f_equal. ring.
Qed.

(** A value rounds to a double above [3] exactly when it is above the
    midpoint: the midpoint itself rounds to [3], whose mantissa is even. *)
Lemma round53_above3 (m e : Z) :
  0 <= m ->
  dy_gtb (round53 (m, e)) (3, 0) = dy_gtb (m, e) above3.
Proof.
  intros Hm. unfold above3.
  assert (E52 : 2 ^ 52 = 4503599627370496) by reflexivity.
  assert (E53 : 2 ^ 53 = 9007199254740992) by reflexivity.
  assert (Hcarry : forall s, 1 <= s -> 2 ^ (s + 52) <= m < 2 ^ (s + 53) ->
            dy_gtb (round53 (m, e)) (3, 0)
            = dy_gtb (round_half_even m (2 ^ s), e + s) (3, 0)).
  { intros s Hs Hr.
    destruct (round53_cases m e Hm) as [[Hlt _] | (s' & Hs' & Hr' & Hc)].
    - exfalso. pose proof (pow2_le 53 (s + 52) ltac:(lia)). lia.
    - assert (s' = s).
      { destruct (Z.lt_trichotomy s' s) as [H | [H | H]]; [|exact H|]; exfalso.
        - pose proof (pow2_le (s' + 53) (s + 52) ltac:(lia)). lia.
        - pose proof (pow2_le (s + 53) (s' + 52) ltac:(lia)). lia. }
      subst s'. destruct Hc as [[_ ->] | [Hq ->]]; [reflexivity|].
      rewrite Hq. replace (e + s + 1) with ((e + s) + 1) by lia.
      apply dy_gtb_carry. }
  destruct (round53_cases m e Hm) as [[Hlt ->] | (s & Hs & [Hlo Hhi] & _)];
    [|rewrite (Hcarry s Hs (conj Hlo Hhi)); clear Hcarry].
  - (* no double lies between 3 and the midpoint *)
    rewrite E52, E53 in *.
    destruct (Z_le_gt_dec (-52) e) as [He | He].
    + rewrite (dy_gtb_scaled (m, e) (3, 0) (-52)),
        (dy_gtb_scaled (m, e) (_, -52) (-52)) by (cbn [snd]; lia).
      unfold dy_scaled. cbn [fst snd].
      replace (-52 - -52) with 0 by lia. replace (0 - -52) with 52 by lia.
      rewrite E52. change (2 ^ 0) with 1.
      destruct (Z.eq_dec e (-52)) as [-> | Hne].
      * change (2 ^ (-52 - -52)) with 1.
        destruct (_ <? _) eqn:E1, (_ <? _) eqn:E2; try reflexivity;
          rewrite ?Z.ltb_lt, ?Z.ltb_ge in *; lia.
      * replace (e - -52) with ((e + 51) + 1) by lia.
        rewrite pow2_succ by lia.
        pose proof (pow2_pos (e + 51) ltac:(lia)) as Hp.
        set (P := 2 ^ (e + 51)) in *.
        destruct (_ <? _) eqn:E1, (_ <? _) eqn:E2; try reflexivity;
          rewrite ?Z.ltb_lt, ?Z.ltb_ge in *; lia.
    + rewrite (dy_gtb_scaled (m, e) (3, 0) e),
        (dy_gtb_scaled (m, e) (_, -52) e) by (cbn [snd]; lia).
      unfold dy_scaled. cbn [fst snd].
      replace (e - e) with 0 by lia. change (2 ^ 0) with 1.
      replace (0 - e) with (52 + (-52 - e)) by lia.
      rewrite pow2_split by lia. rewrite E52.
      pose proof (pow2_pos (-52 - e) ltac:(lia)) as Hp.
      set (P := 2 ^ (-52 - e)) in *.
      destruct (_ <? _) eqn:E1, (_ <? _) eqn:E2; try reflexivity;
        rewrite ?Z.ltb_lt, ?Z.ltb_ge in *; nia.
  - pose proof (rhe_range m s Hs (conj Hlo Hhi)) as [Hq1 Hq2].
    pose proof (pow2_pos s ltac:(lia)) as Hd.
    set (q := round_half_even m (2 ^ s)) in *.
    rewrite (Z.add_comm s 52), pow2_split in Hlo by lia.
    rewrite (Z.add_comm s 53), pow2_split in Hhi by lia.
    rewrite E52 in *. rewrite E53 in *.
    destruct (Z_le_gt_dec (-50) (e + s)) as [HE | HE].
    { (* both at least 4 *)
      rewrite (dy_gtb_scaled (q, e + s) (3, 0) (-50)) by (cbn [snd]; lia).
      unfold dy_scaled at 1 2. cbn [fst snd].
      replace (0 - -50) with 50 by lia.
      pose proof (pow2_pos (e + s - -50) ltac:(lia)) as Hp.
      assert (E50 : 2 ^ 50 = 1125899906842624) by reflexivity.
      rewrite E50.
      assert (H1 : (3 * 1125899906842624 <? q * 2 ^ (e + s - -50)) = true)
        by (apply Z.ltb_lt; nia).
      rewrite H1. symmetry.
      destruct (Z_le_gt_dec (-52) e) as [He | He].
      - rewrite (dy_gtb_scaled (m, e) (_, -52) (-52)) by (cbn [snd]; lia).
        unfold dy_scaled. cbn [fst snd].
        replace (-52 - -52) with 0 by lia. change (2 ^ 0) with 1.
        pose proof (pow2_pos (e - -52) ltac:(lia)) as Hp2.
        pose proof (pow2_le 2 (s + (e - -52)) ltac:(lia)) as Hs2.
        change (2 ^ 2) with 4 in Hs2. rewrite pow2_split in Hs2 by lia.
        apply Z.ltb_lt. nia.
      - rewrite (dy_gtb_scaled (m, e) (_, -52) e) by (cbn [snd]; lia).
        unfold dy_scaled. cbn [fst snd].
        replace (e - e) with 0 by lia. change (2 ^ 0) with 1.
        assert (Hss : 2 ^ s >= 4 * 2 ^ (-52 - e)).
        { replace s with ((-52 - e) + (s + 52 + e)) at 1 by lia.
          rewrite pow2_split by lia.
          pose proof (pow2_le 2 (s + 52 + e) ltac:(lia)) as H2.
          change (2 ^ 2) with 4 in H2.
          pose proof (pow2_pos (-52 - e) ltac:(lia)). nia. }
        pose proof (pow2_pos (-52 - e) ltac:(lia)) as Hp2.
        apply Z.ltb_lt. nia. }
    destruct (Z.eq_dec (e + s) (-51)) as [HE' | HE'].
    { (* the binade of 3: the tie goes to the even mantissa *)
      rewrite HE'.
      rewrite (dy_gtb_scaled (q, -51) (3, 0) (-51)) by (cbn [snd]; lia).
      rewrite (dy_gtb_scaled (m, e) (_, -52) e) by (cbn [snd]; lia).
      unfold dy_scaled. cbn [fst snd].
      replace (-51 - -51) with 0 by lia. replace (e - e) with 0 by lia.
      change (2 ^ 0) with 1. replace (0 - -51) with 51 by lia.
      replace (-52 - e) with (s - 1) by lia.
      assert (E51 : 2 ^ 51 = 2251799813685248) by reflexivity.
      rewrite E51.
      assert (Hsp : 2 ^ s = 2 * 2 ^ (s - 1)).
      { replace s with ((s - 1) + 1) at 1 by lia. apply pow2_succ. lia. }
      pose proof (rhe_threshold m (2 ^ s) (3 * 2251799813685248) Hd eq_refl)
        as Ht. fold q in Ht.
      destruct (_ <? _) eqn:E1, (_ <? _) eqn:E2; try reflexivity;
        rewrite ?Z.ltb_lt, ?Z.ltb_ge in *; lia. }
    (* both at most 2 *)
    assert (HE2 : e + s <= -52) by lia.
    rewrite (dy_gtb_scaled (q, e + s) (3, 0) (e + s)) by (cbn [snd]; lia).
    rewrite (dy_gtb_scaled (m, e) (_, -52) e) by (cbn [snd]; lia).
    unfold dy_scaled. cbn [fst snd].
    replace (e + s - (e + s)) with 0 by lia. replace (e - e) with 0 by lia.
    change (2 ^ 0) with 1.
    replace (0 - (e + s)) with (52 + (-52 - (e + s))) by lia.
    rewrite pow2_split by lia. rewrite E52.
    replace (-52 - e) with (s + (-52 - (e + s))) by lia.
    rewrite pow2_split by lia.
    pose proof (pow2_pos (-52 - (e + s)) ltac:(lia)) as Hp.
    set (P := 2 ^ (-52 - (e + s))) in *. set (D := 2 ^ s) in *.
    assert (H1 : (3 * (4503599627370496 * P) <? q * 1) = false)
      by (apply Z.ltb_ge; nia).
    assert (H2 : ((3 * 4503599627370496 + 1) * (D * P) <? m * 1) = false)
      by (apply Z.ltb_ge; nia).
    rewrite H1, H2. reflexivity.
Qed.


Lemma round53_abs (a : dyadic) : dy_abs (round53 a) = round53 (dy_abs a).
Proof.
  destruct a as [m e]. unfold round53, dy_abs. cbn [fst snd].
  rewrite Z.abs_idemp.
  destruct (Z.log2 (Z.abs m) + 1 - 53 <=? 0) eqn:Es; [reflexivity|].
  apply Z.leb_gt in Es.
  assert (Hm : m <> 0) by (intros ->; simpl in Es; lia).
  assert (Hs : Z.sgn (Z.abs m) = 1) by (apply Z.sgn_pos; lia).
  rewrite Hs, !Z.mul_1_l.
  set (s := Z.log2 (Z.abs m) + 1 - 53) in *.
  assert (Hq : 0 <= round_half_even (Z.abs m) (2 ^ s)).
  { pose proof (rhe_bounds (Z.abs m) (2 ^ s) (pow2_pos s ltac:(lia))).
    pose proof (Z.div_pos (Z.abs m) (2 ^ s) ltac:(lia)
                  (pow2_pos s ltac:(lia))). lia. }
  assert (Hsg : forall X, 0 <= X -> Z.abs (Z.sgn m * X) = X).
  { intros X HX. destruct (Z.lt_trichotomy m 0) as [H | [H | H]]; [|lia|].
    - rewrite (Z.sgn_neg m H). lia.
    - rewrite (Z.sgn_pos m H). lia. }
  destruct (round_half_even (Z.abs m) (2 ^ s) =? 2 ^ 53); cbn [fst snd];
    f_equal; apply Hsg; [vm_compute; discriminate | exact Hq].
Qed.

Lemma round53_mantissa (a : dyadic) : Z.abs (fst (round53 a)) < 2 ^ 53.
Proof.
  change (Z.abs (fst (round53 a))) with (fst (dy_abs (round53 a))).
  rewrite round53_abs. destruct a as [m e]. unfold dy_abs. cbn [fst snd].
  destruct (round53_cases (Z.abs m) e (Z.abs_nonneg m))
    as [[Hlt ->] | (s & Hs & Hr & [[Hq ->] | [Hq ->]])]; cbn [fst].
  - exact Hlt.
  - exact Hq.
  - reflexivity.
Qed.

Lemma round53_small (a : dyadic) : Z.abs (fst a) < 2 ^ 53 -> round53 a = a.
Proof.
  intros H. unfold round53.
  assert (Hs : Z.log2 (Z.abs (fst a)) + 1 - 53 <= 0).
  { destruct (Z.eq_dec (Z.abs (fst a)) 0) as [-> | Hn]; [simpl; lia|].
    assert (Z.log2 (Z.abs (fst a)) < 53) by (apply Z.log2_lt_pow2; lia).
    lia. }
  apply Z.leb_le in Hs. rewrite Hs. reflexivity.
Qed.

Lemma round53_idem (a : dyadic) : round53 (round53 a) = round53 a.
Proof. apply round53_small, round53_mantissa. Qed.

Lemma round53_nonneg (a : dyadic) : 0 <= fst a -> 0 <= fst (round53 a).
Proof.
  intros H. pose proof (round53_abs a) as Ha.
  assert (Hd : dy_abs a = a).
  { destruct a as [m e]. unfold dy_abs. cbn [fst snd] in *.
    rewrite Z.abs_eq by lia. reflexivity. }
  rewrite Hd in Ha. rewrite <- Ha. unfold dy_abs. cbn [fst].
  apply Z.abs_nonneg.
Qed.

Lemma dy_abs_nonneg (a : dyadic) : 0 <= fst a -> dy_abs a = a.
Proof.
  destruct a as [m e]. unfold dy_abs. cbn [fst snd]. intros H.
  rewrite Z.abs_eq by lia. reflexivity.
Qed.

Lemma dy_gtb_le (a b : dyadic) : fst a <= 0 -> 0 <= fst b -> dy_gtb a b = false.
Proof.
  intros Ha Hb. set (e0 := Z.min (snd a) (snd b)).
  rewrite (dy_gtb_scaled a b e0) by (unfold e0; lia).
  unfold dy_scaled. apply Z.ltb_ge.
  pose proof (pow2_pos (snd a - e0) ltac:(unfold e0; lia)).
  pose proof (pow2_pos (snd b - e0) ltac:(unfold e0; lia)). nia.
Qed.

Lemma dy_gtb_irrefl (a : dyadic) : dy_gtb a a = false.
Proof.
  rewrite (dy_gtb_scaled a a (snd a)) by lia. apply Z.ltb_irrefl.
Qed.

(** What [double_of] returns is a double. *)
Lemma double_of_spec (a : dyadic) :
  Z.abs (fst (double_of a)) < 2 ^ 53
  /\ dy_gtb (dy_abs (double_of a)) max_double = false.
Proof.
  unfold double_of.
  destruct (dy_gtb (dy_abs (round53 a)) max_double) eqn:E.
  - assert (Hn : fst (round53 a) <> 0).
    { intros H0. rewrite (dy_gtb_le (dy_abs (round53 a)) max_double) in E;
        [discriminate | | ].
      - unfold dy_abs. cbn [fst]. rewrite H0. simpl. lia.
      - vm_compute. discriminate. }
    assert (Hs : Z.abs (Z.sgn (fst (round53 a)) * fst max_double)
                 = fst max_double).
    { assert (HM : 0 <= fst max_double) by (vm_compute; discriminate).
      destruct (Z.lt_trichotomy (fst (round53 a)) 0) as [H | [H | H]];
        [|lia|].
      - rewrite (Z.sgn_neg _ H). lia.
      - rewrite (Z.sgn_pos _ H). lia. }
    unfold dy_abs. cbn [fst snd]. rewrite Hs. split.
    + vm_compute. reflexivity.
    + apply dy_gtb_irrefl.
  - split; [apply round53_mantissa | exact E].
Qed.

(** The comparison of [abs(a - b)] with the tolerance, for a float
    subtraction whose exact result is [x]: the computed difference is above
    3 exactly when the exact one is above [3 + 2^-52]. *)
Lemma float_above_tolerance (x : dyadic) :
  dy_gtb (double_of (dy_abs (round53 x))) (3, 0)
  = dy_gtb (dy_abs x) above3.
Proof.
  rewrite round53_abs.
  set (y := dy_abs x).
  assert (Hy : 0 <= fst y) by apply Z.abs_nonneg.
  pose proof (round53_above3 (fst y) (snd y) Hy) as H3.
  rewrite <- surjective_pairing in H3. rewrite <- H3.
  unfold double_of. rewrite round53_idem.
  pose proof (round53_nonneg y Hy) as Hr.
  rewrite (dy_abs_nonneg _ Hr).
  destruct (dy_gtb (round53 y) max_double) eqn:E; [|reflexivity].
  assert (Hpos : 0 < fst (round53 y)).
  { destruct (Z.eq_dec (fst (round53 y)) 0) as [H0 | H0]; [|lia].
    rewrite (dy_gtb_le (round53 y) max_double) in E; [discriminate | lia |].
    vm_compute. discriminate. }
  rewrite (Z.sgn_pos _ Hpos), Z.mul_1_l.
  rewrite (dy_gtb_trans (round53 y) max_double (3, 0) E eq_refl).
  reflexivity.
Qed.


Lemma pow2_lt_inv (a b : Z) : 0 <= a -> 0 <= b -> 2 ^ a < 2 ^ b -> a < b.
Proof.
  intros Ha Hb H. destruct (Z_lt_le_dec a b) as [|Hle]; [assumption|].
  pose proof (pow2_le b a ltac:(lia)). lia.
Qed.

(** An integer with at most 53 significant bits is a double. *)
Lemma round53_int_exact (q E : Z) :
  0 <= q < 2 ^ 53 -> 0 <= E ->
  0 <= snd (round53 (q * 2 ^ E, 0))
  /\ fst (round53 (q * 2 ^ E, 0)) * 2 ^ snd (round53 (q * 2 ^ E, 0))
     = q * 2 ^ E.
Proof.
  intros [Hq0 Hq] HE.
  pose proof (pow2_pos E HE) as HpE.
  assert (Hz : 0 <= q * 2 ^ E) by nia.
  destruct (round53_cases (q * 2 ^ E) 0 Hz)
    as [[_ ->] | (s & Hs & [Hlo Hhi] & Hc)].
  { cbn [fst snd]. change (2 ^ 0) with 1. lia. }
  assert (HsE : s <= E).
  { assert (2 ^ (s + 52) < 2 ^ (53 + E)).
    { rewrite (pow2_split 53 E) by lia. nia. }
    pose proof (pow2_lt_inv (s + 52) (53 + E) ltac:(lia) ltac:(lia) H). lia. }
  pose proof (pow2_pos s ltac:(lia)) as Hps.
  assert (Hsplit : q * 2 ^ E = (q * 2 ^ (E - s)) * 2 ^ s).
  { replace E with ((E - s) + s) at 1 by lia. rewrite pow2_split by lia. ring. }
  assert (Hr : round_half_even (q * 2 ^ E) (2 ^ s) = q * 2 ^ (E - s)).
  { rewrite rhe_exact; [| lia |].
    - rewrite Hsplit. apply Z.div_mul. lia.
    - rewrite Hsplit. apply Z.mod_mul. lia. }
  rewrite Hr in Hc.
  destruct Hc as [[_ ->] | [Hq53 _]].
  - cbn [fst snd]. split; [lia|]. replace (0 + s) with s by lia.
    symmetry. exact Hsplit.
  - exfalso. rewrite (Z.add_comm s 53), pow2_split in Hhi by lia.
    rewrite Hsplit, Hq53 in Hhi. lia.
Qed.

Lemma round53_opp (m e : Z) :
  round53 (- m, e) = (- fst (round53 (m, e)), snd (round53 (m, e))).
Proof.
  unfold round53. cbn [fst snd]. rewrite Z.abs_opp, Z.sgn_opp.
  destruct (Z.log2 (Z.abs m) + 1 - 53 <=? 0); [reflexivity|].
  destruct (round_half_even (Z.abs m) _ =? 2 ^ 53); cbn [fst snd];
    f_equal; ring.
Qed.

Lemma round53_int_value (q E : Z) :
  Z.abs q < 2 ^ 53 -> 0 <= E ->
  0 <= snd (round53 (q * 2 ^ E, 0))
  /\ fst (round53 (q * 2 ^ E, 0)) * 2 ^ snd (round53 (q * 2 ^ E, 0))
     = q * 2 ^ E.
Proof.
  intros Hq HE. destruct (Z_le_gt_dec 0 q) as [H | H].
  - apply round53_int_exact; lia.
  - replace (q * 2 ^ E) with (- ((- q) * 2 ^ E)) by ring.
    rewrite round53_opp. cbn [fst snd].
    destruct (round53_int_exact (- q) E ltac:(lia) HE) as [H1 H2].
    split; [exact H1|]. rewrite Z.mul_opp_l, H2. reflexivity.
Qed.

(** [int(t)] is within the tolerance of [t]: what [abs(int(t) - t) > 3]
    computes is false, and the subtraction does not raise. *)
Lemma int_of_close (t : num) :
  exists d, py_sub (PyInt (int_of t)) t = Ok d
            /\ py_gt (py_abs d) MTIME_TOLERANCE = false.
Proof.
  destruct t as [z | m e].
  { exists (PyInt 0). cbn [int_of py_sub]. rewrite Z.sub_diag.
    split; reflexivity. }
  cbn [int_of py_sub float_of].
  destruct (double_of_spec (m, e)) as [Hq Hmax].
  set (v := double_of (m, e)) in *.
  set (z := if 0 <=? snd v then fst v * 2 ^ snd v
            else fst v ÷ 2 ^ (- snd v)).
  assert (Hgoal : dy_gtb (dy_abs (round53 (z, 0))) max_double = false
                  /\ dy_gtb (dy_abs (dy_sub (round53 (z, 0)) v)) above3
                     = false).
  { unfold z. destruct (0 <=? snd v) eqn:EE.
    - apply Z.leb_le in EE.
      destruct (round53_int_value (fst v) (snd v) Hq EE) as [Hs Hv].
      set (r := round53 (fst v * 2 ^ snd v, 0)) in *.
      split.
      + rewrite (dy_gtb_scaled (dy_abs r) max_double 0)
          by (cbn [snd dy_abs max_double]; lia).
        rewrite (dy_gtb_scaled (dy_abs v) max_double 0) in Hmax
          by (cbn [snd dy_abs max_double]; lia).
        rewrite <- Hmax. f_equal. unfold dy_scaled, dy_abs. cbn [fst snd].
        rewrite !Z.sub_0_r.
        pose proof (pow2_pos (snd r) Hs). pose proof (pow2_pos (snd v) EE).
        rewrite <- (Z.abs_eq (2 ^ snd r)), <- (Z.abs_eq (2 ^ snd v)) by lia.
        rewrite <- !Z.abs_mul. f_equal. exact Hv.
      + apply dy_gtb_le; [|vm_compute; discriminate].
        pose proof (dy_sub_scaled r v 0 Hs EE) as Hd.
        unfold dy_scaled in Hd. rewrite !Z.sub_0_r, Hv, Z.sub_diag in Hd.
        pose proof (pow2_pos (Z.min (snd r) (snd v)) ltac:(lia)).
        assert (fst (dy_sub r v) = 0) by nia.
        unfold dy_abs. cbn [fst]. lia.
    - apply Z.leb_gt in EE.
      pose proof (pow2_pos (- snd v) ltac:(lia)) as HD.
      set (D := 2 ^ (- snd v)) in *.
      pose proof (Z.quot_rem' (fst v) D) as Hqr.
      pose proof (Z.rem_bound_abs (fst v) D ltac:(lia)) as Hrem.
      assert (Hsign : (0 <= fst v /\ 0 <= Z.rem (fst v) D < D)
                      \/ (fst v <= 0 /\ - D < Z.rem (fst v) D <= 0)).
      { destruct (Z_le_gt_dec 0 (fst v)) as [H | H].
        - left. split; [exact H|]. apply Z.rem_bound_pos; lia.
        - right. split; [lia|]. apply Z.rem_bound_pos_neg; lia. }
      set (zq := fst v ÷ D) in *. set (rm := Z.rem (fst v) D) in *.
      assert (Hz : Z.abs zq <= Z.abs (fst v)) by nia.
      rewrite (round53_small (zq, 0)) by (cbn [fst]; lia).
      split.
      + rewrite (dy_gtb_scaled (dy_abs (zq, 0)) max_double 0)
          by (cbn [snd dy_abs max_double]; lia).
        unfold dy_scaled, dy_abs. cbn [fst snd max_double].
        replace (0 - 0) with 0 by lia. replace (971 - 0) with 971 by lia.
        change (2 ^ 0) with 1.
        pose proof (pow2_pos 971 ltac:(lia)) as H971.
        change (2 ^ 53) with 9007199254740992 in *.
        apply Z.ltb_ge. nia.
      + assert (Hx : fst (dy_sub (zq, 0) v) = - rm).
        { unfold dy_sub. cbn [fst snd]. rewrite Z.min_r by lia.
          replace (0 - snd v) with (- snd v) by lia. fold D.
          rewrite Z.sub_diag. change (2 ^ 0) with 1. lia. }
        assert (Hsx : snd (dy_sub (zq, 0) v) = snd v).
        { unfold dy_sub. cbn [fst snd]. lia. }
        set (x := dy_sub (zq, 0) v) in *.
        set (e0 := Z.min (snd v) (-52)).
        rewrite (dy_gtb_scaled (dy_abs x) above3 e0)
          by (cbn [snd dy_abs above3]; unfold e0; lia).
        unfold dy_scaled, dy_abs. cbn [fst snd above3]. rewrite Hx, Hsx.
        apply Z.ltb_ge.
        pose proof (pow2_pos (snd v - e0) ltac:(unfold e0; lia)) as Hp1.
        pose proof (pow2_pos (-52 - e0) ltac:(unfold e0; lia)) as Hp2.
        assert (Hsp1 : 2 ^ (- e0) = D * 2 ^ (snd v - e0)).
        { unfold D. rewrite <- pow2_split by (unfold e0; lia).
          f_equal. lia. }
        assert (Hsp2 : 2 ^ (- e0) = 2 ^ 52 * 2 ^ (-52 - e0)).
        { rewrite <- pow2_split by (unfold e0; lia). f_equal. lia. }
        change (2 ^ 52) with 4503599627370496 in *.
        nia. }
  destruct Hgoal as [H1 H2]. rewrite H1.
  eexists. split; [reflexivity|].
  unfold py_gt, py_abs, MTIME_TOLERANCE, val.
  set (x := dy_sub (round53 (z, 0)) v) in *.
  change (Z.abs (fst (round53 x)), snd (round53 x))
    with (dy_abs (round53 x)).
  rewrite float_above_tolerance. exact H2.
Qed.

(** ** Change detector *)

Lemma in_range_weaken (lo hi lo' hi' : Z) (t : num) :
  lo' <= lo -> hi <= hi' ->
  in_range lo hi t = true -> in_range lo' hi' t = true.
Proof.
  intros Hlo Hhi. unfold in_range. rewrite !andb_true_iff, !negb_true_iff.
  set (v := val t). set (e0 := Z.min 0 (snd v)).
  rewrite (dy_gtb_scaled (lo, 0) v e0), (dy_gtb_scaled (hi, 0) v e0),
    (dy_gtb_scaled (lo', 0) v e0), (dy_gtb_scaled (hi', 0) v e0)
    by (cbn [snd]; unfold e0; lia).
  unfold dy_scaled. cbn [fst snd].
  pose proof (pow2_pos (0 - e0) ltac:(unfold e0; lia)) as Hp.
  rewrite !Z.ltb_ge, !Z.ltb_lt. nia.
Qed.

(** [datetime.utcfromtimestamp] returns on the seconds of the years 1 to
    9999 and raises on every other time stamp. *)
Lemma utcfromtimestamp_Ok (t : num) :
  utcfromtimestamp t = Ok tt <-> in_range DATETIME_MIN DATETIME_END t = true.
Proof.
  unfold utcfromtimestamp.
  destruct (in_range DATETIME_MIN DATETIME_END t) eqn:Ed.
  - rewrite (in_range_weaken DATETIME_MIN DATETIME_END TIME_T_MIN TIME_T_END
               t ltac:(vm_compute; discriminate) ltac:(vm_compute; discriminate)
               Ed).
    rewrite (in_range_weaken DATETIME_MIN DATETIME_END GMTIME_MIN GMTIME_END
               t ltac:(vm_compute; discriminate) ltac:(vm_compute; discriminate)
               Ed).
    split; reflexivity.
  - destruct (in_range TIME_T_MIN TIME_T_END t); cbn [negb];
      [|split; discriminate].
    destruct (in_range GMTIME_MIN GMTIME_END t); cbn [negb];
      split; discriminate.
Qed.

Lemma utcfromtimestamp_Raise (t : num) :
  in_range DATETIME_MIN DATETIME_END t = false ->
  exists e, utcfromtimestamp t = Raise e.
Proof.
  intros Hr. destruct (utcfromtimestamp t) as [[]|e] eqn:Eu; [|eauto].
  apply utcfromtimestamp_Ok in Eu. congruence.
Qed.







Lemma compare_stat_true (d s : stat_result) :
  compare_stat d (Some s) = Ok true <->
  st_size d = st_size s
  /\ exists x, py_sub (st_mtime d) (st_mtime s) = Ok x
               /\ py_gt (py_abs x) MTIME_TOLERANCE = false.
Proof.
  unfold compare_stat.
  destruct (py_sub (st_mtime d) (st_mtime s)) as [x|e].
  2:{ split; [discriminate|]. intros (_ & x & Hx & _). discriminate. }
  destruct (py_gt (py_abs x) MTIME_TOLERANCE) eqn:Hgt.
  - split.
    + destruct (utcfromtimestamp (st_mtime s)); [|discriminate].
      destruct (utcfromtimestamp (st_mtime d)); discriminate.
    + intros (_ & x' & [= <-] & Hx). congruence.
  - destruct (Z.eqb_spec (st_size d) (st_size s)); simpl.
    + split; [eauto|reflexivity].
    + split; [discriminate | tauto].
Qed.





(** ** Filter engine *)

Lemma existsb_search_false {pattern : Type} `{Regex pattern}
    (file : string) (l : list pattern) :
  existsb (fun e => re_search e file) l = false <->
  forall e, e ∈ l -> re_search e file = false.
Proof.
  induction l as [|p l IH]; simpl.
  - split; [|auto]. intros _ e He. inversion He.
  - rewrite orb_false_iff, IH. split.
    + intros [Hp Hl] e He. inversion He; subst; auto.
    + intros Hall. split; [apply Hall; left | intros e He; apply Hall; right; exact He].
Qed.

Lemma existsb_search_true {pattern : Type} `{Regex pattern}
    (file : string) (l : list pattern) :
  existsb (fun e => re_search e file) l = true <->
  exists e, e ∈ l /\ re_search e file = true.
Proof.
  induction l as [|p l IH]; simpl.
  - split; [discriminate|]. intros (e & He & _). inversion He.
  - rewrite orb_true_iff, IH. split.
    + intros [Hp | (e & He & Hs)].
      * exists p. split; [left | exact Hp].
      * exists e. split; [right; exact He | exact Hs].
    + intros (e & He & Hs). inversion He; subst; [left; exact Hs | right; eauto].
Qed.

(** C2. The filter accepts a path exactly when no exclude pattern is found
    in it and the include list is empty or some include pattern is found in
    it; the search is not anchored; with includes [.*] and excludes
    [\.tmp$] the path [a.tmp] is rejected. *)
Theorem validate_src_decision :
  (forall (pattern : Type) (R : Regex pattern) (file : string)
          (includes excludes : list pattern),
      _validate_src file includes excludes = true <->
      (forall e, e ∈ excludes -> re_search e file = false)
      /\ (includes = [] \/ exists i, i ∈ includes /\ re_search i file = true))
  /\ (exists inc exc : list (list item),
         _get_filters (Some [".*"]) = Ok inc
         /\ _get_filters (Some ["\.tmp$"]) = Ok exc
         /\ _validate_src "a.tmp" inc exc = false
         /\ _validate_src "a.tmp" inc [] = true
         /\ _validate_src "a.txt" inc exc = true)
  /\ (exists p : list item,
         re_compile "tmp" = Ok p
         /\ re_search p "a.tmp.bak" = true
         /\ re_search p "a.txt" = false).
Proof.
  split; [|split].
  - intros pattern R file includes excludes. unfold _validate_src.
    rewrite andb_true_iff, negb_true_iff, orb_true_iff, negb_true_iff.
    rewrite existsb_search_false, existsb_search_true.
    split; intros [He Hi]; (split; [exact He|]).
    + destruct Hi as [Hi|Hi]; [left | right; exact Hi].
      destruct includes; [reflexivity | discriminate].
    + destruct Hi as [Hi|Hi]; [left; subst; reflexivity | right; exact Hi].
  - eexists. eexists.
    split; [vm_compute; reflexivity|]. split; [vm_compute; reflexivity|].
    split; [vm_compute; reflexivity|]. split; vm_compute; reflexivity.
  - eexists. split; [vm_compute; reflexivity|]. split; vm_compute; reflexivity.
Qed.

(** ** Path translation *)

(** C3. When exactly one of the two roots ends with a separator the
    effective destination is the destination joined with the base name of
    the stripped source, else it is the destination itself; syncing [/a/b]
    to [/c/d] maps [/a/b/x] to [/c/d/x], syncing [/a/b/] to [/c/d] maps it
    to [/c/d/b/x]. *)
Theorem sync_roots_trailing_separator :
  (forall src dst : string,
      (endswith_sep src <> endswith_sep dst ->
       snd (sync_roots src dst)
       = os_path.join dst (os_path.basename (rstrip_sep src)))
      /\ (endswith_sep src = endswith_sep dst ->
          snd (sync_roots src dst) = dst))
  /\ (forall rel : string,
         let '(_, re_base, dst) := sync_roots "/a/b" "/c/d" in
         dst_file_of re_base dst ("/a/b/" +:+ rel) = os_path.join "/c/d" rel)
  /\ (forall rel : string,
         let '(_, re_base, dst) := sync_roots "/a/b/" "/c/d" in
         dst_file_of re_base dst ("/a/b/" +:+ rel) = os_path.join "/c/d/b" rel)
  /\ (let '(_, re_base, dst) := sync_roots "/a/b" "/c/d" in
      dst_file_of re_base dst "/a/b/x" = "/c/d/x")
  /\ (let '(_, re_base, dst) := sync_roots "/a/b/" "/c/d" in
      dst_file_of re_base dst "/a/b/x" = "/c/d/b/x")
  /\ manifest_of
       (fst (sync (pattern := list item) 8 "/a/b" "/c/d" false None None
               false false ex_world))
     = [("file", ["/c/d/x"]); ("dir", [])]
  /\ manifest_of
       (fst (sync (pattern := list item) 8 "/a/b/" "/c/d" false None None
               false false ex_world))
     = [("file", ["/c/d/b/x"]); ("dir", [])].
Proof.
  split; [|repeat split; try (intros rel); vm_compute; reflexivity].
  intros src dst. unfold sync_roots. simpl.
  destruct (endswith_sep src), (endswith_sep dst); simpl; split; congruence.
Qed.

(** ** Unrecognised entry kinds *)

Lemma two_keys_dst_list0 : two_keys dst_list0.
Proof.
  intros k. unfold dst_list0. split.
  - intros [l Hl].
    destruct (decide (k = "file")) as [->|Hf]; [left; reflexivity|].
    destruct (decide (k = "dir")) as [->|Hd]; [right; reflexivity|].
    rewrite lookup_insert_ne in Hl by congruence.
    rewrite lookup_insert_ne in Hl by congruence.
    rewrite lookup_empty in Hl. discriminate.
  - intros [-> | ->]; eexists; reflexivity.
Qed.

Lemma two_keys_insert (m : gmap string (list string)) (k : string)
    (l : list string) :
  two_keys m -> is_Some (m !! k) -> two_keys (<[k := l]> m).
Proof.
  intros Hm Hk k'. specialize (Hm k').
  destruct (decide (k = k')) as [->|Hne].
  - rewrite lookup_insert_eq. split; [intros _; apply Hm; exact Hk | eauto].
  - rewrite lookup_insert_ne by exact Hne. exact Hm.
Qed.

Lemma sync_body_keeps_two_keys {pattern : Type} `{Regex pattern}
    {W : Type} `{Host W} re_base dst (includes excludes : list pattern)
    download dry (e : entry) total_size dst_list (w : W) r w' :
  two_keys dst_list ->
  sync_body re_base dst includes excludes download dry e
    (total_size, dst_list) w = (Ok r, w') ->
  two_keys (snd r).
Proof.
  intros Hk Hrun. destruct e as [[src_type src_file] src_stat].
  unfold sync_body, bind, ret, raise, read, lift in Hrun.
  destruct (negb (_validate_src _ includes excludes)).
  { inversion Hrun; subst. exact Hk. }
  destruct (dst_list !! src_type) as [l|] eqn:Hl; [|discriminate].
  assert (Hk' : two_keys
                  (<[src_type := (l ++ [os_path.join dst
                                          (re_base_sub re_base src_file)])%list]>
                     dst_list)).
  { apply two_keys_insert; [exact Hk | eauto]. }
  repeat case_match; simplify_eq; exact Hk'.
Qed.

(** C10. On a walker entry that passes the filter and whose kind is neither
    ['file'] nor ['dir'], the body of the loop of [sync] raises [KeyError] at
    the lookup in the manifest, leaving the world as it was; the manifest
    keeps its two keys through the loop, so the branch that raises
    [ValueError] is never reached: reaching it takes a manifest that has the
    unrecognised kind as a key. *)
Theorem unknown_kind_raises_KeyError :
  forall (pattern : Type) (R : Regex pattern) (W : Type) (HW : Host W)
         (re_base dst : string) (includes excludes : list pattern)
         (download dry : bool) (src_type src_file : string)
         (src_stat : option stat_result) (total_size : Z)
         (dst_list : gmap string (list string)) (w : W),
    two_keys dst_list ->
    src_type <> "file" ->
    src_type <> "dir" ->
    _validate_src (re_base_sub re_base src_file) includes excludes = true ->
    sync_body re_base dst includes excludes download dry
      (src_type, src_file, src_stat) (total_size, dst_list) w
    = (Raise (KeyError src_type), w)
    /\ (forall l,
          sync_body re_base dst includes excludes download dry
            (src_type, src_file, src_stat)
            (total_size, <[src_type := l]> dst_list) w
          = (Raise (ValueError src_type), w))
    /\ two_keys dst_list0
    /\ (forall e t r w',
          sync_body re_base dst includes excludes download dry e
            (t, dst_list) w = (Ok r, w') ->
          two_keys (snd r)).
Proof.
  intros pattern R W HW re_base dst includes excludes download dry
    src_type src_file src_stat total_size dst_list w Hk Hf Hd Hpass.
  split; [|split; [|split]].
  - unfold sync_body. rewrite Hpass. cbn [negb].
    destruct (dst_list !! src_type) as [l|] eqn:Hl; [|reflexivity].
    exfalso. destruct (proj1 (Hk src_type)); eauto.
  - intros l. unfold sync_body. rewrite Hpass. cbn [negb].
    rewrite lookup_insert_eq.
    destruct (String.eqb_spec src_type "dir"); [contradiction|].
    destruct (String.eqb_spec src_type "file"); [contradiction|].
    reflexivity.
  - exact two_keys_dst_list0.
  - intros e t r w' Hrun.
    exact (sync_body_keeps_two_keys _ _ _ _ _ _ _ _ _ _ _ _ Hk Hrun).
Qed.

Lemma unknown_kind_raises_KeyError_witness :
  two_keys dst_list0
  /\ "link" <> "file"
  /\ "link" <> "dir"
  /\ _validate_src (pattern := list item) (re_base_sub "/a/b" "/a/b/l") [] []
     = true
  /\ sync_body (pattern := list item) "/a/b" "/c/d" [] [] false false
       ("link", "/a/b/l", None) (0, dst_list0) ex_world
     = (Raise (KeyError "link"), ex_world).
Proof.
  split; [exact two_keys_dst_list0|].
  split; [discriminate|]. split; [discriminate|].
  split; [reflexivity|].
  apply (unknown_kind_raises_KeyError (list item) mini_re world world_host
           "/a/b" "/c/d" [] [] false false "link" "/a/b/l" None 0
           dst_list0 ex_world).
  - exact two_keys_dst_list0.
  - discriminate.
  - discriminate.
  - reflexivity.
Defined.

(** ** Strings and paths *)

#[local] Arguments String.append !_ _ / : simpl nomatch.

Lemma append_assoc (a b c : string) : (a +:+ b) +:+ c = a +:+ (b +:+ c).
Proof. induction a as [|x a IH]; simpl; [reflexivity | rewrite IH; reflexivity]. Qed.

Lemma append_nil_r (a : string) : a +:+ "" = a.
Proof. induction a as [|x a IH]; simpl; [reflexivity | rewrite IH; reflexivity]. Qed.

Lemma append_length (a b : string) :
  String.length (a +:+ b) = (String.length a + String.length b)%nat.
Proof. induction a as [|x a IH]; simpl; [reflexivity | rewrite IH; reflexivity]. Qed.

Lemma valid_name_inv (n : string) :
  valid_name n = true -> n <> "" /\ has_sep n = false.
Proof.
  unfold valid_name. rewrite andb_true_iff, !negb_true_iff.
  intros [Hn Hs]. split; [|exact Hs].
  destruct (String.eqb_spec n ""); [discriminate | assumption].
Qed.

Lemma has_sep_startswith (n : string) :
  has_sep n = false -> startswith_sep n = false.
Proof.
  destruct n as [|c n]; simpl; [reflexivity|].
  rewrite orb_false_iff. tauto.
Qed.

Lemma has_sep_endswith (n : string) :
  has_sep n = false -> endswith_sep n = false.
Proof.
  induction n as [|c n IH]; simpl; [reflexivity|].
  rewrite orb_false_iff. intros [Hc Hn].
  destruct n; [exact Hc | apply IH; exact Hn].
Qed.

Lemma endswith_append (a n : string) :
  n <> "" -> endswith_sep (a +:+ n) = endswith_sep n.
Proof.
  intros Hn. induction a as [|c a IH]; simpl; [reflexivity|].
  destruct (a +:+ n) eqn:E; [|exact IH].
  destruct a; simpl in E; [contradiction | discriminate].
Qed.

Lemma join_valid (path n : string) :
  valid_name n = true -> os_path.join path n = join_prefix path +:+ n.
Proof.
  intros Hv. apply valid_name_inv in Hv as [_ Hs].
  unfold os_path.join, join_prefix.
  rewrite (has_sep_startswith _ Hs).
  destruct (String.eqb path "" || endswith_sep path); [reflexivity|].
  rewrite append_assoc. reflexivity.
Qed.

Lemma join_extends (p n : string) :
  valid_name n = true -> exists t, os_path.join p n = p +:+ t /\ t <> "".
Proof.
  intros Hv. rewrite (join_valid _ _ Hv).
  apply valid_name_inv in Hv as [Hn _]. unfold join_prefix.
  destruct (String.eqb p "" || endswith_sep p).
  - exists n. auto.
  - exists ("/" +:+ n). rewrite append_assoc. split; [reflexivity | discriminate].
Qed.

Lemma join_tail (path n : string) :
  valid_name n = true ->
  os_path.join path n <> "" /\ endswith_sep (os_path.join path n) = false.
Proof.
  intros Hv. rewrite (join_valid _ _ Hv).
  apply valid_name_inv in Hv as [Hn Hs]. split.
  - destruct (join_prefix path); simpl; [exact Hn | discriminate].
  - rewrite endswith_append by exact Hn. apply has_sep_endswith, Hs.
Qed.

Lemma below_extends (root p : string) :
  below root p -> exists t, p = root +:+ t /\ t <> "".
Proof.
  induction 1 as [n Hn | p n _ (t & -> & Ht) Hn].
  - apply join_extends, Hn.
  - destruct (join_extends (root +:+ t) n Hn) as (u & -> & Hu).
    exists (t +:+ u). rewrite append_assoc. split; [reflexivity|].
    destruct t; [contradiction | discriminate].
Qed.

Lemma below_neq (root p : string) : below root p -> p <> root.
Proof.
  intros Hb. destruct (below_extends _ _ Hb) as (t & -> & Ht).
  intros Heq. apply (f_equal String.length) in Heq.
  rewrite append_length in Heq. destruct t; [contradiction | simpl in Heq; lia].
Qed.

Lemma below_trans (a b c : string) : below a b -> below b c -> below a c.
Proof.
  intros Hab Hbc. induction Hbc as [n Hn | p n _ IH Hn].
  - apply below_step; assumption.
  - apply below_step; assumption.
Qed.

(** Inside a directory path that does not end with a separator, every
    descendant starts with that path and a separator. *)
Lemma below_inside (d p : string) :
  d <> "" -> endswith_sep d = false -> below d p ->
  exists t, p = d +:+ "/" +:+ t.
Proof.
  intros Hd He. induction 1 as [n Hn | p n _ (t & ->) Hn].
  - rewrite (join_valid _ _ Hn). unfold join_prefix. rewrite He.
    destruct (String.eqb_spec d ""); [contradiction|]. simpl.
    exists n. rewrite append_assoc. reflexivity.
  - destruct (join_extends (d +:+ "/" +:+ t) n Hn) as (u & -> & _).
    exists (t +:+ u). rewrite !append_assoc. reflexivity.
Qed.

(** Two names without separator that are followed by nothing or by a
    separator in the same string are the same name. *)
Lemma name_split (n n' s s' : string) :
  has_sep n = false -> has_sep n' = false ->
  (s = "" \/ startswith_sep s = true) ->
  (s' = "" \/ startswith_sep s' = true) ->
  n +:+ s = n' +:+ s' -> n = n' /\ s = s'.
Proof.
  revert n'. induction n as [|c n IH]; intros [|c' n'] Hn Hn' Hs Hs' E;
    simpl in *.
  - auto.
  - exfalso. apply orb_false_iff in Hn' as [Hc _].
    destruct Hs as [-> | Hs]; [discriminate|].
    subst s. simpl in Hs. congruence.
  - exfalso. apply orb_false_iff in Hn as [Hc _].
    destruct Hs' as [-> | Hs']; [discriminate|].
    subst s'. simpl in Hs'. congruence.
  - apply orb_false_iff in Hn as [_ Hn]. apply orb_false_iff in Hn' as [_ Hn'].
    inversion E; subst. destruct (IH n' Hn Hn' Hs Hs' H1) as [-> ->]. auto.
Qed.

Lemma sub_self (path n : string) :
  valid_name n = true -> sub path n (os_path.join path n).
Proof.
  intros Hn. exists "". rewrite append_nil_r, (join_valid _ _ Hn). auto.
Qed.

Lemma sub_below (path n p : string) :
  valid_name n = true -> below (os_path.join path n) p -> sub path n p.
Proof.
  intros Hn Hb. destruct (join_tail path n Hn) as [Hd He].
  destruct (below_inside _ _ Hd He Hb) as (t & ->).
  rewrite (join_valid _ _ Hn). exists ("/" +:+ t).
  rewrite !append_assoc. auto.
Qed.

Lemma sub_same_name (path n n' p : string) :
  valid_name n = true -> valid_name n' = true ->
  sub path n p -> sub path n' p -> n = n'.
Proof.
  intros Hn Hn' (s & -> & Hs) (s' & E & Hs').
  apply valid_name_inv in Hn as [_ Hn]. apply valid_name_inv in Hn' as [_ Hn'].
  apply String.app_inj in E.
  destruct (name_split _ _ _ _ Hn Hn' Hs Hs' E). assumption.
Qed.

(** ** Invariants of loops and walkers *)

Lemma for_each_rule {W A Acc : Type} (I : Acc -> W -> Prop) (E : W -> Prop)
    (l : list A) (body : A -> Acc -> M W Acc) :
  (forall x acc, x ∈ l -> triple (I acc) (body x acc) I E) ->
  forall acc, triple (I acc) (for_each l body acc) I E.
Proof.
  induction l as [|x l IH]; intros Hbody acc w Hw; simpl.
  - exact Hw.
  - unfold bind. pose proof (Hbody x acc (list_elem_of_here _ _) w Hw) as Hx.
    destruct (body x acc w) as [[acc'|e] w']; [|exact Hx].
    apply IH; [|exact Hx].
    intros y acc0 Hy. apply Hbody. apply list_elem_of_further, Hy.
Qed.

Section WalkerRules.
Context {W : Type} `{Host W} {Acc : Type}.
Variable V : string -> Prop.
Variable I : Acc -> W -> Prop.
Variable E : W -> Prop.
Hypothesis I_E : forall acc w, I acc w -> E w.
(** What is known of the stat that comes with a yielded path. *)
Variable Prov : string -> stat_result -> Prop.

Lemma listdir_or_empty_Ok (path : string) (w : W) (l : list stat_result) :
  listdir_or_empty path w = Ok l ->
  sftp_listdir_attr path w = Ok l \/ l = [].
Proof.
  unfold listdir_or_empty. destruct (sftp_listdir_attr path w) as [l'|e].
  - intros [= ->]. left. reflexivity.
  - destruct (is_IOError e); [intros [= <-]; right; reflexivity | discriminate].
Qed.

(** The remote walker gives its body only entries made of listed names, of
    kind ['file'] or ['dir'], and keeps every invariant that the body keeps
    on such entries. *)
Lemma walk_remote_rule (root : string) (topdown : bool)
    (body : entry -> Acc -> M W Acc) :
  (forall acc w p l, I acc w -> sftp_listdir_attr p w = Ok l ->
                     Forall (fun s => V (filename s)
                                      /\ Prov (os_path.join p (filename s)) s) l) ->
  (forall k p st acc, (k = "file" \/ k = "dir") -> below_by V root p ->
                      prov Prov p st ->
                      triple (I acc) (body (k, p, st) acc) I E) ->
  forall fuel path acc, (path = root \/ below_by V root path) ->
    triple (I acc) (_walk_remote fuel path topdown body acc) I E.
Proof.
  intros Hlist Hbody. induction fuel as [|fuel IH]; intros path acc Hpath w Hw.
  - simpl. unfold raise. eapply I_E, Hw.
  - simpl. unfold bind at 1, read.
    destruct (listdir_or_empty path w) as [l|e] eqn:El; [|eapply I_E, Hw].
    assert (Hv : Forall (fun s => V (filename s)
                                  /\ Prov (os_path.join path (filename s)) s) l).
    { destruct (listdir_or_empty_Ok _ _ _ El) as [Hl | ->];
        [eapply Hlist; eauto | constructor]. }
    apply for_each_rule; [|exact Hw].
    intros stat acc0 Hin. unfold walk_remote_step.
    rewrite Forall_forall in Hv. destruct (Hv _ Hin) as [Hname Hprov].
    assert (Hfile : below_by V root (os_path.join path (filename stat))).
    { destruct Hpath as [-> | Hp];
        [apply below_child | apply below_step]; assumption. }
    destruct (negb (S_ISDIR (st_mode stat))).
    + apply Hbody; auto.
    + destruct topdown; intros w0 Hw0; unfold bind.
      * pose proof (Hbody "dir" _ (Some stat) acc0 (or_intror eq_refl) Hfile
                      Hprov w0 Hw0) as Hb.
        destruct (body _ acc0 w0) as [[acc1|e1] w1]; [|exact Hb].
        apply IH; auto.
      * pose proof (IH _ acc0 (or_intror Hfile) w0 Hw0) as Hr.
        destruct (_walk_remote fuel _ false body acc0 w0) as [[acc1|e1] w1];
          [|exact Hr].
        apply Hbody; simpl; auto.
Qed.

Lemma Forall_names_filter (f : string * bool -> bool)
    (l : list (string * bool)) :
  Forall (fun x => V (fst x)) l -> Forall V (map fst (List.filter f l)).
Proof.
  induction 1 as [|x l Hx _ IH]; simpl; [constructor|].
  destruct (f x); simpl; [constructor; assumption | assumption].
Qed.

(** The same for [os.walk]: every triple it yields has a root that is the
    top or is made of listed names, and lists of listed names. *)
Lemma os_walk_rule (root : string) (topdown : bool)
    (body : string * list string * list string -> Acc -> M W Acc) :
  (forall acc w p l, I acc w -> os_scandir p w = Ok l ->
                     Forall (fun x => V (fst x)) l) ->
  (forall r dirs files acc,
      (r = root \/ below_by V root r) -> Forall V dirs -> Forall V files ->
      triple (I acc) (body (r, dirs, files) acc) I E) ->
  forall fuel top acc, (top = root \/ below_by V root top) ->
    triple (I acc) (os_walk fuel top topdown body acc) I E.
Proof.
  intros Hlist Hbody. induction fuel as [|fuel IH]; intros top acc Htop w Hw.
  - simpl. unfold raise. eapply I_E, Hw.
  - simpl. destruct (os_scandir top w) as [l|e] eqn:El.
    2:{ destruct (is_IOError e); [exact Hw | eapply I_E, Hw]. }
    pose proof (Hlist _ _ _ _ Hw El) as Hv.
    pose proof (Forall_names_filter snd l Hv) as Hdirs.
    pose proof (Forall_names_filter (fun e => negb (snd e)) l Hv) as Hfiles.
    set (dirs := map fst (List.filter snd l)) in *.
    set (files := map fst (List.filter (fun e => negb (snd e)) l)) in *.
    assert (Hbelow : forall acc0,
               triple (I acc0)
                 (for_each dirs (fun d acc1 =>
                    os_walk fuel (os_path.join top d) topdown body acc1) acc0)
                 I E).
    { apply for_each_rule. intros d acc1 Hd. apply IH. right.
      rewrite Forall_forall in Hdirs. specialize (Hdirs _ Hd).
      destruct Htop as [-> | Ht];
        [apply below_child | apply below_step]; assumption. }
    destruct topdown; unfold bind.
    + pose proof (Hbody top dirs files acc Htop Hdirs Hfiles w Hw) as Hb.
      destruct (body _ acc w) as [[acc1|e1] w1]; [|exact Hb].
      apply Hbelow, Hb.
    + pose proof (Hbelow acc w Hw) as Hr.
      destruct (for_each dirs _ acc w) as [[acc1|e1] w1]; [|exact Hr].
      apply Hbody; auto.
Qed.

Lemma walk_local_rule (root : string) (topdown : bool)
    (body : entry -> Acc -> M W Acc) :
  (forall acc w p l, I acc w -> os_scandir p w = Ok l ->
                     Forall (fun x => V (fst x)) l) ->
  (forall acc w p s, I acc w -> os_stat p w = Ok s -> Prov p s) ->
  (forall k p st acc, (k = "file" \/ k = "dir") -> below_by V root p ->
                      prov Prov p st ->
                      triple (I acc) (body (k, p, st) acc) I E) ->
  forall fuel acc,
    triple (I acc) (_walk_local fuel root topdown body acc) I E.
Proof.
  intros Hlist Hstat Hbody fuel acc. unfold _walk_local.
  apply (os_walk_rule root); [exact Hlist | | left; reflexivity].
  intros r dirs files acc0 Hr Hdirs Hfiles.
  assert (Hjoin : forall n, V n -> below_by V root (os_path.join r n)).
  { intros n Hn. destruct Hr as [-> | Hr];
      [apply below_child | apply below_step]; assumption. }
  assert (Hone : forall k names,
             Forall V names -> (k = "file" \/ k = "dir") ->
             forall acc1,
               triple (I acc1)
                 (for_each names (fun name acc2 =>
                    bind (read (os_stat (os_path.join r name)))
                      (fun st => body (k, os_path.join r name, Some st) acc2))
                    acc1) I E).
  { intros k names Hnames Hk. apply for_each_rule.
    intros name acc2 Hin w Hw. unfold bind, read.
    destruct (os_stat _ w) as [st|e] eqn:Est; [|eapply I_E, Hw].
    rewrite Forall_forall in Hnames.
    apply Hbody; auto. simpl. eapply Hstat; eauto. }
  intros w Hw. unfold bind at 1.
  pose proof (Hone "file" files Hfiles (or_introl eq_refl) acc0 w Hw) as Hf.
  destruct (for_each files _ acc0 w) as [[acc1|e1] w1]; [|exact Hf].
  apply (Hone "dir" dirs Hdirs (or_intror eq_refl)), Hf.
Qed.

Lemma walk_rule (root : string) (topdown remote : bool)
    (body : entry -> Acc -> M W Acc) :
  (forall acc w p l, I acc w -> sftp_listdir_attr p w = Ok l ->
                     Forall (fun s => V (filename s)
                                      /\ Prov (os_path.join p (filename s)) s) l) ->
  (forall acc w p l, I acc w -> os_scandir p w = Ok l ->
                     Forall (fun x => V (fst x)) l) ->
  (forall acc w p s, I acc w -> os_stat p w = Ok s -> Prov p s) ->
  (forall k p st acc, (k = "file" \/ k = "dir") -> below_by V root p ->
                      prov Prov p st ->
                      triple (I acc) (body (k, p, st) acc) I E) ->
  forall fuel acc,
    triple (I acc) (_walk fuel root topdown remote body acc) I E.
Proof.
  intros Hr Hl Hs Hbody fuel acc. unfold _walk. destruct remote.
  - apply (walk_remote_rule root); auto.
  - apply walk_local_rule; auto.
Qed.

End WalkerRules.

(** The same rule when nothing is asked of the stats. *)
Lemma walk_rule0 {W : Type} `{Host W} {Acc : Type} (V : string -> Prop)
    (I : Acc -> W -> Prop) (E : W -> Prop)
    (I_E : forall acc w, I acc w -> E w)
    (root : string) (topdown remote : bool)
    (body : entry -> Acc -> M W Acc) :
  (forall acc w p l, I acc w -> sftp_listdir_attr p w = Ok l ->
                     Forall (fun s => V (filename s)) l) ->
  (forall acc w p l, I acc w -> os_scandir p w = Ok l ->
                     Forall (fun x => V (fst x)) l) ->
  (forall k p st acc, (k = "file" \/ k = "dir") -> below_by V root p ->
                      triple (I acc) (body (k, p, st) acc) I E) ->
  forall fuel acc,
    triple (I acc) (_walk fuel root topdown remote body acc) I E.
Proof.
  intros Hr Hl Hbody.
  apply (walk_rule V I E I_E (fun _ _ => True)); auto.
  intros acc w p l HI Hls. specialize (Hr acc w p l HI Hls).
  rewrite Forall_forall in *. auto.
Qed.

(** ** Computations that leave the world alone *)

Lemma unchanged_ret {W A : Type} (a : A) : unchanged (W := W) (ret a).
Proof. intros w. reflexivity. Qed.

Lemma unchanged_raise {W A : Type} (e : exn) : unchanged (W := W) (A := A) (raise e).
Proof. intros w. reflexivity. Qed.

Lemma unchanged_lift {W A : Type} (r : res A) : unchanged (W := W) (lift r).
Proof. intros w. reflexivity. Qed.

Lemma unchanged_read {W A : Type} (f : W -> res A) : unchanged (read f).
Proof. intros w. reflexivity. Qed.

Lemma unchanged_bind {W A B : Type} (m : M W A) (k : A -> M W B) :
  unchanged m -> (forall a, unchanged (k a)) -> unchanged (bind m k).
Proof.
  intros Hm Hk w. unfold bind. specialize (Hm w).
  destruct (m w) as [[a|e] w']; simpl in Hm; subst w'; [apply Hk | reflexivity].
Qed.

Lemma unchanged_triple {W A : Type} (m : M W A) :
  unchanged m <->
  forall w0, triple (fun w => w = w0) m (fun _ w => w = w0) (fun w => w = w0).
Proof.
  split.
  - intros Hm w0 w ->. specialize (Hm w0).
    destruct (m w0) as [[a|e] w']; exact Hm.
  - intros Hm w. specialize (Hm w w eq_refl).
    destruct (m w) as [[a|e] w']; exact Hm.
Qed.

Lemma unchanged_for_each {W A Acc : Type} (l : list A)
    (body : A -> Acc -> M W Acc) (acc : Acc) :
  (forall x acc, unchanged (body x acc)) -> unchanged (for_each l body acc).
Proof.
  intros Hbody. revert acc. induction l as [|x l IH]; intros acc; simpl.
  - apply unchanged_ret.
  - apply unchanged_bind; [apply Hbody | intros a; apply IH].
Qed.

Lemma unchanged_walk {W : Type} `{Host W} {Acc : Type} (fuel : nat)
    (path : string) (topdown remote : bool) (body : entry -> Acc -> M W Acc)
    (acc : Acc) :
  (forall e acc, unchanged (body e acc)) ->
  unchanged (_walk fuel path topdown remote body acc).
Proof.
  intros Hbody. apply unchanged_triple. intros w0.
  apply (walk_rule0 (fun _ => True) (fun _ w => w = w0) (fun w => w = w0)).
  - auto.
  - intros. apply Forall_forall. auto.
  - intros. apply Forall_forall. auto.
  - intros k p st acc0 _ _. apply (proj1 (unchanged_triple _)), Hbody.
Qed.

Section DryRun.
Context {pattern : Type} `{Regex pattern} {W : Type} `{Host W}.

Lemma makedirs_dst_dry (path : string) (remote : bool) :
  unchanged (_makedirs_dst path remote true).
Proof.
  unfold _makedirs_dst. destruct remote.
  - apply unchanged_bind; [apply unchanged_lift|]. intros paths.
    apply unchanged_for_each. intros p [] w.
    destruct (sftp_lstat p w); reflexivity.
  - intros w. destruct (negb (os_path_exists path w)); reflexivity.
Qed.

Lemma sync_body_dry re_base dst (includes excludes : list pattern)
    (download : bool) (e : entry) (acc : Z * gmap string (list string)) :
  unchanged (sync_body re_base dst includes excludes download true e acc).
Proof.
  destruct e as [[src_type src_file] src_stat], acc as [total_size dst_list].
  unfold sync_body.
  destruct (negb (_validate_src _ includes excludes)); [apply unchanged_ret|].
  destruct (dst_list !! src_type) as [l|]; [|apply unchanged_raise].
  destruct (String.eqb src_type "dir").
  { apply unchanged_bind; [apply makedirs_dst_dry | intros; apply unchanged_ret]. }
  destruct (String.eqb src_type "file"); [|apply unchanged_raise].
  apply unchanged_bind; [apply unchanged_read|]. intros up.
  destruct (negb up); [|apply unchanged_ret].
  cbn [negb]. apply unchanged_bind; [apply unchanged_ret|]. intros _.
  apply unchanged_bind; [apply unchanged_lift | intros; apply unchanged_ret].
Qed.

Lemma delete_dst_body_dry (remote : bool) (files : gmap string (list string))
    (e : entry) :
  unchanged (_delete_dst_body remote true files e).
Proof.
  destruct e as [[type file] stat]. unfold _delete_dst_body.
  destruct (files !! type) as [l|]; [|apply unchanged_raise].
  destruct (negb (in_list file l)); apply unchanged_ret.
Qed.

Lemma sync_dry_unchanged (fuel : nat) (src dst : string) (download : bool)
    (includes excludes : option (list string)) (delete : bool) :
  unchanged (sync (pattern := pattern) fuel src dst download includes
               excludes delete true).
Proof.
  unfold sync.
  apply unchanged_bind; [apply unchanged_lift|]. intros inc.
  apply unchanged_bind; [apply unchanged_lift|]. intros exc.
  destruct (sync_roots src dst) as [[src' re_base] dst'].
  apply unchanged_bind; [apply makedirs_dst_dry|]. intros _.
  apply unchanged_bind.
  { apply unchanged_walk. intros e acc. apply sync_body_dry. }
  intros r. apply unchanged_bind; [|intros; apply unchanged_ret].
  destruct delete; [|apply unchanged_ret].
  unfold _delete_dst. apply unchanged_walk.
  intros e acc. apply delete_dst_body_dry.
Qed.

End DryRun.

(** ** The model of the file systems *)

Lemma strip_prefix_Some (pre s r : string) :
  strip_prefix pre s = Some r <-> s = pre +:+ r.
Proof.
  revert s. induction pre as [|a pre IH]; intros s; simpl.
  - split; [intros [= ->] | intros ->]; reflexivity.
  - destruct s as [|b s]; [split; discriminate|].
    destruct (Ascii.eqb_spec a b) as [->|Hne].
    + rewrite IH. split; [intros -> | intros [= ->]]; reflexivity.
    + split; [discriminate | intros [= -> _]; contradiction].
Qed.

Lemma child_of_Some (p : string) (kn : string * node) (name : string) (n : node) :
  child_of p kn = Some (name, n) <->
  fst kn = join_prefix p +:+ name /\ valid_name name = true /\ snd kn = n.
Proof.
  unfold child_of.
  destruct (strip_prefix (join_prefix p) (fst kn)) as [r|] eqn:Er.
  - apply strip_prefix_Some in Er.
    destruct (valid_name r) eqn:Hv.
    + split.
      * intros [= -> ->]. auto.
      * intros (Hk & _ & <-). rewrite Er in Hk.
        apply String.app_inj in Hk. subst. reflexivity.
    + split; [discriminate|]. intros (Hk & Hv' & _).
      rewrite Er in Hk. apply String.app_inj in Hk. congruence.
  - split; [discriminate|]. intros (Hk & _ & _).
    apply strip_prefix_Some in Hk. congruence.
Qed.

Lemma fs_children_elem (fs : gmap string node) (p name : string) (n : node) :
  (name, n) ∈ fs_children fs p <->
  valid_name name = true /\ fs !! (join_prefix p +:+ name) = Some n.
Proof.
  unfold fs_children. rewrite list_elem_of_omap. split.
  - intros ([k n'] & Hin & Hc). apply child_of_Some in Hc as (Hk & Hv & Hn).
    simpl in *. subst. apply elem_of_map_to_list in Hin. auto.
  - intros [Hv Hl]. exists (join_prefix p +:+ name, n). split.
    + apply elem_of_map_to_list, Hl.
    + apply child_of_Some. auto.
Qed.

Lemma fs_children_valid (fs : gmap string node) (p : string) :
  Forall (fun kn => valid_name (fst kn) = true) (fs_children fs p).
Proof.
  apply Forall_forall. intros [name n] Hin.
  apply fs_children_elem in Hin. tauto.
Qed.

Lemma fs_listdir_valid (fs : gmap string node) (p : string)
    (l : list (string * node)) :
  fs_listdir fs p = Ok l -> Forall (fun kn => valid_name (fst kn) = true) l.
Proof.
  unfold fs_listdir. destruct (fs_isdir fs p); [|discriminate].
  intros [= <-]. apply fs_children_valid.
Qed.

Lemma world_listdir_valid (w : world) (p : string) (l : list stat_result) :
  sftp_listdir_attr p w = Ok l ->
  Forall (fun s => valid_name (filename s) = true) l.
Proof.
  simpl. destruct (fs_listdir (remote_fs w) p) as [l'|] eqn:El; [|discriminate].
  intros [= <-]. apply fs_listdir_valid in El.
  apply Forall_fmap. eapply Forall_impl; [exact El|]. auto.
Qed.

Lemma world_scandir_valid (w : world) (p : string) (l : list (string * bool)) :
  os_scandir p w = Ok l -> Forall (fun x => valid_name (fst x) = true) l.
Proof.
  simpl. destruct (fs_listdir (local_fs w) p) as [l'|] eqn:El; [|discriminate].
  intros [= <-]. apply fs_listdir_valid in El.
  apply Forall_fmap. eapply Forall_impl; [exact El|]. auto.
Qed.

Lemma rstrip_sep_id (p : string) : endswith_sep p = false -> rstrip_sep p = p.
Proof.
  induction p as [|c p IH]; simpl; [reflexivity|].
  destruct p as [|c' p].
  - simpl. intros ->. reflexivity.
  - intros He. rewrite (IH He). reflexivity.
Qed.

Lemma rstrip_sep_length (p : string) :
  (String.length (rstrip_sep p) <= String.length p)%nat.
Proof.
  induction p as [|c p IH]; simpl; [lia|].
  destruct (rstrip_sep p); [destruct (is_sep c); simpl; lia | simpl in *; lia].
Qed.

Lemma norm_id (p : string) : endswith_sep p = false -> norm p = p.
Proof.
  intros He. unfold norm. rewrite (rstrip_sep_id _ He).
  destruct (String.eqb_spec p ""); [subst; reflexivity|].
  simpl. reflexivity.
Qed.

Lemma norm_length (p : string) :
  (String.length (norm p) <= String.length p)%nat.
Proof.
  unfold norm. pose proof (rstrip_sep_length p).
  destruct (String.eqb (rstrip_sep p) "" && negb (String.eqb p "")) eqn:E;
    [|assumption].
  apply andb_true_iff in E as [_ E]. apply negb_true_iff in E.
  destruct p; [discriminate | simpl; lia].
Qed.

Lemma below_tail (root p : string) :
  below root p -> p <> "" /\ endswith_sep p = false.
Proof.
  intros Hb. inversion Hb; subst; apply join_tail; assumption.
Qed.

Lemma below_norm (root p : string) : below root p -> norm p <> norm root.
Proof.
  intros Hb. destruct (below_tail _ _ Hb) as [_ He].
  rewrite (norm_id _ He). intros Heq.
  destruct (below_extends _ _ Hb) as (t & -> & Ht).
  pose proof (norm_length root) as Hl. rewrite <- Heq, append_length in Hl.
  destruct t; [contradiction | simpl in Hl; lia].
Qed.

Lemma fs_stat_delete (fs : gmap string node) (k q : string) :
  norm q <> k -> fs_stat (delete k fs) q = fs_stat fs q.
Proof.
  intros Hne. unfold fs_stat. destruct (implicit_dir (norm q)); [reflexivity|].
  apply lookup_delete_ne. congruence.
Qed.

Lemma fs_remove_stat (fs : gmap string node) (p q : string) :
  norm q <> norm p -> fs_stat (snd (fs_remove p fs)) q = fs_stat fs q.
Proof.
  intros Hne. unfold fs_remove. destruct (fs !! norm p) as [n|]; [|reflexivity].
  destruct (S_ISDIR (n_mode n)); [reflexivity|]. apply fs_stat_delete, Hne.
Qed.

Lemma fs_rmdir_stat (fs : gmap string node) (p q : string) :
  norm q <> norm p -> fs_stat (snd (fs_rmdir p fs)) q = fs_stat fs q.
Proof.
  intros Hne. unfold fs_rmdir. destruct (fs !! norm p) as [n|]; [|reflexivity].
  destruct (negb (S_ISDIR (n_mode n))); [reflexivity|].
  destruct (fs_children fs p); [apply fs_stat_delete, Hne | reflexivity].
Qed.

Lemma callables_file {W : Type} `{Host W} (remote : bool) :
  callables remote !! "file" = Some (if remote then sftp_remove else os_remove).
Proof. destruct remote; reflexivity. Qed.

Lemma callables_dir {W : Type} `{Host W} (remote : bool) :
  callables remote !! "dir" = Some (if remote then sftp_rmdir else os_rmdir).
Proof. destruct remote; reflexivity. Qed.

(** What the body of the deletion loop does to the model on an entry of a
    known kind: nothing, or one removal call on the entry's path. *)
Lemma delete_dst_body_world (remote dry : bool)
    (files : gmap string (list string)) (k p : string)
    (st : option stat_result) (w : world) :
  k = "file" \/ k = "dir" ->
  let w' := snd (_delete_dst_body remote dry files (k, p, st) w) in
  w' = w
  \/ exists c fs',
       removal_target c = Some p
       /\ (forall q, norm q <> norm p ->
                     fs_stat fs' q = fs_stat (side remote w) q)
       /\ calls w' = calls w ++ [c]
       /\ side remote w' = fs'.
Proof.
  intros Hk. unfold _delete_dst_body.
  destruct (files !! k) as [l|]; [|left; reflexivity].
  destruct (negb (in_list p l)); [|left; reflexivity].
  destruct dry; [left; reflexivity|]. cbn [negb].
  destruct Hk as [-> | ->];
    [pose proof (callables_file (W := world) remote) as Hc
    |pose proof (callables_dir (W := world) remote) as Hc];
    destruct (callables remote !! _) as [rm|]; [|discriminate| |discriminate];
    injection Hc as ->;
    destruct remote; cbn [snd]; right.
  - exists (call_sftp_remove p), (snd (fs_remove p (remote_fs w))).
    split; [reflexivity|]. split; [intros q Hq; apply fs_remove_stat, Hq|].
    simpl. unfold on_remote. destruct (fs_remove p (remote_fs w)); auto.
  - exists (call_os_remove p), (snd (fs_remove p (local_fs w))).
    split; [reflexivity|]. split; [intros q Hq; apply fs_remove_stat, Hq|].
    simpl. unfold on_local. destruct (fs_remove p (local_fs w)); auto.
  - exists (call_sftp_rmdir p), (snd (fs_rmdir p (remote_fs w))).
    split; [reflexivity|]. split; [intros q Hq; apply fs_rmdir_stat, Hq|].
    simpl. unfold on_remote. destruct (fs_rmdir p (remote_fs w)); auto.
  - exists (call_os_rmdir p), (snd (fs_rmdir p (local_fs w))).
    split; [reflexivity|]. split; [intros q Hq; apply fs_rmdir_stat, Hq|].
    simpl. unfold on_local. destruct (fs_rmdir p (local_fs w)); auto.
Qed.

(** ** The walkers yield strict descendants only *)

Lemma collect_rule {W Acc : Type} (P : entry -> Prop)
    (body : entry -> Acc -> M W Acc) (e : entry) (st : list entry * Acc) :
  P e ->
  triple (fun _ => Forall P (fst st)) (collect body e st)
    (fun st' _ => Forall P (fst st')) (fun _ => True).
Proof.
  intros He w Hst. unfold collect, bind, ret.
  destruct (body e (snd st) w) as [[acc'|x] w']; [|exact Logic.I].
  simpl. apply Forall_app. split; [exact Hst | repeat constructor; exact He].
Qed.

Lemma walk_collect_below {W : Type} `{Host W} {Acc : Type} :
  (forall w p l, sftp_listdir_attr p w = Ok l ->
                 Forall (fun s => valid_name (filename s) = true) l) ->
  (forall w p l, os_scandir p w = Ok l ->
                 Forall (fun x => valid_name (fst x) = true) l) ->
  forall fuel root topdown remote (body : entry -> Acc -> M W Acc)
         acc w L acc' w',
    _walk fuel root topdown remote (collect body) ([], acc) w
    = (Ok (L, acc'), w') ->
    Forall (fun e => below root (path_of e) /\ path_of e <> root) L.
Proof.
  intros Hr Hl fuel root topdown remote body acc w L acc' w' Hrun.
  pose proof (walk_rule0 (fun n => valid_name n = true)
                (fun (st : list entry * Acc) (_ : W) =>
                   Forall (fun e => below root (path_of e)
                                    /\ path_of e <> root) (fst st))
                (fun _ => True) (fun _ _ _ => Logic.I)
                root topdown remote (collect body)) as Hrule.
  specialize (Hrule (fun _ w p l _ => Hr w p l) (fun _ w p l _ => Hl w p l)).
  assert (Hbody : forall k p st (acc0 : list entry * Acc),
             k = "file" \/ k = "dir" -> below root p ->
             triple (fun _ => Forall (fun e => below root (path_of e)
                                               /\ path_of e <> root) (fst acc0))
               (collect body (k, p, st) acc0)
               (fun st' _ => Forall (fun e => below root (path_of e)
                                              /\ path_of e <> root) (fst st'))
               (fun _ => True)).
  { intros k p st acc0 _ Hb. apply collect_rule. split; [exact Hb|].
    apply below_neq, Hb. }
  specialize (Hrule Hbody fuel ([], acc) w ltac:(constructor)).
  rewrite Hrun in Hrule. exact Hrule.
Qed.

(** C9. Every entry that a walker (remote or local, top-down or bottom-up)
    gives to the loop is a strict descendant of the root and differs from
    the root; so the deletion pass never removes the root: whatever the
    manifest holds, the root of the destination is after the pass what it
    was before, and every removal call of the pass is on a strict
    descendant. *)
Theorem walkers_yield_strict_descendants :
  (forall (W : Type) (HW : Host W) (Acc : Type),
      (forall w p l, sftp_listdir_attr p w = Ok l ->
                     Forall (fun s => valid_name (filename s) = true) l) ->
      (forall w p l, os_scandir p w = Ok l ->
                     Forall (fun x => valid_name (fst x) = true) l) ->
      forall fuel root topdown remote (body : entry -> Acc -> M W Acc)
             acc w L acc' w',
        _walk fuel root topdown remote (collect body) ([], acc) w
        = (Ok (L, acc'), w') ->
        Forall (fun e => below root (path_of e) /\ path_of e <> root) L)
  /\ (forall (Acc : Type) fuel root topdown remote
             (body : entry -> Acc -> M world Acc) acc w L acc' w',
         _walk fuel root topdown remote (collect body) ([], acc) w
         = (Ok (L, acc'), w') ->
         Forall (fun e => below root (path_of e) /\ path_of e <> root) L)
  /\ (forall fuel path files remote dry (w : world),
         let w' := snd (_delete_dst fuel path files remote dry w) in
         fs_stat (side remote w') path = fs_stat (side remote w) path
         /\ exists cs,
              calls w' = calls w ++ cs
              /\ Forall (fun c => exists p, removal_target c = Some p
                                            /\ below path p
                                            /\ p <> path) cs).
Proof.
  split; [|split].
  - intros W HW Acc. apply walk_collect_below.
  - intros Acc. apply walk_collect_below.
    + apply world_listdir_valid.
    + apply world_scandir_valid.
  - intros fuel path files remote dry w.
    set (Inv := fun (_ : unit) (w1 : world) =>
                  fs_stat (side remote w1) path = fs_stat (side remote w) path
                  /\ exists cs,
                       calls w1 = calls w ++ cs
                       /\ Forall (fun c => exists p,
                                      removal_target c = Some p
                                      /\ below path p /\ p <> path) cs).
    pose proof (walk_rule0 (fun n => valid_name n = true) Inv (Inv tt)
                  (fun u w1 Hw => match u with tt => Hw end)
                  path false remote
                  (fun e _ => _delete_dst_body remote dry files e)) as Hrule.
    specialize (Hrule (fun _ w1 p l _ => world_listdir_valid w1 p l)
                      (fun _ w1 p l _ => world_scandir_valid w1 p l)).
    assert (Hbody : forall k p st (acc : unit),
               k = "file" \/ k = "dir" -> below path p ->
               triple (Inv acc)
                 (_delete_dst_body remote dry files (k, p, st)) Inv (Inv tt)).
    { intros k p st acc Hk Hb w1 [Hst (cs & Hc & Hcs)].
      assert (Hbody' : Inv tt (snd (_delete_dst_body remote dry files
                                      (k, p, st) w1))).
      { destruct (delete_dst_body_world remote dry files k p st w1 Hk)
          as [-> | (c & fs' & Hc' & Hfr & Hcalls & Hside)].
        - split; [exact Hst | exists cs; auto].
        - split.
          + rewrite Hside, Hfr; [exact Hst|].
            intros Heq. apply (below_norm _ _ Hb). symmetry. exact Heq.
          + exists (cs ++ [c]). rewrite Hcalls, Hc, app_assoc.
            split; [reflexivity|]. apply Forall_app. split; [exact Hcs|].
            repeat constructor. exists p.
            split; [exact Hc'|]. split; [exact Hb | apply below_neq, Hb]. }
      destruct (_delete_dst_body remote dry files (k, p, st) w1)
        as [[[]|x] w2]; exact Hbody'. }
    specialize (Hrule Hbody fuel tt w).
    assert (H0 : Inv tt w).
    { split; [reflexivity|]. exists []. rewrite app_nil_r. auto. }
    specialize (Hrule H0). unfold _delete_dst.
    destruct (_walk fuel path false remote _ tt w) as [[[]|x] w2]; exact Hrule.
Qed.

(** ** Order of the bottom-up walk *)

Lemma bottom_up_app (L1 L2 : list entry) :
  bottom_up L1 -> bottom_up L2 ->
  (forall e, e ∈ L1 -> kind_of e = "dir" ->
             Forall (fun e' => ~ below (path_of e) (path_of e')) L2) ->
  bottom_up (L1 ++ L2).
Proof.
  induction L1 as [|e L1 IH]; simpl; intros H1 H2 Hx; [exact H2|].
  destruct H1 as [He H1]. split.
  - intros Hk. destruct (He Hk) as [Hst Hl]. split; [exact Hst|].
    apply Forall_app. split; [exact Hl|].
    apply Hx; [apply list_elem_of_here | exact Hk].
  - apply IH; [exact H1 | exact H2|].
    intros e' He'. apply Hx. apply list_elem_of_further, He'.
Qed.

Lemma bottom_up_split (L l1 l2 : list entry) (d : string)
    (st : option stat_result) :
  bottom_up L -> L = l1 ++ ("dir", d, st) :: l2 ->
  st = None /\ Forall (fun e => ~ below d (path_of e)) l2.
Proof.
  revert L. induction l1 as [|x l1 IH]; intros L HL ->; simpl in HL.
  - destruct HL as [He _]. apply (He eq_refl).
  - destruct HL as [_ HL]. eapply IH; [exact HL | reflexivity].
Qed.

Lemma below_not_both (a b : string) : below a b -> below b a -> False.
Proof.
  intros Hab Hba.
  destruct (below_extends _ _ Hab) as (t & -> & Ht).
  destruct (below_extends _ _ Hba) as (u & E & Hu).
  apply (f_equal String.length) in E. rewrite !append_length in E.
  destruct t; [contradiction|]. simpl in E. lia.
Qed.

(** What lies below an entry of the part under [n] is in that part too. *)
Lemma sub_closed (path n d p : string) :
  d <> "" -> endswith_sep d = false ->
  sub path n d -> below d p -> sub path n p.
Proof.
  intros Hd He (s & Hs & Hsep) Hb.
  destruct (below_inside _ _ Hd He Hb) as (t & ->).
  exists (s +:+ "/" +:+ t). split.
  - rewrite Hs, !append_assoc. reflexivity.
  - right. destruct Hsep as [-> | Hsep]; [reflexivity|].
    destruct s; [discriminate | exact Hsep].
Qed.

Lemma collect_Ok {W Acc : Type} (body : entry -> Acc -> M W Acc) (e : entry)
    (st st' : list entry * Acc) (w w' : W) :
  collect body e st w = (Ok st', w') -> fst st' = fst st ++ [e].
Proof.
  unfold collect, bind, ret.
  destruct (body e (snd st) w) as [[acc'|x] w1]; [|discriminate].
  intros [= <- _]. reflexivity.
Qed.

Lemma good_yields_nil (topdown : bool) (path : string) :
  good_yields topdown path [].
Proof. repeat split; constructor. Qed.

Section RemoteYields.
Context {W : Type} `{Host W} {Acc : Type}.
Variable topdown : bool.
Variable body : entry -> Acc -> M W Acc.
Hypothesis Hlist :
  forall w p l, sftp_listdir_attr p w = Ok l -> names_ok (map filename l).

(** One step of the loop over a listing: the yields of a child. *)
Lemma remote_step_yields
    (recurse : string -> list entry * Acc -> M W (list entry * Acc))
    (path : string) (s : stat_result) st w st' w' :
  (forall file st w st' w',
      recurse file st w = (Ok st', w') ->
      exists L, fst st' = fst st ++ L /\ good_yields topdown file L) ->
  valid_name (filename s) = true ->
  walk_remote_step recurse path topdown (collect body) s st w = (Ok st', w') ->
  exists L, fst st' = fst st ++ L
            /\ good_yields topdown path L
            /\ within path [filename s] L.
Proof.
  intros Hrec Hv. unfold walk_remote_step.
  set (file := os_path.join path (filename s)).
  assert (Hfile : below path file) by (apply below_child, Hv).
  assert (Hsub : sub path (filename s) file) by (apply sub_self, Hv).
  assert (Hin : forall L, good_yields topdown file L ->
                  Forall (fun e => below path (path_of e)) L
                  /\ within path [filename s] L
                  /\ file ∉ map path_of L).
  { intros L (Hb & _ & _). split; [|split].
    - eapply Forall_impl; [exact Hb|]. intros e He.
      eapply below_trans; eassumption.
    - eapply Forall_impl; [exact Hb|]. intros e He.
      exists (filename s). split; [apply list_elem_of_here|].
      apply sub_below; assumption.
    - intros Hx. apply list_elem_of_fmap in Hx as (e & He & Hin).
      rewrite Forall_forall in Hb. apply (below_neq _ _ (Hb _ Hin)).
      symmetry. exact He. }
  destruct (negb (S_ISDIR (st_mode s))).
  - intros Hc. apply collect_Ok in Hc. eexists. split; [exact Hc|].
    split; [|constructor; [|constructor]; exists (filename s);
             split; [apply list_elem_of_here | exact Hsub]].
    split; [constructor; [exact Hfile | constructor]|].
    split; [simpl; constructor; [apply not_elem_of_nil | constructor]|].
    intros _. simpl. split; [discriminate | exact Logic.I].
  - destruct topdown eqn:Etd; unfold bind.
    + destruct (collect body _ st w) as [[st1|x] w1] eqn:Ec; [|discriminate].
      apply collect_Ok in Ec. intros Hr.
      destruct (Hrec _ _ _ _ _ Hr) as (L0 & HL0 & Hg).
      destruct (Hin _ Hg) as (Hb & Hw & Hnot).
      exists (("dir", file, Some s) :: L0). split.
      { rewrite HL0, Ec, <- app_assoc. reflexivity. }
      split; [|constructor;
               [exists (filename s); split;
                  [apply list_elem_of_here | exact Hsub] | exact Hw]].
      split; [constructor; [exact Hfile | exact Hb]|].
      split; [|discriminate].
      simpl. constructor; [exact Hnot | apply Hg].
    + destruct (recurse file st w) as [[st1|x] w1] eqn:Er; [|discriminate].
      destruct (Hrec _ _ _ _ _ Er) as (L0 & HL0 & Hg).
      destruct (Hin _ Hg) as (Hb & Hw & Hnot).
      intros Hc. apply collect_Ok in Hc.
      exists (L0 ++ [("dir", file, None)]). split.
      { rewrite Hc, HL0, <- app_assoc. reflexivity. }
      split; [|apply Forall_app; split; [exact Hw|];
               constructor; [|constructor]; exists (filename s);
               split; [apply list_elem_of_here | exact Hsub]].
      split; [apply Forall_app; split; [exact Hb|];
              constructor; [exact Hfile | constructor]|].
      split.
      * rewrite map_app. apply NoDup_app. split; [apply Hg|]. split.
        -- intros p Hp Hp'. apply list_elem_of_singleton in Hp'. subst p.
           exact (Hnot Hp).
        -- simpl. constructor; [apply not_elem_of_nil | constructor].
      * intros _. destruct Hg as (Hb0 & _ & Hbu).
        apply bottom_up_app; [apply Hbu; reflexivity | |].
        -- simpl. split; [|exact Logic.I]. intros _. split; constructor.
        -- intros e He _. constructor; [|constructor]. simpl. intros Hx.
           rewrite Forall_forall in Hb0.
           exact (below_not_both _ _ (Hb0 _ He) Hx).
Qed.

Lemma sub_disjoint (path n p : string) (names : list string) :
  valid_name n = true -> Forall (fun n => valid_name n = true) names ->
  n ∉ names -> sub path n p ->
  (exists n', n' ∈ names /\ sub path n' p) -> False.
Proof.
  intros Hn Hnames Hnot Hs (n' & Hin & Hs').
  rewrite Forall_forall in Hnames.
  rewrite (sub_same_name _ _ _ _ Hn (Hnames _ Hin) Hs Hs') in Hnot.
  contradiction.
Qed.

Lemma within_single (path n : string) (L : list entry) (e : entry) :
  within path [n] L -> e ∈ L -> sub path n (path_of e).
Proof.
  unfold within. rewrite Forall_forall. intros Hw He.
  destruct (Hw _ He) as (n0 & Hn0 & Hs).
  apply list_elem_of_singleton in Hn0. subst. exact Hs.
Qed.

(** The loop over a listing: the yields of all the children. *)
Lemma remote_loop_yields
    (recurse : string -> list entry * Acc -> M W (list entry * Acc))
    (path : string) :
  (forall file st w st' w',
      recurse file st w = (Ok st', w') ->
      exists L, fst st' = fst st ++ L /\ good_yields topdown file L) ->
  forall l, names_ok (map filename l) ->
  forall st w st' w',
    for_each l (walk_remote_step recurse path topdown (collect body)) st w
    = (Ok st', w') ->
    exists L, fst st' = fst st ++ L
              /\ good_yields topdown path L
              /\ within path (map filename l) L.
Proof.
  intros Hrec. induction l as [|s l IH]; intros [Hnd Hval] st w st' w'; simpl.
  - unfold ret. intros [= <- _]. exists []. rewrite app_nil_r.
    split; [reflexivity|]. split; [apply good_yields_nil | constructor].
  - simpl in Hnd, Hval. apply NoDup_cons in Hnd as [Hnot Hnd].
    apply Forall_cons in Hval as [Hv Hval].
    unfold bind.
    destruct (walk_remote_step recurse path topdown (collect body) s st w)
      as [[st1|x] w1] eqn:Es; [|discriminate].
    intros Hrest.
    destruct (remote_step_yields recurse path s _ _ _ _ Hrec Hv Es)
      as (Ls & HLs & (Hbs & Hnds & Hbus) & Hws).
    destruct (IH (conj Hnd Hval) _ _ _ _ Hrest)
      as (Lr & HLr & (Hbr & Hndr & Hbur) & Hwr).
    assert (Hcross : forall p e', sub path (filename s) p -> e' ∈ Lr ->
                                  p = path_of e' \/ sub path (filename s) (path_of e') ->
                                  False).
    { intros p e' Hp He' Hor. unfold within in Hwr.
      rewrite Forall_forall in Hwr.
      apply (sub_disjoint path (filename s) (path_of e') (map filename l));
        auto.
      destruct Hor as [<- | Hs]; assumption. }
    exists (Ls ++ Lr). split; [rewrite HLr, HLs, app_assoc; reflexivity|].
    split; [split; [|split]|].
    + apply Forall_app. auto.
    + rewrite map_app. apply NoDup_app. split; [exact Hnds|].
      split; [|exact Hndr].
      intros p Hp Hp'.
      apply list_elem_of_fmap in Hp as (e & -> & He).
      apply list_elem_of_fmap in Hp' as (e' & Heq & He').
      apply (Hcross (path_of e) e');
        [eapply within_single; eassumption | exact He' | left; exact Heq].
    + intros Htd. apply bottom_up_app; [apply Hbus, Htd | apply Hbur, Htd|].
      intros e He _. apply Forall_forall. intros e' He' Hbelow.
      rewrite Forall_forall in Hbs.
      destruct (below_tail _ _ (Hbs _ He)) as [Hne Hend].
      apply (Hcross (path_of e) e');
        [eapply within_single; eassumption | exact He' | right].
      eapply sub_closed; [exact Hne | exact Hend | | exact Hbelow].
      eapply within_single; eassumption.
    + apply Forall_app. split.
      * eapply Forall_impl; [exact Hws|]. intros e (n & Hn & Hs).
        apply list_elem_of_singleton in Hn. subst.
        exists (filename s). split; [apply list_elem_of_here | exact Hs].
      * eapply Forall_impl; [exact Hwr|]. intros e (n & Hn & Hs).
        exists n. split; [apply list_elem_of_further, Hn | exact Hs].
Qed.

(** The yields of the remote walker, whatever the loop body does. *)
Lemma walk_remote_yields (fuel : nat) :
  forall path st w st' w',
    _walk_remote fuel path topdown (collect body) st w = (Ok st', w') ->
    exists L, fst st' = fst st ++ L /\ good_yields topdown path L.
Proof.
  induction fuel as [|fuel IH]; intros path st w st' w'; simpl.
  - discriminate.
  - unfold bind at 1, read.
    destruct (listdir_or_empty path w) as [l|x] eqn:El; [|discriminate].
    intros Hrun.
    assert (Hok : names_ok (map filename l)).
    { destruct (listdir_or_empty_Ok _ _ _ El) as [Hl | ->];
        [eapply Hlist; eauto | split; constructor]. }
    destruct (remote_loop_yields _ path IH l Hok _ _ _ _ Hrun)
      as (L & HL & Hg & _).
    eauto.
Qed.

End RemoteYields.

Lemma omap_child_NoDup (p : string) (l : list (string * node)) :
  NoDup (map fst l) -> NoDup (map fst (omap (child_of p) l)).
Proof.
  induction l as [|[k n] l IH]; simpl; intros Hnd; [constructor|].
  apply NoDup_cons in Hnd as [Hk Hnd].
  destruct (child_of p (k, n)) as [[name n']|] eqn:Ec; [|apply IH, Hnd].
  simpl. constructor; [|apply IH, Hnd].
  intros Hin. apply list_elem_of_fmap in Hin as ([name2 n2] & Hname & Hin).
  simpl in Hname. subst name2.
  apply list_elem_of_omap in Hin as ([k' n3] & Hin & Hc').
  apply child_of_Some in Ec as (Ek & _ & _).
  apply child_of_Some in Hc' as (Ek' & _ & _). simpl in Ek, Ek'.
  apply Hk. apply list_elem_of_fmap. exists (k', n3).
  split; [simpl; congruence | exact Hin].
Qed.

Lemma fs_listdir_names_ok (fs : gmap string node) (p : string)
    (l : list (string * node)) :
  fs_listdir fs p = Ok l -> names_ok (map fst l).
Proof.
  intros Hl. split.
  - unfold fs_listdir in Hl. destruct (fs_isdir fs p); [|discriminate].
    injection Hl as <-. apply omap_child_NoDup, NoDup_fst_map_to_list.
  - apply Forall_fmap. eapply Forall_impl; [apply (fs_listdir_valid _ _ _ Hl)|].
    auto.
Qed.

Lemma world_listings_ok : listings_ok world.
Proof.
  split; intros w p l; simpl.
  - destruct (fs_listdir (remote_fs w) p) as [l'|] eqn:El; [|discriminate].
    intros [= <-]. rewrite <- list_fmap_compose.
    apply (fs_listdir_names_ok _ _ _ El).
  - destruct (fs_listdir (local_fs w) p) as [l'|] eqn:El; [|discriminate].
    intros [= <-]. rewrite <- list_fmap_compose.
    apply (fs_listdir_names_ok _ _ _ El).
Qed.

(** ** A walk is a loop over its yields when the loop leaves the walked
       side alone *)

Lemma for_each_app {W A Acc : Type} (l1 l2 : list A)
    (body : A -> Acc -> M W Acc) (acc : Acc) (w : W) :
  for_each (l1 ++ l2) body acc w
  = bind (for_each l1 body acc) (for_each l2 body) w.
Proof.
  revert acc w. induction l1 as [|x l1 IH]; intros acc w; simpl.
  - reflexivity.
  - unfold bind. destruct (body x acc w) as [[acc'|e] w']; [|reflexivity].
    rewrite IH. reflexivity.
Qed.

Section Follows.
Context {W Acc : Type}.
Variable agree : W -> W -> Prop.
Variable body : entry -> Acc -> M W Acc.
Variable w0 : W.
Hypothesis body_agree :
  forall e acc w, agree w w0 -> agree (snd (body e acc w)) w0.

Lemma for_each_agree (L : list entry) (acc : Acc) (w : W) :
  agree w w0 -> agree (snd (for_each L body acc w)) w0.
Proof.
  revert acc w. induction L as [|e L IH]; intros acc w Hw; simpl.
  - exact Hw.
  - unfold bind. pose proof (body_agree e acc w Hw) as Hb.
    destruct (body e acc w) as [[acc'|x] w']; [apply IH, Hb | exact Hb].
Qed.

Lemma follows_ret : follows agree body w0 ret ret.
Proof.
  intros log acc w _. simpl. split; [reflexivity|].
  exists []. rewrite app_nil_r. split; reflexivity.
Qed.

Lemma follows_raise (x : exn) : follows agree body w0 (fun _ => raise x) (fun _ => raise x).
Proof. intros log acc w _. reflexivity. Qed.

Lemma follows_yield (e : entry) :
  follows agree body w0 (collect idle e) (body e).
Proof.
  intros log acc w _. simpl. split; [reflexivity|].
  exists [e]. split; [reflexivity|]. simpl. unfold bind, ret.
  destruct (body e acc w) as [[acc'|x] w']; reflexivity.
Qed.

Lemma follows_bind f1 r1 f2 r2 :
  follows agree body w0 f1 r1 -> follows agree body w0 f2 r2 ->
  follows agree body w0 (fun st => bind (f1 st) f2) (fun acc => bind (r1 acc) r2).
Proof.
  intros H1 H2 log acc w Hw. unfold bind. specialize (H1 log acc w Hw).
  destruct (f1 (log, tt) w0) as [[[log1 []]|x] w1].
  - destruct H1 as (-> & L1 & -> & Hr1). rewrite Hr1.
    pose proof (for_each_agree L1 acc w Hw) as Hag.
    destruct (for_each L1 body acc w) as [[acc1|x1] w1'] eqn:E1; simpl in Hag.
    + specialize (H2 (log ++ L1) acc1 w1' Hag).
      destruct (f2 (log ++ L1, tt) w0) as [[[log2 []]|x2] w2]; [|exact H2].
      destruct H2 as (-> & L2 & -> & Hr2). split; [reflexivity|].
      exists (L1 ++ L2). split; [symmetry; apply app_assoc|].
      rewrite for_each_app. unfold bind. rewrite E1. exact Hr2.
    + specialize (H2 (log ++ L1) acc w Hw).
      destruct (f2 (log ++ L1, tt) w0) as [[[log2 []]|x2] w2]; [|reflexivity].
      destruct H2 as (-> & L2 & -> & _). split; [reflexivity|].
      exists (L1 ++ L2). split; [symmetry; apply app_assoc|].
      rewrite for_each_app. unfold bind. rewrite E1. reflexivity.
  - rewrite <- H1. destruct (r1 acc w) as [[a|y] w']; [discriminate|].
    reflexivity.
Qed.

Lemma follows_for_each {A : Type} (l : list A)
    (f : A -> list entry * unit -> M W (list entry * unit))
    (r : A -> Acc -> M W Acc) :
  (forall x, follows agree body w0 (f x) (r x)) ->
  follows agree body w0 (fun st => for_each l f st)
    (fun acc => for_each l r acc).
Proof.
  intros Hx. induction l as [|x l IH]; simpl.
  - apply follows_ret.
  - apply (follows_bind (f x) (r x)); [apply Hx | exact IH].
Qed.

Context `{Host W}.
Hypothesis listdir_agree :
  forall p w, agree w w0 -> sftp_listdir_attr p w = sftp_listdir_attr p w0.
Hypothesis scandir_agree :
  forall p w, agree w w0 -> os_scandir p w = os_scandir p w0.
Hypothesis stat_agree :
  forall p w, agree w w0 -> os_stat p w = os_stat p w0.

Lemma follows_listdir (path : string)
    (f : list stat_result -> list entry * unit -> M W (list entry * unit))
    (r : list stat_result -> Acc -> M W Acc) :
  (forall l, follows agree body w0 (f l) (r l)) ->
  follows agree body w0
    (fun st => bind (read (listdir_or_empty path)) (fun l => f l st))
    (fun acc => bind (read (listdir_or_empty path)) (fun l => r l acc)).
Proof.
  intros Hl log acc w Hw. unfold bind, read.
  assert (E : listdir_or_empty path w = listdir_or_empty path w0).
  { unfold listdir_or_empty. rewrite (listdir_agree path w Hw). reflexivity. }
  rewrite E. destruct (listdir_or_empty path w0) as [l|x]; [|reflexivity].
  exact (Hl l log acc w Hw).
Qed.

Lemma follows_walk_remote (topdown : bool) (fuel : nat) :
  forall path,
    follows agree body w0
      (fun st => _walk_remote fuel path topdown (collect idle) st)
      (fun acc => _walk_remote fuel path topdown body acc).
Proof.
  induction fuel as [|fuel IH]; intros path; simpl.
  - apply follows_raise.
  - apply (follows_listdir path
             (fun l st => for_each l
                (walk_remote_step
                   (fun file acc =>
                      _walk_remote fuel file topdown (collect idle) acc)
                   path topdown (collect idle)) st)
             (fun l acc => for_each l
                (walk_remote_step
                   (fun file acc => _walk_remote fuel file topdown body acc)
                   path topdown body) acc)).
    intros l. apply follows_for_each.
    intros s. unfold walk_remote_step. destruct (negb (S_ISDIR (st_mode s))).
    + apply follows_yield.
    + destruct topdown.
      * apply (follows_bind (collect idle _) (body _)); [apply follows_yield | apply IH].
      * apply (follows_bind _ _ (collect idle _) (body _)); [apply IH | apply follows_yield].
Qed.

Lemma follows_os_walk (topdown : bool)
    (bf : string * list string * list string ->
          list entry * unit -> M W (list entry * unit))
    (br : string * list string * list string -> Acc -> M W Acc) :
  (forall t, follows agree body w0 (bf t) (br t)) ->
  forall fuel top,
    follows agree body w0 (fun st => os_walk fuel top topdown bf st)
      (fun acc => os_walk fuel top topdown br acc).
Proof.
  intros Hb. induction fuel as [|fuel IH]; intros top; simpl.
  - apply follows_raise.
  - intros log acc w Hw. rewrite (scandir_agree top w Hw).
    destruct (os_scandir top w0) as [l|x].
    2:{ destruct (is_IOError x); [|reflexivity]. simpl.
        split; [reflexivity|]. exists []. rewrite app_nil_r. auto. }
    set (dirs := map fst (List.filter snd l)).
    set (nondirs := map fst (List.filter (fun e => negb (snd e)) l)).
    assert (Hbelow : follows agree body w0
              (fun st => for_each dirs (fun d acc =>
                 os_walk fuel (os_path.join top d) topdown bf acc) st)
              (fun acc => for_each dirs (fun d acc =>
                 os_walk fuel (os_path.join top d) topdown br acc) acc)).
    { apply follows_for_each. intros d. apply IH. }
    destruct topdown.
    + exact (follows_bind (bf _) (br _) _ _ (Hb (top, dirs, nondirs)) Hbelow
               log acc w Hw).
    + exact (follows_bind _ _ (bf _) (br _) Hbelow (Hb (top, dirs, nondirs))
               log acc w Hw).
Qed.

Lemma follows_os_stat (p : string)
    (f : stat_result -> list entry * unit -> M W (list entry * unit))
    (r : stat_result -> Acc -> M W Acc) :
  (forall s, follows agree body w0 (f s) (r s)) ->
  follows agree body w0
    (fun st => bind (read (os_stat p)) (fun s => f s st))
    (fun acc => bind (read (os_stat p)) (fun s => r s acc)).
Proof.
  intros Hs log acc w Hw. unfold bind, read.
  rewrite (stat_agree p w Hw).
  destruct (os_stat p w0) as [s|x]; [|reflexivity].
  exact (Hs s log acc w Hw).
Qed.

Lemma follows_walk_local (topdown : bool) (fuel : nat) (path : string) :
  follows agree body w0
    (fun st => _walk_local fuel path topdown (collect idle) st)
    (fun acc => _walk_local fuel path topdown body acc).
Proof.
  unfold _walk_local. apply follows_os_walk. intros [[root dirs] files].
  assert (Hone : forall k names,
             follows agree body w0
               (fun st => for_each names (fun name acc =>
                  bind (read (os_stat (os_path.join root name)))
                    (fun s => collect idle
                                (k, os_path.join root name, Some s) acc)) st)
               (fun acc => for_each names (fun name acc =>
                  bind (read (os_stat (os_path.join root name)))
                    (fun s => body (k, os_path.join root name, Some s) acc))
                  acc)).
  { intros k names. apply follows_for_each. intros name.
    apply (follows_os_stat _
             (fun s => collect idle (k, os_path.join root name, Some s))
             (fun s => body (k, os_path.join root name, Some s))).
    intros s. apply follows_yield. }
  apply (follows_bind _ _ _ _ (Hone "file" files) (Hone "dir" dirs)).
Qed.

Lemma follows_walk (topdown remote : bool) (fuel : nat) (path : string) :
  follows agree body w0
    (fun st => _walk fuel path topdown remote (collect idle) st)
    (fun acc => _walk fuel path topdown remote body acc).
Proof.
  unfold _walk. destruct remote;
    [apply follows_walk_remote | apply follows_walk_local].
Qed.

End Follows.

(** ** Recording the yields does not change a walk *)

Section Records.
Context {W Acc : Type} `{Host W}.
Variable body : entry -> Acc -> M W Acc.

Lemma records_ret : records (W := W) (Acc := Acc) ret ret.
Proof.
  intros log acc w. simpl. repeat split. exists []. rewrite app_nil_r. reflexivity.
Qed.

Lemma records_raise (x : exn) :
  records (W := W) (Acc := Acc) (fun _ => raise x) (fun _ => raise x).
Proof. intros log acc w. simpl. auto. Qed.

Lemma records_yield (e : entry) : records (collect body e) (body e).
Proof.
  intros log acc w. unfold collect, bind, ret. simpl.
  destruct (body e acc w) as [[acc'|x] w']; [|auto].
  repeat split. exists [e]. reflexivity.
Qed.

Lemma records_bind
    (f1 : list entry * Acc -> M W (list entry * Acc)) (r1 : Acc -> M W Acc)
    (f2 : list entry * Acc -> M W (list entry * Acc)) (r2 : Acc -> M W Acc) :
  records f1 r1 -> records f2 r2 ->
  records (fun st => bind (f1 st) f2) (fun acc => bind (r1 acc) r2).
Proof.
  intros H1 H2 log acc w. unfold bind. specialize (H1 log acc w).
  destruct (f1 (log, acc) w) as [[[log1 a1]|x1] w1],
           (r1 acc w) as [[a2|x2] w2]; try contradiction.
  - destruct H1 as (-> & -> & L1 & ->). specialize (H2 (log ++ L1) a2 w2).
    destruct (f2 (log ++ L1, a2) w2) as [[[log2 a3]|x3] w3],
             (r2 a2 w2) as [[a4|x4] w4]; try contradiction; [|exact H2].
    destruct H2 as (-> & -> & L2 & ->). repeat split.
    exists (L1 ++ L2). symmetry. apply app_assoc.
  - exact H1.
Qed.

Lemma records_for_each {A : Type} (l : list A)
    (f : A -> list entry * Acc -> M W (list entry * Acc))
    (r : A -> Acc -> M W Acc) :
  (forall x, records (f x) (r x)) ->
  records (fun st => for_each l f st) (fun acc => for_each l r acc).
Proof.
  intros Hx. induction l as [|x l IH]; simpl.
  - apply records_ret.
  - apply (records_bind (f x) (r x)); [apply Hx | exact IH].
Qed.

Lemma records_read {B : Type} (g : W -> res B)
    (f : B -> list entry * Acc -> M W (list entry * Acc))
    (r : B -> Acc -> M W Acc) :
  (forall b, records (f b) (r b)) ->
  records (fun st => bind (read g) (fun b => f b st))
    (fun acc => bind (read g) (fun b => r b acc)).
Proof.
  intros Hb log acc w. unfold bind, read.
  destruct (g w) as [b|x]; [exact (Hb b log acc w) | auto].
Qed.

Lemma records_walk_remote (topdown : bool) (fuel : nat) :
  forall path,
    records (fun st => _walk_remote fuel path topdown (collect body) st)
      (fun acc => _walk_remote fuel path topdown body acc).
Proof.
  induction fuel as [|fuel IH]; intros path; simpl.
  - apply records_raise.
  - apply (records_read (listdir_or_empty path)
             (fun l st => for_each l
                (walk_remote_step
                   (fun file acc =>
                      _walk_remote fuel file topdown (collect body) acc)
                   path topdown (collect body)) st)
             (fun l acc => for_each l
                (walk_remote_step
                   (fun file acc => _walk_remote fuel file topdown body acc)
                   path topdown body) acc)).
    intros l. apply records_for_each.
    intros s. unfold walk_remote_step. destruct (negb (S_ISDIR (st_mode s))).
    + apply records_yield.
    + destruct topdown.
      * apply (records_bind (collect body _) (body _));
          [apply records_yield | apply IH].
      * apply (records_bind _ _ (collect body _) (body _));
          [apply IH | apply records_yield].
Qed.

Lemma records_os_walk (topdown : bool)
    (bf : string * list string * list string ->
          list entry * Acc -> M W (list entry * Acc))
    (br : string * list string * list string -> Acc -> M W Acc) :
  (forall t, records (bf t) (br t)) ->
  forall fuel top,
    records (fun st => os_walk fuel top topdown bf st)
      (fun acc => os_walk fuel top topdown br acc).
Proof.
  intros Hb. induction fuel as [|fuel IH]; intros top; simpl.
  - apply records_raise.
  - intros log acc w.
    destruct (os_scandir top w) as [l|x].
    2:{ destruct (is_IOError x); simpl; [|auto].
        repeat split. exists []. rewrite app_nil_r. reflexivity. }
    set (dirs := map fst (List.filter snd l)).
    set (nondirs := map fst (List.filter (fun e => negb (snd e)) l)).
    assert (Hbelow : records
              (fun st => for_each dirs (fun d acc =>
                 os_walk fuel (os_path.join top d) topdown bf acc) st)
              (fun acc => for_each dirs (fun d acc =>
                 os_walk fuel (os_path.join top d) topdown br acc) acc)).
    { apply records_for_each. intros d. apply IH. }
    destruct topdown.
    + exact (records_bind (bf _) (br _) _ _ (Hb (top, dirs, nondirs)) Hbelow
               log acc w).
    + exact (records_bind _ _ (bf _) (br _) Hbelow (Hb (top, dirs, nondirs))
               log acc w).
Qed.

Lemma records_walk_local (topdown : bool) (fuel : nat) (path : string) :
  records (fun st => _walk_local fuel path topdown (collect body) st)
    (fun acc => _walk_local fuel path topdown body acc).
Proof.
  unfold _walk_local. apply records_os_walk. intros [[root dirs] files].
  assert (Hone : forall k names,
             records
               (fun st => for_each names (fun name acc =>
                  bind (read (os_stat (os_path.join root name)))
                    (fun s => collect body
                                (k, os_path.join root name, Some s) acc)) st)
               (fun acc => for_each names (fun name acc =>
                  bind (read (os_stat (os_path.join root name)))
                    (fun s => body (k, os_path.join root name, Some s) acc))
                  acc)).
  { intros k names. apply records_for_each. intros name.
    apply (records_read _
             (fun s => collect body (k, os_path.join root name, Some s))
             (fun s => body (k, os_path.join root name, Some s))).
    intros s. apply records_yield. }
  apply (records_bind _ _ _ _ (Hone "file" files) (Hone "dir" dirs)).
Qed.

Lemma records_walk (topdown remote : bool) (fuel : nat) (path : string) :
  records (fun st => _walk fuel path topdown remote (collect body) st)
    (fun acc => _walk fuel path topdown remote body acc).
Proof.
  unfold _walk. destruct remote;
    [apply records_walk_remote | apply records_walk_local].
Qed.

End Records.

(** ** The deletion pass *)

Lemma filter_snoc {A : Type} (f : A -> bool) (l : list A) (x : A) :
  List.filter f (l ++ [x]) = List.filter f l ++ (if f x then [x] else []).
Proof.
  induction l as [|y l IH]; simpl.
  - destruct (f x); reflexivity.
  - rewrite IH. destruct (f y); reflexivity.
Qed.

Lemma delete_dst_body_effect {W : Type} `{Host W} (remote : bool)
    (files : gmap string (list string)) (e : entry) (w : W) :
  match _delete_dst_body remote false files e w with
  | (Ok _, w') =>
      w' = if extraneous files e then remove_entry remote e w else w
  | (Raise x, w') =>
      files !! kind_of e = None /\ x = KeyError (kind_of e) /\ w' = w
  end.
Proof.
  destruct e as [[k p] st].
  unfold _delete_dst_body, extraneous, remove_entry, kind_of, path_of.
  cbn [fst snd negb].
  destruct (files !! k) as [l|]; [|unfold raise; auto].
  destruct (negb (in_list p l)); [|reflexivity].
  destruct (callables remote !! k); reflexivity.
Qed.


(** With deletion enabled and dry-run on, the pass removes nothing: the
    destination file [gone.txt], which the source does not have and the
    manifest does not hold, is still there after the run. *)
Lemma dry_deletion_keeps_extraneous :
  let r := sync (pattern := list item) 8 "/a/b" "/c/d" false None
             (Some ["\.tmp$"; "^sub$"]) true true delete_world in
  exists total files,
    fst r = Ok (total, files)
    /\ extraneous files ("file", "/c/d/gone.txt", None) = true
    /\ remote_fs (snd r) !! "/c/d/gone.txt" = Some (file_node 1 1)
    /\ calls (snd r) = [].
Proof.
  vm_compute. eexists _, _. split; [reflexivity|].
  repeat split; reflexivity.
Qed.

(** ** Relative paths and the translation to the destination *)

Lemma rel_path_tail (t : string) :
  rel_path t -> t <> "" /\ startswith_sep t = false /\ endswith_sep t = false.
Proof.
  induction 1 as [n Hn | t n _ (Ht & Hs & He) Hn].
  - apply valid_name_inv in Hn as [Hn Hs].
    auto using has_sep_startswith, has_sep_endswith.
  - apply valid_name_inv in Hn as [Hn Hsn]. split; [|split].
    + destruct t; [contradiction | discriminate].
    + destruct t; [contradiction | exact Hs].
    + rewrite <- append_assoc, endswith_append by exact Hn.
      apply has_sep_endswith, Hsn.
Qed.

Lemma join_prefix_tail (x : string) :
  x <> "" -> endswith_sep x = false -> join_prefix x = x +:+ "/".
Proof.
  intros Hx He. unfold join_prefix. rewrite He.
  destruct (String.eqb_spec x ""); [contradiction | reflexivity].
Qed.

Lemma prefix_rel_tail (pre t : string) :
  rel_path t -> pre +:+ t <> "" /\ endswith_sep (pre +:+ t) = false.
Proof.
  intros Hr. destruct (rel_path_tail _ Hr) as (Ht & _ & He). split.
  - destruct pre; simpl; [exact Ht | discriminate].
  - rewrite endswith_append by exact Ht. exact He.
Qed.

Lemma below_rel (root p : string) :
  below root p <-> exists t, rel_path t /\ p = join_prefix root +:+ t.
Proof.
  split.
  - induction 1 as [n Hn | p n _ (t & Ht & ->) Hn].
    + exists n. split; [constructor; exact Hn | apply join_valid, Hn].
    + exists (t +:+ "/" +:+ n). split; [constructor; assumption|].
      rewrite (join_valid _ _ Hn).
      destruct (prefix_rel_tail (join_prefix root) t Ht) as [Hne He].
      rewrite (join_prefix_tail _ Hne He), !append_assoc. reflexivity.
  - intros (t & Ht & ->). induction Ht as [n Hn | t n Ht IH Hn].
    + rewrite <- (join_valid _ _ Hn). constructor. exact Hn.
    + destruct (prefix_rel_tail (join_prefix root) t Ht) as [Hne He].
      replace (join_prefix root +:+ t +:+ "/" +:+ n)
        with (os_path.join (join_prefix root +:+ t) n).
      * apply below_step; assumption.
      * rewrite (join_valid _ _ Hn), (join_prefix_tail _ Hne He), !append_assoc.
        reflexivity.
Qed.

Lemma rstrip_sep_tail (s : string) : endswith_sep (rstrip_sep s) = false.
Proof.
  induction s as [|c s IH]; simpl; [reflexivity|].
  destruct (rstrip_sep s) as [|c' r] eqn:E.
  - destruct (is_sep c) eqn:Ec; simpl; [reflexivity | exact Ec].
  - simpl. simpl in IH. exact IH.
Qed.

(** The prefix that [re_base] removes is what the walker puts before the
    names it joins to the root. *)
Lemma sync_roots_prefix (src0 dst0 : string) :
  let '(src, re_base, dst) := sync_roots src0 dst0 in
  join_prefix src = re_base +:+ "/".
Proof.
  unfold sync_roots. destruct (String.eqb_spec (rstrip_sep src0) "") as [E|E].
  - rewrite E. reflexivity.
  - apply join_prefix_tail; [exact E | apply rstrip_sep_tail].
Qed.

Lemma re_base_sub_rel (re_base src t : string) :
  join_prefix src = re_base +:+ "/" ->
  re_base_sub re_base (join_prefix src +:+ t) = t.
Proof.
  intros E. unfold re_base_sub. rewrite E.
  destruct (strip_prefix (re_base +:+ "/") ((re_base +:+ "/") +:+ t))
    as [r|] eqn:Es.
  - apply strip_prefix_Some in Es. apply String.app_inj in Es. congruence.
  - assert (H : strip_prefix (re_base +:+ "/") ((re_base +:+ "/") +:+ t)
                = Some t) by (apply strip_prefix_Some; reflexivity).
    congruence.
Qed.

Lemma join_rel (dst t : string) :
  rel_path t -> os_path.join dst t = join_prefix dst +:+ t.
Proof.
  intros Ht. destruct (rel_path_tail _ Ht) as (_ & Hs & _).
  unfold os_path.join, join_prefix. rewrite Hs.
  destruct (String.eqb dst "" || endswith_sep dst); [reflexivity|].
  rewrite append_assoc. reflexivity.
Qed.

(** The destination path of a walked source path: the same relative path
    under the destination root. *)
Lemma dst_file_of_below (re_base src dst p : string) :
  join_prefix src = re_base +:+ "/" -> below src p ->
  exists t, rel_path t /\ p = join_prefix src +:+ t
            /\ re_base_sub re_base p = t
            /\ dst_file_of re_base dst p = join_prefix dst +:+ t
            /\ below dst (dst_file_of re_base dst p).
Proof.
  intros E Hb. apply below_rel in Hb as (t & Ht & ->).
  exists t. unfold dst_file_of. rewrite (re_base_sub_rel _ _ _ E).
  rewrite (join_rel _ _ Ht). repeat split; auto.
  apply below_rel. eauto.
Qed.

Lemma dst_file_of_inj (re_base src dst p q : string) :
  join_prefix src = re_base +:+ "/" -> below src p -> below src q ->
  dst_file_of re_base dst p = dst_file_of re_base dst q -> p = q.
Proof.
  intros E Hp Hq Heq.
  destruct (dst_file_of_below _ _ dst _ E Hp) as (t & _ & -> & _ & Et & _).
  destruct (dst_file_of_below _ _ dst _ E Hq) as (u & _ & -> & _ & Eu & _).
  rewrite Et, Eu in Heq. apply String.app_inj in Heq. congruence.
Qed.

(** A strict descendant is its own key in the model. *)
Lemma below_key (root p : string) :
  below root p -> norm p = p /\ implicit_dir p = false.
Proof.
  intros Hb. destruct (below_tail _ _ Hb) as [Hne He]. split.
  - apply norm_id, He.
  - unfold implicit_dir. destruct (String.eqb_spec p "/") as [->|_];
      [discriminate|].
    destruct (String.eqb_spec p ""); [contradiction | reflexivity].
Qed.

Lemma fs_stat_key (fs : gmap string node) (root p : string) :
  below root p -> fs_stat fs p = fs !! p.
Proof.
  intros Hb. destruct (below_key _ _ Hb) as [Hn Hi].
  unfold fs_stat. rewrite Hn, Hi. reflexivity.
Qed.

(** ** The effect of the engine on the model *)

Lemma side_put_side (r : bool) (fs : gmap string node) (cs : list call)
    (w : world) :
  side r (put_side r fs cs w) = fs.
Proof. destruct r; reflexivity. Qed.

Lemma side_put_side_other (r : bool) (fs : gmap string node) (cs : list call)
    (w : world) :
  side (negb r) (put_side r fs cs w) = side (negb r) w.
Proof. destruct r; reflexivity. Qed.

Lemma now_put_side (r : bool) (fs : gmap string node) (cs : list call)
    (w : world) :
  now (put_side r fs cs w) = now w.
Proof. destruct r; reflexivity. Qed.

Lemma calls_put_side (r : bool) (fs : gmap string node) (cs : list call)
    (w : world) :
  calls (put_side r fs cs w) = calls w ++ cs.
Proof. destruct r; reflexivity. Qed.

Lemma put_side_id (r : bool) (w : world) : put_side r (side r w) [] w = w.
Proof. destruct w, r; simpl; rewrite app_nil_r; reflexivity. Qed.

Lemma put_side_twice (r : bool) (fs fs' : gmap string node)
    (cs cs' : list call) (w : world) :
  put_side r fs' cs' (put_side r fs cs w) = put_side r fs' (cs ++ cs') w.
Proof. destruct r; simpl; rewrite app_assoc; reflexivity. Qed.

Lemma frame_except_refl (K : string -> Prop) (fs : gmap string node) :
  frame_except K fs fs.
Proof. intros k _. left. reflexivity. Qed.

Lemma frame_except_trans (K K' : string -> Prop) (fs fs' fs'' : gmap string node) :
  frame_except K fs fs' -> frame_except K' fs' fs'' ->
  frame_except (fun k => K k \/ K' k) fs fs''.
Proof.
  intros H1 H2 k Hk.
  destruct (H1 k ltac:(tauto)) as [E1 | (N1 & t1 & D1)];
    destruct (H2 k ltac:(tauto)) as [E2 | (N2 & t2 & D2)].
  - left. congruence.
  - right. split; [congruence | eauto].
  - right. split; [exact N1 | exists t1; congruence].
  - congruence.
Qed.

Lemma frame_except_weaken (K K' : string -> Prop) (fs fs' : gmap string node) :
  (forall k, K k -> K' k) -> frame_except K fs fs' -> frame_except K' fs fs'.
Proof. intros HK H k Hk. apply H. intros HKk. apply Hk, HK, HKk. Qed.

Lemma frame_except_grown (fs fs' fs'' : gmap string node) :
  frame_except (fun _ => False) fs fs' ->
  frame_except (fun _ => False) fs' fs'' ->
  frame_except (fun _ => False) fs fs''.
Proof.
  intros H1 H2. eapply frame_except_weaken;
    [|exact (frame_except_trans _ _ _ _ _ H1 H2)].
  simpl. tauto.
Qed.

(** What exists goes on existing, unchanged, outside the keys [K]. *)
Lemma frame_lookup (K : string -> Prop) (fs fs' : gmap string node)
    (k : string) (n : node) :
  frame_except K fs fs' -> ~ K k -> fs !! k = Some n -> fs' !! k = Some n.
Proof.
  intros H Hk Hn. destruct (H k Hk) as [E | (N & _)]; congruence.
Qed.

Lemma frame_stat (K : string -> Prop) (fs fs' : gmap string node)
    (p : string) (n : node) :
  frame_except K fs fs' -> ~ K (norm p) ->
  fs_stat fs p = Some n -> fs_stat fs' p = Some n.
Proof.
  unfold fs_stat. intros H Hk. destruct (implicit_dir (norm p)); [auto|].
  apply (frame_lookup _ _ _ _ _ H Hk).
Qed.

Lemma fs_stat_None (fs : gmap string node) (p : string) :
  fs_stat fs p = None -> implicit_dir (norm p) = false /\ fs !! norm p = None.
Proof.
  unfold fs_stat. destruct (implicit_dir (norm p)); [discriminate | auto].
Qed.

Lemma fs_stat_insert (fs : gmap string node) (p : string) (n : node) :
  implicit_dir (norm p) = false -> fs_stat (<[norm p := n]> fs) p = Some n.
Proof.
  intros Hi. unfold fs_stat. rewrite Hi. apply lookup_insert_eq.
Qed.

Lemma frame_insert_new (fs : gmap string node) (k : string) (t : num) :
  fs !! k = None -> frame_except (fun _ => False) fs (<[k := dir_node t]> fs).
Proof.
  intros Hn k' _. destruct (decide (k' = k)) as [->|Hne].
  - right. split; [exact Hn|]. exists t. apply lookup_insert_eq.
  - left. apply lookup_insert_ne. congruence.
Qed.

Lemma frame_insert_at (fs : gmap string node) (k : string) (n : node) :
  frame_except (fun k' => k' = k) fs (<[k := n]> fs).
Proof.
  intros k' Hne. left. apply lookup_insert_ne. congruence.
Qed.

Lemma fs_mkdir_spec (t : num) (p : string) (fs : gmap string node) :
  frame_except (fun _ => False) fs (snd (fs_mkdir t p fs))
  /\ (fst (fs_mkdir t p fs) = Ok tt ->
      is_Some (fs_stat (snd (fs_mkdir t p fs)) p)).
Proof.
  unfold fs_mkdir. destruct (fs_stat fs p) as [n|] eqn:Es.
  - split; [apply frame_except_refl | discriminate].
  - apply fs_stat_None in Es as [Hi Hn].
    destruct (fs_isdir fs (os_path.dirname (norm p))); simpl.
    + split; [apply frame_insert_new, Hn|].
      intros _. rewrite (fs_stat_insert _ _ _ Hi). eauto.
    + split; [apply frame_except_refl | discriminate].
Qed.

Lemma fs_mkdirs_spec (t : num) (ps : list string) :
  forall fs,
    frame_except (fun _ => False) fs (snd (fs_mkdirs t ps fs))
    /\ (fst (fs_mkdirs t ps fs) = Ok tt ->
        forall q, last ps = Some q ->
                  is_Some (fs_stat (snd (fs_mkdirs t ps fs)) q)).
Proof.
  induction ps as [|p ps IH]; intros fs.
  - simpl. split; [apply frame_except_refl | discriminate].
  - destruct ps as [|p' ps].
    + cbn [fs_mkdirs]. destruct (fs_mkdir_spec t p fs) as [Hf Hs].
      split; [exact Hf|]. intros Hok q [= <-]. apply Hs, Hok.
    + change (fs_mkdirs t (p :: p' :: ps) fs)
        with (match fs_stat fs p with
              | Some _ => fs_mkdirs t (p' :: ps) fs
              | None =>
                  match fs_mkdir t p fs with
                  | (Ok _, fs') => fs_mkdirs t (p' :: ps) fs'
                  | (Raise e, fs') => (Raise e, fs')
                  end
              end).
      change (last (p :: p' :: ps)) with (last (p' :: ps)).
      destruct (fs_stat fs p); [apply IH|].
      destruct (fs_mkdir_spec t p fs) as [Hf _].
      destruct (fs_mkdir t p fs) as [[u|x] fs1]; simpl in Hf.
      * destruct (IH fs1) as [Hf1 Hs1]. split; [|exact Hs1].
        eapply frame_except_grown; eassumption.
      * split; [exact Hf | discriminate].
Qed.

Lemma parents_last (fuel : nat) :
  forall p acc ps,
    parents fuel p acc = Ok ps -> implicit_dir p = false ->
    exists ps', ps = ps' ++ p :: acc.
Proof.
  induction fuel as [|fuel IH]; intros p acc ps Hp Hi;
    pose proof Hi as Hi'; unfold implicit_dir in Hi';
    simpl in Hp; rewrite Hi' in Hp.
  - discriminate.
  - destruct (implicit_dir (os_path.dirname p)) eqn:Ed.
    + unfold implicit_dir in Ed. destruct fuel; simpl in Hp; rewrite Ed in Hp;
        injection Hp as <-; exists []; reflexivity.
    + destruct (IH _ _ _ Hp Ed) as (ps' & ->).
      exists (ps' ++ [os_path.dirname p]). rewrite <- app_assoc. reflexivity.
Qed.

Lemma norm_idem (p : string) : norm (norm p) = norm p.
Proof.
  assert (H : norm p = "/" \/ norm p = rstrip_sep p).
  { unfold norm.
    destruct (String.eqb (rstrip_sep p) "" && negb (String.eqb p "")); auto. }
  destruct H as [-> | ->]; [reflexivity|].
  apply norm_id, rstrip_sep_tail.
Qed.

Lemma fs_stat_norm (fs : gmap string node) (p : string) :
  fs_stat fs (norm p) = fs_stat fs p.
Proof. unfold fs_stat. rewrite norm_idem. reflexivity. Qed.

Lemma fs_makedirs_spec (t : num) (p : string) (fs : gmap string node) :
  frame_except (fun _ => False) fs (snd (fs_makedirs t p fs))
  /\ (fs_stat fs p = None -> fst (fs_makedirs t p fs) = Ok tt ->
      is_Some (fs_stat (snd (fs_makedirs t p fs)) p)).
Proof.
  unfold fs_makedirs.
  destruct (parents (String.length (norm p)) (norm p) []) as [ps|x] eqn:Ep.
  - destruct (fs_mkdirs_spec t ps fs) as [Hf Hs]. split; [exact Hf|].
    intros Hn Hok. apply fs_stat_None in Hn as [Hi _].
    destruct (parents_last _ _ _ _ Ep Hi) as (ps' & ->).
    rewrite <- fs_stat_norm. apply (Hs Hok). apply last_snoc.
  - simpl. split; [apply frame_except_refl | discriminate].
Qed.

(** ** The constructor *)

Lemma connect_loop_first {Sess : Type} (try : nat -> attempt Sess)
    (max_attempts : Z) (k : nat) :
  forall i n : nat,
    Z.of_nat (i + n) = max_attempts -> (k < n)%nat ->
    (forall j, (i <= j < i + k)%nat -> is_failed (try j) = true) ->
    is_failed (try (i + k)%nat) = false ->
    connect_loop try max_attempts i n = (outcome (try (i + k)%nat), S (i + k)).
Proof.
  induction k as [|k IH]; intros i n Hmax Hk Hf Hn;
    (destruct n as [|n]; [lia|]); simpl.
  - rewrite Nat.add_0_r in *.
    destruct (try i); simpl in *; try reflexivity; discriminate.
  - pose proof (Hf i ltac:(lia)) as Hi.
    destruct (try i) as [s|m|m|m]; try discriminate.
    destruct (Z.eqb_spec (Z.of_nat i) (max_attempts - 1)) as [E|_]; [lia|].
    replace (i + S k)%nat with (S i + k)%nat in * by lia.
    apply IH; [lia | lia | | exact Hn].
    intros j Hj. apply Hf. lia.
Qed.

Lemma connect_loop_exhaust {Sess : Type} (try : nat -> attempt Sess)
    (max_attempts : Z) (n : nat) :
  forall i : nat,
    Z.of_nat (i + S n) = max_attempts ->
    (forall j, (i <= j < i + S n)%nat -> is_failed (try j) = true) ->
    connect_loop try max_attempts i (S n)
    = (outcome (try (i + n)%nat), S (i + n)).
Proof.
  induction n as [|n IH]; intros i Hmax Hf.
  - simpl. rewrite Nat.add_0_r. pose proof (Hf i ltac:(lia)) as Hi.
    destruct (try i) as [s|m|m|m]; try discriminate.
    destruct (Z.eqb_spec (Z.of_nat i) (max_attempts - 1)) as [_|E]; [|lia].
    reflexivity.
  - cbn [connect_loop]. pose proof (Hf i ltac:(lia)) as Hi.
    destruct (try i) as [s|m|m|m]; try discriminate.
    destruct (Z.eqb_spec (Z.of_nat i) (max_attempts - 1)) as [E|_]; [lia|].
    replace (i + S n)%nat with (S i + n)%nat by lia.
    apply IH; [lia|]. intros j Hj. apply Hf. lia.
Qed.

Lemma connect_loop_session {Sess : Type} (try : nat -> attempt Sess)
    (max_attempts : Z) (n : nat) :
  forall i : nat,
    Z.of_nat (i + S n) = max_attempts ->
    fst (connect_loop try max_attempts i (S n)) <> built None.
Proof.
  induction n as [|n IH]; intros i Hmax; cbn [connect_loop];
    destruct (try i) as [s|m|m|m]; simpl; try discriminate;
    destruct (Z.eqb_spec (Z.of_nat i) (max_attempts - 1)) as [E|E];
    simpl; try discriminate.
  - lia.
  - apply IH. lia.
Qed.

Lemma connect_loop_attempts {Sess : Type} (try : nat -> attempt Sess)
    (max_attempts : Z) (n : nat) :
  forall i : nat,
    let made := snd (connect_loop try max_attempts i n) in
    (i <= made <= i + n)%nat
    /\ forall j, (i <= j)%nat -> (S j < made)%nat -> is_failed (try j) = true.
Proof.
  induction n as [|n IH]; intros i; simpl.
  - split; [lia|]. intros j Hj Hm. lia.
  - destruct (try i) as [s|m|m|m] eqn:Ei; simpl;
      try (split; [lia|]; intros j Hj Hm; lia).
    destruct (Z.of_nat i =? max_attempts - 1); simpl;
      [split; [lia|]; intros j Hj Hm; lia|].
    destruct (IH (S i)) as [Hb Hf]. split; [lia|].
    intros j Hj Hm. destruct (decide (j = i)) as [->|Hne].
    + rewrite Ei. reflexivity.
    + apply Hf; [lia | exact Hm].
Qed.

(** X1. [__init__] returns with [self.sftp] still [None], without raising,
    exactly when [max_attempts] is not positive: the loop body never runs and
    no attempt to connect is made.  With a positive [max_attempts] it ends
    with a session or with an exception. *)
Theorem init_without_session :
  forall (Sess : Type) (try : nat -> attempt Sess) (max_attempts : Z),
    (fst (__init__ try max_attempts) = built None <-> max_attempts <= 0)
    /\ (max_attempts <= 0 -> snd (__init__ try max_attempts) = 0%nat).
Proof.
  intros Sess try max_attempts. unfold __init__. split; [split|].
  - intros Hb. destruct (Z.to_nat max_attempts) as [|n] eqn:En; [lia|].
    exfalso. apply (connect_loop_session try max_attempts n 0%nat); [lia|].
    exact Hb.
  - intros Hle. replace (Z.to_nat max_attempts) with 0%nat by lia.
    reflexivity.
  - intros Hle. replace (Z.to_nat max_attempts) with 0%nat by lia.
    reflexivity.
Qed.

(** X2. [__init__] retries after an exception that is neither an
    authentication failure nor a timeout: when the attempts before the
    attempt [k] fail so and the attempt [k], one of the [max_attempts], ends
    otherwise, the constructor ends as that attempt does (a session,
    [AuthenticationError] or [TimeoutError]) after [k + 1] attempts. *)
Theorem init_ends_with_first_decisive_attempt :
  forall (Sess : Type) (try : nat -> attempt Sess) (max_attempts : Z)
         (k : nat),
    (k < Z.to_nat max_attempts)%nat ->
    (forall j, (j < k)%nat -> is_failed (try j) = true) ->
    is_failed (try k) = false ->
    __init__ try max_attempts = (outcome (try k), S k).
Proof.
  intros Sess try max_attempts k Hk Hf Hn. unfold __init__.
  apply (connect_loop_first try max_attempts k 0%nat); auto.
  - lia.
  - intros j Hj. apply Hf. lia.
Qed.

Lemma init_ends_with_first_decisive_attempt_witness :
  (2 < Z.to_nat 3)%nat
  /\ (forall j, (j < 2)%nat -> is_failed (third_time j) = true)
  /\ is_failed (third_time 2) = false
  /\ __init__ third_time 3 = (built (Some 7%nat), 3%nat).
Proof.
  assert (H1 : (2 < Z.to_nat 3)%nat) by (vm_compute; lia).
  assert (H2 : forall j, (j < 2)%nat -> is_failed (third_time j) = true).
  { intros [|[|j]] Hj; [reflexivity | reflexivity | lia]. }
  assert (H3 : is_failed (third_time 2) = false) by reflexivity.
  split; [exact H1|]. split; [exact H2|]. split; [exact H3|].
  exact (init_ends_with_first_decisive_attempt nat third_time 3 2 H1 H2 H3).
Defined.

(** X3. When every one of the [max_attempts] attempts, at least one, fails
    with an exception that is neither an authentication failure nor a
    timeout, [__init__] raises [SSHError] with the message of the last
    attempt, after exactly [max_attempts] attempts. *)
Theorem init_gives_up_after_max_attempts :
  forall (Sess : Type) (try : nat -> attempt Sess) (max_attempts : Z)
         (msg : string),
    0 < max_attempts ->
    (forall j, (j < Z.to_nat max_attempts)%nat -> is_failed (try j) = true) ->
    try (Z.to_nat max_attempts - 1)%nat = failed msg ->
    __init__ try max_attempts
    = (init_raise (SSHError msg), Z.to_nat max_attempts).
Proof.
  intros Sess try max_attempts msg Hpos Hf Hlast. unfold __init__.
  destruct (Z.to_nat max_attempts) as [|n] eqn:En; [lia|].
  rewrite (connect_loop_exhaust try max_attempts n 0%nat); [|lia|].
  - simpl. replace (S n - 1)%nat with n in Hlast by lia.
    rewrite Hlast. reflexivity.
  - intros j Hj. apply Hf. lia.
Qed.

Lemma init_gives_up_after_max_attempts_witness :
  0 < 2
  /\ (forall j, (j < Z.to_nat 2)%nat -> is_failed (third_time j) = true)
  /\ third_time (Z.to_nat 2 - 1)%nat = failed "refused"
  /\ __init__ third_time 2 = (init_raise (SSHError "refused"), Z.to_nat 2).
Proof.
  assert (H1 : 0 < 2) by lia.
  assert (H2 : forall j, (j < Z.to_nat 2)%nat ->
                         is_failed (third_time j) = true).
  { intros [|[|j]] Hj; [reflexivity | reflexivity |].
    exfalso. revert Hj. vm_compute. lia. }
  assert (H3 : third_time (Z.to_nat 2 - 1)%nat = failed "refused")
    by reflexivity.
  split; [exact H1|]. split; [exact H2|]. split; [exact H3|].
  exact (init_gives_up_after_max_attempts nat third_time 2 "refused" H1 H2 H3).
Defined.

(** X4. [__init__] never makes more than [max_attempts] attempts, and every
    attempt but the last one made failed with an exception that is neither
    an authentication failure nor a timeout: after a session, an
    authentication failure or a timeout there is no further attempt. *)
Theorem init_attempts_bounded :
  forall (Sess : Type) (try : nat -> attempt Sess) (max_attempts : Z),
    let made := snd (__init__ try max_attempts) in
    (made <= Z.to_nat max_attempts)%nat
    /\ forall j, (S j < made)%nat -> is_failed (try j) = true.
Proof.
  intros Sess try max_attempts. unfold __init__.
  destruct (connect_loop_attempts try max_attempts (Z.to_nat max_attempts)
              0%nat) as [Hb Hf].
  split; [simpl in *; lia|]. intros j Hj. apply Hf; [lia | exact Hj].
Qed.

(** ** Dry runs and filters *)

(** X5. With [dry=True], [sync] leaves the world as it found it, on every
    host and whatever the other arguments, whether it returns or raises; so
    do [_makedirs_dst] and [_delete_dst].  On the model, no call of an
    operation that can change a file system is recorded. *)
Theorem dry_run_changes_nothing :
  (forall (pattern : Type) (R : Regex pattern) (W : Type) (HW : Host W)
          fuel src dst download includes excludes delete (w : W),
      snd (sync (pattern := pattern) fuel src dst download includes excludes
             delete true w) = w)
  /\ (forall (W : Type) (HW : Host W) path remote (w : W),
         snd (_makedirs_dst path remote true w) = w)
  /\ (forall (W : Type) (HW : Host W) fuel path files remote (w : W),
         snd (_delete_dst fuel path files remote true w) = w)
  /\ (forall fuel src dst download includes excludes delete (w : world),
         calls (snd (sync (pattern := list item) fuel src dst download
                       includes excludes delete true w)) = calls w).
Proof.
  split; [|split; [|split]].
  - intros pattern R W HW fuel src dst download includes excludes delete w.
    apply sync_dry_unchanged.
  - intros W HW path remote w. apply makedirs_dst_dry.
  - intros W HW fuel path files remote w. unfold _delete_dst.
    apply unchanged_walk. intros e acc. apply delete_dst_body_dry.
  - intros fuel src dst download includes excludes delete w.
    rewrite sync_dry_unchanged. reflexivity.
Qed.

Lemma compile_all_Ok {pattern : Type} `{Regex pattern} (fs : list string) :
  forall ps, compile_all fs = Ok ps
             <-> Forall2 (fun f p => re_compile f = Ok p) fs ps.
Proof.
  induction fs as [|f fs IH]; intros ps; simpl.
  - split.
    + intros [= <-]. constructor.
    + intros Hf. inversion Hf. reflexivity.
  - destruct (re_compile f) as [p|e] eqn:Ef.
    + destruct (compile_all fs) as [ps'|e] eqn:Ec.
      * split.
        -- intros [= <-]. constructor; [exact Ef | apply IH; reflexivity].
        -- intros Hf. inversion Hf as [|f0 p0 fs0 ps0 Hp Hrest]; subst.
           apply IH in Hrest. congruence.
      * split; [discriminate|].
        intros Hf. inversion Hf as [|f0 p0 fs0 ps0 Hp Hrest]; subst.
        apply IH in Hrest. discriminate.
    + split; [discriminate|].
      intros Hf. inversion Hf; subst. congruence.
Qed.

Lemma compile_all_Raise {pattern : Type} `{Regex pattern} (fs : list string) :
  forall e, compile_all fs = Raise e
            <-> exists l1 f l2,
                  fs = l1 ++ f :: l2
                  /\ Forall (fun g => is_ok (re_compile g) = true) l1
                  /\ re_compile f = Raise e.
Proof.
  induction fs as [|f fs IH]; intros e; simpl.
  - split; [discriminate|]. intros (l1 & g & l2 & E & _).
    destruct l1; discriminate.
  - destruct (re_compile f) as [p|x] eqn:Ef.
    + destruct (compile_all fs) as [ps'|x] eqn:Ec.
      * split; [discriminate|]. intros (l1 & g & l2 & E & Hl1 & Hg).
        destruct l1 as [|a l1]; simpl in E; injection E as -> ->.
        -- congruence.
        -- apply Forall_cons in Hl1 as [_ Hl1].
           assert (Hx : Raise (A := list pattern) e = Ok ps');
             [|discriminate].
           rewrite <- (proj2 (IH e)); [reflexivity|]. eauto 6.
      * split.
        -- intros [= ->]. destruct (proj1 (IH e) eq_refl)
             as (l1 & g & l2 & -> & Hl1 & Hg).
           exists (f :: l1), g, l2. split; [reflexivity|].
           split; [|exact Hg]. constructor; [rewrite Ef; reflexivity | exact Hl1].
        -- intros (l1 & g & l2 & E & Hl1 & Hg).
           destruct l1 as [|a l1]; simpl in E; injection E as -> ->.
           ++ congruence.
           ++ apply Forall_cons in Hl1 as [_ Hl1]. f_equal.
              assert (Hx : Raise (A := list pattern) x = Raise e);
                [|congruence].
              apply IH. eauto 6.
    + split.
      * intros [= ->]. exists [], f, fs. repeat split; [constructor | exact Ef].
      * intros (l1 & g & l2 & E & Hl1 & Hg).
        destruct l1 as [|a l1]; simpl in E; injection E as -> ->.
        -- congruence.
        -- apply Forall_cons in Hl1 as [Ha _]. rewrite Ef in Ha. discriminate.
Qed.

(** X6. [_get_filters] returns the compiled patterns of the given strings,
    one for each and in the same order, and the empty list for [None] and
    for the empty list; it raises exactly when a string does not compile,
    with the error of the first one that does not. *)
Theorem get_filters_compiles_each_in_order :
  forall (pattern : Type) (R : Regex pattern),
    _get_filters (pattern := pattern) None = Ok []
    /\ (forall fs ps,
           _get_filters (Some fs) = Ok ps
           <-> Forall2 (fun f p => re_compile f = Ok p) fs ps)
    /\ (forall fs e,
           _get_filters (pattern := pattern) (Some fs) = Raise e
           <-> exists l1 f l2,
                 fs = l1 ++ f :: l2
                 /\ Forall (fun g => is_ok (re_compile g) = true) l1
                 /\ re_compile f = Raise e).
Proof.
  intros pattern R. split; [reflexivity|]. split.
  - intros fs ps. destruct fs as [|f fs]; [|apply compile_all_Ok].
    simpl. split.
    + intros [= <-]. constructor.
    + intros Hf. inversion Hf. reflexivity.
  - intros fs e. destruct fs as [|f fs]; [|apply compile_all_Raise].
    simpl. split; [discriminate|]. intros (l1 & g & l2 & E & _).
    destruct l1; discriminate.
Qed.

(** ** The loop over the ancestors of a destination path *)

Lemma head_prefix (p : string) : exists t, p = os_path.head p +:+ t.
Proof.
  induction p as [|c p (t & IH)]; simpl; [exists ""; reflexivity|].
  destruct (is_sep c || has_sep p).
  - exists t. simpl. rewrite <- IH. reflexivity.
  - exists (String c p). reflexivity.
Qed.

Lemma head_no_sep (p : string) : has_sep p = false -> os_path.head p = "".
Proof.
  destruct p as [|c p]; simpl; [reflexivity|]. intros ->. reflexivity.
Qed.

Lemma head_ends (p : string) :
  os_path.head p <> "" -> endswith_sep (os_path.head p) = true.
Proof.
  induction p as [|c p IH]; simpl; [contradiction|].
  destruct (is_sep c) eqn:Ec; simpl.
  - intros _. destruct (os_path.head p) eqn:Eh; [exact Ec|].
    apply IH. discriminate.
  - destruct (has_sep p) eqn:Es; [|contradiction]. intros _.
    destruct (os_path.head p) eqn:Eh.
    + destruct p as [|d p]; [discriminate|]. simpl in Eh, Es.
      destruct (is_sep d || has_sep p); [discriminate | discriminate].
    + apply IH. discriminate.
Qed.

Lemma rstrip_sep_prefix (s : string) : exists t, s = rstrip_sep s +:+ t.
Proof.
  induction s as [|c s (t & IH)]; simpl; [exists ""; reflexivity|].
  destruct (rstrip_sep s) as [|d r] eqn:Er.
  - destruct (is_sep c).
    + exists (String c s). reflexivity.
    + exists s. reflexivity.
  - exists t. simpl. simpl in IH. rewrite <- IH. reflexivity.
Qed.

Lemma rstrip_sep_shorter (s : string) :
  endswith_sep s = true ->
  (String.length (rstrip_sep s) < String.length s)%nat.
Proof.
  induction s as [|c s IH]; simpl; [discriminate|].
  destruct s as [|d s].
  - simpl. intros ->. simpl. lia.
  - intros He. specialize (IH He).
    destruct (rstrip_sep (String d s)) as [|e r] eqn:Er.
    + destruct (is_sep c); simpl in *; lia.
    + simpl in *. lia.
Qed.

Lemma rstrip_sep_nonempty (s : string) :
  all_sep s = false -> rstrip_sep s <> "".
Proof.
  induction s as [|c s IH]; simpl; [discriminate|].
  destruct (is_sep c) eqn:Ec; simpl.
  - intros Ha. specialize (IH Ha).
    destruct (rstrip_sep s); [contradiction | discriminate].
  - intros _. destruct (rstrip_sep s); discriminate.
Qed.

Lemma double_sep_prefix (h t : string) :
  double_sep h = true -> double_sep (h +:+ t) = true.
Proof.
  destruct h as [|a [|b h]]; simpl; try discriminate. auto.
Qed.

Lemma all_sep_single (h : string) :
  all_sep h = true -> double_sep h = false -> h = "" \/ h = "/".
Proof.
  destruct h as [|a [|b h]]; simpl; auto.
  - rewrite andb_true_r. unfold is_sep. intros Ha _.
    apply Ascii.eqb_eq in Ha. subst. auto.
  - intros Ha Hd. apply andb_true_iff in Ha as [Ha Hb].
    apply andb_true_iff in Hb as [Hb _]. rewrite Ha, Hb in Hd. discriminate.
Qed.

Lemma dirname_double_sep (p : string) :
  double_sep p = true -> double_sep (os_path.dirname p) = true.
Proof.
  destruct p as [|a [|b p]]; simpl; try discriminate.
  intros Hd. apply andb_true_iff in Hd as [Ha Hb].
  unfold os_path.dirname. cbn [os_path.head]. rewrite Ha, Hb. cbn [orb].
  set (h := os_path.head p). cbn [String.eqb Ascii.eqb negb andb all_sep].
  rewrite Ha, Hb. cbn [andb].
  replace (String.eqb (String a (String b h)) "") with false by reflexivity.
  cbn [negb andb].
  destruct (all_sep h) eqn:Eh; cbn [negb].
  - simpl. rewrite Ha, Hb. reflexivity.
  - pose proof (rstrip_sep_nonempty _ Eh) as Hr. cbn [rstrip_sep].
    destruct (rstrip_sep h) as [|c r]; [contradiction|].
    simpl. rewrite Ha, Hb. reflexivity.
Qed.

Lemma dirname_shorter (p : string) :
  implicit_dir p = false -> double_sep p = false ->
  (String.length (os_path.dirname p) < String.length p)%nat
  /\ double_sep (os_path.dirname p) = false.
Proof.
  intros Hi Hd. unfold os_path.dirname.
  destruct (head_prefix p) as (t & Ep).
  assert (Hlen : (String.length (os_path.head p) <= String.length p)%nat).
  { rewrite Ep at 2. rewrite append_length. lia. }
  assert (Hdh : double_sep (os_path.head p) = false).
  { destruct (double_sep (os_path.head p)) eqn:E; [|reflexivity].
    rewrite Ep, (double_sep_prefix _ t E) in Hd. discriminate. }
  assert (Hp : p <> "" /\ p <> "/").
  { unfold implicit_dir in Hi. apply orb_false_iff in Hi as [H1 H2].
    split; intros ->; discriminate. }
  destruct (String.eqb_spec (os_path.head p) "") as [Eh|Eh]; cbn [negb andb].
  - rewrite Eh. split; [|reflexivity].
    destruct p; [tauto | simpl; lia].
  - destruct (all_sep (os_path.head p)) eqn:Ea; cbn [negb].
    + destruct (all_sep_single _ Ea Hdh) as [E|E]; [contradiction|].
      rewrite E in *. split; [|reflexivity].
      destruct t as [|c t].
      * rewrite append_nil_r in Ep. tauto.
      * rewrite Ep. simpl. lia.
    + pose proof (rstrip_sep_shorter _ (head_ends _ Eh)) as Hs.
      split; [lia|].
      destruct (rstrip_sep_prefix (os_path.head p)) as (u & Eu).
      destruct (double_sep (rstrip_sep (os_path.head p))) eqn:E; [|reflexivity].
      rewrite Eu, (double_sep_prefix _ u E) in Hdh. discriminate.
Qed.

Lemma parents_terminates (fuel : nat) :
  forall p acc,
    (String.length p <= fuel)%nat -> double_sep p = false ->
    exists ps, parents fuel p acc = Ok ps.
Proof.
  induction fuel as [|fuel IH]; intros p acc Hlen Hd.
  - destruct p; [|simpl in Hlen; lia]. exists acc. reflexivity.
  - simpl. destruct (String.eqb p "/" || String.eqb p "") eqn:Ei; [eauto|].
    destruct (dirname_shorter p Ei Hd) as [Hs Hdd].
    apply IH; [lia | exact Hdd].
Qed.

Lemma parents_diverges (fuel : nat) :
  forall p acc, double_sep p = true -> parents fuel p acc = Raise MemoryError.
Proof.
  induction fuel as [|fuel IH]; intros p acc Hd;
    (destruct p as [|a [|b p]]; [discriminate | discriminate |]);
    simpl in Hd; apply andb_true_iff in Hd as [Ha Hb];
    unfold is_sep in Ha, Hb; apply Ascii.eqb_eq in Ha, Hb; subst.
  - reflexivity.
  - change (parents (S fuel) (String "/" (String "/" p)) acc)
      with (parents fuel (os_path.dirname (String "/" (String "/" p)))
              (String "/" (String "/" p) :: acc)).
    apply IH. apply dirname_double_sep. reflexivity.
Qed.

(** X7. The loop of lines 124-126 of [_makedirs_dst],
    [while path not in ('/', ''): paths.insert(0, path); path = dirname(path)],
    ends exactly on the paths that do not start with two separators: on
    those, as many steps as the path has characters are enough and the list
    ends with the path itself (when it is not ['/'] or ['']); on a path that
    starts with two separators [dirname] never reaches ['/'], and the loop
    goes on however many steps it is given, so that [_makedirs_dst] on a
    remote destination never gets to its first [lstat]. *)
Theorem makedirs_loop_ends_unless_double_separator :
  forall path : string,
    (double_sep path = false ->
     exists ps, parents (String.length path) path [] = Ok ps
                /\ (implicit_dir path = false -> last ps = Some path))
    /\ (double_sep path = true ->
        forall fuel acc, parents fuel path acc = Raise MemoryError)
    /\ (double_sep path = true ->
        forall (W : Type) (HW : Host W) dry (w : W),
          _makedirs_dst path true dry w = (Raise MemoryError, w)).
Proof.
  intros path. split; [|split].
  - intros Hd.
    destruct (parents_terminates (String.length path) path []
                (Nat.le_refl _) Hd) as (ps & Hps).
    exists ps. split; [exact Hps|]. intros Hi.
    destruct (parents_last _ _ _ _ Hps Hi) as (ps' & ->).
    apply last_snoc.
  - intros Hd fuel acc. apply parents_diverges, Hd.
  - intros Hd W HW dry w. unfold _makedirs_dst, bind, lift.
    rewrite (parents_diverges _ _ _ Hd). reflexivity.
Qed.

(** ** The source is only read *)

Lemma keeps_unchanged (r : bool) {A : Type} (m : M world A) :
  unchanged m -> keeps r m.
Proof. intros Hm w. rewrite Hm. reflexivity. Qed.

Lemma keeps_bind (r : bool) {A B : Type} (m : M world A)
    (k : A -> M world B) :
  keeps r m -> (forall a, keeps r (k a)) -> keeps r (bind m k).
Proof.
  intros Hm Hk w. unfold bind. specialize (Hm w).
  destruct (m w) as [[a|e] w']; simpl in *; [|exact Hm].
  rewrite Hk. exact Hm.
Qed.

Lemma keeps_for_each (r : bool) {A Acc : Type} (l : list A)
    (body : A -> Acc -> M world Acc) (acc : Acc) :
  (forall x acc, keeps r (body x acc)) -> keeps r (for_each l body acc).
Proof.
  intros Hbody. revert acc. induction l as [|x l IH]; intros acc; simpl.
  - apply keeps_unchanged, unchanged_ret.
  - apply keeps_bind; [apply Hbody | intros a; apply IH].
Qed.

Lemma keeps_triple (r : bool) {A : Type} (m : M world A) :
  keeps r m <->
  forall fs, triple (fun w => side r w = fs) m
               (fun _ w => side r w = fs) (fun w => side r w = fs).
Proof.
  split.
  - intros Hm fs w Hw. specialize (Hm w).
    destruct (m w) as [[a|e] w']; simpl in Hm; congruence.
  - intros Ht w. specialize (Ht (side r w) w eq_refl).
    destruct (m w) as [[a|e] w']; exact Ht.
Qed.

Lemma keeps_walk (r : bool) {Acc : Type} (fuel : nat) (path : string)
    (topdown remote : bool) (body : entry -> Acc -> M world Acc) (acc : Acc) :
  (forall e acc, keeps r (body e acc)) ->
  keeps r (_walk fuel path topdown remote body acc).
Proof.
  intros Hbody. apply keeps_triple. intros fs.
  apply (walk_rule0 (fun _ => True) (fun _ w => side r w = fs)
           (fun w => side r w = fs)).
  - auto.
  - intros. apply Forall_forall. auto.
  - intros. apply Forall_forall. auto.
  - intros k p st acc0 _ _. apply (proj1 (keeps_triple _ _)), Hbody.
Qed.

Lemma keeps_on_remote (c : call)
    (op : gmap string node -> res unit * gmap string node) :
  keeps false (on_remote c op).
Proof. intros w. unfold on_remote. destruct (op (remote_fs w)). reflexivity. Qed.

Lemma keeps_on_local (c : call)
    (op : gmap string node -> res unit * gmap string node) :
  keeps true (on_local c op).
Proof. intros w. unfold on_local. destruct (op (local_fs w)). reflexivity. Qed.

Lemma keeps_sftp_mkdir (p : string) : keeps false (sftp_mkdir p).
Proof. intros w. apply (keeps_on_remote _ (fs_mkdir (now w) p)). Qed.

Lemma keeps_sftp_put (src dst : string) : keeps false (sftp_put src dst).
Proof.
  intros w. apply (keeps_on_remote _ (transfer (local_fs w) (now w) src dst)).
Qed.

Lemma keeps_sftp_get (src dst : string) : keeps true (sftp_get src dst).
Proof.
  intros w. apply (keeps_on_local _ (transfer (remote_fs w) (now w) src dst)).
Qed.

Lemma keeps_os_makedirs (p : string) : keeps true (os_makedirs p).
Proof. intros w. apply (keeps_on_local _ (fs_makedirs (now w) p)). Qed.

Lemma keeps_makedirs_dst (path : string) (remote dry : bool) :
  keeps (negb remote) (_makedirs_dst path remote dry).
Proof.
  unfold _makedirs_dst. destruct remote; cbn [negb].
  - apply keeps_bind; [apply keeps_unchanged, unchanged_lift|]. intros paths.
    apply keeps_for_each. intros p [] w.
    destruct (sftp_lstat p w); [reflexivity|].
    destruct (negb dry); [apply keeps_sftp_mkdir | reflexivity].
  - intros w. destruct (negb (os_path_exists path w)); [|reflexivity].
    destruct (negb dry); [apply keeps_os_makedirs | reflexivity].
Qed.

Lemma keeps_save (src dst : string) (st : option stat_result) (remote : bool) :
  keeps (negb remote) (_save src dst st remote).
Proof.
  unfold _save. destruct remote; cbn [negb].
  - apply keeps_bind; [apply keeps_sftp_put|]. intros _.
    apply keeps_bind; [apply keeps_unchanged, unchanged_lift|]. intros a.
    apply keeps_bind; [apply keeps_unchanged, unchanged_lift|]. intros m.
    apply keeps_on_remote.
  - apply keeps_bind; [apply keeps_sftp_get|]. intros _.
    apply keeps_bind; [apply keeps_unchanged, unchanged_lift|]. intros a.
    apply keeps_bind; [apply keeps_unchanged, unchanged_lift|]. intros m.
    apply keeps_on_local.
Qed.

Lemma keeps_sync_body {pattern : Type} `{Regex pattern} re_base dst
    (includes excludes : list pattern) (download dry : bool) (e : entry)
    (acc : Z * gmap string (list string)) :
  keeps download (sync_body re_base dst includes excludes download dry e acc).
Proof.
  destruct e as [[src_type src_file] src_stat], acc as [total_size dst_list].
  unfold sync_body.
  destruct (negb (_validate_src _ includes excludes));
    [apply keeps_unchanged, unchanged_ret|].
  destruct (dst_list !! src_type) as [l|];
    [|apply keeps_unchanged, unchanged_raise].
  pose proof (keeps_makedirs_dst (os_path.join dst (re_base_sub re_base src_file))
                (negb download) dry) as Hmk.
  pose proof (keeps_save src_file (os_path.join dst (re_base_sub re_base src_file))
                src_stat (negb download)) as Hsv.
  rewrite negb_involutive in Hmk, Hsv.
  destruct (String.eqb src_type "dir").
  { apply keeps_bind; [exact Hmk|].
    intros; apply keeps_unchanged, unchanged_ret. }
  destruct (String.eqb src_type "file");
    [|apply keeps_unchanged, unchanged_raise].
  apply keeps_bind; [apply keeps_unchanged, unchanged_read|]. intros up.
  destruct (negb up); [|apply keeps_unchanged, unchanged_ret].
  apply keeps_bind.
  { destruct (negb dry); [exact Hsv | apply keeps_unchanged, unchanged_ret]. }
  intros _.
  apply keeps_bind; [apply keeps_unchanged, unchanged_lift|].
  intros; apply keeps_unchanged, unchanged_ret.
Qed.

Lemma keeps_delete_dst_body (remote dry : bool)
    (files : gmap string (list string)) (e : entry) :
  keeps (negb remote) (_delete_dst_body remote dry files e).
Proof.
  destruct e as [[type file] stat]. unfold _delete_dst_body.
  destruct (files !! type) as [l|]; [|apply keeps_unchanged, unchanged_raise].
  destruct (negb (in_list file l)); [|apply keeps_unchanged, unchanged_ret].
  destruct (negb dry); [|apply keeps_unchanged, unchanged_ret].
  intros w. unfold callables. destruct remote; cbn [negb].
  - destruct (decide (type = "file")) as [->|Hf].
    { rewrite lookup_insert_eq. apply keeps_on_remote. }
    rewrite lookup_insert_ne by congruence.
    destruct (decide (type = "dir")) as [->|Hd].
    { rewrite lookup_insert_eq. apply keeps_on_remote. }
    rewrite lookup_insert_ne by congruence. reflexivity.
  - destruct (decide (type = "file")) as [->|Hf].
    { rewrite lookup_insert_eq. apply keeps_on_local. }
    rewrite lookup_insert_ne by congruence.
    destruct (decide (type = "dir")) as [->|Hd].
    { rewrite lookup_insert_eq. apply keeps_on_local. }
    rewrite lookup_insert_ne by congruence. reflexivity.
Qed.

Lemma keeps_delete_dst (fuel : nat) (path : string)
    (files : gmap string (list string)) (remote dry : bool) :
  keeps (negb remote) (_delete_dst fuel path files remote dry).
Proof.
  unfold _delete_dst. apply keeps_walk. intros e acc.
  apply keeps_delete_dst_body.
Qed.

Lemma keeps_sync {pattern : Type} `{Regex pattern} (fuel : nat)
    (src dst : string) (download : bool)
    (includes excludes : option (list string)) (delete dry : bool) :
  keeps download (sync (pattern := pattern) fuel src dst download includes
                    excludes delete dry).
Proof.
  unfold sync.
  apply keeps_bind; [apply keeps_unchanged, unchanged_lift|]. intros inc.
  apply keeps_bind; [apply keeps_unchanged, unchanged_lift|]. intros exc.
  destruct (sync_roots src dst) as [[src' re_base] dst'].
  pose proof (keeps_makedirs_dst dst' (negb download) dry) as Hmk.
  pose proof (keeps_delete_dst fuel dst') as Hdel.
  rewrite negb_involutive in Hmk.
  apply keeps_bind; [exact Hmk|]. intros _.
  apply keeps_bind.
  { apply keeps_walk. intros e acc. apply keeps_sync_body. }
  intros r. apply keeps_bind; [|intros; apply keeps_unchanged, unchanged_ret].
  destruct delete; [|apply keeps_unchanged, unchanged_ret].
  specialize (Hdel (snd r) (negb download) dry).
  rewrite negb_involutive in Hdel. exact Hdel.
Qed.

(** X8. [sync] only reads its source: on the model, whatever the arguments
    and whether it returns or raises, the file system of the source side
    (the remote one for a download, the local one for an upload) is after
    the run what it was before; every directory creation, copy, time stamp
    update and removal is on the other side.  The same holds for
    [_makedirs_dst], [_save] and [_delete_dst] and the side they are not
    told to work on. *)
Theorem sync_only_reads_the_source :
  (forall (pattern : Type) (R : Regex pattern) fuel src dst download
          includes excludes delete dry (w : world),
      side download
        (snd (sync (pattern := pattern) fuel src dst download includes
                excludes delete dry w))
      = side download w)
  /\ (forall path remote dry (w : world),
         side (negb remote) (snd (_makedirs_dst path remote dry w))
         = side (negb remote) w)
  /\ (forall src dst st remote (w : world),
         side (negb remote) (snd (_save src dst st remote w))
         = side (negb remote) w)
  /\ (forall fuel path files remote dry (w : world),
         side (negb remote) (snd (_delete_dst fuel path files remote dry w))
         = side (negb remote) w).
Proof.
  split; [|split; [|split]].
  - intros pattern R fuel src dst download includes excludes delete dry w.
    apply keeps_sync.
  - intros path remote dry w. apply keeps_makedirs_dst.
  - intros src dst st remote w. apply keeps_save.
  - intros fuel path files remote dry w. apply keeps_delete_dst.
Qed.

(** ** A copy is up to date *)

Lemma compare_stat_copied (n : node) (s : stat_result) :
  n_size n = st_size s ->
  compare_stat (stat_of "" (copied n s)) (Some s) = Ok true.
Proof.
  intros Hsize. apply compare_stat_true.
  unfold stat_of, copied. cbn [st_mtime st_size n_mtime n_size].
  split; [exact Hsize | apply int_of_close].
Qed.

(** [_validate_dst] on the model looks at the node of the destination
    path only. *)
Lemma validate_dst_world (file : string) (st : option stat_result)
    (remote : bool) (w : world) :
  _validate_dst file st remote w
  = match fs_stat (side remote w) file with
    | Some n => compare_stat (stat_of "" n) st
    | None => Ok false
    end.
Proof.
  unfold _validate_dst, os_path_exists. destruct remote; simpl; unfold stat_in.
  - destruct (fs_stat (remote_fs w) file); reflexivity.
  - destruct (fs_stat (local_fs w) file); reflexivity.
Qed.

(** A transfer that succeeds, followed by the update of the time stamps:
    the node it leaves at the destination. *)
Lemma transfer_utime (from fs : gmap string node) (t : num) (src dst : string)
    (s : stat_result) (fs1 : gmap string node) :
  transfer from t src dst fs = (Ok tt, fs1) ->
  exists n,
    fs_stat from src = Some n
    /\ S_ISDIR (n_mode n) = false
    /\ read_file from src = Ok (n_size n)
    /\ fs_utime dst (int_of (st_atime s), int_of (st_mtime s)) fs1
       = (Ok tt, <[norm dst := copied n s]> fs)
    /\ fs_stat (<[norm dst := copied n s]> fs) dst = Some (copied n s).
Proof.
  unfold transfer, read_file.
  destruct (fs_stat from src) as [n|] eqn:Esrc; [|discriminate].
  destruct (S_ISDIR (n_mode n)) eqn:Edir; [discriminate|].
  intros Hw. exists n. split; [reflexivity|]. split; [exact Edir|].
  split; [reflexivity|].
  assert (Hfs1 : fs1 = <[norm dst := file_node (n_size n) t]> fs
                 /\ implicit_dir (norm dst) = false).
  { unfold fs_write in Hw. unfold fs_stat in Hw.
    destruct (implicit_dir (norm dst)) eqn:Ei.
    - simpl in Hw. discriminate.
    - destruct (fs !! norm dst) as [n0|].
      + destruct (S_ISDIR (n_mode n0)); [discriminate|].
        injection Hw as <-. auto.
      + destruct (fs_isdir fs (os_path.dirname (norm dst)));
          [|discriminate].
        injection Hw as <-. auto. }
  destruct Hfs1 as [-> Hi]. split.
  - unfold fs_utime. rewrite lookup_insert_eq. cbn [fst snd].
    rewrite insert_insert_eq. reflexivity.
  - apply fs_stat_insert, Hi.
Qed.

Lemma save_effect (src dst : string) (s : stat_result) (remote : bool)
    (w : world) :
  fst (_save src dst (Some s) remote w) = Ok tt ->
  exists n,
    fs_stat (side (negb remote) w) src = Some n
    /\ S_ISDIR (n_mode n) = false
    /\ read_file (side (negb remote) w) src = Ok (n_size n)
    /\ side remote (snd (_save src dst (Some s) remote w))
       = <[norm dst := copied n s]> (side remote w)
    /\ fs_stat (side remote (snd (_save src dst (Some s) remote w))) dst
       = Some (copied n s).
Proof.
  unfold _save. destruct remote; cbn [negb side]; simpl;
    unfold bind, lift, on_remote, on_local; cbn [getattr].
  - destruct (transfer (local_fs w) (now w) src dst (remote_fs w))
      as [[[]|x] fs1] eqn:Et; [|discriminate].
    destruct (transfer_utime _ _ _ _ _ s _ Et) as (n & H1 & H2 & H3 & H4 & H5).
    cbn [remote_fs]. rewrite H4. cbn [fst snd remote_fs]. intros _.
    exists n. auto.
  - destruct (transfer (remote_fs w) (now w) src dst (local_fs w))
      as [[[]|x] fs1] eqn:Et; [|discriminate].
    destruct (transfer_utime _ _ _ _ _ s _ Et) as (n & H1 & H2 & H3 & H4 & H5).
    cbn [local_fs]. rewrite H4. cbn [fst snd local_fs]. intros _.
    exists n. auto.
Qed.

(** X9. What [_save] leaves when it returns, on the model: the destination
    is a regular file with the size of the source file and, as access and
    modification times, the integral parts of the times of the stat it was
    given; when that stat has the size of the source file, [_validate_dst]
    then finds the destination up to date, whatever the times are. *)
Theorem save_leaves_destination_up_to_date :
  forall (src dst : string) (s : stat_result) (remote : bool) (w : world),
    fst (_save src dst (Some s) remote w) = Ok tt ->
    let w' := snd (_save src dst (Some s) remote w) in
    (exists n,
        fs_stat (side (negb remote) w) src = Some n
        /\ fs_stat (side remote w') dst = Some (copied n s))
    /\ (read_file (side (negb remote) w) src = Ok (st_size s) ->
        _validate_dst dst (Some s) remote w' = Ok true).
Proof.
  intros src dst s remote w Hok w'.
  destruct (save_effect src dst s remote w Hok)
    as (n & Hsrc & Hdir & Hread & Hfs & Hstat).
  split; [exists n; auto|].
  intros Hsize. rewrite validate_dst_world. unfold w'. rewrite Hstat.
  apply compare_stat_copied. congruence.
Qed.

Lemma save_leaves_destination_up_to_date_witness :
  fst (_save "/a/b/x" "/c/d/x" (Some ex_stat) true ex_world) = Ok tt
  /\ (exists n,
         fs_stat (side (negb true) ex_world) "/a/b/x" = Some n
         /\ fs_stat
              (side true
                 (snd (_save "/a/b/x" "/c/d/x" (Some ex_stat) true ex_world)))
              "/c/d/x"
            = Some (copied n ex_stat))
  /\ (read_file (side (negb true) ex_world) "/a/b/x" = Ok (st_size ex_stat) ->
      _validate_dst "/c/d/x" (Some ex_stat) true
        (snd (_save "/a/b/x" "/c/d/x" (Some ex_stat) true ex_world))
      = Ok true).
Proof.
  assert (H : fst (_save "/a/b/x" "/c/d/x" (Some ex_stat) true ex_world)
              = Ok tt)
    by (vm_compute; reflexivity).
  split; [exact H|].
  exact (save_leaves_destination_up_to_date "/a/b/x" "/c/d/x" ex_stat true
           ex_world H).
Defined.

(** ** Creating the directories of the destination *)

Lemma frame_is_Some (fs fs' : gmap string node) (p : string) :
  frame_except (fun _ => False) fs fs' ->
  is_Some (fs_stat fs p) -> is_Some (fs_stat fs' p).
Proof.
  intros Hf [n Hn]. exists n. eapply frame_stat; [exact Hf | tauto | exact Hn].
Qed.

Lemma stat_in_Ok (fs : gmap string node) (p : string) :
  is_ok (stat_in fs p) = true <-> is_Some (fs_stat fs p).
Proof.
  unfold stat_in. destruct (fs_stat fs p) as [n|]; simpl.
  - split; eauto.
  - split; [discriminate | intros [n Hn]; discriminate].
Qed.

(** Lines 127-133: the loop over the ancestors, with dry-run off. *)
Lemma mkdir_loop (step : string -> unit -> M world unit) :
  (forall p u w, step p u w = match sftp_lstat p w with
                              | Ok _ => (Ok tt, w)
                              | Raise _ => sftp_mkdir p w
                              end) ->
  forall (ps : list string) (w : world),
    let run := for_each ps step tt w in
    frame_except (fun _ => False) (remote_fs w) (remote_fs (snd run))
    /\ (fst run = Ok tt ->
        Forall (fun p => is_Some (fs_stat (remote_fs (snd run)) p)) ps).
Proof.
  intros Hstep. induction ps as [|p ps IH]; intros w; cbn zeta.
  - simpl. split; [apply frame_except_refl | constructor].
  - assert (Erun : for_each (p :: ps) step tt w
                   = match step p tt w with
                     | (Ok _, w') => for_each ps step tt w'
                     | (Raise e, w') => (Raise e, w')
                     end).
    { cbn [for_each]. unfold bind.
      destruct (step p tt w) as [[[]|e] w']; reflexivity. }
    rewrite Erun, Hstep. clear Erun.
    destruct (sftp_lstat p w) as [s|x] eqn:El.
    + specialize (IH w). cbn zeta in IH. destruct IH as [Hf Hall].
      split; [exact Hf|]. intros Hok. constructor; [|apply Hall, Hok].
      apply (frame_is_Some _ _ _ Hf). apply stat_in_Ok.
      simpl in El. rewrite El. reflexivity.
    + simpl sftp_mkdir. unfold on_remote.
      destruct (fs_mkdir_spec (now w) p (remote_fs w)) as [Hf1 Hs1].
      destruct (fs_mkdir (now w) p (remote_fs w)) as [[[]|y] fs1];
        cbn [fst snd] in *.
      * set (w1 := mk_world (local_fs w) fs1 (now w)
                     (calls w ++ [call_sftp_mkdir p])).
        specialize (IH w1). cbn zeta in IH. destruct IH as [Hf Hall].
        split; [eapply frame_except_grown; [exact Hf1 | exact Hf]|].
        intros Hok. constructor; [|apply Hall, Hok].
        apply (frame_is_Some _ _ _ Hf). apply Hs1. reflexivity.
      * split; [exact Hf1 | discriminate].
Qed.

Lemma makedirs_dst_made (path : string) (remote : bool) (w : world) :
  let run := _makedirs_dst path remote false w in
  frame_except (fun _ => False) (side remote w) (side remote (snd run))
  /\ (fst run = Ok tt -> made path remote (side remote (snd run))).
Proof.
  cbn zeta. unfold _makedirs_dst, made. destruct remote; cbn [side negb].
  - unfold bind at 1 3, lift.
    destruct (parents (String.length path) path []) as [ps|x] eqn:Ep.
    + destruct (mkdir_loop _ (fun _ _ _ => eq_refl) ps w) as [Hf Hall].
      split; [exact Hf|].
      intros Hok. exists ps. split; [reflexivity | apply Hall, Hok].
    + simpl. split; [apply frame_except_refl | discriminate].
  - unfold os_path_exists. simpl os_stat. simpl os_makedirs.
    destruct (is_ok (stat_in (local_fs w) path)) eqn:Ex; cbn [negb].
    + simpl. split; [apply frame_except_refl|]. intros _.
      apply stat_in_Ok, Ex.
    + unfold on_local.
      destruct (fs_makedirs_spec (now w) path (local_fs w)) as [Hf Hs].
      destruct (fs_makedirs (now w) path (local_fs w)) as [r fs1];
        cbn [fst snd] in *.
      split; [exact Hf|]. intros Hok. apply Hs; [|exact Hok].
      destruct (fs_stat (local_fs w) path) as [n|] eqn:En; [|reflexivity].
      unfold stat_in in Ex. rewrite En in Ex. discriminate.
Qed.

Lemma made_noop (path : string) (remote dry : bool) (w : world) :
  made path remote (side remote w) ->
  _makedirs_dst path remote dry w = (Ok tt, w).
Proof.
  unfold made, _makedirs_dst. destruct remote; cbn [side].
  - intros (ps & -> & Hall). unfold bind, lift.
    induction Hall as [|p ps Hp _ IH]; [reflexivity|].
    cbn [for_each]. unfold bind.
    apply stat_in_Ok in Hp. simpl sftp_lstat.
    destruct (stat_in (remote_fs w) p); [exact IH | discriminate].
  - intros Hx. apply stat_in_Ok in Hx. unfold os_path_exists.
    simpl os_stat. rewrite Hx. reflexivity.
Qed.

Lemma made_exists (path : string) (remote : bool) (fs : gmap string node) :
  made path remote fs -> is_Some (fs_stat fs path).
Proof.
  unfold made. destruct remote; [|auto]. intros (ps & Hps & Hall).
  destruct (implicit_dir path) eqn:Ei.
  - unfold fs_stat.
    assert (Hn : implicit_dir (norm path) = true).
    { unfold implicit_dir in Ei. apply orb_true_iff in Ei as [E|E];
        [apply String.eqb_eq in E | apply String.eqb_eq in E]; subst;
        reflexivity. }
    rewrite Hn. eauto.
  - destruct (parents_last _ _ _ _ Hps Ei) as (ps' & ->).
    rewrite Forall_app in Hall. destruct Hall as [_ Hall].
    inversion Hall; assumption.
Qed.

(** X10. What [_makedirs_dst] leaves when it returns with dry-run off, on
    the model: the path exists; nothing that was there has been changed or
    removed, what is new is a directory; and a second call, with dry-run on
    or off, finds nothing to create: it returns without a call that changes
    the file system. *)
Theorem makedirs_dst_creates_once :
  forall (path : string) (remote : bool) (w : world),
    fst (_makedirs_dst path remote false w) = Ok tt ->
    let w' := snd (_makedirs_dst path remote false w) in
    is_Some (fs_stat (side remote w') path)
    /\ frame_except (fun _ => False) (side remote w) (side remote w')
    /\ (forall dry, _makedirs_dst path remote dry w' = (Ok tt, w')).
Proof.
  intros path remote w Hok w'.
  destruct (makedirs_dst_made path remote w) as [Hf Hm].
  specialize (Hm Hok). split; [|split].
  - apply (made_exists _ _ _ Hm).
  - exact Hf.
  - intros dry. apply made_noop, Hm.
Qed.

Lemma makedirs_dst_creates_once_witness :
  fst (_makedirs_dst "/c/d/e/f" true false ex_world) = Ok tt
  /\ is_Some (fs_stat
                (side true (snd (_makedirs_dst "/c/d/e/f" true false ex_world)))
                "/c/d/e/f")
  /\ frame_except (fun _ => False) (side true ex_world)
       (side true (snd (_makedirs_dst "/c/d/e/f" true false ex_world)))
  /\ (forall dry,
         _makedirs_dst "/c/d/e/f" true dry
           (snd (_makedirs_dst "/c/d/e/f" true false ex_world))
         = (Ok tt, snd (_makedirs_dst "/c/d/e/f" true false ex_world))).
Proof.
  assert (H : fst (_makedirs_dst "/c/d/e/f" true false ex_world) = Ok tt)
    by (vm_compute; reflexivity).
  split; [exact H|].
  exact (makedirs_dst_creates_once "/c/d/e/f" true ex_world H).
Defined.

(** ** The manifest of a run *)

Lemma recorded_snoc {pattern : Type} `{Regex pattern} (re_base dst : string)
    (includes excludes : list pattern) (kind : string) (L : list entry)
    (e : entry) :
  recorded re_base dst includes excludes kind (L ++ [e])
  = recorded re_base dst includes excludes kind L
    ++ (if accepted re_base includes excludes e && String.eqb (kind_of e) kind
        then [dst_file_of re_base dst (path_of e)] else []).
Proof.
  unfold recorded. rewrite filter_snoc, map_app.
  destruct (accepted re_base includes excludes e && String.eqb (kind_of e) kind);
    reflexivity.
Qed.

(** What the body of the loop of [sync] makes of the manifest when it
    returns. *)
Lemma sync_body_manifest {pattern : Type} `{Regex pattern}
    {W : Type} `{Host W} re_base dst (includes excludes : list pattern)
    download dry (e : entry) total_size dst_list (w : W) r w' :
  sync_body re_base dst includes excludes download dry e
    (total_size, dst_list) w = (Ok r, w') ->
  (accepted re_base includes excludes e = false /\ snd r = dst_list)
  \/ (accepted re_base includes excludes e = true
      /\ exists l, dst_list !! kind_of e = Some l
                   /\ snd r = <[kind_of e :=
                                  l ++ [dst_file_of re_base dst (path_of e)]]>
                                dst_list).
Proof.
  intros Hrun. destruct e as [[src_type src_file] src_stat].
  unfold accepted, kind_of, path_of, dst_file_of. cbn [fst snd].
  unfold sync_body, bind, ret, raise, read, lift in Hrun.
  destruct (_validate_src _ includes excludes); cbn [negb] in Hrun.
  - right. split; [reflexivity|].
    destruct (dst_list !! src_type) as [l|] eqn:Hl; [|discriminate].
    exists l. split; [reflexivity|].
    repeat case_match; simplify_eq; reflexivity.
  - left. inversion Hrun; subst. auto.
Qed.

(** The manifest of a walk that logs the entries it hands to the body. *)
Lemma manifest_of_recorded_walk :
  forall (pattern : Type) (R : Regex pattern) (W : Type) (HW : Host W)
         fuel src re_base dst (includes excludes : list pattern)
         download dry (w : W) L total files w',
    _walk fuel src true download
      (collect (sync_body re_base dst includes excludes download dry))
      ([], (0, dst_list0)) w
    = (Ok (L, (total, files)), w') ->
    files !! "file" = Some (recorded re_base dst includes excludes "file" L)
    /\ files !! "dir" = Some (recorded re_base dst includes excludes "dir" L)
    /\ two_keys files.
Proof.
  intros pattern R W HW fuel src re_base dst includes excludes download dry
    w L total files w' Hrun.
  set (Inv := fun (st : list entry * (Z * gmap string (list string)))
                  (_ : W) =>
                snd (snd st) !! "file"
                = Some (recorded re_base dst includes excludes "file" (fst st))
                /\ snd (snd st) !! "dir"
                   = Some (recorded re_base dst includes excludes "dir" (fst st))
                /\ two_keys (snd (snd st))).
  pose proof (walk_rule0 (fun _ => True) Inv (fun _ => True)
                (fun _ _ _ => Logic.I) src true download
                (collect (sync_body re_base dst includes excludes download dry)))
    as Hrule.
  assert (Hrule' := fun H1 H2 => Hrule H1 H2). clear Hrule.
  specialize (Hrule' ltac:(intros; apply Forall_forall; auto)
                     ltac:(intros; apply Forall_forall; auto)).
  assert (Hbody : forall k p st acc,
             k = "file" \/ k = "dir" -> below_by (fun _ => True) src p ->
             triple (Inv acc)
               (collect (sync_body re_base dst includes excludes download dry)
                  (k, p, st) acc)
               Inv (fun _ => True)).
  { intros k p st [log [t m]] Hk _ w1 (Hf & Hd & H2). cbn [fst snd] in *.
    unfold collect, bind, ret. cbn [fst snd].
    destruct (sync_body re_base dst includes excludes download dry (k, p, st)
                (t, m) w1) as [[[t' m']|x] w2] eqn:Eb; [|exact Logic.I].
    unfold Inv. cbn [fst snd].
    pose proof (sync_body_keeps_two_keys _ _ _ _ _ _ _ _ _ _ _ _ H2 Eb) as H2'.
    split; [|split; [|exact H2']].
    - rewrite recorded_snoc.
      pose proof (sync_body_manifest _ _ _ _ _ _ _ _ _ _ _ _ Eb) as Hm.
      cbn [snd kind_of path_of fst] in Hm.
      destruct Hm as [[Ha Hm] | (Ha & l & Hl & Hm)]; subst m';
        cbn [kind_of path_of fst snd]; rewrite Ha; cbn [andb].
      + rewrite app_nil_r. exact Hf.
      + destruct Hk as [-> | ->].
        * rewrite lookup_insert_eq. cbn [String.eqb]. simpl.
          rewrite Hf in Hl. injection Hl as <-. reflexivity.
        * rewrite lookup_insert_ne by discriminate.
          replace (String.eqb "dir" "file") with false by reflexivity.
          rewrite app_nil_r. exact Hf.
    - rewrite recorded_snoc.
      pose proof (sync_body_manifest _ _ _ _ _ _ _ _ _ _ _ _ Eb) as Hm.
      cbn [snd kind_of path_of fst] in Hm.
      destruct Hm as [[Ha Hm] | (Ha & l & Hl & Hm)]; subst m';
        cbn [kind_of path_of fst snd]; rewrite Ha; cbn [andb].
      + rewrite app_nil_r. exact Hd.
      + destruct Hk as [-> | ->].
        * rewrite lookup_insert_ne by discriminate.
          replace (String.eqb "file" "dir") with false by reflexivity.
          rewrite app_nil_r. exact Hd.
        * rewrite lookup_insert_eq. simpl.
          rewrite Hd in Hl. injection Hl as <-. reflexivity. }
  assert (H0 : Inv ([], (0, dst_list0)) w).
  { unfold Inv. cbn [fst snd]. split; [reflexivity|].
    split; [reflexivity | exact two_keys_dst_list0]. }
  specialize (Hrule' Hbody fuel ([], (0, dst_list0)) w H0).
  rewrite Hrun in Hrule'. exact Hrule'.
Qed.

(** X11. The manifest that the loop of [sync] holds when it ends: under
    each of its two keys, the destination paths of the yielded entries of
    that kind whose own relative path passes the filters, in the order of
    the yields, each translated by [os.path.join(dst, re_base.sub('', p))];
    an entry that the filters reject leaves no trace in it.  The yields are
    those that the same walk records when each call of the body is logged,
    which changes neither its result nor the world.  This holds on every
    host, for both walkers and with dry-run on or off. *)
Theorem manifest_records_accepted_entries :
  forall (pattern : Type) (R : Regex pattern) (W : Type) (HW : Host W)
         fuel src re_base dst (includes excludes : list pattern)
         download dry (w : W) total files w',
    _walk fuel src true download
      (sync_body re_base dst includes excludes download dry)
      (0, dst_list0) w
    = (Ok (total, files), w') ->
    exists L,
      _walk fuel src true download
        (collect (sync_body re_base dst includes excludes download dry))
        ([], (0, dst_list0)) w
      = (Ok (L, (total, files)), w')
      /\ files !! "file"
         = Some (recorded re_base dst includes excludes "file" L)
      /\ files !! "dir" = Some (recorded re_base dst includes excludes "dir" L)
      /\ two_keys files.
Proof.
  intros pattern R W HW fuel src re_base dst includes excludes download dry
    w total files w' Hrun.
  pose proof (records_walk
                (sync_body re_base dst includes excludes download dry)
                true download fuel src [] (0, dst_list0) w) as Hrec.
  cbv beta in Hrec. rewrite Hrun in Hrec.
  destruct (_walk fuel src true download
              (collect (sync_body re_base dst includes excludes download dry))
              ([], (0, dst_list0)) w) as [[[L [t m]]|x] w1] eqn:E;
    [|contradiction].
  destruct Hrec as (Ha & -> & _). injection Ha as -> ->.
  exists L. split; [reflexivity|].
  exact (manifest_of_recorded_walk _ _ _ _ _ _ _ _ _ _ _ _ _ _ _ _ _ E).
Qed.

Lemma manifest_records_accepted_entries_witness :
  exists total files w',
    _walk 8 "/a/b" true false
      (sync_body (pattern := list item) "/a/b" "/c/d" [] [] false true)
      (0, dst_list0) ex_world
    = (Ok (total, files), w')
    /\ exists L,
         _walk 8 "/a/b" true false
           (collect (sync_body (pattern := list item) "/a/b" "/c/d" [] []
                       false true))
           ([], (0, dst_list0)) ex_world
         = (Ok (L, (total, files)), w')
         /\ files !! "file" = Some (recorded "/a/b" "/c/d" [] [] "file" L)
         /\ files !! "dir" = Some (recorded "/a/b" "/c/d" [] [] "dir" L)
         /\ two_keys files.
Proof.
  destruct (_walk 8 "/a/b" true false
              (sync_body (pattern := list item) "/a/b" "/c/d" [] [] false true)
              (0, dst_list0) ex_world)
    as [[[total files]|x] w'] eqn:E.
  - exists total, files, w'. split; [reflexivity|].
    exact (manifest_records_accepted_entries (list item) mini_re world
             world_host 8%nat "/a/b" "/a/b" "/c/d" [] [] false true ex_world
             total files w' E).
  - exfalso. vm_compute in E. discriminate.
Defined.

(** ** A source that is not there *)

(** A root that is not a directory yields nothing, and no error. *)
Lemma walk_missing_root {Acc : Type} (fuel : nat) (path : string)
    (topdown remote : bool) (body : entry -> Acc -> M world Acc) (acc : Acc)
    (w : world) :
  fs_isdir (side remote w) path = false ->
  _walk (S fuel) path topdown remote body acc w = (Ok acc, w).
Proof.
  intros Hd. unfold _walk. destruct remote; cbn [side] in Hd.
  - cbn [_walk_remote]. unfold bind, read, listdir_or_empty.
    simpl sftp_listdir_attr. unfold fs_listdir. rewrite Hd. reflexivity.
  - unfold _walk_local. cbn [os_walk]. simpl os_scandir.
    unfold fs_listdir. rewrite Hd. reflexivity.
Qed.

Lemma extraneous_dst_list0 (k p : string) (st : option stat_result) :
  k = "file" \/ k = "dir" -> extraneous dst_list0 (k, p, st) = true.
Proof. intros [-> | ->]; reflexivity. Qed.

(** X12. A source root that is not a directory (a path that does not exist,
    or a file) is taken for an empty tree: on the model the walkers yield
    nothing and raise nothing, so [sync] creates the destination root,
    copies nothing and ends with a total of 0 and an empty manifest; with
    [delete] on, the deletion pass then runs against that empty manifest,
    for which every entry of the destination is to be removed. *)
Theorem missing_source_is_an_empty_source :
  forall (pattern : Type) (R : Regex pattern) fuel src dst download
         includes excludes (inc exc : list pattern) delete dry (w : world),
    _get_filters includes = Ok inc ->
    _get_filters excludes = Ok exc ->
    fs_isdir (side download w) (fst (fst (sync_roots src dst))) = false ->
    sync (pattern := pattern) (S fuel) src dst download includes excludes
      delete dry w
    = (_makedirs_dst (snd (sync_roots src dst)) (negb download) dry ;;;
       (if delete
        then _delete_dst (S fuel) (snd (sync_roots src dst)) dst_list0
               (negb download) dry
        else ret tt) ;;;
       ret (0, dst_list0))%M w
    /\ (forall k p st, k = "file" \/ k = "dir" ->
                       extraneous dst_list0 (k, p, st) = true).
Proof.
  intros pattern R fuel src dst download includes excludes inc exc delete
    dry w Hinc Hexc Hd.
  split; [|apply extraneous_dst_list0].
  unfold sync. rewrite Hinc, Hexc.
  destruct (sync_roots src dst) as [[src' re_base] dst'] eqn:Er.
  cbn [fst snd] in *. unfold bind at 1 2, lift at 1 2.
  unfold bind at 1 4.
  pose proof (keeps_makedirs_dst dst' (negb download) dry w) as Hk.
  rewrite negb_involutive in Hk.
  destruct (_makedirs_dst dst' (negb download) dry w) as [[[]|x] w1];
    [|reflexivity].
  cbn [snd] in Hk. rewrite <- Hk in Hd.
  unfold bind at 1.
  rewrite (walk_missing_root fuel src' true download _ _ w1 Hd).
  reflexivity.
Qed.

Lemma missing_source_is_an_empty_source_witness :
  _get_filters (pattern := list item) None = Ok []
  /\ fs_isdir (side false stale_world) (fst (fst (sync_roots "/a/b" "/c/d")))
     = false
  /\ sync (pattern := list item) (S 7) "/a/b" "/c/d" false None None true
       false stale_world
     = (_makedirs_dst (snd (sync_roots "/a/b" "/c/d")) (negb false) false ;;;
        (if true
         then _delete_dst (S 7) (snd (sync_roots "/a/b" "/c/d")) dst_list0
                (negb false) false
         else ret tt) ;;;
        ret (0, dst_list0))%M stale_world
  /\ (forall k p st, k = "file" \/ k = "dir" ->
                     extraneous dst_list0 (k, p, st) = true)
  /\ map fst (map_to_list
                (remote_fs
                   (snd (sync (pattern := list item) (S 7) "/a/b" "/c/d" false
                           None None true false stale_world))))
     = ["/c/d"; "/c"].
Proof.
  assert (H1 : _get_filters (pattern := list item) None = Ok [])
    by reflexivity.
  assert (H2 : fs_isdir (side false stale_world)
                 (fst (fst (sync_roots "/a/b" "/c/d"))) = false)
    by (vm_compute; reflexivity).
  split; [exact H1|]. split; [exact H2|].
  destruct (missing_source_is_an_empty_source (list item) mini_re 7%nat
              "/a/b" "/c/d" false
              None None [] [] true false stale_world H1 H1 H2) as [Hs He].
  split; [exact Hs|]. split; [exact He|].
  vm_compute. reflexivity.
Defined.

(** ** Running [sync] again *)

Lemma settles_refl (fs : gmap string node) (src re_base dst : string)
    (d : gmap string node) :
  settles fs src re_base dst d d.
Proof. intros k n Hn. left. exact Hn. Qed.

Lemma settles_trans (fs : gmap string node) (src re_base dst : string)
    (d d' d'' : gmap string node) :
  settles fs src re_base dst d d' -> settles fs src re_base dst d' d'' ->
  settles fs src re_base dst d d''.
Proof.
  intros H1 H2 k n Hn. destruct (H1 k n Hn) as [E1 | (nd & E1 & Hc)].
  - apply (H2 k n E1).
  - destruct (H2 k nd E1) as [E2 | (nd2 & E2 & Hc2)]; right; eauto.
Qed.

Lemma frame_settles (fs : gmap string node) (src re_base dst : string)
    (d d' : gmap string node) :
  frame_except (fun _ => False) d d' -> settles fs src re_base dst d d'.
Proof.
  intros Hf k n Hn. left. eapply frame_lookup; [exact Hf | tauto | exact Hn].
Qed.

Lemma settles_is_Some (fs : gmap string node) (src re_base dst : string)
    (d d' : gmap string node) (p : string) :
  settles fs src re_base dst d d' ->
  is_Some (fs_stat d p) -> is_Some (fs_stat d' p).
Proof.
  unfold fs_stat. intros Hs. destruct (implicit_dir (norm p)); [auto|].
  intros [n Hn]. destruct (Hs _ _ Hn) as [E | (nd & E & _)]; eauto.
Qed.

Lemma made_settles (fs : gmap string node) (src re_base dst : string)
    (d d' : gmap string node) (path : string) (remote : bool) :
  settles fs src re_base dst d d' -> made path remote d -> made path remote d'.
Proof.
  intros Hs. unfold made. destruct remote.
  - intros (ps & Hps & Hall). exists ps. split; [exact Hps|].
    eapply Forall_impl; [exact Hall|]. intros p.
    apply (settles_is_Some _ _ _ _ _ _ _ Hs).
  - apply (settles_is_Some _ _ _ _ _ _ _ Hs).
Qed.

Lemma compare_stat_copy (n : node) (name name' : string) :
  compare_stat (stat_of "" (copied n (stat_of name' n)))
    (Some (stat_of name n)) = Ok true.
Proof.
  change (copied n (stat_of name' n)) with (copied n (stat_of name n)).
  apply compare_stat_copied. reflexivity.
Qed.

Lemma save_None (src dst : string) (remote : bool) (w : world) :
  fst (_save src dst None remote w) <> Ok tt.
Proof.
  unfold _save. destruct remote; unfold bind, lift; cbn [getattr].
  - destruct (sftp_put src dst w) as [[[]|x] w1]; discriminate.
  - destruct (sftp_get src dst w) as [[[]|x] w1]; discriminate.
Qed.

(** Lines 90-92 with dry-run off: the copy and the update of the total. *)
Lemma copy_branch (src dst : string) (st : option stat_result)
    (remote : bool) (t : Z) (m : gmap string (list string)) (w : world)
    (t' : Z) (m' : gmap string (list string)) (w' : world) :
  (_save src dst st remote ;;;
   size <- lift (getattr st_size "st_size" st) ;;
   ret (t + size, m))%M w = (Ok (t', m'), w') ->
  exists s n,
    st = Some s /\ m' = m /\ t' = t + st_size s
    /\ fs_stat (side (negb remote) w) src = Some n
    /\ side remote w' = <[norm dst := copied n s]> (side remote w)
    /\ fs_stat (side remote w') dst = Some (copied n s).
Proof.
  unfold bind at 1. intros Hrun.
  destruct (_save src dst st remote w) as [[[]|x] w1] eqn:Es; [|discriminate].
  destruct st as [s|].
  - unfold bind, lift, ret in Hrun. cbn [getattr] in Hrun.
    injection Hrun as <- <- <-.
    assert (Hok : fst (_save src dst (Some s) remote w) = Ok tt)
      by (rewrite Es; reflexivity).
    destruct (save_effect src dst s remote w Hok)
      as (n & H1 & _ & _ & H4 & H5).
    rewrite Es in H4, H5. cbn [snd] in H4, H5.
    exists s, n. repeat split; auto.
  - exfalso. apply (save_None src dst remote w). rewrite Es. reflexivity.
Qed.

Section Again.
Context {pattern : Type} `{Regex pattern}.
Variables (fs : gmap string node) (src re_base dst : string).
Variables (includes excludes : list pattern) (download : bool).
Hypothesis Hbase : join_prefix src = re_base +:+ "/".

Lemma settled_stable (d d' : gmap string node) (e : entry) :
  sound_entry fs src e ->
  settles fs src re_base dst d d' ->
  settled re_base dst includes excludes download d e ->
  settled re_base dst includes excludes download d' e.
Proof.
  intros (Hk & Hb & Hp) Hs [Hr | [[Hd Hm] | (Hf & nd & Hn & Hc)]].
  - left. exact Hr.
  - right. left. split; [exact Hd|]. eapply made_settles; eassumption.
  - right. right. split; [exact Hf|].
    destruct (dst_file_of_below _ _ dst _ Hbase Hb) as (t & _ & _ & _ & _ & Hbd).
    rewrite (fs_stat_key d _ _ Hbd) in Hn. rewrite (fs_stat_key d' _ _ Hbd).
    destruct (Hs _ _ Hn) as [E | (nd' & E & p' & n' & name' & Hb' & Hk' & Hn' & ->)].
    + exists nd. auto.
    + exists (copied n' (stat_of name' n')). split; [exact E|].
      apply (dst_file_of_inj _ _ _ _ _ Hbase Hb Hb') in Hk'.
      destruct (snd e) as [s|] eqn:Es; [|discriminate].
      simpl in Hp. destruct Hp as (n & name & Hfs & ->).
      rewrite (fs_stat_key _ _ _ Hb), Hk', Hn' in Hfs. injection Hfs as ->.
      apply compare_stat_copy.
Qed.

(** The body of the loop, with dry-run off, on an entry of the source: when
    it returns, the entry is settled, the destination has only settled, and
    the source is as it was. *)
Lemma sync_body_settles (e : entry) (t : Z) (m : gmap string (list string))
    (w : world) (t' : Z) (m' : gmap string (list string)) (w' : world) :
  side download w = fs ->
  sound_entry fs src e ->
  sync_body re_base dst includes excludes download false e (t, m) w
  = (Ok (t', m'), w') ->
  manifest_step re_base dst includes excludes e m = Some m'
  /\ settles fs src re_base dst (side (negb download) w)
       (side (negb download) w')
  /\ settled re_base dst includes excludes download
       (side (negb download) w') e
  /\ side download w' = fs.
Proof.
  intros Hfs (Hk & Hb & Hp) Hrun.
  assert (Hsrc : side download w' = fs).
  { pose proof (keeps_sync_body re_base dst includes excludes download false
                  e (t, m) w) as Hkeep.
    rewrite Hrun in Hkeep. simpl in Hkeep. congruence. }
  destruct e as [[k p] st].
  unfold manifest_step, settled, accepted, dst_file_of, kind_of, path_of in *.
  cbn [fst snd] in *.
  unfold sync_body in Hrun.
  destruct (_validate_src (re_base_sub re_base p) includes excludes);
    cbn [negb] in Hrun.
  2: { unfold ret in Hrun. injection Hrun as <- <- <-.
       repeat split; auto using settles_refl. }
  destruct (m !! k) as [l|] eqn:Hl; [|discriminate].
  set (d := os_path.join dst (re_base_sub re_base p)) in *.
  assert (copy_settles : forall (_ : node),
    (_save p d st (negb download) ;;;
     size <- lift (getattr st_size "st_size" st) ;;
     ret (t + size, <[k := l ++ [d]]> m))%M w = (Ok (t', m'), w') ->
    k = "file" ->
    <[k := l ++ [d]]> m = m'
    /\ settles fs src re_base dst (side (negb download) w)
         (side (negb download) w')
    /\ exists nd,
         fs_stat (side (negb download) w') d = Some nd
         /\ compare_stat (stat_of "" nd) st = Ok true).
  { intros _ Hc Hkf.
    destruct (copy_branch _ _ _ _ _ _ _ _ _ _ Hc)
      as (s & n & -> & -> & _ & Hn & Hside & Hstat).
    rewrite negb_involutive, Hfs in Hn.
    simpl in Hp. destruct Hp as (n' & name & Hn' & ->).
    rewrite Hn in Hn'. injection Hn' as <-.
    destruct (dst_file_of_below _ _ dst _ Hbase Hb)
      as (r & _ & _ & _ & _ & Hbd).
    unfold dst_file_of in Hbd. fold d in Hbd.
    destruct (below_key _ _ Hbd) as [Hnorm _]. rewrite Hnorm in Hside.
    split; [reflexivity|]. split.
    - rewrite Hside. intros k0 n0 Hk0.
      destruct (decide (k0 = d)) as [->|Hne].
      + right. exists (copied n (stat_of name n)).
        split; [apply lookup_insert_eq|].
        exists p, n, name. repeat split; auto.
        rewrite <- (fs_stat_key _ _ _ Hb). exact Hn.
      + left. rewrite lookup_insert_ne by congruence. exact Hk0.
    - exists (copied n (stat_of name n)). split; [exact Hstat|].
      apply compare_stat_copied. reflexivity. }
  destruct Hk as [-> | ->].
  - (* a file *)
    replace (String.eqb "file" "dir") with false in Hrun by reflexivity.
    replace (String.eqb "file" "file") with true in Hrun by reflexivity.
    unfold bind at 1, read in Hrun. rewrite validate_dst_world in Hrun.
    destruct (fs_stat (side (negb download) w) d) as [nd|] eqn:End.
    + destruct (compare_stat (stat_of "" nd) st) as [[|]|x] eqn:Ec;
        [| |discriminate]; cbn [negb] in Hrun.
      * unfold ret in Hrun. injection Hrun as <- <- <-.
        repeat split; auto using settles_refl.
        right. right. split; [reflexivity|]. eauto.
      * destruct (copy_settles nd Hrun eq_refl) as (<- & Hs & Hx).
        split; [reflexivity|]. split; [exact Hs|].
        split; [right; right; split; [reflexivity | exact Hx] | exact Hsrc].
    + cbn [negb] in Hrun.
      destruct (copy_settles (dir_node 0) Hrun eq_refl) as (<- & Hs & Hx).
      split; [reflexivity|]. split; [exact Hs|].
      split; [right; right; split; [reflexivity | exact Hx] | exact Hsrc].
  - (* a directory *)
    replace (String.eqb "dir" "dir") with true in Hrun by reflexivity.
    unfold bind, ret in Hrun.
    destruct (makedirs_dst_made d (negb download) w) as [Hf Hm].
    destruct (_makedirs_dst d (negb download) false w) as [[[]|x] w1];
      [|discriminate].
    injection Hrun as <- <- <-. cbn [fst snd] in *.
    split; [reflexivity|]. split; [apply frame_settles, Hf|].
    split; [|exact Hsrc]. right. left. split; [reflexivity|].
    apply Hm. reflexivity.
Qed.

(** The body of the loop on an entry that is settled: nothing is done, the
    total is what it was. *)
Lemma sync_body_noop (dry : bool) (e : entry) (t : Z)
    (m m' : gmap string (list string)) (w : world) :
  kind_of e = "file" \/ kind_of e = "dir" ->
  settled re_base dst includes excludes download (side (negb download) w) e ->
  manifest_step re_base dst includes excludes e m = Some m' ->
  sync_body re_base dst includes excludes download dry e (t, m) w
  = (Ok (t, m'), w).
Proof.
  destruct e as [[k p] st].
  unfold manifest_step, settled, accepted, dst_file_of, kind_of, path_of.
  cbn [fst snd]. intros Hk Hs Hm. unfold sync_body.
  destruct (_validate_src (re_base_sub re_base p) includes excludes);
    cbn [negb].
  2: { injection Hm as <-. reflexivity. }
  destruct (m !! k) as [l|]; [|discriminate]. injection Hm as <-.
  destruct Hs as [Hs | [[-> Hmade] | (-> & nd & Hn & Hc)]]; [discriminate| |].
  - replace (String.eqb "dir" "dir") with true by reflexivity.
    unfold bind, ret. rewrite (made_noop _ _ dry _ Hmade). reflexivity.
  - replace (String.eqb "file" "dir") with false by reflexivity.
    replace (String.eqb "file" "file") with true by reflexivity.
    unfold bind, read, ret. rewrite validate_dst_world, Hn, Hc. reflexivity.
Qed.

(** The loop over the yields, with dry-run off: when it returns, every
    entry is settled, and the loop run again on a destination where every
    entry is settled does nothing and ends with the same manifest. *)
Lemma sync_loop_settles (L : list entry) :
  Forall (sound_entry fs src) L ->
  forall t m w t' m' w',
    side download w = fs ->
    for_each L (sync_body re_base dst includes excludes download false)
      (t, m) w = (Ok (t', m'), w') ->
    settles fs src re_base dst (side (negb download) w)
      (side (negb download) w')
    /\ Forall (settled re_base dst includes excludes download
                 (side (negb download) w')) L
    /\ side download w' = fs
    /\ (forall dry t2 w2,
           Forall (settled re_base dst includes excludes download
                     (side (negb download) w2)) L ->
           for_each L (sync_body re_base dst includes excludes download dry)
             (t2, m) w2 = (Ok (t2, m'), w2)).
Proof.
  induction 1 as [|e L He HL IH]; intros t m w t' m' w' Hfs Hrun.
  - simpl in Hrun. unfold ret in Hrun. injection Hrun as <- <- <-.
    repeat split; auto using settles_refl.
  - cbn [for_each] in Hrun. unfold bind in Hrun.
    destruct (sync_body re_base dst includes excludes download false e
                (t, m) w) as [[[t1 m1]|x] w1] eqn:Eb; [|discriminate].
    destruct (sync_body_settles _ _ _ _ _ _ _ Hfs He Eb)
      as (Hm & Hs1 & Hd1 & Hfs1).
    destruct (IH _ _ _ _ _ _ Hfs1 Hrun) as (Hs & Hall & Hfs' & Hagain).
    split; [eapply settles_trans; eassumption|].
    split; [constructor; [eapply settled_stable; eassumption | exact Hall]|].
    split; [exact Hfs'|].
    intros dry t2 w2 Hall2. apply Forall_cons in Hall2 as [He2 Hall2].
    cbn [for_each]. unfold bind.
    rewrite (sync_body_noop dry e t2 m m1 w2 (proj1 He) He2 Hm).
    apply Hagain, Hall2.
Qed.

End Again.

(** ** The yields of the walkers of the model *)

Lemma child_stat (fs : gmap string node) (p name : string) (n : node) :
  valid_name name = true -> fs !! (join_prefix p +:+ name) = Some n ->
  fs_stat fs (os_path.join p name) = Some n.
Proof.
  intros Hv Hn.
  rewrite (fs_stat_key fs p (os_path.join p name) (below_child _ p name Hv)).
  rewrite (join_valid _ _ Hv). exact Hn.
Qed.

(** On the model a walk is the loop over the yields of the same walk in the
    world it starts from, as long as the loop leaves the walked side
    alone. *)
Lemma walk_follows_model {Acc : Type} (body : entry -> Acc -> M world Acc)
    (remote : bool) (w0 : world) :
  (forall e acc, keeps remote (body e acc)) ->
  forall topdown fuel path,
    follows (fun w w' => side remote w = side remote w') body w0
      (fun st => _walk fuel path topdown remote (collect idle) st)
      (fun acc => _walk fuel path topdown remote body acc).
Proof.
  intros Hkeep topdown fuel path.
  assert (Hag : forall e acc w, side remote w = side remote w0 ->
                  side remote (snd (body e acc w)) = side remote w0).
  { intros e acc w Hw. rewrite Hkeep. exact Hw. }
  unfold _walk. destruct remote; cbn [side] in *.
  - apply (follows_walk_remote _ body w0 Hag).
    intros p w Hw. simpl. rewrite Hw. reflexivity.
  - apply (follows_walk_local _ body w0 Hag).
    + intros p w Hw. simpl. rewrite Hw. reflexivity.
    + intros p w Hw. simpl. rewrite Hw. reflexivity.
Qed.

Lemma collect_idle_sound (fs : gmap string node) (src : string)
    (remote : bool) (k p : string) (st : option stat_result)
    (acc : list entry * unit) :
  k = "file" \/ k = "dir" -> below src p -> prov (stat_at fs) p st ->
  triple (fun w => side remote w = fs /\ Forall (sound_entry fs src) (fst acc))
    (collect idle (k, p, st) acc)
    (fun st' w => side remote w = fs /\ Forall (sound_entry fs src) (fst st'))
    (fun _ => True).
Proof.
  intros Hk Hb Hp w [Hw Hall]. unfold collect, idle, bind, ret. cbn [fst snd].
  split; [exact Hw|]. apply Forall_app. split; [exact Hall|].
  constructor; [|constructor]. repeat split; assumption.
Qed.

(** What the walkers of the model yield. *)
Lemma walk_sound (fuel : nat) (src : string) (topdown remote : bool)
    (w : world) (L : list entry) (u : unit) (w' : world) :
  _walk fuel src topdown remote (collect idle) ([], tt) w
  = (Ok (L, u), w') ->
  Forall (sound_entry (side remote w) src) L.
Proof.
  intros Hrun. set (fs := side remote w).
  set (I := fun (st : list entry * unit) (w1 : world) =>
              side remote w1 = fs /\ Forall (sound_entry fs src) (fst st)).
  assert (H0 : I ([], tt) w) by (split; [reflexivity | constructor]).
  assert (Hrule : triple (I ([], tt))
                    (_walk fuel src topdown remote (collect idle) ([], tt))
                    I (fun _ => True)).
  { unfold _walk. destruct remote.
    - apply (walk_remote_rule (fun n => valid_name n = true) I (fun _ => True)
               (fun _ _ _ => Logic.I) (stat_at fs) src topdown);
        [| |left; reflexivity].
      + intros acc w1 p l [Hw1 _]. simpl. cbn [side] in Hw1. rewrite Hw1.
        unfold fs_listdir. destruct (fs_isdir fs p); [|discriminate].
        intros [= <-]. apply Forall_fmap, Forall_forall.
        intros [name n] Hin. apply fs_children_elem in Hin as [Hv Hn].
        simpl. split; [exact Hv|]. exists n, name.
        split; [apply child_stat; assumption | reflexivity].
      + intros k p st acc. apply collect_idle_sound.
    - apply (walk_local_rule (fun n => valid_name n = true) I (fun _ => True)
               (fun _ _ _ => Logic.I) (stat_at fs) src topdown).
      + intros acc w1 p l _. apply world_scandir_valid.
      + intros acc w1 p s [Hw1 _]. simpl. cbn [side] in Hw1. rewrite Hw1.
        unfold stat_in. destruct (fs_stat fs p) as [n|] eqn:En; [|discriminate].
        intros [= <-]. exists n, "". auto.
      + intros k p st acc. apply collect_idle_sound. }
  specialize (Hrule w H0). rewrite Hrun in Hrule. apply Hrule.
Qed.

(** [sync], step by step. *)
Lemma sync_steps {pattern : Type} `{Regex pattern} (fuel : nat)
    (src dst : string) (download : bool)
    (includes excludes : option (list string)) (delete dry : bool)
    (w : world) :
  sync (pattern := pattern) fuel src dst download includes excludes delete
    dry w
  = match _get_filters includes with
    | Raise x => (Raise x, w)
    | Ok inc =>
        match _get_filters excludes with
        | Raise x => (Raise x, w)
        | Ok exc =>
            match _makedirs_dst (snd (sync_roots src dst)) (negb download)
                    dry w with
            | (Raise x, w1) => (Raise x, w1)
            | (Ok _, w1) =>
                match _walk fuel (fst (fst (sync_roots src dst))) true download
                        (sync_body (snd (fst (sync_roots src dst)))
                           (snd (sync_roots src dst)) inc exc download dry)
                        (0, dst_list0) w1 with
                | (Raise x, w2) => (Raise x, w2)
                | (Ok r, w2) =>
                    match (if delete
                           then _delete_dst fuel (snd (sync_roots src dst))
                                  (snd r) (negb download) dry
                           else ret tt) w2 with
                    | (Raise x, w3) => (Raise x, w3)
                    | (Ok _, w3) => (Ok r, w3)
                    end
                end
            end
        end
    end.
Proof.
  unfold sync, bind, lift.
  destruct (_get_filters includes) as [inc|x]; [|reflexivity].
  destruct (_get_filters excludes) as [exc|x]; [|reflexivity].
  destruct (sync_roots src dst) as [[src' re_base] dst']. cbn [fst snd].
  destruct (_makedirs_dst dst' (negb download) dry w) as [[[]|x] w1];
    [|reflexivity].
  destruct (_walk fuel src' true download _ (0, dst_list0) w1)
    as [[r|x] w2]; [|reflexivity].
  destruct delete; [|reflexivity].
  destruct (_delete_dst fuel dst' (snd r) (negb download) dry w2)
    as [[[]|x] w3]; reflexivity.
Qed.

(** ** A second run *)

(** X13. With [delete] and dry-run off, on the model: when [sync] returns,
    the same call made again from the world it left, the source unchanged,
    returns a total of 0 and the same manifest and leaves that world exactly
    as it is (no directory is created, no file copied, no time stamp set);
    a dry run made then reports a total of 0 as well. *)
Theorem sync_again_copies_nothing :
  forall (pattern : Type) (R : Regex pattern) fuel src dst download
         includes excludes (w : world) r w',
    sync (pattern := pattern) fuel src dst download includes excludes
      false false w = (Ok r, w') ->
    forall dry,
      sync (pattern := pattern) fuel src dst download includes excludes
        false dry w' = (Ok (0, snd r), w').
Proof.
  intros pattern R fuel src dst download includes excludes w r w' Hrun dry.
  rewrite sync_steps in Hrun. rewrite sync_steps.
  destruct (_get_filters includes) as [inc|x]; [|discriminate].
  destruct (_get_filters excludes) as [exc|x]; [|discriminate].
  pose proof (sync_roots_prefix src dst) as Hbase.
  destruct (sync_roots src dst) as [[src' re_base] dst']. cbn [fst snd] in *.
  destruct (makedirs_dst_made dst' (negb download) w) as [_ Hmade].
  destruct (_makedirs_dst dst' (negb download) false w) as [[[]|x] w1];
    [|discriminate].
  cbn [fst snd] in Hmade. specialize (Hmade eq_refl).
  destruct (_walk fuel src' true download
              (sync_body re_base dst' inc exc download false)
              (0, dst_list0) w1) as [[[t1 m1]|x] w2] eqn:Ew; [|discriminate].
  unfold ret in Hrun. injection Hrun as <- <-. cbn [snd].
  pose proof (walk_follows_model
                (sync_body re_base dst' inc exc download false) download w1
                (keeps_sync_body re_base dst' inc exc download false)
                true fuel src' [] (0, dst_list0) w1 eq_refl) as Hf1.
  cbv beta in Hf1.
  destruct (_walk fuel src' true download (collect idle) ([], tt) w1)
    as [[[L u]|x] w0] eqn:Erec.
  2: { rewrite Ew in Hf1. discriminate. }
  destruct Hf1 as (-> & L' & HL & Hfor). simpl in HL. subst L'.
  rewrite Ew in Hfor.
  pose proof (walk_sound _ _ _ _ _ _ _ _ Erec) as Hsound.
  destruct (sync_loop_settles (side download w1) src' re_base dst' inc exc
              download Hbase L Hsound 0 dst_list0 w1 t1 m1 w2 eq_refl
              (eq_sym Hfor)) as (Hs & Hall & Hfs2 & Hagain).
  rewrite (made_noop dst' (negb download) dry w2
             (made_settles _ _ _ _ _ _ _ _ Hs Hmade)).
  pose proof (walk_follows_model
                (sync_body re_base dst' inc exc download dry) download w1
                (keeps_sync_body re_base dst' inc exc download dry)
                true fuel src' [] (0, dst_list0) w2 Hfs2) as Hf2.
  cbv beta in Hf2. rewrite Erec in Hf2.
  destruct Hf2 as (_ & L' & HL & Hfor2). simpl in HL. subst L'.
  rewrite Hfor2, (Hagain dry 0 w2 Hall). reflexivity.
Qed.

Lemma sync_again_copies_nothing_witness :
  exists r w',
    sync (pattern := list item) 8 "/a/b" "/c/d" false None None false false
      ex_world = (Ok r, w')
    /\ calls w' <> []
    /\ forall dry,
         sync (pattern := list item) 8 "/a/b" "/c/d" false None None false
           dry w' = (Ok (0, snd r), w').
Proof.
  destruct (sync (pattern := list item) 8 "/a/b" "/c/d" false None None false
              false ex_world) as [[r|x] w'] eqn:E.
  - exists r, w'. split; [reflexivity|]. split.
    + pose proof (f_equal (fun y => calls (snd y)) E) as Hc.
      cbn [snd] in Hc. rewrite <- Hc. vm_compute. discriminate.
    + exact (sync_again_copies_nothing (list item) mini_re 8%nat "/a/b"
               "/c/d" false None None ex_world r w' E).
  - exfalso. vm_compute in E. discriminate.
Defined.

(** ** From source paths to destination paths *)

(** X14. The translation of lines 78 and 83,
    [os.path.join(dst, re_base.sub('', src_file))], with the roots that
    lines 64-69 compute: a strict descendant of the source root goes to a
    strict descendant of the destination root, with the same relative path
    (the names joined to the source root are the names joined to the
    destination root), and two different descendants of the source root
    never go to the same destination path. *)
Theorem destination_paths_do_not_collide :
  forall (src0 dst0 : string),
    let src := fst (fst (sync_roots src0 dst0)) in
    let re_base := snd (fst (sync_roots src0 dst0)) in
    let dst := snd (sync_roots src0 dst0) in
    (forall p, below src p ->
       exists t, rel_path t
                 /\ p = join_prefix src +:+ t
                 /\ dst_file_of re_base dst p = join_prefix dst +:+ t
                 /\ below dst (dst_file_of re_base dst p))
    /\ (forall p q, below src p -> below src q ->
          dst_file_of re_base dst p = dst_file_of re_base dst q -> p = q).
Proof.
  intros src0 dst0. pose proof (sync_roots_prefix src0 dst0) as Hbase.
  destruct (sync_roots src0 dst0) as [[src re_base] dst]. cbn [fst snd].
  split.
  - intros p Hp.
    destruct (dst_file_of_below _ _ dst _ Hbase Hp)
      as (t & Ht & Hpt & _ & Hd & Hb).
    exists t. auto.
  - intros p q Hp Hq. apply (dst_file_of_inj _ _ _ _ _ Hbase Hp Hq).
Qed.

(** ** What the deletion pass keeps *)

Lemma in_list_elem (x : string) (l : list string) :
  in_list x l = true <-> x ∈ l.
Proof.
  unfold in_list. rewrite existsb_exists. split.
  - intros (y & Hy & E). apply String.eqb_eq in E. subst.
    apply list_elem_of_In, Hy.
  - intros Hx. exists x. split; [apply list_elem_of_In, Hx|].
    apply String.eqb_refl.
Qed.

Lemma fs_remove_lookup (q : string) (fs : gmap string node) (p : string) :
  p <> norm q \/ (exists n, fs !! p = Some n /\ S_ISDIR (n_mode n) = true) ->
  snd (fs_remove q fs) !! p = fs !! p.
Proof.
  intros Hp. unfold fs_remove.
  destruct (fs !! norm q) as [n0|] eqn:Eq; [|reflexivity].
  destruct (S_ISDIR (n_mode n0)) eqn:Ed; [reflexivity|]. simpl.
  destruct Hp as [Hne | (n & Hn & Hd)].
  - apply lookup_delete_ne. congruence.
  - destruct (decide (p = norm q)) as [->|Hne].
    + congruence.
    + apply lookup_delete_ne. congruence.
Qed.

Lemma fs_rmdir_lookup (q : string) (fs : gmap string node) (p : string) :
  p <> norm q \/ (exists n, fs !! p = Some n /\ S_ISDIR (n_mode n) = false) ->
  snd (fs_rmdir q fs) !! p = fs !! p.
Proof.
  intros Hp. unfold fs_rmdir.
  destruct (fs !! norm q) as [n0|] eqn:Eq; [|reflexivity].
  destruct (S_ISDIR (n_mode n0)) eqn:Ed; cbn [negb]; [|reflexivity].
  destruct (fs_children fs q); [|reflexivity]. simpl.
  destruct Hp as [Hne | (n & Hn & Hd)].
  - apply lookup_delete_ne. congruence.
  - destruct (decide (p = norm q)) as [->|Hne].
    + congruence.
    + apply lookup_delete_ne. congruence.
Qed.

(** The side that a removal callable works on, after the call. *)
Lemma callables_side (remote : bool) (k q : string) (w : world) :
  k = "file" \/ k = "dir" ->
  exists rm,
    callables remote !! k = Some rm
    /\ side remote (snd (rm q w))
       = snd ((if String.eqb k "file" then fs_remove q else fs_rmdir q)
                (side remote w)).
Proof.
  intros [-> | ->]; destruct remote; eexists; (split; [reflexivity|]);
    simpl; unfold on_remote, on_local;
    match goal with |- context [?op q (?f w)] =>
      destruct (op q (f w)); reflexivity end.
Qed.

(** One step of the deletion loop leaves alone a file of the manifest that
    is a file, and a directory of the manifest that is a directory. *)
Lemma delete_dst_body_protects (remote dry : bool)
    (files : gmap string (list string)) (path k q : string)
    (st : option stat_result) (w : world) (p : string) (n : node) :
  k = "file" \/ k = "dir" -> below path q ->
  side remote w !! p = Some n ->
  (exists l, files !! (if S_ISDIR (n_mode n) then "dir" else "file") = Some l
             /\ p ∈ l) ->
  side remote (snd (_delete_dst_body remote dry files (k, q, st) w)) !! p
  = Some n.
Proof.
  intros Hk Hq Hn (l & Hl & Hin). unfold _delete_dst_body.
  destruct (files !! k) as [lk|] eqn:Hlk; [|exact Hn].
  destruct (in_list q lk) eqn:Eq; cbn [negb]; [exact Hn|].
  destruct dry; cbn [negb]; [exact Hn|].
  destruct (callables_side remote k q w Hk) as (rm & -> & Hside).
  cbn [snd]. rewrite Hside, <- Hn.
  destruct (below_key _ _ Hq) as [Hnorm _].
  assert (Hcase : p <> q \/ (p = q /\ k <> (if S_ISDIR (n_mode n)
                                              then "dir" else "file"))).
  { destruct (decide (p = q)) as [->|Hne]; [right | left; exact Hne].
    split; [reflexivity|]. intros ->.
    rewrite Hl in Hlk. injection Hlk as <-.
    apply in_list_elem in Hin. congruence. }
  destruct Hk as [-> | ->].
  - replace (String.eqb "file" "file") with true by reflexivity.
    apply fs_remove_lookup. rewrite Hnorm.
    destruct Hcase as [Hne | [-> Hkind]]; [left; exact Hne|].
    right. exists n. split; [exact Hn|].
    destruct (S_ISDIR (n_mode n)); [reflexivity | contradiction].
  - replace (String.eqb "dir" "file") with false by reflexivity.
    apply fs_rmdir_lookup. rewrite Hnorm.
    destruct Hcase as [Hne | [-> Hkind]]; [left; exact Hne|].
    right. exists n. split; [exact Hn|].
    destruct (S_ISDIR (n_mode n)); [contradiction | reflexivity].
Qed.

(** X15. What the deletion pass never touches, on the model: a node of the
    destination whose path the manifest lists under its own kind (under
    ['file'] for a node that is not a directory, under ['dir'] for a
    directory) is after the pass exactly what it was before, whatever else
    the pass removes and whether it returns or raises. *)
Theorem deletion_keeps_manifest_entries :
  forall fuel path files remote dry (w : world) (p : string) (n : node)
         (l : list string),
    side remote w !! p = Some n ->
    files !! (if S_ISDIR (n_mode n) then "dir" else "file") = Some l ->
    p ∈ l ->
    side remote (snd (_delete_dst fuel path files remote dry w)) !! p
    = Some n.
Proof.
  intros fuel path files remote dry w p n l Hn Hl Hin. unfold _delete_dst.
  pose proof (walk_rule0 (fun name => valid_name name = true)
                (fun (_ : unit) (w1 : world) => side remote w1 !! p = Some n)
                (fun w1 => side remote w1 !! p = Some n)
                (fun _ _ Hw => Hw) path false remote
                (fun e _ => _delete_dst_body remote dry files e)) as Hrule.
  specialize (Hrule (fun _ w1 q l0 _ => world_listdir_valid w1 q l0)
                    (fun _ w1 q l0 _ => world_scandir_valid w1 q l0)).
  assert (Hbody : forall k q st (acc : unit),
             k = "file" \/ k = "dir" -> below path q ->
             triple (fun w1 => side remote w1 !! p = Some n)
               (_delete_dst_body remote dry files (k, q, st))
               (fun _ w1 => side remote w1 !! p = Some n)
               (fun w1 => side remote w1 !! p = Some n)).
  { intros k q st acc Hk Hq w1 Hw1.
    pose proof (delete_dst_body_protects remote dry files path k q st w1 p n
                  Hk Hq Hw1 (ex_intro _ l (conj Hl Hin))) as Hb.
    destruct (_delete_dst_body remote dry files (k, q, st) w1) as [[u|x] w2];
      exact Hb. }
  specialize (Hrule Hbody fuel tt w Hn).
  destruct (_walk fuel path false remote
              (fun e _ => _delete_dst_body remote dry files e) tt w)
    as [[u|x] w2]; exact Hrule.
Qed.

Lemma deletion_keeps_manifest_entries_witness :
  side true delete_world !! "/c/d/keep.txt" = Some (file_node 10 50)
  /\ (<["file" := ["/c/d/keep.txt"]]> dst_list0)
       !! (if S_ISDIR (n_mode (file_node 10 50)) then "dir" else "file")
     = Some ["/c/d/keep.txt"]
  /\ "/c/d/keep.txt" ∈ ["/c/d/keep.txt"]
  /\ side true
       (snd (_delete_dst 8 "/c/d" (<["file" := ["/c/d/keep.txt"]]> dst_list0)
               true false delete_world))
       !! "/c/d/keep.txt"
     = Some (file_node 10 50).
Proof.
  assert (H1 : side true delete_world !! "/c/d/keep.txt"
               = Some (file_node 10 50)) by (vm_compute; reflexivity).
  assert (H2 : (<["file" := ["/c/d/keep.txt"]]> dst_list0)
                 !! (if S_ISDIR (n_mode (file_node 10 50))
                     then "dir" else "file")
               = Some ["/c/d/keep.txt"]) by (vm_compute; reflexivity).
  assert (H3 : "/c/d/keep.txt" ∈ ["/c/d/keep.txt"])
    by apply list_elem_of_here.
  split; [exact H1|]. split; [exact H2|]. split; [exact H3|].
  exact (deletion_keeps_manifest_entries 8%nat "/c/d"
           (<["file" := ["/c/d/keep.txt"]]> dst_list0) true false delete_world
           "/c/d/keep.txt" (file_node 10 50) ["/c/d/keep.txt"] H1 H2 H3).
Defined.

(** ** The total of a dry run *)

Lemma sync_body_dry_total {pattern : Type} `{Regex pattern}
    {W : Type} `{Host W} re_base dst (includes excludes : list pattern)
    download (e : entry) t m (w : W) t' m' w' :
  sync_body re_base dst includes excludes download true e (t, m) w
  = (Ok (t', m'), w') ->
  t' = if pending re_base dst includes excludes download w e
       then t + size_of e else t.
Proof.
  destruct e as [[k p] st].
  unfold pending, size_of, accepted, dst_file_of, kind_of, path_of.
  cbn [fst snd]. unfold sync_body.
  destruct (_validate_src (re_base_sub re_base p) includes excludes);
    cbn [negb andb].
  2: { unfold ret. intros [= <- _ _]. reflexivity. }
  destruct (m !! k) as [l|]; [|discriminate].
  destruct (String.eqb k "dir") eqn:Ed.
  { apply String.eqb_eq in Ed. subst k.
    replace (String.eqb "dir" "file") with false by reflexivity.
    unfold bind, ret.
    destruct (_makedirs_dst _ (negb download) true w) as [[[]|x] w1];
      [|discriminate].
    intros [= <- _ _]. reflexivity. }
  destruct (String.eqb k "file"); [|discriminate]. cbn [andb].
  unfold bind, read, ret, lift.
  destruct (_validate_dst (os_path.join dst (re_base_sub re_base p)) st
              (negb download) w) as [[|]|x]; cbn [negb]; [| |discriminate].
  - intros [= <- _ _]. reflexivity.
  - destruct st as [s|]; cbn [getattr]; [|discriminate].
    intros [= <- _ _]. reflexivity.
Qed.

(** The total of a dry walk that logs the entries it hands to the body. *)
Lemma total_of_recorded_dry_walk :
  forall (pattern : Type) (R : Regex pattern) (W : Type) (HW : Host W)
         fuel src re_base dst (includes excludes : list pattern)
         download (w : W) L total files w',
    _walk fuel src true download
      (collect (sync_body re_base dst includes excludes download true))
      ([], (0, dst_list0)) w
    = (Ok (L, (total, files)), w') ->
    w' = w
    /\ total = pending_total re_base dst includes excludes download w L.
Proof.
  intros pattern R W HW fuel src re_base dst includes excludes download
    w L total files w' Hrun.
  set (Inv := fun (st : list entry * (Z * gmap string (list string)))
                  (w1 : W) =>
                w1 = w
                /\ fst (snd st)
                   = pending_total re_base dst includes excludes download w
                       (fst st)).
  pose proof (walk_rule0 (fun _ => True) Inv (fun _ => True)
                (fun _ _ _ => Logic.I) src true download
                (collect (sync_body re_base dst includes excludes download
                            true)))
    as Hrule.
  assert (Hrule' := fun H1 H2 => Hrule H1 H2). clear Hrule.
  specialize (Hrule' ltac:(intros; apply Forall_forall; auto)
                     ltac:(intros; apply Forall_forall; auto)).
  assert (Hbody : forall k p st acc,
             k = "file" \/ k = "dir" -> below_by (fun _ => True) src p ->
             triple (Inv acc)
               (collect (sync_body re_base dst includes excludes download true)
                  (k, p, st) acc)
               Inv (fun _ => True)).
  { intros k p st [log [t m]] _ _ w1 [-> Ht]. cbn [fst snd] in *.
    unfold collect, bind, ret. cbn [fst snd].
    pose proof (sync_body_dry re_base dst includes excludes download
                  (k, p, st) (t, m) w) as Hun.
    destruct (sync_body re_base dst includes excludes download true (k, p, st)
                (t, m) w) as [[[t' m']|x] w2] eqn:Eb; [|exact Logic.I].
    cbn [snd] in Hun. subst w2. unfold Inv. cbn [fst snd].
    split; [reflexivity|].
    unfold pending_total. rewrite fold_left_app. cbn [fold_left].
    fold (pending_total re_base dst includes excludes download w log).
    rewrite <- Ht. exact (sync_body_dry_total _ _ _ _ _ _ _ _ _ _ _ _ Eb). }
  assert (H0 : Inv ([], (0, dst_list0)) w) by (split; reflexivity).
  specialize (Hrule' Hbody fuel ([], (0, dst_list0)) w H0).
  rewrite Hrun in Hrule'. exact Hrule'.
Qed.

(** X16. What a dry run reports, on every host: the world is left as it
    was, and the total is the sum of [st_size] over the yielded entries that
    pass the filters, are files, and whose destination [_validate_dst] does
    not find up to date in that world.  The yields are those that the same
    walk records when each call of the body is logged. *)
Theorem dry_run_total_is_what_is_pending :
  forall (pattern : Type) (R : Regex pattern) (W : Type) (HW : Host W)
         fuel src re_base dst (includes excludes : list pattern)
         download (w : W) total files w',
    _walk fuel src true download
      (sync_body re_base dst includes excludes download true)
      (0, dst_list0) w
    = (Ok (total, files), w') ->
    exists L,
      _walk fuel src true download
        (collect (sync_body re_base dst includes excludes download true))
        ([], (0, dst_list0)) w
      = (Ok (L, (total, files)), w')
      /\ w' = w
      /\ total = pending_total re_base dst includes excludes download w L.
Proof.
  intros pattern R W HW fuel src re_base dst includes excludes download
    w total files w' Hrun.
  pose proof (records_walk
                (sync_body re_base dst includes excludes download true)
                true download fuel src [] (0, dst_list0) w) as Hrec.
  cbv beta in Hrec. rewrite Hrun in Hrec.
  destruct (_walk fuel src true download
              (collect (sync_body re_base dst includes excludes download true))
              ([], (0, dst_list0)) w) as [[[L [t m]]|x] w1] eqn:E;
    [|contradiction].
  destruct Hrec as (Ha & -> & _). injection Ha as -> ->.
  exists L. split; [reflexivity|].
  exact (total_of_recorded_dry_walk _ _ _ _ _ _ _ _ _ _ _ _ _ _ _ _ E).
Qed.

Lemma dry_run_total_is_what_is_pending_witness :
  exists total files w',
    _walk 8 "/a/b" true false
      (sync_body (pattern := list item) "/a/b" "/c/d" [] [] false true)
      (0, dst_list0) ex_world
    = (Ok (total, files), w')
    /\ total = 10
    /\ exists L,
         _walk 8 "/a/b" true false
           (collect (sync_body (pattern := list item) "/a/b" "/c/d" [] []
                       false true))
           ([], (0, dst_list0)) ex_world
         = (Ok (L, (total, files)), w')
         /\ w' = ex_world
         /\ total = pending_total (pattern := list item) "/a/b" "/c/d" [] []
                      false ex_world L.
Proof.
  destruct (_walk 8 "/a/b" true false
              (sync_body (pattern := list item) "/a/b" "/c/d" [] [] false true)
              (0, dst_list0) ex_world)
    as [[[total files]|x] w'] eqn:E.
  - exists total, files, w'. split; [reflexivity|]. split.
    + pose proof E as E2. vm_compute in E2. injection E2 as <- _ _.
      reflexivity.
    + exact (dry_run_total_is_what_is_pending (list item) mini_re world
               world_host 8%nat "/a/b" "/a/b" "/c/d" [] [] false ex_world
               total files w' E).
  - exfalso. vm_compute in E. discriminate.
Defined.

(** ** What a walk of the model reaches *)

Lemma fs_isdir_key (fs : gmap string node) (root d : string) (n : node) :
  below root d -> fs !! d = Some n -> fs_isdir fs d = S_ISDIR (n_mode n).
Proof.
  intros Hb Hn. unfold fs_isdir. rewrite (fs_stat_key _ _ _ Hb), Hn.
  reflexivity.
Qed.

Lemma reach_below (fs : gmap string node) (root k : string) :
  reach fs root k -> below root k.
Proof.
  induction 1 as [name _ Hv | d name n _ IH _ _ Hv].
  - apply below_child, Hv.
  - apply below_step; assumption.
Qed.

Lemma reach_isdir (fs : gmap string node) (root k : string) :
  reach fs root k -> fs_isdir fs root = true.
Proof. induction 1; assumption. Qed.

(** A reached path is a child of the root or is reached from a child that
    is a directory. *)
Lemma reach_split (fs : gmap string node) (path k : string) :
  reach fs path k ->
  exists name,
    valid_name name = true
    /\ (k = os_path.join path name
        \/ exists nd, fs !! os_path.join path name = Some nd
                      /\ S_ISDIR (n_mode nd) = true
                      /\ reach fs (os_path.join path name) k).
Proof.
  induction 1 as [name _ Hv | d name n Hd IH Hn Hdir Hv].
  - exists name. auto.
  - destruct IH as (name0 & Hv0 & [-> | (nd & Hnd & Hdd & Hr)]).
    + exists name0. split; [exact Hv0|]. right. exists n.
      split; [exact Hn|]. split; [exact Hdir|].
      apply reach_child; [|exact Hv].
      rewrite (fs_isdir_key fs path _ n); [exact Hdir | | exact Hn].
      apply below_child, Hv0.
    + exists name0. split; [exact Hv0|]. right. exists nd.
      split; [exact Hnd|]. split; [exact Hdd|].
      eapply reach_step; eassumption.
Qed.

Lemma reach_into (fs : gmap string node) (path name k : string) (nd : node) :
  fs_isdir fs path = true -> valid_name name = true ->
  fs !! os_path.join path name = Some nd -> S_ISDIR (n_mode nd) = true ->
  reach fs (os_path.join path name) k -> reach fs path k.
Proof.
  intros Hp Hv Hnd Hdir. induction 1 as [name' _ Hv' | d name' n _ IH Hn Hd Hv'].
  - eapply reach_step; [apply reach_child; assumption | exact Hnd | exact Hdir
                       | exact Hv'].
  - eapply reach_step; [exact IH | exact Hn | exact Hd | exact Hv'].
Qed.

Lemma reach_agree (fs fs' : gmap string node) (d k : string) :
  fs_isdir fs d = fs_isdir fs' d ->
  (forall q, below d q -> fs !! q = fs' !! q) ->
  reach fs d k -> reach fs' d k.
Proof.
  intros Hd Hq. induction 1 as [name Hi Hv | d1 name n Hr IH Hn Hdir Hv].
  - apply reach_child; [rewrite <- Hd; exact Hi | exact Hv].
  - eapply reach_step; [exact IH | | exact Hdir | exact Hv].
    rewrite <- (Hq _ (reach_below _ _ _ Hr)). exact Hn.
Qed.

(** ** The part of the tree under a path *)

Lemma join_prefix_child (path name : string) :
  valid_name name = true ->
  join_prefix (os_path.join path name) = os_path.join path name +:+ "/".
Proof.
  intros Hv. destruct (join_tail path name Hv) as [Hne He].
  unfold join_prefix. rewrite He.
  destruct (String.eqb_spec (os_path.join path name) ""); [contradiction|].
  reflexivity.
Qed.

Lemma sub_join (path name k nm : string) :
  valid_name name = true -> valid_name nm = true -> sub path name k ->
  sub path name (os_path.join k nm).
Proof.
  intros Hname Hv (s & Ek & Hs). rewrite (join_valid _ _ Hv).
  apply valid_name_inv in Hname as [Hne Hsep].
  assert (Hk : k <> "").
  { rewrite Ek. destruct (join_prefix path); simpl; [|discriminate].
    destruct name; [contradiction | discriminate]. }
  assert (Hjp : join_prefix k = if endswith_sep k then k else k +:+ "/").
  { unfold join_prefix. destruct (String.eqb_spec k ""); [contradiction|].
    reflexivity. }
  rewrite Hjp. destruct (endswith_sep k) eqn:He.
  - exists (s +:+ nm). split; [rewrite Ek, !append_assoc; reflexivity|].
    right. destruct Hs as [-> | Hs].
    + exfalso. rewrite Ek, append_nil_r, endswith_append in He by exact Hne.
      rewrite (has_sep_endswith _ Hsep) in He. discriminate.
    + destruct s; [discriminate | exact Hs].
  - exists (s +:+ "/" +:+ nm). split; [rewrite Ek, !append_assoc; reflexivity|].
    right. destruct Hs as [-> | Hs]; [reflexivity|].
    destruct s; [discriminate | exact Hs].
Qed.

Lemma below_under (path k : string) : below path k -> under path k.
Proof.
  induction 1 as [name Hv | p name Hp (n0 & Hv0 & Hs) Hv].
  - exists name. split; [exact Hv | apply sub_self, Hv].
  - exists n0. split; [exact Hv0|].
    apply sub_join; assumption.
Qed.

Lemma under_child (path name k : string) :
  valid_name name = true -> under (os_path.join path name) k ->
  sub path name k.
Proof.
  intros Hv (nm & Hnm & s & -> & Hs).
  rewrite (join_prefix_child _ _ Hv), (join_valid _ _ Hv).
  exists ("/" +:+ nm +:+ s). split; [rewrite !append_assoc; reflexivity|].
  right. reflexivity.
Qed.

Lemma join_prefix_length (path : string) :
  (String.length path <= String.length (join_prefix path))%nat.
Proof.
  unfold join_prefix.
  destruct (String.eqb path "" || endswith_sep path); [lia|].
  rewrite append_length. lia.
Qed.

Lemma under_longer (path k : string) :
  under path k -> (String.length path < String.length k)%nat.
Proof.
  intros (nm & Hnm & s & -> & _). rewrite !append_length.
  pose proof (join_prefix_length path).
  apply valid_name_inv in Hnm as [Hne _].
  destruct nm; [contradiction | simpl; lia].
Qed.

Lemma under_neq (path k : string) : under path k -> k <> path.
Proof. intros Hu ->. apply under_longer in Hu. lia. Qed.

Lemma sub_under (path name k : string) :
  valid_name name = true -> sub path name k -> under path k.
Proof. intros Hv Hs. exists name. auto. Qed.

(** A reached path under a child is the child or is reached from it. *)
Lemma reach_sub (fs : gmap string node) (path name k : string) :
  valid_name name = true -> reach fs path k -> sub path name k ->
  k = os_path.join path name
  \/ exists nd, fs !! os_path.join path name = Some nd
                /\ S_ISDIR (n_mode nd) = true
                /\ reach fs (os_path.join path name) k.
Proof.
  intros Hv Hr Hs.
  destruct (reach_split _ _ _ Hr) as (name' & Hv' & Hc).
  assert (Hs' : sub path name' k).
  { destruct Hc as [-> | (nd & _ & _ & Hr')]; [apply sub_self, Hv'|].
    apply sub_below; [exact Hv' | apply (reach_below _ _ _ Hr')]. }
  rewrite (sub_same_name _ _ _ _ Hv Hv' Hs Hs'). exact Hc.
Qed.

Lemma sub_longer (path name k : string) :
  valid_name name = true -> sub path name k ->
  (String.length (os_path.join path name) <= String.length k)%nat.
Proof.
  intros Hv (s & -> & _). rewrite (join_valid _ _ Hv), !append_length. lia.
Qed.

Lemma join_longer (k nm : string) :
  valid_name nm = true ->
  (String.length k < String.length (os_path.join k nm))%nat.
Proof.
  intros Hv. destruct (join_extends k nm Hv) as (t & -> & Ht).
  rewrite append_length. destruct t; [contradiction | simpl; lia].
Qed.

(** ** Empty directories and removals in the model *)

Lemma fs_children_nil (fs : gmap string node) (k : string) :
  fs_children fs k = [] <-> emptied fs k.
Proof.
  split.
  - intros Hnil name Hv. rewrite (join_valid _ _ Hv).
    destruct (fs !! (join_prefix k +:+ name)) as [n|] eqn:En; [|reflexivity].
    assert (Hin : (name, n) ∈ fs_children fs k)
      by (apply fs_children_elem; auto).
    rewrite Hnil in Hin. inversion Hin.
  - intros He. destruct (fs_children fs k) as [|[name n] l] eqn:El;
      [reflexivity|].
    assert (Hin : (name, n) ∈ fs_children fs k)
      by (rewrite El; apply list_elem_of_here).
    apply fs_children_elem in Hin as [Hv Hn].
    rewrite <- (join_valid _ _ Hv), (He _ Hv) in Hn. discriminate.
Qed.

Lemma emptied_agree (fs fs' : gmap string node) (k : string) :
  (forall nm, valid_name nm = true ->
              fs' !! os_path.join k nm = fs !! os_path.join k nm) ->
  emptied fs k -> emptied fs' k.
Proof. intros Ha He nm Hv. rewrite (Ha _ Hv). apply He, Hv. Qed.

Lemma fs_remove_key (fs : gmap string node) (c : string) (nd : node) :
  norm c = c -> fs !! c = Some nd -> S_ISDIR (n_mode nd) = false ->
  snd (fs_remove c fs) = delete c fs.
Proof.
  intros Hc Hn Hd. unfold fs_remove. rewrite Hc, Hn, Hd. reflexivity.
Qed.

Lemma fs_rmdir_key (fs : gmap string node) (c : string) (nd : node) :
  norm c = c -> fs !! c = Some nd -> S_ISDIR (n_mode nd) = true ->
  (emptied fs c /\ snd (fs_rmdir c fs) = delete c fs)
  \/ (~ emptied fs c /\ snd (fs_rmdir c fs) = fs).
Proof.
  intros Hc Hn Hd. unfold fs_rmdir. rewrite Hc, Hn, Hd. cbn [negb].
  destruct (fs_children fs c) as [|x l] eqn:El.
  - left. split; [apply fs_children_nil, El | reflexivity].
  - right. split; [|reflexivity]. intros He.
    apply fs_children_nil in He. congruence.
Qed.

(** The body of the deletion loop on the model, on an entry whose kind is a
    key of the manifest. *)
Lemma delete_body_model (remote dry : bool)
    (files : gmap string (list string)) (k c : string)
    (st : option stat_result) (l : list string) (w : world) :
  k = "file" \/ k = "dir" -> files !! k = Some l ->
  fst (_delete_dst_body remote dry files (k, c, st) w) = Ok tt
  /\ side remote (snd (_delete_dst_body remote dry files (k, c, st) w))
     = if dry || in_list c l then side remote w
       else snd ((if String.eqb k "file" then fs_remove c else fs_rmdir c)
                   (side remote w)).
Proof.
  intros Hk Hl. unfold _delete_dst_body. rewrite Hl.
  destruct (in_list c l); cbn [negb]; [rewrite orb_true_r; auto|].
  rewrite orb_false_r. destruct dry; cbn [negb]; [auto|].
  destruct (callables_side remote k c w Hk) as (rm & -> & Hside).
  auto.
Qed.

(** ** Directories after their subtrees *)

Lemma subtree_first_mono (fs : gmap string node) (L seen seen' : list entry) :
  (forall e, e ∈ seen -> e ∈ seen') ->
  subtree_first fs seen L -> subtree_first fs seen' L.
Proof.
  revert seen seen'. induction L as [|e L IH]; intros seen seen' Hs; simpl;
    [auto|].
  intros [He HL]. split.
  - intros Hk k n Hr Hn. destruct (He Hk k n Hr Hn) as (st & Hin).
    exists st. apply Hs, Hin.
  - apply (IH (seen ++ [e]) (seen' ++ [e])); [|exact HL].
    intros x Hx. apply elem_of_app in Hx as [Hx|Hx]; apply elem_of_app;
      [left; apply Hs, Hx | right; exact Hx].
Qed.

Lemma subtree_first_app (fs : gmap string node) (L1 L2 seen : list entry) :
  subtree_first fs seen L1 -> subtree_first fs (seen ++ L1) L2 ->
  subtree_first fs seen (L1 ++ L2).
Proof.
  revert seen. induction L1 as [|e L1 IH]; intros seen; simpl.
  - rewrite app_nil_r. auto.
  - intros [He H1] H2. split; [exact He|]. apply IH; [exact H1|].
    rewrite <- app_assoc. exact H2.
Qed.

Lemma subtree_first_more (fs : gmap string node) (L seen more : list entry) :
  subtree_first fs [] L -> subtree_first fs seen L.
Proof. apply subtree_first_mono. intros e He. inversion He. Qed.

Lemma subtree_first_files (fs : gmap string node) (L seen : list entry) :
  Forall (fun e => kind_of e = "file") L -> subtree_first fs seen L.
Proof.
  revert seen. induction L as [|e L IH]; intros seen HL; simpl; [auto|].
  apply Forall_cons in HL as [He HL]. split; [|apply IH, HL].
  intros Hk. rewrite He in Hk. discriminate.
Qed.

Lemma subtree_first_split (fs : gmap string node) (l1 l2 seen : list entry)
    (e : entry) :
  subtree_first fs seen (l1 ++ e :: l2) ->
  kind_of e = "dir" ->
  forall k n, reach fs (path_of e) k -> fs !! k = Some n ->
              exists st, (kind_of_node n, k, st) ∈ seen ++ l1.
Proof.
  revert seen. induction l1 as [|x l1 IH]; intros seen; simpl.
  - rewrite app_nil_r. intros [He _]. exact He.
  - intros [_ HL] Hk k n Hr Hn.
    destruct (IH _ HL Hk k n Hr Hn) as (st & Hin).
    exists st. rewrite <- app_assoc in Hin. exact Hin.
Qed.

(** The order is a matter of the part of the file system under the walked
    path only. *)
Lemma subtree_first_agree (fs fs' : gmap string node) (c : string)
    (seen L : list entry) :
  (forall q, below c q -> fs !! q = fs' !! q) ->
  Forall (fun e => below c (path_of e)) L ->
  subtree_first fs seen L -> subtree_first fs' seen L.
Proof.
  intros Ha. revert seen. induction L as [|e L IH]; intros seen HL; simpl;
    [auto|].
  apply Forall_cons in HL as [Hb HL]. intros [He Hrest].
  split; [|apply IH; assumption].
  intros Hk k n Hr Hn.
  assert (Hr' : reach fs (path_of e) k).
  { apply (reach_agree fs' fs); [| |exact Hr].
    - unfold fs_isdir. rewrite !(fs_stat_key _ _ _ Hb), (Ha _ Hb).
      reflexivity.
    - intros q Hq. symmetry. apply Ha. eapply below_trans; eassumption. }
  apply (He Hk k n Hr').
  rewrite (Ha k); [exact Hn|].
  eapply below_trans; [exact Hb | apply (reach_below _ _ _ Hr')].
Qed.

(** ** Loops whose steps work on disjoint parts of the file system *)

Section Footprints.
Context {A : Type}.
Variable r : bool.
Variables R S F : A -> string -> Prop.
Variable P : A -> list entry -> gmap string node -> Prop.
Variable step : A -> list entry * unit -> M world (list entry * unit).
Variable fs0 : gmap string node.
Hypothesis Hstable :
  forall x L fs' fs'',
    (forall k, S x k -> fs'' !! k = fs' !! k) -> P x L fs' -> P x L fs''.

(** Each step reads the part [R x], which is still as in [fs0], removes
    keys of [F x] only, and establishes [P x], which depends on the part
    [S x] only; no step removes what another reads or depends on. *)
Lemma loop_footprints (xs : list A) :
  NoDup xs ->
  (forall x y k, x ∈ xs -> y ∈ xs -> x <> y -> F y k -> ~ R x k /\ ~ S x k) ->
  (forall x, x ∈ xs -> forall log w,
      (forall k, R x k -> side r w !! k = fs0 !! k) ->
      exists Lx w',
        step x (log, tt) w = (Ok (log ++ Lx, tt), w')
        /\ P x Lx (side r w')
        /\ touched_in (F x) (side r w) (side r w')) ->
  forall log w,
    (forall x k, x ∈ xs -> R x k -> side r w !! k = fs0 !! k) ->
    exists Ls w',
      for_each xs step (log, tt) w = (Ok (log ++ concat Ls, tt), w')
      /\ Forall2 (fun x Lx => P x Lx (side r w')) xs Ls
      /\ touched_in (fun k => exists x, x ∈ xs /\ F x k)
           (side r w) (side r w').
Proof.
  induction xs as [|x xs IH]; intros Hnd Hdisj Hstep log w Hagree.
  - exists [], w. simpl. rewrite app_nil_r. split; [reflexivity|].
    split; [constructor|]. intros k. left. reflexivity.
  - apply NoDup_cons in Hnd as [Hx Hnd].
    destruct (Hstep x (list_elem_of_here _ _) log w
                (fun k => Hagree x k (list_elem_of_here _ _)))
      as (Lx & w1 & Es & HP & Ht).
    assert (Hne : forall y, y ∈ xs -> x <> y) by (intros y Hy ->; auto).
    destruct (IH Hnd
                (fun a b k Ha Hb => Hdisj a b k (list_elem_of_further _ _ _ Ha)
                                      (list_elem_of_further _ _ _ Hb))
                (fun y Hy => Hstep y (list_elem_of_further _ _ _ Hy))
                (log ++ Lx) w1)
      as (Ls & w' & Er & HF & Ht').
    { intros y k Hy HR. destruct (Ht k) as [-> | [HFk _]].
      - apply (Hagree y k (list_elem_of_further _ _ _ Hy) HR).
      - exfalso.
        destruct (Hdisj y x k (list_elem_of_further _ _ _ Hy)
                    (list_elem_of_here _ _) (fun E => Hne y Hy (eq_sym E)) HFk)
          as [HnR _].
        exact (HnR HR). }
    exists (Lx :: Ls), w'. split; [|split].
    + simpl. unfold bind. rewrite Es, Er, <- app_assoc. reflexivity.
    + constructor; [|exact HF].
      apply (Hstable x Lx (side r w1)); [|exact HP].
      intros k HS. destruct (Ht' k) as [-> | [(y & Hy & HFk) _]];
        [reflexivity|]. exfalso.
      destruct (Hdisj x y k (list_elem_of_here _ _)
                  (list_elem_of_further _ _ _ Hy) (Hne y Hy) HFk) as [_ HnS].
      exact (HnS HS).
    + intros k. destruct (Ht' k) as [E' | [(y & Hy & HFk) Hnone]].
      * rewrite E'. destruct (Ht k) as [E | [HFk Hnone]]; [left; exact E|].
        right. split; [|exact Hnone]. exists x.
        split; [apply list_elem_of_here | exact HFk].
      * right. split; [|exact Hnone]. exists y.
        split; [apply list_elem_of_further, Hy | exact HFk].
Qed.

End Footprints.

Lemma for_each_map {W A B Acc : Type} (f : A -> B) (l : list A)
    (body : B -> Acc -> M W Acc) (acc : Acc) (w : W) :
  for_each (map f l) body acc w = for_each l (fun x => body (f x)) acc w.
Proof.
  revert acc w. induction l as [|x l IH]; intros acc w; simpl; [reflexivity|].
  unfold bind. destruct (body (f x) acc w) as [[a|e] w']; [apply IH|].
  reflexivity.
Qed.

(** ** One call of the body of the deletion loop *)

Section Removal.
Variables (remote dry : bool) (files : gmap string (list string)).
Variables lf ld : list string.
Hypothesis Hlf : files !! "file" = Some lf.
Hypothesis Hld : files !! "dir" = Some ld.

Lemma listed_in_list (nd : node) (c : string) :
  listed files nd c
  <-> in_list c (if S_ISDIR (n_mode nd) then ld else lf) = true.
Proof.
  unfold listed, kind_of_node. rewrite in_list_elem.
  destruct (S_ISDIR (n_mode nd)).
  - rewrite Hld. split; [intros (l & [= <-] & Hin); exact Hin | eauto].
  - rewrite Hlf. split; [intros (l & [= <-] & Hin); exact Hin | eauto].
Qed.

Lemma yield_model (c : string) (st : option stat_result) (nd : node)
    (log : list entry) (w : world) :
  norm c = c -> side remote w !! c = Some nd ->
  exists w',
    collect (fun e (_ : unit) => _delete_dst_body remote dry files e)
      (kind_of_node nd, c, st) (log, tt) w
    = (Ok (log ++ [(kind_of_node nd, c, st)], tt), w')
    /\ removal dry files nd c (side remote w) (side remote w').
Proof.
  intros Hc Hn.
  set (l := if S_ISDIR (n_mode nd) then ld else lf).
  assert (Hl : files !! kind_of_node nd = Some l).
  { unfold kind_of_node, l. destruct (S_ISDIR (n_mode nd)); assumption. }
  assert (Hk : kind_of_node nd = "file" \/ kind_of_node nd = "dir").
  { unfold kind_of_node. destruct (S_ISDIR (n_mode nd)); auto. }
  destruct (delete_body_model remote dry files _ c st l w Hk Hl) as [Hok Hs].
  destruct (_delete_dst_body remote dry files (kind_of_node nd, c, st) w)
    as [[[]|x] w'] eqn:Eb; [|discriminate].
  cbn [snd] in Hs. exists w'. split.
  { unfold collect, bind, ret. cbn [fst snd]. rewrite Eb. reflexivity. }
  pose proof (listed_in_list nd c) as Hlisted. fold l in Hlisted.
  unfold removal. rewrite Hs. clear Hs Eb Hok.
  destruct dry; cbn [orb].
  { split; [intros k; left; reflexivity|]. split; [auto | discriminate]. }
  destruct (in_list c l) eqn:Ein.
  { split; [intros k; left; reflexivity|]. split; [discriminate|].
    intros _. rewrite Hn. split; [discriminate|].
    intros [Hnl _]. exfalso. apply Hnl, Hlisted. reflexivity. }
  assert (Hnl : ~ listed files nd c)
    by (rewrite Hlisted; congruence).
  assert (Hdel : forall fs : gmap string node,
             touched_in (eq c) fs (delete c fs)).
  { intros fs k. destruct (decide (c = k)) as [<-|Hne].
    - right. split; [reflexivity | apply lookup_delete_eq].
    - left. apply lookup_delete_ne, Hne. }
  unfold kind_of_node. destruct (S_ISDIR (n_mode nd)) eqn:Ed.
  - replace (String.eqb "dir" "file") with false by reflexivity.
    destruct (fs_rmdir_key _ c nd Hc Hn Ed) as [[He ->] | [He ->]].
    + split; [apply Hdel|]. split; [discriminate|]. intros _.
      rewrite lookup_delete_eq. split; [|reflexivity]. intros _.
      split; [exact Hnl|]. intros _.
      apply (emptied_agree (side remote w)); [|exact He].
      intros nm Hv. apply lookup_delete_ne. intros E.
      pose proof (join_longer c nm Hv) as Hlen. rewrite <- E in Hlen. lia.
    + split; [intros k; left; reflexivity|]. split; [discriminate|].
      intros _. rewrite Hn. split; [discriminate|].
      intros [_ He']. exfalso. apply He, He'. reflexivity.
  - replace (String.eqb "file" "file") with true by reflexivity.
    rewrite (fs_remove_key _ c nd Hc Hn Ed).
    split; [apply Hdel|]. split; [discriminate|]. intros _.
    rewrite lookup_delete_eq. split; [|reflexivity]. intros _.
    split; [exact Hnl | discriminate].
Qed.

(** ** The fate of the part of the tree under one child *)

Lemma child_fate_stable (fs0 : gmap string node) (path name : string)
    (fs' fs'' : gmap string node) :
  valid_name name = true ->
  (forall k, sub path name k -> fs'' !! k = fs' !! k) ->
  child_fate dry files fs0 path name fs' ->
  child_fate dry files fs0 path name fs''.
Proof.
  intros Hv Ha [Hd Hf]. split.
  - intros E k Hk. rewrite (Ha k Hk). apply (Hd E k Hk).
  - intros E k n Hk Hn. rewrite (Ha k Hk), (Hf E k n Hk Hn).
    assert (He : emptied fs' k <-> emptied fs'' k).
    { split; apply emptied_agree; intros nm Hnm;
        [|symmetry]; apply Ha, sub_join; assumption. }
    rewrite He. reflexivity.
Qed.

Lemma file_child_fate (fs0 : gmap string node) (path name : string)
    (nd : node) (fs fs' : gmap string node) :
  valid_name name = true -> fs_isdir fs0 path = true ->
  fs0 !! os_path.join path name = Some nd -> S_ISDIR (n_mode nd) = false ->
  (forall k, sub path name k -> fs !! k = fs0 !! k) ->
  removal dry files nd (os_path.join path name) fs fs' ->
  child_fate dry files fs0 path name fs'.
Proof.
  intros Hv Hp Hnd Hfile Ha (Ht & Hdry & Hrem). split.
  - intros E k Hk. rewrite (Hdry E). apply Ha, Hk.
  - intros E k n Hk Hn.
    destruct (decide (k = os_path.join path name)) as [->|Hne].
    + rewrite Hnd in Hn. injection Hn as <-. rewrite (Hrem E).
      split; [intros [H1 H2] | intros (_ & H1 & H2)]; auto.
      split; [apply reach_child; assumption | auto].
    + assert (E' : fs' !! k = Some n).
      { destruct (Ht k) as [-> | [Hc _]]; [|congruence].
        rewrite (Ha k Hk). exact Hn. }
      rewrite E'. split; [discriminate|]. intros (Hr & _).
      destruct (reach_sub _ _ _ _ Hv Hr Hk) as [-> | (nd' & Hnd' & Hd' & _)];
        [contradiction|]. congruence.
Qed.

Lemma dir_child_fate (fs0 : gmap string node) (path name : string)
    (nd : node) (L : list entry) (fsa fsb fsc fsd : gmap string node) :
  valid_name name = true -> fs_isdir fs0 path = true ->
  fs0 !! os_path.join path name = Some nd -> S_ISDIR (n_mode nd) = true ->
  (forall k, sub path name k -> fsa !! k = fs0 !! k) ->
  visited dry files (os_path.join path name) fsa L fsb ->
  (forall k, sub path name k -> fsc !! k = fsb !! k) ->
  removal dry files nd (os_path.join path name) fsc fsd ->
  child_fate dry files fs0 path name fsd.
Proof.
  intros Hv Hp Hnd Hdir Ha HV Hbc (Ht & Hdry & Hrem).
  set (c := os_path.join path name) in *.
  assert (Hcb : below path c) by (apply below_child, Hv).
  assert (Hsubc : forall q, below c q -> sub path name q)
    by (intros q Hq; apply sub_below; assumption).
  split.
  - intros E k Hk. rewrite (Hdry E), (Hbc k Hk), (v_dry _ _ _ _ _ _ HV E).
    apply Ha, Hk.
  - intros E k n Hk Hn.
    destruct (decide (k = c)) as [->|Hne].
    + rewrite Hnd in Hn. injection Hn as <-. rewrite (Hrem E).
      split; [intros [H1 H2] | intros (_ & H1 & H2)]; auto.
      split; [apply reach_child; assumption | auto].
    + assert (Ed : fsd !! k = fsb !! k).
      { destruct (Ht k) as [-> | [Hc _]]; [apply Hbc, Hk | congruence]. }
      assert (Hna : fsa !! k = Some n) by (rewrite (Ha k Hk); exact Hn).
      rewrite Ed, (v_fate _ _ _ _ _ _ HV E k n Hna).
      assert (Hisd : fs_isdir fsa c = fs_isdir fs0 c).
      { unfold fs_isdir. rewrite !(fs_stat_key _ _ _ Hcb).
        rewrite (Ha c (sub_self _ _ Hv)). reflexivity. }
      assert (Hr : reach fsa c k <-> reach fs0 path k).
      { split.
        - intros Hr. apply (reach_into fs0 path name k nd); auto.
          apply (reach_agree fsa fs0); [exact Hisd | | exact Hr].
          intros q Hq. apply Ha, Hsubc, Hq.
        - intros Hr.
          destruct (reach_sub _ _ _ _ Hv Hr Hk) as [-> | (nd' & _ & _ & Hr')];
            [contradiction|].
          apply (reach_agree fs0 fsa); [symmetry; exact Hisd | | exact Hr'].
          intros q Hq. symmetry. apply Ha, Hsubc, Hq. }
      assert (He : emptied fsb k <-> emptied fsd k).
      { assert (Hch : forall nm, valid_name nm = true ->
                        fsd !! os_path.join k nm = fsb !! os_path.join k nm).
        { intros nm Hnm.
          pose proof (sub_join _ _ _ _ Hv Hnm Hk) as Hs.
          destruct (Ht (os_path.join k nm)) as [-> | [Hc _]];
            [apply Hbc, Hs|].
          exfalso. pose proof (join_longer k nm Hnm) as H1.
          pose proof (sub_longer _ _ _ Hv Hk) as H2.
          fold c in H2. rewrite <- Hc in H1. lia. }
        split; apply emptied_agree; intros nm Hnm;
          [|symmetry]; apply Hch, Hnm. }
      rewrite Hr, He. reflexivity.
Qed.

(** From the children to the directory. *)
Lemma fate_assemble (fs0 : gmap string node) (path : string)
    (fs' : gmap string node) :
  (forall name nd, valid_name name = true ->
                   fs0 !! os_path.join path name = Some nd ->
                   child_fate dry files fs0 path name fs') ->
  touched_in (fun k => exists name nd,
                valid_name name = true
                /\ fs0 !! os_path.join path name = Some nd
                /\ sub path name k) fs0 fs' ->
  touched_in (under path) fs0 fs'
  /\ (dry = true -> fs' = fs0)
  /\ (dry = false ->
      forall k n, fs0 !! k = Some n ->
        (fs' !! k = None
         <-> reach fs0 path k /\ ~ listed files n k
             /\ (S_ISDIR (n_mode n) = true -> emptied fs' k))).
Proof.
  intros Hch Ht. split; [|split].
  - intros k. destruct (Ht k) as [E | [(name & nd & Hv & _ & Hs) E]];
      [left; exact E|]. right. split; [exists name; auto | exact E].
  - intros E. apply map_eq. intros k.
    destruct (Ht k) as [Ek | [(name & nd & Hv & Hnd & Hs) _]]; [exact Ek|].
    destruct (Hch name nd Hv Hnd) as [Hd _]. apply (Hd E k Hs).
  - intros E k n Hn.
    assert (Hchild : fs' !! k = None \/ reach fs0 path k ->
                     exists name nd, valid_name name = true
                       /\ fs0 !! os_path.join path name = Some nd
                       /\ sub path name k).
    { intros [Hnone | Hr].
      - destruct (Ht k) as [Ek | [H _]]; [congruence | exact H].
      - destruct (reach_split _ _ _ Hr)
          as (name & Hv & [-> | (nd & Hnd & _ & Hr')]).
        + exists name, n. split; [exact Hv|]. split; [exact Hn|].
          apply sub_self, Hv.
        + exists name, nd. split; [exact Hv|]. split; [exact Hnd|].
          apply sub_below; [exact Hv | apply (reach_below _ _ _ Hr')]. }
    split.
    + intros Hnone.
      destruct (Hchild (or_introl Hnone)) as (name & nd & Hv & Hnd & Hs).
      destruct (Hch name nd Hv Hnd) as [_ Hf].
      apply (Hf E k n Hs Hn), Hnone.
    + intros Hrhs.
      destruct (Hchild (or_intror (proj1 Hrhs)))
        as (name & nd & Hv & Hnd & Hs).
      destruct (Hch name nd Hv Hnd) as [_ Hf].
      apply (Hf E k n Hs Hn), Hrhs.
Qed.

End Removal.

(** ** The deletion pass on the model: the remote walker *)

Lemma touched_in_trans (F G H : string -> Prop)
    (fs fs1 fs2 : gmap string node) :
  (forall k, F k -> H k) -> (forall k, G k -> H k) ->
  touched_in F fs fs1 -> touched_in G fs1 fs2 -> touched_in H fs fs2.
Proof.
  intros HF HG H1 H2 k. destruct (H2 k) as [E2 | [Hg E2]].
  - rewrite E2. destruct (H1 k) as [E1 | [Hf E1]]; [left; exact E1|].
    right. split; [apply HF, Hf | exact E1].
  - right. split; [apply HG, Hg | exact E2].
Qed.

Lemma deep_child (fuel : nat) (path name : string) (nd : node)
    (fs0 fs : gmap string node) :
  deep (S fuel) path fs0 -> valid_name name = true ->
  fs0 !! os_path.join path name = Some nd ->
  (forall k, sub path name k -> fs !! k = fs0 !! k) ->
  deep fuel (os_path.join path name) fs.
Proof.
  intros [_ Hlen] Hv Hnd Ha.
  pose proof (Hlen _ (ex_intro _ nd Hnd) (below_child _ path name Hv)) as Hc.
  pose proof (join_longer path name Hv) as Hl.
  split; [lia|]. intros k Hk Hb.
  assert (Hs : sub path name k) by (apply sub_below; assumption).
  rewrite (Ha k Hs) in Hk.
  assert (Hbp : below path k)
    by (eapply below_trans; [apply below_child, Hv | exact Hb]).
  pose proof (Hlen k Hk Hbp). lia.
Qed.

Lemma visited_not_dir (dry : bool) (files : gmap string (list string))
    (path : string) (fs : gmap string node) :
  fs_isdir fs path = false -> visited dry files path fs [] fs.
Proof.
  intros Hd. split.
  - constructor.
  - intros k n Hr. apply reach_isdir in Hr. congruence.
  - exact Logic.I.
  - intros k. left. reflexivity.
  - reflexivity.
  - intros _ k n Hn. rewrite Hn. split; [discriminate|].
    intros [Hr _]. apply reach_isdir in Hr. congruence.
Qed.

Lemma fs_children_NoDup (fs : gmap string node) (p : string) :
  NoDup (fs_children fs p).
Proof.
  apply (NoDup_fmap_1 fst). unfold fs_children.
  apply omap_child_NoDup, NoDup_fst_map_to_list.
Qed.

Lemma fs_children_join (fs : gmap string node) (p name : string) (n : node) :
  (name, n) ∈ fs_children fs p <->
  valid_name name = true /\ fs !! os_path.join p name = Some n.
Proof.
  rewrite fs_children_elem. split; intros [Hv Hn]; (split; [exact Hv|]).
  - rewrite (join_valid _ _ Hv). exact Hn.
  - rewrite <- (join_valid _ _ Hv). exact Hn.
Qed.

(** The children of a directory stand for disjoint parts of the tree. *)
Lemma children_disjoint (fs : gmap string node) (path : string)
    (x y : string * node) (k : string) :
  x ∈ fs_children fs path -> y ∈ fs_children fs path -> x <> y ->
  sub path (fst y) k -> ~ sub path (fst x) k.
Proof.
  destruct x as [nx ndx], y as [ny ndy]. cbn [fst].
  intros Hx Hy Hne Hsy Hsx.
  apply fs_children_join in Hx as [Hvx Hx].
  apply fs_children_join in Hy as [Hvy Hy].
  pose proof (sub_same_name _ _ _ _ Hvx Hvy Hsx Hsy) as ->.
  apply Hne. congruence.
Qed.

(** From the yields of the children to those of the directory. *)
Lemma yields_assemble (fs0 : gmap string node) (path : string)
    (xs : list (string * node)) (Ls : list (list entry)) :
  (forall name nd, (name, nd) ∈ xs <->
     valid_name name = true /\ fs0 !! os_path.join path name = Some nd) ->
  Forall2 (fun x Lx => child_yields fs0 path (fst x) (snd x) Lx) xs Ls ->
  Forall (fun e => below path (path_of e)) (concat Ls)
  /\ (forall k n, reach fs0 path k -> fs0 !! k = Some n ->
                  exists st, (kind_of_node n, k, st) ∈ concat Ls)
  /\ subtree_first fs0 [] (concat Ls).
Proof.
  intros Hxs HF.
  assert (Hin : forall x, x ∈ xs ->
            exists Lx, child_yields fs0 path (fst x) (snd x) Lx
                       /\ forall e, e ∈ Lx -> e ∈ concat Ls).
  { clear Hxs. induction HF as [|x Lx xs Ls Hx _ IH]; intros y Hy;
      [inversion Hy|].
    apply elem_of_cons in Hy as [-> | Hy].
    - exists Lx. split; [exact Hx|]. intros e He. simpl.
      apply elem_of_app. left. exact He.
    - destruct (IH y Hy) as (Ly & HLy & Hsub). exists Ly.
      split; [exact HLy|]. intros e He. simpl.
      apply elem_of_app. right. apply Hsub, He. }
  split; [|split].
  - clear Hxs Hin. induction HF as [|x Lx xs Ls Hx _ IH]; simpl;
      [constructor|]. apply Forall_app. split; [apply Hx | exact IH].
  - intros k n Hr Hn.
    destruct (reach_split _ _ _ Hr) as (name & Hv & [-> | (nd & Hnd & _ & Hr')]).
    + destruct (Hin (name, n)) as (Lx & (_ & (st & Hst) & _) & Hsub);
        [apply Hxs; auto|].
      exists st. apply Hsub, Hst.
    + destruct (Hin (name, nd)) as (Lx & (_ & _ & Hc & _) & Hsub);
        [apply Hxs; auto|].
      destruct (Hc k n Hr' Hn) as (st & Hst). exists st. apply Hsub, Hst.
  - clear Hxs Hin. induction HF as [|x Lx xs Ls Hx _ IH]; simpl;
      [exact Logic.I|].
    apply subtree_first_app; [apply Hx|].
    apply subtree_first_more; [exact [] | exact IH].
Qed.

Section SweepRemote.
Variables (dry : bool) (files : gmap string (list string)).
Variables lf ld : list string.
Hypothesis Hlf : files !! "file" = Some lf.
Hypothesis Hld : files !! "dir" = Some ld.

#[local] Abbreviation body :=
  (fun (e : entry) (_ : unit) => _delete_dst_body true dry files e).

(** One step of the loop over the listing of [path]. *)
Lemma remote_child (fuel : nat) (path : string) (fs0 : gmap string node)
    (name : string) (nd : node) :
  (forall path log w,
      deep fuel path (remote_fs w) ->
      exists L w',
        _walk_remote fuel path false (collect body) (log, tt) w
        = (Ok (log ++ L, tt), w')
        /\ visited dry files path (remote_fs w) L (remote_fs w')) ->
  deep (S fuel) path fs0 -> fs_isdir fs0 path = true ->
  valid_name name = true -> fs0 !! os_path.join path name = Some nd ->
  forall log w,
    (forall k, sub path name k -> remote_fs w !! k = fs0 !! k) ->
    exists Lx w',
      walk_remote_step
        (fun file acc => _walk_remote fuel file false (collect body) acc)
        path false (collect body) (stat_of name nd) (log, tt) w
      = (Ok (log ++ Lx, tt), w')
      /\ (child_yields fs0 path name nd Lx
          /\ child_fate dry files fs0 path name (remote_fs w'))
      /\ touched_in (sub path name) (remote_fs w) (remote_fs w').
Proof.
  intros IH Hdeep Hp Hv Hnd log w Ha.
  set (c := os_path.join path name) in *.
  assert (Hcb : below path c) by (apply below_child, Hv).
  destruct (below_key _ _ Hcb) as [Hnorm _].
  assert (Hwc : remote_fs w !! c = Some nd)
    by (rewrite (Ha c (sub_self _ _ Hv)); exact Hnd).
  unfold walk_remote_step. cbn [stat_of filename st_mode]. fold c.
  destruct (S_ISDIR (n_mode nd)) eqn:Ed; cbn [negb].
  - (* a directory: its subtree, then the directory *)
    pose proof (deep_child _ _ _ _ _ _ Hdeep Hv Hnd Ha) as Hdc. fold c in Hdc.
    destruct (IH c log w Hdc) as (Lc & w1 & Ew & HV).
    assert (Hw1c : remote_fs w1 !! c = Some nd).
    { destruct (v_touched _ _ _ _ _ _ HV c) as [-> | [Hu _]]; [exact Hwc|].
      exfalso. exact (under_neq _ _ Hu eq_refl). }
    destruct (yield_model true dry files lf ld Hlf Hld c None nd
                (log ++ Lc) w1 Hnorm Hw1c) as (w2 & Ey & Hrem).
    assert (Hkind : kind_of_node nd = "dir")
      by (unfold kind_of_node; rewrite Ed; reflexivity).
    rewrite Hkind in Ey.
    exists (Lc ++ [("dir", c, None)]), w2. split; [|split; [split|]].
    + unfold bind. rewrite Ew. cbn [side] in Ey. rewrite Ey, <- app_assoc.
      reflexivity.
    + assert (Hagree : forall q, below c q -> remote_fs w !! q = fs0 !! q)
        by (intros q Hq; apply Ha, sub_below; assumption).
      assert (Hisd : fs_isdir (remote_fs w) c = fs_isdir fs0 c).
      { unfold fs_isdir. rewrite !(fs_stat_key _ _ _ Hcb), Hwc, Hnd.
        reflexivity. }
      assert (Hcomp : forall k n, reach fs0 c k -> fs0 !! k = Some n ->
                        exists st, (kind_of_node n, k, st) ∈ Lc).
      { intros k n Hr Hn.
        apply (v_complete _ _ _ _ _ _ HV).
        - apply (reach_agree fs0 (remote_fs w)); [symmetry; exact Hisd| |exact Hr].
          intros q Hq. symmetry. apply Hagree, Hq.
        - rewrite (Hagree k (reach_below _ _ _ Hr)). exact Hn. }
      split; [|split; [|split]].
      * apply Forall_app. split; [|constructor; [exact Hcb | constructor]].
        eapply Forall_impl; [apply (v_below _ _ _ _ _ _ HV)|].
        intros e He. eapply below_trans; [exact Hcb | exact He].
      * exists None. rewrite Hkind. apply elem_of_app. right.
        apply list_elem_of_here.
      * intros k n Hr Hn. destruct (Hcomp k n Hr Hn) as (st & Hst).
        exists st. apply elem_of_app. left. exact Hst.
      * apply subtree_first_app.
        -- apply (subtree_first_agree (remote_fs w) fs0 c);
             [exact Hagree | apply (v_below _ _ _ _ _ _ HV)
             | apply (v_first _ _ _ _ _ _ HV)].
        -- simpl. split; [|exact Logic.I]. intros _ k n Hr Hn.
           apply (Hcomp k n Hr Hn).
    + apply (dir_child_fate dry files fs0 path name nd Lc (remote_fs w)
               (remote_fs w1) (remote_fs w1) (remote_fs w2));
        auto.
    + apply (touched_in_trans (under c) (eq c) _ _ (remote_fs w1)).
      * intros k Hk. apply under_child; assumption.
      * intros k <-. apply sub_self, Hv.
      * apply (v_touched _ _ _ _ _ _ HV).
      * apply Hrem.
  - (* a file *)
    destruct (yield_model true dry files lf ld Hlf Hld c
                (Some (stat_of name nd)) nd log w Hnorm Hwc)
      as (w1 & Ey & Hrem).
    assert (Hkind : kind_of_node nd = "file")
      by (unfold kind_of_node; rewrite Ed; reflexivity).
    rewrite Hkind in Ey.
    exists [("file", c, Some (stat_of name nd))], w1.
    split; [exact Ey|]. split; [split|].
    + split; [constructor; [exact Hcb | constructor]|]. split; [|split].
      * eexists. rewrite Hkind. apply list_elem_of_here.
      * intros k n Hr. pose proof (reach_isdir _ _ _ Hr) as Hi.
        change (fs_isdir fs0 c = true) in Hi.
        rewrite (fs_isdir_key fs0 path c nd Hcb Hnd) in Hi. congruence.
      * simpl. split; [discriminate | exact Logic.I].
    + apply (file_child_fate dry files fs0 path name nd (remote_fs w)); auto.
    + intros k. destruct (proj1 Hrem k) as [E | [<- E]]; [left; exact E|].
      right. split; [apply sub_self, Hv | exact E].
Qed.

Lemma sweep_remote (fuel : nat) :
  forall path log w,
    deep fuel path (remote_fs w) ->
    exists L w',
      _walk_remote fuel path false (collect body) (log, tt) w
      = (Ok (log ++ L, tt), w')
      /\ visited dry files path (remote_fs w) L (remote_fs w').
Proof.
  induction fuel as [|fuel IH]; intros path log w Hdeep.
  { destruct Hdeep as [H0 _]. lia. }
  set (fs0 := remote_fs w) in *.
  cbn [_walk_remote]. unfold bind at 1, read, listdir_or_empty.
  cbn [sftp_listdir_attr world_host]. fold fs0. unfold fs_listdir.
  destruct (fs_isdir fs0 path) eqn:Hp.
  2:{ cbn [ENOENT is_IOError for_each]. exists [], w. rewrite app_nil_r.
      split; [reflexivity|]. apply visited_not_dir, Hp. }
  rewrite for_each_map.
  set (xs := fs_children fs0 path).
  destruct (loop_footprints true
              (fun x => sub path (fst x)) (fun x => sub path (fst x))
              (fun x => sub path (fst x))
              (fun x Lx fs' => valid_name (fst x) = true
                               /\ child_yields fs0 path (fst x) (snd x) Lx
                               /\ child_fate dry files fs0 path (fst x) fs')
              (fun x => walk_remote_step
                 (fun file acc =>
                    _walk_remote fuel file false (collect body) acc)
                 path false (collect body) (stat_of (fst x) (snd x)))
              fs0) with (xs := xs) (log := log) (w := w)
    as (Ls & w' & Erun & HF & Ht).
  - intros [name nd] L fs' fs'' Ha (Hv & Hy & Hf). cbn [fst] in *.
    split; [exact Hv|]. split; [exact Hy|].
    apply (child_fate_stable dry files fs0 path name fs'); assumption.
  - apply fs_children_NoDup.
  - intros x y k Hx Hy Hne HFk.
    pose proof (children_disjoint _ _ _ _ k Hx Hy Hne HFk). tauto.
  - intros [name nd] Hx log0 w0 Ha0. cbn [fst snd] in *.
    apply fs_children_join in Hx as [Hv Hnd].
    destruct (remote_child fuel path fs0 name nd IH Hdeep Hp Hv Hnd log0 w0
                Ha0) as (Lx & w1 & E1 & [H1 H2] & H3).
    exists Lx, w1. auto.
  - intros x k _ _. reflexivity.
  - exists (concat Ls), w'. split; [exact Erun|].
    assert (HFy : Forall2 (fun x Lx => child_yields fs0 path (fst x) (snd x) Lx)
                    xs Ls).
    { eapply Forall2_impl; [exact HF|]. intros x Lx (_ & Hy & _). exact Hy. }
    destruct (yields_assemble fs0 path xs Ls
                (fun name nd => fs_children_join fs0 path name nd) HFy)
      as (Hb & Hc & Hfirst).
    destruct (fate_assemble dry files fs0 path (remote_fs w')) as (H1 & H2 & H3).
    + intros name nd Hv Hnd.
      assert (Hx : (name, nd) ∈ xs) by (apply fs_children_join; auto).
      clear -HF Hx. induction HF as [|x Lx xs Ls (_ & _ & Hx0) _ IH];
        [inversion Hx|].
      apply elem_of_cons in Hx as [<- | Hx]; [exact Hx0 | apply IH, Hx].
    + intros k. destruct (Ht k) as [E | [([name nd] & Hx & Hs) E]];
        [left; exact E|]. right. split; [|exact E].
      apply fs_children_join in Hx as [Hv Hnd]. exists name, nd. auto.
    + split; assumption.
Qed.

End SweepRemote.

(** ** The deletion pass on the model: the local walker *)

Lemma scandir_names (f : bool -> bool) (xs : list (string * node)) :
  map fst (List.filter (fun e : string * bool => f (snd e))
             (map (fun kn : string * node =>
                     (fst kn, S_ISDIR (n_mode (snd kn)))) xs))
  = map fst (List.filter (fun x : string * node =>
                            f (S_ISDIR (n_mode (snd x)))) xs).
Proof.
  induction xs as [|x xs IH]; simpl; [reflexivity|].
  destruct (f (S_ISDIR (n_mode (snd x)))); simpl; rewrite IH; reflexivity.
Qed.

Lemma filter_elem {A : Type} (f : A -> bool) (l : list A) (x : A) :
  x ∈ List.filter f l <-> x ∈ l /\ f x = true.
Proof. rewrite !list_elem_of_In. apply filter_In. Qed.

Lemma filter_NoDup {A : Type} (f : A -> bool) (l : list A) :
  NoDup l -> NoDup (List.filter f l).
Proof.
  induction 1 as [|x l Hx _ IH]; simpl; [constructor|].
  destruct (f x); [|exact IH]. constructor; [|exact IH].
  rewrite filter_elem. tauto.
Qed.

Lemma Forall2_concat_elem {A E : Type} (P : A -> list E -> Prop)
    (xs : list A) (Ls : list (list E)) (x : A) :
  Forall2 P xs Ls -> x ∈ xs ->
  exists Lx, P x Lx /\ forall e, e ∈ Lx -> e ∈ concat Ls.
Proof.
  induction 1 as [|y Ly xs Ls Hy _ IH]; intros Hx; [inversion Hx|].
  apply elem_of_cons in Hx as [-> | Hx].
  - exists Ly. split; [exact Hy|]. intros e He. simpl.
    apply elem_of_app. left. exact He.
  - destruct (IH Hx) as (Lx & HLx & Hsub). exists Lx.
    split; [exact HLx|]. intros e He. simpl.
    apply elem_of_app. right. apply Hsub, He.
Qed.

Lemma concat_elem {A E : Type} (P : A -> list E -> Prop)
    (xs : list A) (Ls : list (list E)) (e : E) :
  Forall2 P xs Ls -> e ∈ concat Ls ->
  exists x Lx, x ∈ xs /\ P x Lx /\ e ∈ Lx.
Proof.
  induction 1 as [|y Ly xs Ls Hy _ IH]; simpl; intros He; [inversion He|].
  apply elem_of_app in He as [He | He].
  - exists y, Ly. split; [apply list_elem_of_here | auto].
  - destruct (IH He) as (x & Lx & Hx & HP & Hin). exists x, Lx.
    split; [apply list_elem_of_further, Hx | auto].
Qed.

Lemma subtree_first_each (fs : gmap string node) (seen L : list entry) :
  Forall (fun e => kind_of e = "dir" ->
            forall k n, reach fs (path_of e) k -> fs !! k = Some n ->
                        exists st, (kind_of_node n, k, st) ∈ seen) L ->
  subtree_first fs seen L.
Proof.
  revert seen. induction L as [|e L IH]; intros seen HL; simpl; [auto|].
  apply Forall_cons in HL as [He HL]. split; [exact He|].
  apply IH. eapply Forall_impl; [exact HL|].
  intros x Hx Hk k n Hr Hn. destruct (Hx Hk k n Hr Hn) as (st & Hst).
  exists st. apply elem_of_app. left. exact Hst.
Qed.

Lemma subtree_first_concat {A : Type} (P : A -> list entry -> Prop)
    (fs : gmap string node) (xs : list A) (Ls : list (list entry)) :
  (forall x Lx, P x Lx -> subtree_first fs [] Lx) ->
  Forall2 P xs Ls -> subtree_first fs [] (concat Ls).
Proof.
  intros HP. induction 1 as [|x Lx xs Ls Hx _ IH]; simpl; [exact Logic.I|].
  apply subtree_first_app; [apply (HP x), Hx|].
  apply subtree_first_more; [exact [] | exact IH].
Qed.

Section SweepLocal.
Variables (dry : bool) (files : gmap string (list string)).
Variables lf ld : list string.
Hypothesis Hlf : files !! "file" = Some lf.
Hypothesis Hld : files !! "dir" = Some ld.

#[local] Abbreviation body :=
  (fun (e : entry) (_ : unit) => _delete_dst_body false dry files e).

(** A yield of the local walker: the stat of the path, then the body. *)
Lemma local_yield (top name : string) (nd : node) (log : list entry)
    (w : world) :
  valid_name name = true ->
  local_fs w !! os_path.join top name = Some nd ->
  exists w',
    bind (read (os_stat (os_path.join top name)))
      (fun st => collect body
                   (kind_of_node nd, os_path.join top name, Some st)
                   (log, tt)) w
    = (Ok (log ++ [(kind_of_node nd, os_path.join top name,
                    Some (stat_of "" nd))], tt), w')
    /\ removal dry files nd (os_path.join top name) (local_fs w)
         (local_fs w').
Proof.
  intros Hv Hn.
  assert (Hb : below top (os_path.join top name)) by (apply below_child, Hv).
  destruct (below_key _ _ Hb) as [Hnorm _].
  unfold bind at 1, read. cbn [os_stat world_host]. unfold stat_in.
  rewrite (fs_stat_key _ _ _ Hb), Hn.
  apply (yield_model false dry files lf ld Hlf Hld _ _ nd log w Hnorm Hn).
Qed.

(** The descent into the directories of [top], before its own entries. *)
Lemma local_descent (fuel : nat) (top : string) (fs0 : gmap string node)
    (T : string * list string * list string ->
         list entry * unit -> M world (list entry * unit)) :
  (forall path log w,
      deep fuel path (local_fs w) ->
      exists L w',
        os_walk fuel path false T (log, tt) w = (Ok (log ++ L, tt), w')
        /\ visited dry files path (local_fs w) L (local_fs w')) ->
  deep (S fuel) top fs0 ->
  forall xd,
    NoDup xd ->
    (forall x, x ∈ xd -> x ∈ fs_children fs0 top) ->
    forall log w,
      (forall x k, x ∈ xd -> sub top (fst x) k ->
                   local_fs w !! k = fs0 !! k) ->
      exists Ls w',
        for_each xd
          (fun x acc => os_walk fuel (os_path.join top (fst x)) false T acc)
          (log, tt) w
        = (Ok (log ++ concat Ls, tt), w')
        /\ Forall2
             (fun x Lx =>
                valid_name (fst x) = true
                /\ exists fsa fsb,
                     (forall k, sub top (fst x) k -> fsa !! k = fs0 !! k)
                     /\ visited dry files (os_path.join top (fst x)) fsa Lx fsb
                     /\ forall k, sub top (fst x) k ->
                                  local_fs w' !! k = fsb !! k)
             xd Ls
        /\ touched_in (fun k => exists x, x ∈ xd /\ sub top (fst x) k)
             (local_fs w) (local_fs w').
Proof.
  intros IH Hdeep xd Hnd Hxd log w Ha.
  apply (loop_footprints false
           (fun x => sub top (fst x)) (fun x => sub top (fst x))
           (fun x => sub top (fst x))
           (fun x Lx fs' =>
              valid_name (fst x) = true
              /\ exists fsa fsb,
                   (forall k, sub top (fst x) k -> fsa !! k = fs0 !! k)
                   /\ visited dry files (os_path.join top (fst x)) fsa Lx fsb
                   /\ forall k, sub top (fst x) k -> fs' !! k = fsb !! k)
           (fun x acc => os_walk fuel (os_path.join top (fst x)) false T acc)
           fs0); [| exact Hnd | | | exact Ha].
  - intros x L fs' fs'' Hs (Hv & fsa & fsb & H1 & H2 & H3).
    split; [exact Hv|]. exists fsa, fsb. split; [exact H1|].
    split; [exact H2|]. intros k Hk. rewrite (Hs k Hk). apply H3, Hk.
  - intros x y k Hx Hy Hne HFk.
    pose proof (children_disjoint _ _ _ _ k (Hxd _ Hx) (Hxd _ Hy) Hne HFk).
    tauto.
  - intros [name nd] Hx log0 w0 Ha0. cbn [fst snd] in *.
    apply Hxd, fs_children_join in Hx as [Hv Hnd0].
    pose proof (deep_child _ _ _ _ _ _ Hdeep Hv Hnd0 Ha0) as Hdc.
    destruct (IH _ log0 w0 Hdc) as (L & w1 & E1 & HV).
    exists L, w1. split; [exact E1|]. split.
    + split; [exact Hv|]. exists (local_fs w0), (local_fs w1). auto.
    + intros k. destruct (v_touched _ _ _ _ _ _ HV k) as [E | [Hu E]];
        [left; exact E|]. right. split; [|exact E].
      apply under_child; assumption.
Qed.

(** The files of [top]. *)
Lemma local_files (top : string) (fs0 : gmap string node) :
  fs_isdir fs0 top = true ->
  forall xf,
    NoDup xf ->
    (forall x, x ∈ xf ->
               x ∈ fs_children fs0 top /\ S_ISDIR (n_mode (snd x)) = false) ->
    forall log w,
      (forall x k, x ∈ xf -> sub top (fst x) k ->
                   local_fs w !! k = fs0 !! k) ->
      exists Ls w',
        for_each xf
          (fun x acc =>
             bind (read (os_stat (os_path.join top (fst x))))
               (fun st => collect body
                            ("file", os_path.join top (fst x), Some st) acc))
          (log, tt) w
        = (Ok (log ++ concat Ls, tt), w')
        /\ Forall2
             (fun x Lx =>
                valid_name (fst x) = true
                /\ Lx = [("file", os_path.join top (fst x),
                          Some (stat_of "" (snd x)))]
                /\ child_fate dry files fs0 top (fst x) (local_fs w'))
             xf Ls
        /\ touched_in (fun k => exists x, x ∈ xf /\ sub top (fst x) k)
             (local_fs w) (local_fs w').
Proof.
  intros Hp xf Hnd Hxf log w Ha.
  apply (loop_footprints false
           (fun x => sub top (fst x)) (fun x => sub top (fst x))
           (fun x => sub top (fst x))
           (fun x Lx fs' =>
              valid_name (fst x) = true
              /\ Lx = [("file", os_path.join top (fst x),
                        Some (stat_of "" (snd x)))]
              /\ child_fate dry files fs0 top (fst x) fs')
           _ fs0); [| exact Hnd | | | exact Ha].
  - intros x L fs' fs'' Hs (Hv & HL & Hf).
    split; [exact Hv|]. split; [exact HL|].
    apply (child_fate_stable dry files fs0 top (fst x) fs'); assumption.
  - intros x y k Hx Hy Hne HFk.
    pose proof (children_disjoint _ _ _ _ k (proj1 (Hxf _ Hx))
                  (proj1 (Hxf _ Hy)) Hne HFk).
    tauto.
  - intros [name nd] Hx log0 w0 Ha0. cbn [fst snd] in *.
    cbn [side] in Ha0.
    destruct (Hxf _ Hx) as [Hin Hfile]. cbn [snd] in Hfile.
    apply fs_children_join in Hin as [Hv Hnd0].
    assert (Hw0 : local_fs w0 !! os_path.join top name = Some nd)
      by (rewrite (Ha0 _ (sub_self _ _ Hv)); exact Hnd0).
    destruct (local_yield top name nd log0 w0 Hv Hw0) as (w1 & E1 & Hrem).
    assert (Hkind : kind_of_node nd = "file")
      by (unfold kind_of_node; rewrite Hfile; reflexivity).
    rewrite Hkind in E1.
    exists [("file", os_path.join top name, Some (stat_of "" nd))], w1.
    split; [exact E1|]. split.
    + split; [exact Hv|]. split; [reflexivity|].
      apply (file_child_fate dry files fs0 top name nd (local_fs w0)); auto.
    + intros k. destruct (proj1 Hrem k) as [E | [<- E]]; [left; exact E|].
      right. split; [apply sub_self, Hv | exact E].
Qed.

(** The directories of [top], after the descent into them; [fs1] is the
    file system that the descent and the files of [top] have left. *)
Lemma local_dirs (top : string) (fs0 fs1 : gmap string node) :
  fs_isdir fs0 top = true ->
  forall xd,
    NoDup xd ->
    (forall x, x ∈ xd ->
       x ∈ fs_children fs0 top /\ S_ISDIR (n_mode (snd x)) = true
       /\ exists Lc fsa fsb,
            (forall k, sub top (fst x) k -> fsa !! k = fs0 !! k)
            /\ visited dry files (os_path.join top (fst x)) fsa Lc fsb
            /\ forall k, sub top (fst x) k -> fs1 !! k = fsb !! k) ->
    forall log w,
      (forall x k, x ∈ xd -> sub top (fst x) k ->
                   local_fs w !! k = fs1 !! k) ->
      exists Ls w',
        for_each xd
          (fun x acc =>
             bind (read (os_stat (os_path.join top (fst x))))
               (fun st => collect body
                            ("dir", os_path.join top (fst x), Some st) acc))
          (log, tt) w
        = (Ok (log ++ concat Ls, tt), w')
        /\ Forall2
             (fun x Lx =>
                valid_name (fst x) = true
                /\ Lx = [("dir", os_path.join top (fst x),
                          Some (stat_of "" (snd x)))]
                /\ child_fate dry files fs0 top (fst x) (local_fs w'))
             xd Ls
        /\ touched_in (fun k => exists x, x ∈ xd /\ sub top (fst x) k)
             (local_fs w) (local_fs w').
Proof.
  intros Hp xd Hnd Hxd log w Ha.
  apply (loop_footprints false
           (fun x => sub top (fst x)) (fun x => sub top (fst x))
           (fun x => sub top (fst x))
           (fun x Lx fs' =>
              valid_name (fst x) = true
              /\ Lx = [("dir", os_path.join top (fst x),
                        Some (stat_of "" (snd x)))]
              /\ child_fate dry files fs0 top (fst x) fs')
           _ fs1); [| exact Hnd | | | exact Ha].
  - intros x L fs' fs'' Hs (Hv & HL & Hf).
    split; [exact Hv|]. split; [exact HL|].
    apply (child_fate_stable dry files fs0 top (fst x) fs'); assumption.
  - intros x y k Hx Hy Hne HFk.
    pose proof (children_disjoint _ _ _ _ k (proj1 (Hxd _ Hx))
                  (proj1 (Hxd _ Hy)) Hne HFk).
    tauto.
  - intros [name nd] Hx log0 w0 Ha0. cbn [fst snd] in *.
    cbn [side] in Ha0.
    destruct (Hxd _ Hx) as (Hin & Hdir & Lc & fsa & fsb & Haa & HV & H1b).
    cbn [fst snd] in *.
    apply fs_children_join in Hin as [Hv Hnd0].
    set (c := os_path.join top name) in *.
    assert (Hw0 : local_fs w0 !! c = Some nd).
    { rewrite (Ha0 c (sub_self _ _ Hv)), (H1b c (sub_self _ _ Hv)).
      destruct (v_touched _ _ _ _ _ _ HV c) as [-> | [Hu _]].
      - rewrite (Haa c (sub_self _ _ Hv)). exact Hnd0.
      - exfalso. exact (under_neq _ _ Hu eq_refl). }
    destruct (local_yield top name nd log0 w0 Hv Hw0) as (w1 & E1 & Hrem).
    assert (Hkind : kind_of_node nd = "dir")
      by (unfold kind_of_node; rewrite Hdir; reflexivity).
    rewrite Hkind in E1.
    exists [("dir", c, Some (stat_of "" nd))], w1.
    split; [exact E1|]. split.
    + split; [exact Hv|]. split; [reflexivity|].
      apply (dir_child_fate dry files fs0 top name nd Lc fsa fsb
               (local_fs w0) (local_fs w1)); auto.
      intros k Hk. rewrite (Ha0 k Hk). apply H1b, Hk.
    + intros k. destruct (proj1 Hrem k) as [E | [<- E]]; [left; exact E|].
      right. split; [apply sub_self, Hv | exact E].
Qed.

End SweepLocal.

Section SweepLocalWalk.
Variables (dry : bool) (files : gmap string (list string)).
Variables lf ld : list string.
Hypothesis Hlf : files !! "file" = Some lf.
Hypothesis Hld : files !! "dir" = Some ld.

#[local] Abbreviation body :=
  (fun (e : entry) (_ : unit) => _delete_dst_body false dry files e).

Lemma sweep_local (fuel : nat) :
  forall path log w,
    deep fuel path (local_fs w) ->
    exists L w',
      _walk_local fuel path false (collect body) (log, tt) w
      = (Ok (log ++ L, tt), w')
      /\ visited dry files path (local_fs w) L (local_fs w').
Proof.
  unfold _walk_local.
  induction fuel as [|fuel IH]; intros top log w Hdeep.
  { destruct Hdeep as [H0 _]. lia. }
  set (fs0 := local_fs w) in *.
  cbn [os_walk]. cbn [os_scandir world_host]. fold fs0. unfold fs_listdir.
  destruct (fs_isdir fs0 top) eqn:Hp.
  2:{ cbn [ENOENT is_IOError]. exists [], w. rewrite app_nil_r.
      split; [reflexivity|]. apply visited_not_dir, Hp. }
  cbv zeta. rewrite !(scandir_names (fun b => b)), !(scandir_names negb).
  set (xs := fs_children fs0 top).
  set (xd := List.filter (fun x : string * node => S_ISDIR (n_mode (snd x))) xs).
  set (xf := List.filter
               (fun x : string * node => negb (S_ISDIR (n_mode (snd x)))) xs).
  assert (Hxd : forall x, x ∈ xd ->
                  x ∈ xs /\ S_ISDIR (n_mode (snd x)) = true)
    by (intros x Hx; apply filter_elem in Hx; exact Hx).
  assert (Hxf : forall x, x ∈ xf ->
                  x ∈ xs /\ S_ISDIR (n_mode (snd x)) = false).
  { intros x Hx. apply filter_elem in Hx as [Hx Hf].
    apply negb_true_iff in Hf. auto. }
  assert (Hndd : NoDup xd) by apply filter_NoDup, fs_children_NoDup.
  assert (Hndf : NoDup xf) by apply filter_NoDup, fs_children_NoDup.
  assert (Hdf : forall x y k, x ∈ xd -> y ∈ xf ->
                  sub top (fst x) k -> sub top (fst y) k -> False).
  { intros x y k Hx Hy Hsx Hsy.
    destruct (Hxd x Hx) as [Hx1 Hx2], (Hxf y Hy) as [Hy1 Hy2].
    apply (children_disjoint fs0 top x y k Hx1 Hy1); [congruence | auto..]. }
  (* the descent *)
  destruct (local_descent dry files fuel top fs0 _ IH Hdeep xd Hndd
              (fun x Hx => proj1 (Hxd x Hx)) log w
              (fun _ _ _ _ => eq_refl))
    as (Ls1 & w1 & E1 & HF1 & Ht1).
  unfold bind at 1. rewrite for_each_map. cbv beta. rewrite E1.
  (* the files *)
  assert (Ha1 : forall x k, x ∈ xf -> sub top (fst x) k ->
                  local_fs w1 !! k = fs0 !! k).
  { intros x k Hx Hs. destruct (Ht1 k) as [E | [(y & Hy & Hsy) _]];
      [exact E|]. exfalso. apply (Hdf y x k); assumption. }
  destruct (local_files dry files lf ld Hlf Hld top fs0 Hp xf Hndf Hxf
              (log ++ concat Ls1) w1 Ha1)
    as (Ls2 & w2 & E2 & HF2 & Ht2).
  unfold bind at 1. rewrite for_each_map. cbv beta. rewrite E2.
  (* the directories *)
  assert (Hxd3 : forall x, x ∈ xd ->
            x ∈ fs_children fs0 top /\ S_ISDIR (n_mode (snd x)) = true
            /\ exists Lc fsa fsb,
                 (forall k, sub top (fst x) k -> fsa !! k = fs0 !! k)
                 /\ visited dry files (os_path.join top (fst x)) fsa Lc fsb
                 /\ forall k, sub top (fst x) k ->
                              local_fs w2 !! k = fsb !! k).
  { intros x Hx. destruct (Hxd x Hx) as [Hx1 Hx2].
    split; [exact Hx1|]. split; [exact Hx2|].
    destruct (Forall2_concat_elem _ _ _ x HF1 Hx)
      as (Lc & (_ & fsa & fsb & H1 & H2 & H3) & _).
    exists Lc, fsa, fsb. split; [exact H1|]. split; [exact H2|].
    intros k Hk. rewrite <- (H3 k Hk).
    destruct (Ht2 k) as [E | [(y & Hy & Hsy) _]]; [exact E|].
    exfalso. apply (Hdf x y k); assumption. }
  destruct (local_dirs dry files lf ld Hlf Hld top fs0 (local_fs w2) Hp xd
              Hndd Hxd3 ((log ++ concat Ls1) ++ concat Ls2) w2
              (fun _ _ _ _ => eq_refl))
    as (Ls3 & w3 & E3 & HF3 & Ht3).
  rewrite for_each_map. cbv beta. rewrite E3.
  exists (concat Ls1 ++ concat Ls2 ++ concat Ls3), w3.
  split; [rewrite !app_assoc; reflexivity|].
  assert (Hxs : forall name nd, (name, nd) ∈ xs ->
            (name, nd) ∈ xd \/ (name, nd) ∈ xf).
  { intros name nd Hx. destruct (S_ISDIR (n_mode nd)) eqn:Ed.
    - left. apply filter_elem. auto.
    - right. apply filter_elem. cbn [snd]. rewrite Ed. auto. }
  (* what the directories hold was yielded by the descent *)
  assert (Hcomp1 : forall name nd k n,
            (name, nd) ∈ xd -> reach fs0 (os_path.join top name) k ->
            fs0 !! k = Some n ->
            exists st, (kind_of_node n, k, st) ∈ concat Ls1).
  { intros name nd k n Hx Hr Hn.
    destruct (Forall2_concat_elem _ _ _ _ HF1 Hx)
      as (Lc & (Hv & fsa & fsb & H1 & H2 & _) & Hsub). cbn [fst] in *.
    assert (Hcb : below top (os_path.join top name))
      by (apply below_child, Hv).
    assert (Hag : forall q, below (os_path.join top name) q ->
                    fs0 !! q = fsa !! q).
    { intros q Hq. symmetry. apply H1, sub_below; assumption. }
    destruct (v_complete _ _ _ _ _ _ H2 k n) as (st & Hst).
    - apply (reach_agree fs0 fsa); [| exact Hag | exact Hr].
      unfold fs_isdir. rewrite !(fs_stat_key _ _ _ Hcb).
      rewrite (H1 _ (sub_self _ _ Hv)). reflexivity.
    - rewrite <- (Hag k (reach_below _ _ _ Hr)). exact Hn.
    - exists st. apply Hsub, Hst. }
  destruct (fate_assemble dry files fs0 top (local_fs w3)) as (H1 & H2 & H3).
  { intros name nd Hv Hnd.
    destruct (Hxs name nd) as [Hx | Hx]; [apply fs_children_join; auto| |].
    - destruct (Forall2_concat_elem _ _ _ _ HF3 Hx) as (Lx & (_ & _ & Hf) & _).
      exact Hf.
    - destruct (Forall2_concat_elem _ _ _ _ HF2 Hx) as (Lx & (_ & _ & Hf) & _).
      cbn [fst] in Hf.
      apply (child_fate_stable dry files fs0 top name (local_fs w2));
        [exact Hv | | exact Hf].
      intros k Hk. destruct (Ht3 k) as [E | [(y & Hy & Hsy) _]]; [exact E|].
      exfalso. apply (Hdf y (name, nd) k); assumption. }
  { assert (Hin : forall k, (exists x, (x ∈ xd \/ x ∈ xf) /\ sub top (fst x) k) ->
                    exists name nd, valid_name name = true
                      /\ fs0 !! os_path.join top name = Some nd
                      /\ sub top name k).
    { intros k ([name nd] & Hx & Hs). exists name, nd.
      assert (Hxs' : (name, nd) ∈ xs)
        by (destruct Hx as [Hx | Hx]; [apply (Hxd _ Hx) | apply (Hxf _ Hx)]).
      apply fs_children_join in Hxs' as [Hv Hnd]. auto. }
    apply (touched_in_trans
             (fun k => exists x, (x ∈ xd \/ x ∈ xf) /\ sub top (fst x) k)
             (fun k => exists x, x ∈ xd /\ sub top (fst x) k)
             _ fs0 (local_fs w2)); [exact Hin | | | exact Ht3].
    - intros k (x & Hx & Hs). apply Hin. exists x. auto.
    - apply (touched_in_trans
               (fun k => exists x, x ∈ xd /\ sub top (fst x) k)
               (fun k => exists x, x ∈ xf /\ sub top (fst x) k)
               _ fs0 (local_fs w1)); [| | exact Ht1 | exact Ht2].
      + intros k (x & Hx & Hs). exists x. auto.
      + intros k (x & Hx & Hs). exists x. auto. }
  split; [| | | exact H1 | exact H2 | exact H3].
  - (* the yields are below the root *)
    apply Forall_app. split; [|apply Forall_app; split].
    + apply Forall_forall. intros e He.
      destruct (concat_elem _ _ _ e HF1 He)
        as (x & Lx & _ & (Hv & fsa & fsb & _ & HV & _) & Hin).
      pose proof (v_below _ _ _ _ _ _ HV) as Hb.
      rewrite Forall_forall in Hb.
      eapply below_trans; [apply below_child, Hv | apply Hb, Hin].
    + apply Forall_forall. intros e He.
      destruct (concat_elem _ _ _ e HF2 He) as (x & Lx & _ & (Hv & -> & _) & Hin).
      apply list_elem_of_singleton in Hin. subst e.
      apply below_child, Hv.
    + apply Forall_forall. intros e He.
      destruct (concat_elem _ _ _ e HF3 He) as (x & Lx & _ & (Hv & -> & _) & Hin).
      apply list_elem_of_singleton in Hin. subst e.
      apply below_child, Hv.
  - (* every node reached is yielded *)
    intros k n Hr Hn.
    destruct (reach_split _ _ _ Hr) as (name & Hv & [-> | (nd & Hnd & Hd & Hr')]).
    + destruct (Hxs name n) as [Hx | Hx]; [apply fs_children_join; auto| |].
      * destruct (Forall2_concat_elem _ _ _ _ HF3 Hx)
          as (Lx & (_ & -> & _) & Hsub).
        exists (Some (stat_of "" n)). apply elem_of_app. right.
        apply elem_of_app. right. apply Hsub.
        destruct (Hxd _ Hx) as [_ Hdir]. cbn [snd fst] in *.
        unfold kind_of_node. rewrite Hdir. apply list_elem_of_here.
      * destruct (Forall2_concat_elem _ _ _ _ HF2 Hx)
          as (Lx & (_ & -> & _) & Hsub).
        exists (Some (stat_of "" n)). apply elem_of_app. right.
        apply elem_of_app. left. apply Hsub.
        destruct (Hxf _ Hx) as [_ Hfile]. cbn [snd fst] in *.
        unfold kind_of_node. rewrite Hfile. apply list_elem_of_here.
    + assert (Hx : (name, nd) ∈ xd)
        by (apply filter_elem; split; [apply fs_children_join; auto | exact Hd]).
      destruct (Hcomp1 name nd k n Hx Hr' Hn) as (st & Hst).
      exists st. apply elem_of_app. left. exact Hst.
  - (* a directory comes after its subtree *)
    apply subtree_first_app; [|apply subtree_first_app].
    + eapply subtree_first_concat; [|exact HF1].
      intros x Lx (Hv & fsa & fsb & Ha & HV & _). cbv beta in *.
      apply (subtree_first_agree fsa fs0 (os_path.join top (fst x)));
        [| exact (v_below _ _ _ _ _ _ HV) | exact (v_first _ _ _ _ _ _ HV)].
      intros q Hq. apply Ha, sub_below; [exact Hv | exact Hq].
    + apply subtree_first_files. apply Forall_forall. intros e He.
      destruct (concat_elem _ _ _ e HF2 He) as (x & Lx & _ & (_ & -> & _) & Hin).
      apply list_elem_of_singleton in Hin. subst e. reflexivity.
    + apply subtree_first_each. apply Forall_forall. intros e He _ k n Hr Hn.
      destruct (concat_elem _ _ _ e HF3 He)
        as ([name nd] & Lx & Hx & (_ & -> & _) & Hin).
      apply list_elem_of_singleton in Hin. subst e.
      destruct (Hcomp1 name nd k n Hx Hr Hn) as (st & Hst).
      exists st. apply elem_of_app. left. apply elem_of_app. right.
      exact Hst.
Qed.

End SweepLocalWalk.

(** ** The deletion pass on the model *)

Lemma shallow_deep (fuel : nat) (path : string) (fs : gmap string node) :
  shallow fuel fs = true -> deep fuel path fs.
Proof.
  unfold shallow. intros H. apply andb_true_iff in H as [H0 Hall].
  apply Nat.ltb_lt in H0. split; [exact H0|].
  intros k [n Hn] _. rewrite forallb_forall in Hall.
  assert (Hin : In (k, n) (map_to_list fs)).
  { apply list_elem_of_In. apply elem_of_map_to_list. exact Hn. }
  apply Hall in Hin. cbn [fst] in Hin. apply Nat.ltb_lt in Hin. lia.
Qed.

(** Every entry that the local walker gives to the loop carries a stat. *)
Lemma walk_local_stats {W Acc : Type} `{Host W}
    (body : entry -> Acc -> M W Acc) (fuel : nat) (path : string)
    (topdown : bool) (log : list entry) (acc : Acc) (w : W) :
  Forall (fun e => is_Some (snd e)) log ->
  match _walk_local fuel path topdown (collect body) (log, acc) w with
  | (Ok (log', _), _) => Forall (fun e => is_Some (snd e)) log'
  | (Raise _, _) => True
  end.
Proof.
  intros Hlog. unfold _walk_local.
  set (I := fun (st : list entry * Acc) (_ : W) =>
              Forall (fun e : entry => is_Some (snd e)) (fst st)).
  assert (Hone : forall k r names st,
             triple (I st)
               (for_each names (fun name acc2 =>
                  bind (read (os_stat (os_path.join r name)))
                    (fun s => collect body (k, os_path.join r name, Some s)
                                acc2)) st)
               I (fun _ => True)).
  { intros k r names. apply for_each_rule.
    intros name st _ w1 Hw1. unfold collect, read, ret, bind.
    destruct (os_stat _ w1) as [s|e]; [|exact Logic.I].
    destruct (body (k, os_path.join r name, Some s) (snd st) w1)
      as [[acc'|e] w2]; [|exact Logic.I].
    unfold I. cbn [fst]. apply Forall_app. split; [exact Hw1|].
    constructor; [eexists; reflexivity | constructor]. }
  pose proof (os_walk_rule (fun _ => True) I (fun _ => True)
                (fun _ _ _ => Logic.I) path topdown
                (fun '(root, dirs, files) acc =>
                   (acc <- for_each files (fun file acc =>
                              let file := os_path.join root file in
                              (st <- read (os_stat file) ;;
                               collect body ("file", file, Some st) acc)) acc ;;
                    for_each dirs (fun dir acc =>
                      let dir := os_path.join root dir in
                      (st <- read (os_stat dir) ;;
                       collect body ("dir", dir, Some st) acc)) acc)%M))
    as Hrule.
  assert (Hrule' := fun H1 H2 => Hrule H1 H2 fuel path (log, acc)
                                   (or_introl eq_refl) w Hlog).
  clear Hrule.
  match type of Hrule' with
  | ?A -> ?B -> ?C => assert (HA : A); [|assert (HB : B);
                        [|specialize (Hrule' HA HB)]]
  end.
  - intros. apply Forall_forall. auto.
  - intros r dirs files st _ _ _ w1 Hw1. unfold bind at 1.
    pose proof (Hone "file" r files st w1 Hw1) as Hf.
    destruct (for_each files _ st w1) as [[st1|e1] w2]; [|exact Logic.I].
    apply (Hone "dir" r dirs st1 w2 Hf).
  - destruct (os_walk fuel path topdown _ (log, acc) w) as [[[log' a]|e] w'];
      [exact Hrule' | exact Logic.I].
Qed.

Lemma sweep (remote dry : bool) (files : gmap string (list string))
    (lf ld : list string) (fuel : nat) (path : string) (w : world) :
  files !! "file" = Some lf -> files !! "dir" = Some ld ->
  deep fuel path (side remote w) ->
  exists L w',
    _walk fuel path false remote
      (collect (fun e _ => _delete_dst_body remote dry files e)) ([], tt) w
    = (Ok (L, tt), w')
    /\ visited dry files path (side remote w) L (side remote w').
Proof.
  intros Hlf Hld Hdeep. unfold _walk. destruct remote; cbn [side] in *.
  - exact (sweep_remote dry files lf ld Hlf Hld fuel path [] w Hdeep).
  - exact (sweep_local dry files lf ld Hlf Hld fuel path [] w Hdeep).
Qed.

(** The deletion pass on a manifest with its two keys, the recursion limit
    not reached: it returns, the entries given to its loop and the file
    system it leaves are those of a bottom-up visit, and the other side is
    left alone. *)
Lemma delete_dst_model (remote dry : bool) (files : gmap string (list string))
    (lf ld : list string) (fuel : nat) (path : string) (w : world) :
  files !! "file" = Some lf -> files !! "dir" = Some ld ->
  shallow fuel (side remote w) = true ->
  exists L w',
    _walk fuel path false remote
      (collect (fun e _ => _delete_dst_body remote dry files e)) ([], tt) w
    = (Ok (L, tt), w')
    /\ _delete_dst fuel path files remote dry w = (Ok tt, w')
    /\ visited dry files path (side remote w) L (side remote w')
    /\ side (negb remote) w' = side (negb remote) w.
Proof.
  intros Hlf Hld Hsh.
  destruct (sweep remote dry files lf ld fuel path w Hlf Hld
              (shallow_deep _ _ _ Hsh)) as (L & w' & Hrun & Hv).
  exists L, w'. split; [exact Hrun|].
  assert (Hd : _delete_dst fuel path files remote dry w = (Ok tt, w')).
  { unfold _delete_dst.
    pose proof (records_walk (fun e _ => _delete_dst_body remote dry files e)
                  false remote fuel path [] tt w) as Hr.
    unfold records in Hr. cbv beta in Hr. rewrite Hrun in Hr.
    destruct (_walk fuel path false remote
                (fun e _ => _delete_dst_body remote dry files e) () w)
      as [[[]|x'] w2]; [|contradiction].
    destruct Hr as (_ & -> & _). reflexivity. }
  split; [exact Hd|]. split; [exact Hv|].
  pose proof (keeps_delete_dst fuel path files remote dry w) as Hk.
  rewrite Hd in Hk. exact Hk.
Qed.

(** ** The deletion pass: what it removes, and in which order *)

(** C5. The deletion pass with dry-run off, on the model, for an upload and
    for a download, the manifest having its two keys and the recursion
    limit not reached: the pass returns; it leaves the other side alone and
    creates nothing; a node of the destination is either removed or left as
    it was, and it is removed exactly when the walk of the root reaches it,
    its path is not in the manifest's list for its kind and, for a
    directory, nothing is left in it (the removal of a directory that is
    not empty fails, and the pass goes on).  On any host, the world the
    pass leaves is the world it started from after the removal, in order,
    of the yielded entries whose path is not in the manifest's list for
    their kind, and of no other, a removal that fails leaving the world as
    the failed call left it; the body of the loop raises only when
    the kind is not a key of the manifest; recording the yields changes
    neither the world nor the outcome.  On the example, the excluded file
    and the files absent from the source are removed, the included files
    are kept, and the removals that follow the failed removal of a
    directory that is not empty are made. *)
Theorem delete_dst_removes_extraneous :
  (forall fuel path files remote lf ld (w : world),
      files !! "file" = Some lf -> files !! "dir" = Some ld ->
      shallow fuel (side remote w) = true ->
      exists w',
        _delete_dst fuel path files remote false w = (Ok tt, w')
        /\ side (negb remote) w' = side (negb remote) w
        /\ (forall k, side remote w !! k = None -> side remote w' !! k = None)
        /\ (forall k n, side remote w !! k = Some n ->
              (side remote w' !! k = None \/ side remote w' !! k = Some n)
              /\ (side remote w' !! k = None
                  <-> reach (side remote w) path k
                      /\ ~ listed files n k
                      /\ (S_ISDIR (n_mode n) = true ->
                          emptied (side remote w') k))))
  /\ (forall (W : Type) (HW : Host W) fuel path files remote (w : W) L u w',
         _walk fuel path false remote
           (collect (fun e _ => _delete_dst_body remote false files e))
           ([], tt) w = (Ok (L, u), w') ->
         w' = fold_left (fun w e => remove_entry remote e w)
                (List.filter (extraneous files) L) w)
  /\ (forall (W : Type) (HW : Host W) files remote dry e (w : W) l,
         files !! kind_of e = Some l ->
         fst (_delete_dst_body remote dry files e w) = Ok tt)
  /\ (forall (W : Type) (HW : Host W) fuel path files remote dry (w : W),
         let run := _delete_dst fuel path files remote dry w in
         let recorded :=
           _walk fuel path false remote
             (collect (fun e _ => _delete_dst_body remote dry files e))
             ([], tt) w in
         snd recorded = snd run /\ is_ok (fst recorded) = is_ok (fst run))
  /\ (let r := sync (pattern := list item) 8 "/a/b" "/c/d" false None
                 (Some ["\.tmp$"; "^sub$"]) true false delete_world in
      manifest_of (fst r)
      = [("file", ["/c/d/keep.txt"; "/c/d/sub/k.txt"]); ("dir", [])]
      /\ calls (snd r)
         = [call_sftp_remove "/c/d/gone.txt";
            call_sftp_remove "/c/d/skip.tmp";
            call_sftp_rmdir "/c/d/sub";
            call_sftp_remove "/c/d/a0";
            call_sftp_remove "/c/d/zz"]
      /\ map fst (map_to_list (remote_fs (snd r)))
         = ["/c/d/keep.txt"; "/c/d/sub/k.txt"; "/c/d/sub"; "/c/d"; "/c"]).
Proof.
  split; [|split; [|split; [|split]]].
  - intros fuel path files remote lf ld w Hlf Hld Hsh.
    destruct (delete_dst_model remote false files lf ld fuel path w
                Hlf Hld Hsh) as (L & w' & _ & Hd & Hv & Hk).
    exists w'. split; [exact Hd|]. split; [exact Hk|].
    pose proof (v_touched _ _ _ _ _ _ Hv) as Ht.
    split.
    + intros k Hn. destruct (Ht k) as [E | [_ E]]; [congruence | exact E].
    + intros k n Hn. split.
      * destruct (Ht k) as [E | [_ E]]; [right; congruence | left; exact E].
      * exact (v_fate _ _ _ _ _ _ Hv eq_refl k n Hn).
  - intros W HW fuel path files remote w L u w' Hrun.
    set (eff := fun (w : W) (e : entry) => remove_entry remote e w).
    pose proof (walk_rule0 (fun _ => True)
                  (fun (st : list entry * unit) (w1 : W) =>
                     w1 = fold_left eff
                            (List.filter (extraneous files) (fst st)) w)
                  (fun _ => True) (fun _ _ _ => Logic.I)
                  path false remote
                  (collect (fun e _ => _delete_dst_body remote false files e)))
      as Hrule.
    assert (Hrule' := fun H1 H2 => Hrule H1 H2). clear Hrule.
    specialize (Hrule' ltac:(intros; apply Forall_forall; auto)
                       ltac:(intros; apply Forall_forall; auto)).
    assert (Hbody : forall k p st (acc : list entry * unit),
               k = "file" \/ k = "dir" -> below_by (fun _ => True) path p ->
               triple (fun w1 => w1 = fold_left eff
                                 (List.filter (extraneous files) (fst acc)) w)
                 (collect (fun e _ => _delete_dst_body remote false files e)
                    (k, p, st) acc)
                 (fun st' w1 => w1 = fold_left eff
                                 (List.filter (extraneous files) (fst st')) w)
                 (fun _ => True)).
    { intros k p st acc _ _ w1 Hw1. unfold collect, bind, ret.
      pose proof (delete_dst_body_effect remote files (k, p, st) w1) as Hb.
      destruct (_delete_dst_body remote false files (k, p, st) w1)
        as [[[]|x] w2]; [|exact Logic.I].
      simpl. rewrite filter_snoc, fold_left_app, <- Hw1, Hb.
      destruct (extraneous files (k, p, st)); reflexivity. }
    specialize (Hrule' Hbody fuel ([], tt) w eq_refl).
    rewrite Hrun in Hrule'. exact Hrule'.
  - intros W HW files remote dry e w l Hl.
    destruct e as [[k p] st]. unfold _delete_dst_body.
    unfold kind_of in Hl. cbn [fst] in Hl.
    rewrite Hl. destruct (negb (in_list p l)); [|reflexivity].
    destruct (negb dry); [|reflexivity].
    destruct (callables remote !! k); reflexivity.
  - intros W HW fuel path files remote dry w. unfold _delete_dst.
    pose proof (records_walk (fun e _ => _delete_dst_body remote dry files e)
                  false remote fuel path [] tt w) as Hr.
    unfold records in Hr. cbv beta in Hr. cbv zeta. revert Hr.
    destruct (_walk fuel path false remote
                (collect (fun e _ => _delete_dst_body remote dry files e))
                ([], ()) w) as [[[L u]|x] w1];
      destruct (_walk fuel path false remote
                  (fun e _ => _delete_dst_body remote dry files e) () w)
        as [[u'|x'] w2]; intros Hr; try contradiction; simpl.
    + destruct Hr as (_ & -> & _). auto.
    + destruct Hr as (_ & ->). auto.
  - vm_compute. repeat split; reflexivity.
Qed.

Lemma delete_dst_removes_extraneous_witness :
  delete_manifest !! "file" = Some ["/c/d/keep.txt"; "/c/d/sub/k.txt"]
  /\ delete_manifest !! "dir" = Some []
  /\ shallow 20 (side true delete_world) = true
  /\ exists w',
       _delete_dst 20 "/c/d" delete_manifest true false delete_world
       = (Ok tt, w')
       /\ side false w' = side false delete_world
       /\ (forall k, side true delete_world !! k = None ->
                     side true w' !! k = None)
       /\ (forall k n, side true delete_world !! k = Some n ->
             (side true w' !! k = None \/ side true w' !! k = Some n)
             /\ (side true w' !! k = None
                 <-> reach (side true delete_world) "/c/d" k
                     /\ ~ listed delete_manifest n k
                     /\ (S_ISDIR (n_mode n) = true ->
                         emptied (side true w') k))).
Proof.
  split; [reflexivity|]. split; [reflexivity|].
  split; [vm_compute; reflexivity|].
  exact (proj1 delete_dst_removes_extraneous 20%nat "/c/d" delete_manifest
           true ["/c/d/keep.txt"; "/c/d/sub/k.txt"] [] delete_world
           eq_refl eq_refl eq_refl).
Defined.

(** The walk of a download's deletion pass gives the loop a directory with
    its stat: the local walker yields ['dir', dir, os.stat(dir)] in
    bottom-up order too. *)
Lemma local_bottom_up_dir_carries_stat :
  let r := _walk 8 "/c/d" false false
             (collect (fun e _ => _delete_dst_body false false dst_list0 e))
             ([], tt) stale_local in
  fst r = Ok ([("file", "/c/d/old/f", Some (stat_of "" (file_node 4 1)));
               ("dir", "/c/d/old", Some (stat_of "" (dir_node 1)))], tt)
  /\ snd r = snd (_delete_dst 8 "/c/d" dst_list0 false false stale_local)
  /\ snd (sync (pattern := list item) 8 "/r" "/c/d" true None None true false
            stale_local) = snd r.
Proof. vm_compute. repeat split; reflexivity. Qed.

(** C7. The bottom-up walk of the deletion pass on the model, for an
    upload (remote walker) and for a download (local walker), the manifest
    having its two keys and the recursion limit not reached: the walk
    returns and is the pass with its yields recorded; every node that the
    walk of the root reaches is given to the loop; a directory entry comes
    after an entry for every node that a walk of that directory reaches,
    so the loop has handled the whole subtree before the directory; the
    directory entries of the remote walker carry no stat, those of the
    local walker carry one.  With dry-run off, a directory not in the
    manifest that holds only files not in the manifest is removed with its
    files in this one pass.  On any host with well-formed listings and
    whatever the loop does, no entry that lies below a directory entry of
    the remote walker comes after it.  On the two examples, one pass
    removes the stale file, then the directory that held it. *)
Theorem bottom_up_walk_order :
  (forall fuel path files remote dry lf ld (w : world),
      files !! "file" = Some lf -> files !! "dir" = Some ld ->
      shallow fuel (side remote w) = true ->
      exists L w',
        _walk fuel path false remote
          (collect (fun e _ => _delete_dst_body remote dry files e))
          ([], tt) w = (Ok (L, tt), w')
        /\ _delete_dst fuel path files remote dry w = (Ok tt, w')
        /\ (forall k n, reach (side remote w) path k ->
                        side remote w !! k = Some n ->
                        exists st, (kind_of_node n, k, st) ∈ L)
        /\ (forall l1 d st l2,
               L = l1 ++ ("dir", d, st) :: l2 ->
               (if remote then st = None else is_Some st)
               /\ forall k n, reach (side remote w) d k ->
                              side remote w !! k = Some n ->
                              exists st', (kind_of_node n, k, st') ∈ l1)
        /\ (dry = false ->
            forall d nd,
              reach (side remote w) path d -> side remote w !! d = Some nd ->
              S_ISDIR (n_mode nd) = true -> ~ listed files nd d ->
              (forall name m,
                  valid_name name = true ->
                  side remote w !! os_path.join d name = Some m ->
                  S_ISDIR (n_mode m) = false
                  /\ ~ listed files m (os_path.join d name)) ->
              side remote w' !! d = None
              /\ forall name, valid_name name = true ->
                              side remote w' !! os_path.join d name = None))
  /\ (forall (W : Type) (HW : Host W) (Acc : Type),
         (forall w p l, sftp_listdir_attr p w = Ok l ->
                        names_ok (map filename l)) ->
         forall fuel path (body : entry -> Acc -> M W Acc) acc w L acc' w',
           _walk_remote fuel path false (collect body) ([], acc) w
           = (Ok (L, acc'), w') ->
           forall l1 d st l2,
             L = l1 ++ ("dir", d, st) :: l2 ->
             st = None /\ Forall (fun e => ~ below d (path_of e)) l2)
  /\ (let w' := snd (_delete_dst 8 "/c/d" dst_list0 true false stale_world) in
      calls w' = [call_sftp_remove "/c/d/old/f"; call_sftp_rmdir "/c/d/old"]
      /\ map_to_list (remote_fs w')
         = [("/c/d", dir_node 1); ("/c", dir_node 1)])
  /\ (let w' := snd (_delete_dst 8 "/c/d" dst_list0 false false stale_local) in
      calls w' = [call_os_remove "/c/d/old/f"; call_os_rmdir "/c/d/old"]
      /\ map_to_list (local_fs w')
         = [("/c/d", dir_node 1); ("/c", dir_node 1)]).
Proof.
  assert (Hgen : forall (W : Type) (HW : Host W) (Acc : Type),
             (forall w p l, sftp_listdir_attr p w = Ok l ->
                            names_ok (map filename l)) ->
             forall fuel path (body : entry -> Acc -> M W Acc) acc w L acc' w',
               _walk_remote fuel path false (collect body) ([], acc) w
               = (Ok (L, acc'), w') ->
               forall l1 d st l2,
                 L = l1 ++ ("dir", d, st) :: l2 ->
                 st = None /\ Forall (fun e => ~ below d (path_of e)) l2).
  { intros W HW Acc Hlist fuel path body acc w L acc' w' Hrun l1 d st l2 HL.
    destruct (walk_remote_yields false body Hlist fuel _ _ _ _ _ Hrun)
      as (L' & HL' & _ & _ & Hbu).
    simpl in HL'. subst L'.
    eapply bottom_up_split; [apply Hbu; reflexivity | exact HL]. }
  split; [|split; [exact Hgen | split; vm_compute; split; reflexivity]].
  intros fuel path files remote dry lf ld w Hlf Hld Hsh.
  destruct (delete_dst_model remote dry files lf ld fuel path w Hlf Hld Hsh)
    as (L & w' & Hrun & Hd & Hv & _).
  exists L, w'. split; [exact Hrun|]. split; [exact Hd|].
  split; [exact (v_complete _ _ _ _ _ _ Hv)|]. split.
  - intros l1 d st l2 HL. split.
    + destruct remote; unfold _walk in Hrun.
      * exact (proj1 (Hgen world world_host unit (proj1 world_listings_ok)
                        fuel path _ tt w L tt w' Hrun l1 d st l2 HL)).
      * pose proof (walk_local_stats
                      (fun e _ => _delete_dst_body false dry files e)
                      fuel path false [] tt w ltac:(constructor)) as Hs.
        rewrite Hrun in Hs. rewrite HL in Hs.
        apply Forall_app in Hs as [_ Hs]. apply Forall_cons in Hs as [Hs _].
        exact Hs.
    + pose proof (v_first _ _ _ _ _ _ Hv) as Hf. rewrite HL in Hf.
      exact (subtree_first_split _ _ _ _ _ Hf eq_refl).
  - intros -> d nd Hr Hn Hdir Hnl Hch.
    pose proof (v_touched _ _ _ _ _ _ Hv) as Ht.
    pose proof (v_fate _ _ _ _ _ _ Hv eq_refl) as Hfate.
    assert (Hem : forall name, valid_name name = true ->
                    side remote w' !! os_path.join d name = None).
    { intros name Hv'.
      destruct (side remote w !! os_path.join d name) as [m|] eqn:Em.
      - destruct (Hch name m Hv' Em) as [Hfile Hnlm].
        apply (Hfate _ m Em). split; [|split].
        + exact (reach_step _ _ d name nd Hr Hn Hdir Hv').
        + exact Hnlm.
        + intros Hm. congruence.
      - destruct (Ht (os_path.join d name)) as [E | [_ E]];
          [congruence | exact E]. }
    split; [|exact Hem].
    apply (Hfate d nd Hn). split; [exact Hr|]. split; [exact Hnl|].
    intros _. exact Hem.
Qed.

Lemma bottom_up_walk_order_witness :
  dst_list0 !! "file" = Some [] /\ dst_list0 !! "dir" = Some []
  /\ shallow 12 (side false stale_local) = true
  /\ exists L w',
       _walk 12 "/c/d" false false
         (collect (fun e _ => _delete_dst_body false false dst_list0 e))
         ([], tt) stale_local = (Ok (L, tt), w')
       /\ _delete_dst 12 "/c/d" dst_list0 false false stale_local
          = (Ok tt, w')
       /\ (forall k n, reach (side false stale_local) "/c/d" k ->
                       side false stale_local !! k = Some n ->
                       exists st, (kind_of_node n, k, st) ∈ L)
       /\ (forall l1 d st l2,
              L = l1 ++ ("dir", d, st) :: l2 ->
              is_Some st
              /\ forall k n, reach (side false stale_local) d k ->
                             side false stale_local !! k = Some n ->
                             exists st', (kind_of_node n, k, st') ∈ l1)
       /\ (false = false ->
           forall d nd,
             reach (side false stale_local) "/c/d" d ->
             side false stale_local !! d = Some nd ->
             S_ISDIR (n_mode nd) = true -> ~ listed dst_list0 nd d ->
             (forall name m,
                 valid_name name = true ->
                 side false stale_local !! os_path.join d name = Some m ->
                 S_ISDIR (n_mode m) = false
                 /\ ~ listed dst_list0 m (os_path.join d name)) ->
             side false w' !! d = None
             /\ forall name, valid_name name = true ->
                             side false w' !! os_path.join d name = None).
Proof.
  split; [reflexivity|]. split; [reflexivity|].
  split; [vm_compute; reflexivity|].
  exact (proj1 bottom_up_walk_order 12%nat "/c/d" dst_list0 false false [] []
           stale_local eq_refl eq_refl eq_refl).
Defined.

(** ** Two runs in succession *)




(** ** Order of the top-down walk *)

Lemma top_down_mono (root root' : string) (L seen seen' : list entry) :
  (forall e, e ∈ seen -> e ∈ seen') ->
  (root = root' \/ exists st, ("dir", root, st) ∈ seen') ->
  top_down root seen L -> top_down root' seen' L.
Proof.
  revert seen seen'. induction L as [|e L IH]; intros seen seen' Hs Hr; simpl;
    [auto|].
  intros [(Hst & d & name & Hv & Hp & Hd) HL]. split.
  - split; [exact Hst|]. exists d, name. split; [exact Hv|].
    split; [exact Hp|]. destruct Hd as [-> | (st & Hin)].
    + destruct Hr as [<- | Hr]; [left; reflexivity | right; exact Hr].
    + right. exists st. apply Hs, Hin.
  - apply (IH (seen ++ [e]) (seen' ++ [e])); [| |exact HL].
    + intros x Hx. apply elem_of_app in Hx as [Hx|Hx];
        apply elem_of_app; [left; apply Hs, Hx | right; exact Hx].
    + destruct Hr as [-> | (st & Hin)]; [left; reflexivity|].
      right. exists st. apply elem_of_app. left. exact Hin.
Qed.

Lemma top_down_app (root : string) (L1 L2 seen : list entry) :
  top_down root seen L1 -> top_down root (seen ++ L1) L2 ->
  top_down root seen (L1 ++ L2).
Proof.
  revert seen. induction L1 as [|e L1 IH]; intros seen; simpl.
  - rewrite app_nil_r. auto.
  - intros [He H1] H2. split; [exact He|]. apply IH; [exact H1|].
    rewrite <- app_assoc. exact H2.
Qed.

Lemma top_down_more (root : string) (L seen more : list entry) :
  top_down root seen L -> top_down root (seen ++ more) L.
Proof.
  apply top_down_mono; [|left; reflexivity].
  intros e He. apply elem_of_app. left. exact He.
Qed.

Lemma top_down_split (root : string) (l1 l2 seen : list entry) (e : entry) :
  top_down root seen (l1 ++ e :: l2) -> placed root (seen ++ l1) e.
Proof.
  revert seen. induction l1 as [|x l1 IH]; intros seen; simpl.
  - rewrite app_nil_r. intros [He _]. exact He.
  - intros [_ HL]. apply IH in HL. rewrite <- app_assoc in HL. exact HL.
Qed.

Lemma top_down_child (root k name : string) (s : stat_result)
    (seen : list entry) :
  valid_name name = true ->
  placed root seen (k, os_path.join root name, Some s).
Proof.
  intros Hv. split; [eexists; reflexivity|]. exists root, name. auto.
Qed.

Section TopDown.
Context {W : Type} `{Host W} {Acc : Type}.
Variable body : entry -> Acc -> M W Acc.

(** The loop over a listing of the remote walker, top-down. *)
Lemma remote_loop_top_down
    (recurse : string -> list entry * Acc -> M W (list entry * Acc))
    (path : string) :
  (forall file st w st' w',
      recurse file st w = (Ok st', w') ->
      exists L, fst st' = fst st ++ L /\ top_down file [] L) ->
  forall l, Forall (fun s => valid_name (filename s) = true) l ->
  forall st w st' w',
    for_each l (walk_remote_step recurse path true (collect body)) st w
    = (Ok st', w') ->
    exists L, fst st' = fst st ++ L /\ top_down path [] L.
Proof.
  intros Hrec. induction l as [|s l IH]; intros Hval st w st' w'; simpl.
  - unfold ret. intros [= <- _]. exists []. rewrite app_nil_r.
    split; [reflexivity | exact Logic.I].
  - apply Forall_cons in Hval as [Hv Hval]. unfold bind at 1.
    destruct (walk_remote_step recurse path true (collect body) s st w)
      as [[st1|x] w1] eqn:Es; [|discriminate].
    intros Hrest. destruct (IH Hval _ _ _ _ Hrest) as (Lr & HLr & Hr).
    assert (Hs : exists Ls, fst st1 = fst st ++ Ls /\ top_down path [] Ls).
    { unfold walk_remote_step in Es.
      destruct (negb (S_ISDIR (st_mode s))).
      - exists [("file", os_path.join path (filename s), Some s)].
        split; [exact (collect_Ok _ _ _ _ _ _ Es)|].
        split; [apply top_down_child, Hv | exact Logic.I].
      - unfold bind in Es.
        destruct (collect body ("dir", os_path.join path (filename s), Some s)
                    st w) as [[st0|x] w0] eqn:Ec; [|discriminate].
        apply collect_Ok in Ec.
        destruct (Hrec _ _ _ _ _ Es) as (L' & HL' & Htd).
        exists (("dir", os_path.join path (filename s), Some s) :: L').
        split.
        + rewrite HL', Ec, <- app_assoc. reflexivity.
        + split; [apply top_down_child, Hv|].
          eapply (top_down_mono _ _ _ []);
            [intros e He; inversion He | | exact Htd].
          right. exists (Some s). apply list_elem_of_here. }
    destruct Hs as (Ls & HLs & Hs).
    exists (Ls ++ Lr). split; [rewrite HLr, HLs, app_assoc; reflexivity|].
    apply top_down_app; [exact Hs|]. apply (top_down_more _ _ [] Ls Hr).
Qed.

Lemma walk_remote_top_down :
  (forall w p l, sftp_listdir_attr p w = Ok l ->
                 Forall (fun s => valid_name (filename s) = true) l) ->
  forall fuel path st w st' w',
    _walk_remote fuel path true (collect body) st w = (Ok st', w') ->
    exists L, fst st' = fst st ++ L /\ top_down path [] L.
Proof.
  intros Hlist. induction fuel as [|fuel IH]; intros path st w st' w'; simpl.
  - discriminate.
  - unfold bind at 1, read.
    destruct (listdir_or_empty path w) as [l|x] eqn:El; [|discriminate].
    apply (remote_loop_top_down _ path IH).
    destruct (listdir_or_empty_Ok _ _ _ El) as [Hl | ->];
      [eapply Hlist; eauto | constructor].
Qed.

(** The entries that the local walker yields for one kind of names of a
    directory. *)
Lemma local_names_top_down (k root : string) (names : list string) :
  Forall (fun name => valid_name name = true) names ->
  forall st w st' w',
    for_each names (fun name acc =>
      bind (read (os_stat (os_path.join root name)))
        (fun s => collect body (k, os_path.join root name, Some s) acc))
      st w = (Ok st', w') ->
    exists L, fst st' = fst st ++ L
              /\ (forall seen, top_down root seen L)
              /\ forall name, name ∈ names ->
                   exists s, (k, os_path.join root name, s) ∈ L.
Proof.
  induction names as [|name names IH]; intros Hval st w st' w'; simpl.
  - unfold ret. intros [= <- _]. exists []. rewrite app_nil_r.
    split; [reflexivity|]. split; [intros; exact Logic.I|].
    intros name Hin. inversion Hin.
  - apply Forall_cons in Hval as [Hv Hval]. unfold bind at 1.
    destruct (bind (read (os_stat (os_path.join root name)))
                (fun s => collect body (k, os_path.join root name, Some s) st)
                w) as [[st1|x] w1] eqn:Es; [|discriminate].
    intros Hrest. destruct (IH Hval _ _ _ _ Hrest) as (Lr & HLr & Hr & Hin).
    unfold bind, read in Es.
    destruct (os_stat (os_path.join root name) w) as [s|x]; [|discriminate].
    apply collect_Ok in Es.
    exists ((k, os_path.join root name, Some s) :: Lr).
    split; [rewrite HLr, Es, <- app_assoc; reflexivity|]. split.
    + intros seen. split; [apply top_down_child, Hv | apply Hr].
    + intros n Hn. apply elem_of_cons in Hn as [-> | Hn].
      * exists (Some s). apply list_elem_of_here.
      * destruct (Hin n Hn) as (s' & Hs'). exists s'.
        apply list_elem_of_further, Hs'.
Qed.

(** The descent of [os.walk] into the directories [ds] of [top], each of
    them yielded before. *)
Lemma local_descent_top_down
    (recurse : string -> list entry * Acc -> M W (list entry * Acc))
    (top : string) (seen : list entry) :
  (forall d st w st' w',
      recurse d st w = (Ok st', w') ->
      exists L, fst st' = fst st ++ L /\ top_down d [] L) ->
  forall ds,
    (forall d, d ∈ ds -> exists s, ("dir", os_path.join top d, s) ∈ seen) ->
    forall st w st' w',
      for_each ds (fun d acc => recurse (os_path.join top d) acc) st w
      = (Ok st', w') ->
      exists L, fst st' = fst st ++ L /\ top_down top seen L.
Proof.
  intros Hrec. induction ds as [|d ds IH]; intros Hseen st w st' w'; simpl.
  - unfold ret. intros [= <- _]. exists []. rewrite app_nil_r.
    split; [reflexivity | exact Logic.I].
  - unfold bind at 1.
    destruct (recurse (os_path.join top d) st w) as [[st1|x] w1] eqn:Ed;
      [|discriminate].
    intros Hrest.
    destruct (Hrec _ _ _ _ _ Ed) as (Ld & HLd & Hd).
    destruct (IH (fun d' Hd' => Hseen d' (list_elem_of_further _ _ _ Hd'))
                _ _ _ _ Hrest) as (Lr & HLr & Hr).
    exists (Ld ++ Lr). split; [rewrite HLr, HLd, app_assoc; reflexivity|].
    apply top_down_app; [|apply top_down_more, Hr].
    eapply (top_down_mono _ _ _ []);
      [intros e He; inversion He | | exact Hd].
    right. apply Hseen, list_elem_of_here.
Qed.

Lemma walk_local_top_down :
  (forall w p l, os_scandir p w = Ok l ->
                 Forall (fun x => valid_name (fst x) = true) l) ->
  forall fuel path st w st' w',
    _walk_local fuel path true (collect body) st w = (Ok st', w') ->
    exists L, fst st' = fst st ++ L /\ top_down path [] L.
Proof.
  intros Hscan. unfold _walk_local.
  induction fuel as [|fuel IH]; intros top st w st' w'; simpl.
  - discriminate.
  - destruct (os_scandir top w) as [l|x] eqn:El.
    2:{ destruct (is_IOError x); [|discriminate].
        intros [= <- _]. exists []. rewrite app_nil_r.
        split; [reflexivity | exact Logic.I]. }
    pose proof (Hscan _ _ _ El) as Hval.
    set (dirs := map fst (List.filter snd l)).
    set (nondirs := map fst (List.filter (fun e => negb (snd e)) l)).
    assert (Hdirs : Forall (fun name => valid_name name = true) dirs).
    { apply Forall_forall. intros n Hn.
      apply list_elem_of_In, in_map_iff in Hn as (x & <- & Hx).
      apply filter_In in Hx as [Hx _]. rewrite Forall_forall in Hval.
      apply Hval, list_elem_of_In, Hx. }
    assert (Hnondirs : Forall (fun name => valid_name name = true) nondirs).
    { apply Forall_forall. intros n Hn.
      apply list_elem_of_In, in_map_iff in Hn as (x & <- & Hx).
      apply filter_In in Hx as [Hx _]. rewrite Forall_forall in Hval.
      apply Hval, list_elem_of_In, Hx. }
    unfold bind at 1.
    match goal with |- context [bind ?m1 ?m2 w] =>
      destruct (bind m1 m2 w) as [[st1|x] w1] eqn:Eb end; [|discriminate].
    intros Hrest. unfold bind at 1 in Eb.
    match type of Eb with context [for_each nondirs ?f st w] =>
      destruct (for_each nondirs f st w) as [[st0|x] w0] eqn:Ef end;
      [|discriminate].
    destruct (local_names_top_down "file" top nondirs Hnondirs _ _ _ _ Ef)
      as (Lf & HLf & Hf & _).
    destruct (local_names_top_down "dir" top dirs Hdirs _ _ _ _ Eb)
      as (Ldr & HLdr & Hdr & Hin).
    destruct (local_descent_top_down _ top (Lf ++ Ldr) IH dirs) with
      (st := st1) (w := w1) (st' := st') (w' := w') as (L & HL & Htd).
    + intros d Hd. destruct (Hin d Hd) as (s & Hs). exists s.
      apply elem_of_app. right. exact Hs.
    + exact Hrest.
    + exists ((Lf ++ Ldr) ++ L).
      split; [rewrite HL, HLdr, HLf, !app_assoc; reflexivity|].
      apply top_down_app; [|exact Htd].
      apply top_down_app; [apply Hf | apply Hdr].
Qed.

End TopDown.

(** X17. The order of a top-down walk, for both walkers, on every host
    whose listings hold file names, and whatever the loop does between the
    yields: every entry given to the loop carries a stat, and its path is
    [os.path.join(d, name)] for a file name [name] and a directory [d] that
    is the walked root or the path of a ['dir'] entry given to the loop
    before it.  So the loop of [sync] has returned from the directory that
    holds an entry before it is given the entry. *)
Theorem top_down_walk_parents_first :
  forall (W : Type) (HW : Host W) (Acc : Type),
    (forall w p l, sftp_listdir_attr p w = Ok l ->
                   Forall (fun s => valid_name (filename s) = true) l) ->
    (forall w p l, os_scandir p w = Ok l ->
                   Forall (fun x => valid_name (fst x) = true) l) ->
    forall fuel root remote (body : entry -> Acc -> M W Acc) acc w L acc' w',
      _walk fuel root true remote (collect body) ([], acc) w
      = (Ok (L, acc'), w') ->
      forall l1 e l2,
        L = l1 ++ e :: l2 ->
        is_Some (snd e)
        /\ exists d name,
             valid_name name = true
             /\ path_of e = os_path.join d name
             /\ (d = root \/ exists st, ("dir", d, st) ∈ l1).
Proof.
  intros W HW Acc Hr Hl fuel root remote body acc w L acc' w' Hrun l1 e l2 HL.
  assert (Htd : top_down root [] L).
  { unfold _walk in Hrun. destruct remote.
    - destruct (walk_remote_top_down body Hr _ _ _ _ _ _ Hrun)
        as (L' & HL' & Htd). simpl in HL'. subst L'. exact Htd.
    - destruct (walk_local_top_down body Hl _ _ _ _ _ _ Hrun)
        as (L' & HL' & Htd). simpl in HL'. subst L'. exact Htd. }
  subst L. exact (top_down_split _ _ _ _ _ Htd).
Qed.

Lemma top_down_walk_parents_first_witness :
  _walk 8 "/c/d" true true (collect idle) ([], tt) stale_world
  = (Ok ([("dir", "/c/d/old", Some (stat_of "old" (dir_node 1)));
          ("file", "/c/d/old/f", Some (stat_of "f" (file_node 4 1)))], tt),
     stale_world)
  /\ is_Some (snd ("file", "/c/d/old/f", Some (stat_of "f" (file_node 4 1))))
  /\ exists d name,
       valid_name name = true
       /\ "/c/d/old/f" = os_path.join d name
       /\ (d = "/c/d"
           \/ exists st,
                ("dir", d, st)
                ∈ [("dir", "/c/d/old", Some (stat_of "old" (dir_node 1)))]).
Proof.
  assert (Hrun : _walk 8 "/c/d" true true (collect idle) ([], tt) stale_world
                 = (Ok ([("dir", "/c/d/old",
                          Some (stat_of "old" (dir_node 1)));
                         ("file", "/c/d/old/f",
                          Some (stat_of "f" (file_node 4 1)))], tt),
                    stale_world)) by (vm_compute; reflexivity).
  split; [exact Hrun|].
  exact (top_down_walk_parents_first world world_host unit
           world_listdir_valid world_scandir_valid 8%nat "/c/d" true idle tt
           stale_world _ tt stale_world Hrun
           [("dir", "/c/d/old", Some (stat_of "old" (dir_node 1)))]
           ("file", "/c/d/old/f", Some (stat_of "f" (file_node 4 1))) []
           eq_refl).
Defined.
